(* ===== verification/_CoqProject ===== *)
-Q . S2P
Prelude.v
Bytes.v
Encoding.v
GoFloat.v
GoFmt.v
Sign.v
Lineage.v
Context.v
Pipeline.v
Runner.v
Defaults.v
RunnerSpec.v
RunnerLive.v
RunnerTypes.v
RunnerFrame.v
RunnerLineage.v
BoundCheck.v
Onion.v
Anon.v
Hub.v
Stores.v
LogFan.v
Service.v
Serve.v
Auth.v
CGo.v
Bridge.v
BridgeFold.v
BridgeFoldSpec.v
BridgeEval.v
BridgeFuse.v
BridgeSmoke.v
BridgeUnion.v
BridgeSafety.v
UnionSchedules.v
Helper.v
HelperClient.v
Calib.v
HelperSpec.v
HelperMain.v
Apps.v
Voting.v
Auction.v
RideShare.v
Cohort.v
Admission.v
Triggers.v
Startup.v
Fusion.v
AuctionRun.v
