(* ===== verification/Prelude.v ===== *)
(** * ARES Core: a verification library

    ARES Core (Go, under src/) composes multi-party protocol phases into a
    session state machine, carries their messages over WebSockets, binds every
    payload to a signed, content-addressed lineage graph, and reaches OpenFHE
    through a cgo bridge, in the process or in a helper beside it.  This library
    models that program as Rocq functions and proves what it promises.

    ** How the program fits together

    An application composes a list of phases ([phase.Compose], or
    [phase.ComposeWith] with a signer and peer verifiers) into a session
    runner.  The runner tracks one context and one current phase per session;
    [BeginSession] enters the first phase, [HandleMessage] delivers a message to
    the current phase and, when the phase is complete, exits it, commits its
    outputs to the lineage store and enters the next one, cascading through
    phases that wait for nothing.  [HandleLineageMessage] verifies a signed node
    first.  The transport authenticates clients, filters replays, limits rates
    and hands each frame to the runner; artifacts, events and logs are kept
    beside it.  The shipped phases and those of the example applications are
    ordinary clients of the same interface.  A phase that computes on
    ciphertexts asks the helper process over a pipe, and the helper calls the
    bridge, which is Go code over C handles.

    ** Files, in dependency order

    The framework:
    - [Prelude]: Go errors, the outcome of a call (a value, an error or a panic)
      with its state-passing monad, loops, invariants of steps, map and list
      lemmas, the hint database [ares].
    - [Bytes], [Encoding]: byte strings, hexadecimal, executable SHA-256 and
      HMAC; base64 and UTF-8.
    - [GoFloat], [GoFmt]: binary64 arithmetic on the Standard Library's
      specification floats, dynamic values and their [%v] text.
    - [Sign] (pkg/ares/sign): the signer interface with its laws; Ed25519.
    - [Lineage] (pkg/ares/lineage): nodes, canonical hash, Commit, Verify, the
      JSON form, the [Store] class with [StoreLaws], the in-memory store.
    - [Context], [Pipeline] (pkg/ares/phase): the context bag and accumulator;
      the [Phase] record, [Compose] and [ComposeWith].
    - [Runner]: every session operation; its correctness in [RunnerSpec],
      [RunnerLive] (a session ends), [RunnerTypes] (schemas hold at run time),
      [RunnerFrame] (what hooks keep and what calls on a session change) and
      [RunnerLineage].
    - [Defaults] (phase/defaults, phase/keygen): the shipped phases and key
      topologies.
    - [BoundCheck] (phase/boundcheck): the bound-check round.
    - [Onion] (pkg/ares/onion), [Anon] (phase/anon): slot permutation, ECIES,
      onions, and the phases of the anonymous shuffle.
    - [Hub], [Stores], [LogFan], [Service], [Serve] (pkg/ares/transport): the
      WebSocket hub; the artifact store, event and log rings; the live
      subscribers of the log; configuration, dispatch, trigger and HTTP handlers;
      the routes, and a running service as an interleaving of requests, frames,
      writes, disconnections and sweeps ([Serve.Run]).
    - [Auth] (pkg/ares/authclient): credentials and their handlers.

    The homomorphic backend:
    - [CGo]: the C boundary, a heap of handles over an arbitrary library.
    - [Bridge], [BridgeFold], [BridgeEval], [BridgeFuse], [BridgeSmoke],
      [BridgeUnion] (pkg/ares/crypto/cgo): contexts and keys, the combination of
      evaluation keys, evaluation and decryption, payload fusion, the smoke test
      with the measurements and the plain scoring, the union of comparators;
      [BridgeFoldSpec], [BridgeSafety] and [UnionSchedules]: their correctness.
    - [Helper], [HelperMain] (cmd/openfhe-contract-helper), [HelperClient]
      (crypto/helperclient), [HelperSpec]: the helper process and its command
      line, its client, and that both together do what the bridge does.
    - [Calib] (crypto/fhecalib, crypto/bfv, crypto/profiles): calibration of the
      circuit depth, integer encodings and parameter profiles.

    The applications (examples/):
    - [Apps]: the hooks they share (collection, key generation, decryption).
    - [Voting], [Auction], [RideShare], [Cohort], [Admission]: the phases and
      pipelines of voting, sealed_bid_auction, ride_share,
      recurring_cohort_ranking and bounded_admission.
    - [Triggers] (cmd/session-service of each): how a service starts a session
      from a request, and its message dispatch.
    - [Startup]: what the [main] of each service builds from its environment, and
      what holds of every run of it.
    - [Fusion]: the validated scoring of encrypted_input_ranking over the bridge,
      and the blind and light payload examples.
    - [AuctionRun]: the layers together, from the request to the settlement.

    ** What the theorems show

    - Composition: [Compose] accepts exactly the valid pipelines and returns
      exactly their tables ([Pipeline.Compose_iff]); [ComposeWith_iff] adds the
      signer.  Key topologies are not interchangeable under threshold decryption
      ([Defaults.topology_not_substitutable]).  Every example's pipeline is
      accepted.
    - Sessions, by rule induction over every sequence of operations and for
      phases whose hooks may do anything, errors and panics included: a
      session is always at the entry state of its current phase or finished
      ([session_position_invariant]); operations touch their own session only
      and move it forward only ([session_isolated_forward]); exactly when a
      message returns without error, with [OnMessage] of the current phase called
      on it and the cascade spelled out hook by hook ([HandleMessage_Ok]);
      [AdvanceToState] is the exact sequence of
      transitions ([AdvanceToState_transits]); the hop caps are never reached on
      an acyclic chain ([hop_limit_unreachable]); under a fair schedule of
      accepted messages a session finishes ([session_finishes]); the keys a
      phase requires hold values of the required types whenever it is current
      ([required_keys_typed]).
    - Lineage: what [Commit] signs, [Verify] accepts, and the exact condition of
      [Verify]; the node hash binds every field up to SHA-256 collisions; the
      in-memory store refines an append-only log; no phase runs on an inbound
      frame that does not verify ([HandleLineageMessage_gate]); the store stays
      closed under parents ([store_closed_invariant]); the auto-commit stores a
      verifying node per output ([auto_commit_spec]).
    - Bound check: the round is left exactly when everything is cleared, exactly
      the out-of-bound and withholding participants are reported, and the
      classification fails closed and never flags a value inside the bound,
      rounding included.
    - Anonymous slots: the permutation is one, its rejection sampling is
      unbiased; the onion gossip is total and lossless in whatever order
      batches are forwarded; honest submissions assemble to the full slot
      list; the list does not depend on map order and its node has exactly the
      submission nodes as parents.
    - Transport: sequence numbers are accepted strictly increasing, none is
      dispatched twice, and each connection dispatches in order, however the
      pumps interleave ([dispatched_seq_increasing]); queues are bounded; the exact condition for a frame to be dispatched and what
      dispatch then does; content-addressed reads are authentic; rings refine
      logs; one log line is one server-sent event; a subscriber of the log misses
      no line while its channel has room ([subscriber_follows_log]); a request
      has one route ([mux_match_iff]).
    - Services: exactly which environments start one ([app_main_iff]); in every
      run of one, however its events interleave, each recorded frame is of a
      pseudonym that connected with the token of the secret
      ([app_frames_authentic]), and the sweeps of the timer are not seen
      ([app_sweeps_unseen]).
    - Credentials: the exact condition of [Verify]; a signature binds every
      claim up to HMAC collisions, for claims without zero bytes (with them,
      two different claims can carry the same signature).
    - Bridge: any sequence of the exported calls, on arguments that meet the
      conditions the predicate [BridgeSafety.exported] lists, releases what it
      creates and neither uses a dead object nor panics; the one exception,
      counted in the theorem, is the in-process argmin, which leaks ciphertexts
      when an encryption fails ([bridge_calls_release]).  The variants of the
      evaluation-key combination agree ([combineEvalSumPerIndexLazy_eager],
      [fold_session_combine]); a union run gives what each comparator gives
      alone, whatever its workers and their schedule, for a library with
      [FusionLaws] ([union_schedule_independent]);
      the checked cut of a blob accepts exactly what flattening produces
      ([cut_checked_iff]).
    - Helper: a program over the client of a live helper gives what the same
      program gives on the bridge ([helper_mirrors_bridge]), and key generation
      through the helper is the chain in the process ([KeygenChain_direct]).
    - Calibration: the sweep ends and reports the first depth that is close
      enough ([sweep_spec]); the reported error bounds every slot's that is a
      number ([maxSlotAbsError_bound]).
    - Applications, on every branch, errors and panics included: what a ballot
      ([ballot_outcome]: the ballots and the sums by choice), a bid
      ([bid_outcome]: the order of the bids), a partial decryption
      ([partial_outcome], [admission_outcome], [ride_outcome]: the fused price),
      an input ([input_outcome]) and a key share of a cohort
      ([formation_outcome]: the keys) do to a session; a week ranks
      under the keys of its cohort whatever happens to it
      ([week_ranks_under_cohort_keys]); how a request starts an auction
      ([auction_started]); when the challenge of an admission is handed to the hub,
      how often, and what can be lost or sent twice, over the interleavings of the
      hooks of several connections ([challenge_sent_once]); what the scoring of encrypted inputs refuses,
      calls and returns ([Score_outcome]); and an auction from the request to the
      settlement, through service, runner, helper and bridge
      ([AuctionRun.auction_runs]).

    The [Witnesses] and [Sample] modules run the definitions on concrete
    pipelines, messages and stores; their Examples also exhibit behaviours
    that surprise, such as a message to a finished session panicking.

    ** Conventions

    A mutex-protected call is one atomic step.  [Runner.deliver] and
    [Runner.advance] are separate so that two concurrent [HandleMessage] calls
    can be written as interleavings.  What the code does without a lock is split
    into steps where a theorem is about its order: the check of a frame and its
    dispatch ([Hub.checkFrame], [Hub.limitFrame]), and the check, the sends and
    the mark of the admission challenge ([Triggers.challenge_check] and the
    others).  [Serve], the machine of a whole service, takes an inbound frame with
    its handler and its hook as one step.  A call of the C library is one step; a
    concurrent union is an order of such calls.  A Go map is a [gmap] where only its
    content matters and a list where the code ranges over it: the list is then
    one of the orders Go may choose, or the order is a parameter that is any
    permutation.  Machine integers are [Z] or [N] with the wrap-around written
    out where the code can reach it; durations saturate as Go's do.

    Fuel stands for the code's own caps or for its unbounded loops.
    [advance_loop] and [walk_loop] are bounded by the number of phases plus one,
    which is the cap in the code itself and is shown to be enough.
    [Onion.reject] bounds the draws of one rejection loop, which the code does
    not; [Onion.SlotPermutation_spec] shows that it returns as soon as no step
    meets that many rejected draws in a row.  [Bridge.double_until] (the ring
    dimension) and [Bridge.powers_below] (rotation indices) double a machine
    integer: [double_until_iff] and [powers_below_from] say for which inputs the
    loop ends, and [double_until_diverges] that on the others it does not, with
    any fuel.  [Calib.sweep] is bounded by the number of depths,
    which is enough by [sweep_spec]; [sweep_diverges] is the case the code does
    not end.

    ** Parameters, and what is left out

    crypto/ed25519, X25519, HKDF, AES-GCM, OpenFHE, JSON text, the clock and
    the random source are parameters; what is relied on of them is stated as
    the laws of a class or record, or as a named hypothesis, and instantiated by
    a toy implementation in the witnesses.  SHA-256, HMAC, base64 and UTF-8 are
    executable.

    Not modelled: sockets, the parsing of HTTP and the heartbeat of a
    connection, logging, and the signal that ends a service ([EvDone] is its
    effect), which are input and output; the OpenFHE build of bounded
    admission's [BuildSessionCrypto], which is a parameter of
    [Triggers.admission_Start] and hands out functions that close over the
    bridge. *)

From Stdlib Require Import ZArith Lia String Ascii Strings.Byte.
From stdpp Require Import base gmap list strings.

(** ** Go errors

    An [error] value is one of the sentinels made by [errors.New], one of the
    two typed errors of the repository, or the result of [fmt.Errorf], kept as
    the sequence of its literal/argument text and its [%w] operands, so that
    both [errors.Is] and the rendered text are computable. *)

#[warnings="-register-all"]
Inductive GoError :=
| ErrorsNew (msg : string)
| MismatchError (Field : string) (Expected Got NodeHash : list byte)
| MissingContextError (Key Phase : string)
| Errorf (parts : list (string + GoError)).

(** Literal text and [%w] operands of a format string. *)
Definition T (s : string) : string + GoError := inl s.
Definition W (e : GoError) : string + GoError := inr e.

(** [%q] of a plain identifier: the text between double quotes. *)
Definition dquote : string := String (ascii_of_nat 34) EmptyString.
Definition Q (s : string) : string + GoError := inl (dquote +:+ s +:+ dquote)%string.

(** [errors.Is(e, errors.New-sentinel)]: the sentinel occurs in the tree of
    wrapped errors. *)
Fixpoint errors_Is (e : GoError) (sentinel : string) : bool :=
  match e with
  | ErrorsNew m => String.eqb m sentinel
  | MismatchError _ _ _ _ | MissingContextError _ _ => false
  | Errorf ps =>
      existsb (fun p => match p with inl _ => false | inr e' => errors_Is e' sentinel end) ps
  end.

(** ** The effect of a Go function

    A call returns a value, returns a non-nil error, or panics.  Whatever it
    does, the mutations it made before stay: the state is threaded through all
    three outcomes. *)

Inductive Outcome (A : Type) :=
| Ok (a : A)
| Err (e : GoError)
| Panic (why : string).
Arguments Ok {A} _.
Arguments Err {A} _.
Arguments Panic {A} _.

Definition M (S A : Type) : Type := S -> Outcome A * S.

Definition ret {S A} (a : A) : M S A := fun s => (Ok a, s).
Definition throw {S A} (e : GoError) : M S A := fun s => (Err e, s).
Definition panic {S A} (why : string) : M S A := fun s => (Panic why, s).
Definition get {S} : M S S := fun s => (Ok s, s).
Definition modify {S} (f : S -> S) : M S unit := fun s => (Ok tt, f s).

Definition bind {S A B} (m : M S A) (k : A -> M S B) : M S B :=
  fun s => match m s with
           | (Ok a, s') => k a s'
           | (Err e, s') => (Err e, s')
           | (Panic w, s') => (Panic w, s')
           end.

(** [if err := m(); err != nil { return fmt.Errorf(..., err) }]: the error is
    rewrapped by [f]; a panic is not an error and passes through. *)
Definition wrap_err {S A} (f : GoError -> GoError) (m : M S A) : M S A :=
  fun s => match m s with
           | (Err e, s') => (Err (f e), s')
           | o => o
           end.

Declare Scope go_scope.
Delimit Scope go_scope with go.
Notation "'let!' x ':=' c 'in' k" := (bind c (fun x => k))
  (at level 10, x pattern, c at level 100, k at level 200) : go_scope.
Notation "c ';;;' k" := (bind c (fun _ => k))
  (at level 100, right associativity) : go_scope.
Open Scope go_scope.

(** [for _, x := range l { if err := body(x); err != nil { return err } }] *)
Fixpoint for_each {S A} (l : list A) (body : A -> M S unit) : M S unit :=
  match l with
  | [] => ret tt
  | x :: l' => body x ;;; for_each l' body
  end.

(** ** Lemmas and automation *)

Create HintDb ares.

Section Monad.
Context {S A B : Type}.

Lemma bind_Ok_inv (m : M S A) (k : A -> M S B) s b s' :
  bind m k s = (Ok b, s') ->
  exists a s1, m s = (Ok a, s1) /\ k a s1 = (Ok b, s').
Proof.
  unfold bind. destruct (m s) as [[a|e|w] s1]; intros H; try discriminate.
  eauto.
Qed.

Lemma bind_Ok_iff (m : M S A) (k : A -> M S B) s b s' :
  bind m k s = (Ok b, s') <-> exists a s1, m s = (Ok a, s1) /\ k a s1 = (Ok b, s').
Proof. split; [apply bind_Ok_inv|]. unfold bind. by intros (a & s1 & -> & ?). Qed.

Lemma bind_at (m : M S A) (k : A -> M S B) s :
  bind m k s = match m s with (Ok a, s') => k a s' | (Err e, s') => (Err e, s') | (Panic w, s') => (Panic w, s') end.
Proof. done. Qed.

Lemma bind_Ok (m : M S A) (k : A -> M S B) s a s1 :
  m s = (Ok a, s1) -> bind m k s = k a s1.
Proof. unfold bind. by intros ->. Qed.

(** An invariant of the state that [m] and every continuation keep is kept
    by the sequence, whatever the outcome. *)
Lemma bind_inv (I : S -> Prop) (m : M S A) (k : A -> M S B) s :
  (I s -> I (m s).2) -> (forall a s1, I s1 -> I (k a s1).2) ->
  I s -> I (bind m k s).2.
Proof.
  unfold bind. intros Hm Hk Hs. specialize (Hm Hs).
  destruct (m s) as [[a|e|w] s1]; simpl in *; auto.
Qed.

Lemma wrap_err_state (f : GoError -> GoError) (m : M S A) s :
  (wrap_err f m s).2 = (m s).2.
Proof. unfold wrap_err. by destruct (m s) as [[a|e|w] s1]. Qed.

Lemma wrap_err_Ok_inv (f : GoError -> GoError) (m : M S A) s a s' :
  wrap_err f m s = (Ok a, s') -> m s = (Ok a, s').
Proof. unfold wrap_err. destruct (m s) as [[x|e|w] s1]; congruence. Qed.

Lemma wrap_err_Ok (f : GoError -> GoError) (m : M S A) s a s' :
  m s = (Ok a, s') -> wrap_err f m s = (Ok a, s').
Proof. unfold wrap_err. by intros ->. Qed.
End Monad.

(** A call from the outcome it evaluates to. *)
Lemma outcome_of {A B} (x : A * B) (o : A) : x.1 = o -> x = (o, x.2).
Proof. intros <-. apply surjective_pairing. Qed.

(** [keeps I m]: [m] preserves [I] whatever its outcome. *)
Definition keeps {S A} (I : S -> Prop) (m : M S A) : Prop := forall s, I s -> I (m s).2.

Section Keeps.
Context {S : Type} (I : S -> Prop).

Lemma keeps_ret {A} (a : A) : keeps I (ret a).
Proof. by intros s Hs. Qed.
Lemma keeps_throw {A} e : keeps I (throw (A := A) e).
Proof. by intros s Hs. Qed.
Lemma keeps_panic {A} w : keeps I (panic (A := A) w).
Proof. by intros s Hs. Qed.
Lemma keeps_get : keeps I get.
Proof. by intros s Hs. Qed.
Lemma keeps_bind {A B} (m : M S A) (k : A -> M S B) :
  keeps I m -> (forall a, keeps I (k a)) -> keeps I (bind m k).
Proof. intros Hm Hk s. apply bind_inv; [apply Hm|intros a s1; apply Hk]. Qed.
Lemma keeps_wrap {A} f (m : M S A) : keeps I m -> keeps I (wrap_err f m).
Proof. intros Hm s Hs. rewrite wrap_err_state. by apply Hm. Qed.
Lemma keeps_if {A} (b : bool) (m1 m2 : M S A) :
  keeps I m1 -> keeps I m2 -> keeps I (if b then m1 else m2).
Proof. by destruct b. Qed.
End Keeps.

#[export] Hint Resolve keeps_ret keeps_throw keeps_panic keeps_get keeps_bind keeps_wrap keeps_if : ares.

(** ** Equality of calls up to the text of an error *)

Definition same_outcome {A} (o1 o2 : Outcome A) : Prop :=
  match o1, o2 with
  | Ok a, Ok b => a = b
  | Err _, Err _ => True
  | Panic _, Panic _ => True
  | _, _ => False
  end.

Definition same {S A} (m1 m2 : M S A) : Prop :=
  forall s, same_outcome (m1 s).1 (m2 s).1 /\ (m1 s).2 = (m2 s).2.
Infix "≅" := same (at level 70, no associativity) : go_scope.

#[export] Instance same_outcome_equiv {A} : Equivalence (@same_outcome A).
Proof.
  split.
  - by intros [a|e|w].
  - intros [a|e|w] [b|e'|w']; simpl; congruence.
  - intros [a|e|w] [b|e'|w'] [c|e''|w'']; simpl; try tauto; congruence.
Qed.

#[export] Instance same_equiv {S A} : Equivalence (@same S A).
Proof.
  split.
  - intros m s. split; reflexivity.
  - intros m1 m2 H s. destruct (H s). split; by symmetry.
  - intros m1 m2 m3 H1 H2 s. destruct (H1 s), (H2 s). split; etrans; eauto.
Qed.

Section Same.
Context {S A B : Type}.
Implicit Types (m : M S A).

Lemma same_Ok m1 m2 s a s' : m1 ≅ m2 -> m1 s = (Ok a, s') -> m2 s = (Ok a, s').
Proof.
  intros H E. destruct (H s) as [Ho Hs]. rewrite E in Ho, Hs. destruct (m2 s) as [[b|e|w] s2]; simpl in *; [|done..].
  by rewrite Ho, Hs.
Qed.

Lemma same_bind m1 m2 (k1 k2 : A -> M S B) :
  m1 ≅ m2 -> (forall a, k1 a ≅ k2 a) -> bind m1 k1 ≅ bind m2 k2.
Proof.
  intros Hm Hk s. destruct (Hm s) as [Ho Hs]. unfold bind.
  destruct (m1 s) as [[a|e|w] s1], (m2 s) as [[b|e'|w'] s2]; simpl in *; try done; subst; try done. apply Hk.
Qed.

Lemma same_wrap f m : wrap_err f m ≅ m.
Proof. intros s. unfold wrap_err. by destruct (m s) as [[a|e|w] s1]. Qed.

Lemma same_throw e1 e2 : throw e1 ≅ (throw e2 : M S A).
Proof. by intros s. Qed.

Lemma ret_bind (a : A) (k : A -> M S B) : bind (ret a) k = k a.
Proof. done. Qed.
Lemma throw_bind e (k : A -> M S B) s : bind (throw e) k s = (throw e : M S B) s.
Proof. done. Qed.
Lemma bind_ret m s : bind m ret s = m s.
Proof. unfold bind. by destruct (m s) as [[a|e|w] s1]. Qed.
End Same.

#[export] Instance bind_proper {S A B} : Proper (same ==> pointwise_relation A same ==> same) (@bind S A B).
Proof. intros m1 m2 Hm k1 k2 Hk. by apply same_bind. Qed.

Lemma for_each_inv {S A} (I : S -> Prop) (l : list A) (body : A -> M S unit) s :
  (forall x s1, x ∈ l -> I s1 -> I (body x s1).2) -> I s -> I (for_each l body s).2.
Proof.
  revert s. induction l as [|x l IH]; intros s Hb Hs; [done|].
  simpl. apply (bind_inv I); auto.
  - apply Hb. by left.
  - intros _ s1 Hs1. apply IH; auto. intros y s2 Hy. apply Hb. by right.
Qed.


(** Successive insertions, the last one for a key winning. *)
Definition insert_all {A} (l : list (string * A)) (m : gmap string A) : gmap string A :=
  foldl (fun m kv => <[kv.1 := kv.2]> m) m l.

Section InsertAll.
Context {A : Type}.
Implicit Types (l : list (string * A)) (m : gmap string A).

Lemma insert_all_app l1 l2 m : insert_all (l1 ++ l2) m = insert_all l2 (insert_all l1 m).
Proof. apply foldl_app. Qed.

Lemma insert_all_None l m k : insert_all l m !! k = None <-> k ∉ l.*1 /\ m !! k = None.
Proof.
  revert m. induction l as [|[j v] l IH]; intros m; [set_solver|].
  simpl. rewrite IH, lookup_insert_None, not_elem_of_cons. naive_solver.
Qed.

Lemma insert_all_Some_inv l m k v :
  insert_all l m !! k = Some v -> (k, v) ∈ l \/ m !! k = Some v.
Proof.
  revert m. induction l as [|[j w] l IH]; intros m H; [by right|].
  simpl in H. apply IH in H as [H|H]; [left; by right|].
  apply lookup_insert_Some in H as [[-> ->]|[_ H]]; [left; by left|by right].
Qed.

Lemma insert_all_NoDup l m k v :
  NoDup l.*1 -> (k, v) ∈ l -> insert_all l m !! k = Some v.
Proof.
  revert m. induction l as [|[j w] l IH]; intros m Hnd Hin; [set_solver|].
  apply NoDup_cons in Hnd as [Hj Hnd]. simpl.
  apply elem_of_cons in Hin as [[= -> ->]|Hin]; [|by apply IH].
  destruct (insert_all l (<[j := w]> m) !! j) as [u|] eqn:E.
  - apply insert_all_Some_inv in E as [E|E].
    + destruct Hj. apply list_elem_of_fmap. by exists (j, u).
    + by rewrite lookup_insert_eq in E.
  - apply insert_all_None in E as [_ E]. by rewrite lookup_insert_eq in E.
Qed.

Lemma insert_all_dom l m : dom (insert_all l m) = dom m ∪ list_to_set l.*1.
Proof.
  revert m. induction l as [|kv l IH]; intros m; [set_solver|].
  simpl. rewrite IH, dom_insert_L. set_solver.
Qed.
End InsertAll.

(** ** Lists *)

(** A list no element belongs to. *)
Lemma list_empty_elem {A} (l : list A) : (forall x, x ∉ l) -> l = [].
Proof. destruct l as [|x l]; [done|]. intros Hx. destruct (Hx x). by left. Qed.

(** A total [omap]. *)
Lemma omap_Forall2 {A B} (g : A -> option B) l k :
  Forall2 (fun s b => g s = Some b) l k -> omap g l = k.
Proof. induction 1 as [|x y l k Hx _ IH]; [done|]. simpl. rewrite Hx. f_equal. exact IH. Qed.

(** ** Text *)

Section Text.
Local Open Scope string_scope.

Lemma substring_prefix a b : substring 0 (String.length a) (a +:+ b) = a.
Proof. induction a as [|c a IH]; [by destruct b|]. simpl. by rewrite IH. Qed.

Lemma substring_all b : substring 0 (String.length b) b = b.
Proof. induction b as [|c b IH]; [done|]. simpl. by rewrite IH. Qed.

Lemma substring_suffix a b :
  substring (String.length a) (String.length b) (a +:+ b) = b.
Proof. induction a as [|c a IH]; [apply substring_all|]. exact IH. Qed.

Lemma substring_split n s : n <= String.length s ->
  s = substring 0 n s +:+ substring n (String.length s - n) s.
Proof.
  revert n. induction s as [|c s IH]; intros [|n] Hn; simpl in *; try done; try lia.
  - by rewrite substring_all.
  - change (String c s = String c (substring 0 n s +:+ substring n (String.length s - n) s)).
    f_equal. apply IH. lia.
Qed.

Lemma substring_0_length n s :
  n <= String.length s -> String.length (substring 0 n s) = n.
Proof.
  revert n. induction s as [|c s IH]; intros [|n] Hn; simpl in *; try done; try lia.
  rewrite IH; lia.
Qed.

Lemma string_length_app a b :
  String.length (a +:+ b) = String.length a + String.length b.
Proof. induction a as [|c a IH]; [done|]. simpl. by rewrite IH. Qed.
End Text.

(** ** First error of a sequence of checks *)

(** The first error of a loop whose body returns at the first failure. *)
Fixpoint first_error {A} (f : A -> option GoError) (l : list A) : option GoError :=
  match l with
  | [] => None
  | x :: l' => match f x with Some e => Some e | None => first_error f l' end
  end.

Lemma first_error_None {A} (f : A -> option GoError) l :
  first_error f l = None <-> forall x, x ∈ l -> f x = None.
Proof.
  induction l as [|x l IH]; simpl; [set_solver|].
  destruct (f x) eqn:E; [|rewrite IH].
  - split; [done|]. intros H. rewrite H in E by (by left). done.
  - set_solver.
Qed.

(** [checked P o s]: the step [o] succeeds in [s] when [P] holds, and fails
    with an error wrapping the sentinel [msg] when it does not. *)
Definition checked (msg : string) {St : Type} (P : Prop) (o : Outcome unit * St) (s : St) : Prop :=
  (P /\ o = (Ok tt, s)) \/
  (~ P /\ exists e s', o = (Err e, s') /\ errors_Is e msg = true).

Lemma checked_bind msg {St : Type} (P Q : Prop) (m k : M St unit) s s1 s2 :
  checked msg P (m s) s1 -> (P -> checked msg Q (k s1) s2) ->
  checked msg (P /\ Q) ((m ;;; k) s) s2.
Proof.
  intros [[HP Hm]|[HP (e & s' & Hm & He)]] Hk; unfold checked, bind; rewrite Hm.
  - destruct (Hk HP) as [[HQ ->]|[HQ H]]; [left|right]; naive_solver.
  - right. split; [tauto|]. eauto.
Qed.

Lemma checked_iff msg {St : Type} (P Q : Prop) (o : Outcome unit * St) s :
  (P <-> Q) -> checked msg P o s -> checked msg Q o s.
Proof. unfold checked. intuition. Qed.

#[export] Instance checked_proper msg {St : Type} :
  Proper (iff ==> eq ==> eq ==> iff) (checked msg (St := St)).
Proof.
  intros P Q HPQ o _ <- s _ <-. split; apply checked_iff; [done|by symmetry].
Qed.

(** Splits a successful sequence into its successful steps. *)
Ltac inv_bind :=
  repeat match goal with
  | H : bind _ _ _ = (Ok _, _) |- _ =>
      apply bind_Ok_inv in H; destruct H as (? & ? & ? & H)
  | H : wrap_err _ _ _ = (Ok _, _) |- _ => apply wrap_err_Ok_inv in H
  | H : ret _ _ = (Ok _, _) |- _ => unfold ret in H; injection H as ? ?; subst
  | H : modify _ _ = (Ok _, _) |- _ => unfold modify in H; injection H as ? ?; subst
  | H : get _ = (Ok _, _) |- _ => unfold get in H; injection H as ? ?; subst
  | H : throw _ _ = (Ok _, _) |- _ => discriminate H
  | H : panic _ _ = (Ok _, _) |- _ => discriminate H
  end.
