(* ===== verification/Bytes.v ===== *)
(** * Byte strings, big-endian integers, hexadecimal, SHA-256 and HMAC

    What the repository uses of Go's [encoding/binary], [encoding/hex],
    [crypto/sha256] and [crypto/hmac]: executable definitions, with the
    injectivity and length lemmas the components share. *)
From Stdlib Require Import ZArith NArith Lia String Ascii Strings.Byte.
From stdpp Require Import base gmap list strings.
From S2P Require Import Prelude.

(** A Go [[]byte] (and the bytes of a Go string). *)
Abbreviation bytes := (list byte).

#[export] Instance byte_eq_decision : EqDecision byte := Byte.byte_eq_dec.
#[export] Instance byte_countable : Countable byte :=
  inj_countable Byte.to_N Byte.of_N Byte.of_to_N.

(** [[]byte(s)] and [string(b)]. *)
Definition of_string (s : string) : bytes := list_byte_of_string s.
Definition to_string (b : bytes) : string := string_of_list_byte b.

Lemma to_of_string s : to_string (of_string s) = s.
Proof. apply string_of_list_byte_of_string. Qed.
Lemma of_to_string b : of_string (to_string b) = b.
Proof. apply list_byte_of_string_of_list_byte. Qed.
Lemma of_string_inj s t : of_string s = of_string t -> s = t.
Proof. intros H. rewrite <- (to_of_string s), H. apply to_of_string. Qed.

(** [byte(n)]: truncation to eight bits. *)
Definition byte_of_N (n : N) : byte :=
  match Byte.of_N (n mod 256) with Some b => b | None => x00 end.

Lemma byte_of_N_to_N n : Byte.to_N (byte_of_N n) = (n mod 256)%N.
Proof.
  unfold byte_of_N. destruct (Byte.of_N (n mod 256)) eqn:E.
  - by apply Byte.to_of_N.
  - exfalso. apply Byte.of_N_None_iff in E.
    pose proof (N.mod_lt n 256). lia.
Qed.

(** ** [binary.BigEndian.PutUint32] and [PutUint64] *)

Fixpoint be_bytes (k : nat) (n : N) : bytes :=
  match k with
  | O => []
  | S k' => be_bytes k' (n / 256) ++ [byte_of_N n]
  end.
Definition be32 (n : N) : bytes := be_bytes 4 n.
Definition be64 (n : N) : bytes := be_bytes 8 n.

(** Reading back, as [binary.BigEndian.Uint32] does. *)
Definition be_decode (b : bytes) : N :=
  foldl (fun acc x => (acc * 256 + Byte.to_N x)%N) 0%N b.

Lemma be_bytes_length k n : length (be_bytes k n) = k.
Proof. revert n. induction k; intros n; simpl; [done|]. rewrite length_app, IHk. simpl. lia. Qed.

Lemma be_decode_bytes k n :
  (n < 256 ^ N.of_nat k)%N -> be_decode (be_bytes k n) = n.
Proof.
  revert n. induction k as [|k IH]; intros n Hn; simpl.
  - unfold be_decode. simpl in *. lia.
  - unfold be_decode in *. rewrite foldl_app. simpl. rewrite IH.
    + rewrite byte_of_N_to_N. pose proof (N.div_mod n 256). lia.
    + apply N.Div0.div_lt_upper_bound. rewrite Nat2N.inj_succ, N.pow_succ_r' in Hn. lia.
Qed.

Lemma be_bytes_inj k n m :
  (n < 256 ^ N.of_nat k)%N -> (m < 256 ^ N.of_nat k)%N ->
  be_bytes k n = be_bytes k m -> n = m.
Proof.
  intros Hn Hm E. rewrite <- (be_decode_bytes k n Hn), E. by apply be_decode_bytes.
Qed.

(** ** [encoding/hex] *)

Definition hex_digit (n : N) : ascii :=
  if (n <? 10)%N then ascii_of_N (48 + n) else ascii_of_N (87 + n).

Fixpoint hex_encode (b : bytes) : string :=
  match b with
  | [] => EmptyString
  | x :: b' =>
      String (hex_digit (Byte.to_N x / 16)) (String (hex_digit (Byte.to_N x mod 16)) (hex_encode b'))
  end.

Definition from_hex_char (c : ascii) : option N :=
  let n := N_of_ascii c in
  if (48 <=? n)%N && (n <=? 57)%N then Some (n - 48)%N
  else if (97 <=? n)%N && (n <=? 102)%N then Some (n - 87)%N
  else if (65 <=? n)%N && (n <=? 70)%N then Some (n - 55)%N
  else None.

(** [hex.DecodeString]: [None] stands for its error (a bad digit or an odd
    length). *)
Fixpoint hex_decode (s : string) : option bytes :=
  match s with
  | EmptyString => Some []
  | String _ EmptyString => None
  | String c (String d s') =>
      match from_hex_char c, from_hex_char d, hex_decode s' with
      | Some a, Some b, Some r => Some (byte_of_N (16 * a + b) :: r)
      | _, _, _ => None
      end
  end.

Lemma hex_decode_encode b : hex_decode (hex_encode b) = Some b.
Proof.
  induction b as [|x b IH]; [done|].
  cbn -[N.div N.modulo byte_of_N from_hex_char hex_digit]. rewrite IH.
  by destruct x; vm_compute.
Qed.

Lemma hex_encode_inj a b : hex_encode a = hex_encode b -> a = b.
Proof. intros H. pose proof (hex_decode_encode a) as Ha. rewrite H, hex_decode_encode in Ha. congruence. Qed.

Lemma hex_encode_length b : String.length (hex_encode b) = 2 * length b.
Proof. induction b; simpl; [done|]. rewrite IHb. lia. Qed.

(** ** SHA-256 (FIPS 180-4), as [sha256.Sum256] computes it *)

Module Sha.
Open Scope N_scope.

Definition w32 (x : N) : N := N.land x 0xffffffff.
Definition add (x y : N) : N := w32 (x + y).
Definition rotr (n x : N) : N := N.lor (N.shiftr x n) (w32 (N.shiftl x (32 - n))).
Definition lnot (x : N) : N := N.lxor x 0xffffffff.
Definition ch (x y z : N) : N := N.lxor (N.land x y) (N.land (lnot x) z).
Definition maj (x y z : N) : N :=
  N.lxor (N.lxor (N.land x y) (N.land x z)) (N.land y z).
Definition bsig0 (x : N) : N := N.lxor (N.lxor (rotr 2 x) (rotr 13 x)) (rotr 22 x).
Definition bsig1 (x : N) : N := N.lxor (N.lxor (rotr 6 x) (rotr 11 x)) (rotr 25 x).
Definition ssig0 (x : N) : N := N.lxor (N.lxor (rotr 7 x) (rotr 18 x)) (N.shiftr x 3).
Definition ssig1 (x : N) : N := N.lxor (N.lxor (rotr 17 x) (rotr 19 x)) (N.shiftr x 10).

(** The constants are the first 32 bits of the fractional parts of the square
    and cube roots of the first primes. *)
Definition is_prime (n : N) : bool :=
  forallb (fun i => negb (n mod N.of_nat i =? 0)) (seq 2 (N.to_nat (N.sqrt n) - 1)).

(** The largest [r < 2^bits] with [r^3 <= x], bit by bit from the top. *)
Fixpoint cube_root (bits : nat) (r x : N) : N :=
  match bits with
  | O => r
  | S b =>
      let r' := r + 2 ^ N.of_nat b in
      cube_root b (if r' * r' * r' <=? x then r' else r) x
  end.

Definition sha_primes : list N :=
  Eval vm_compute in List.filter is_prime (List.map N.of_nat (seq 2 310)).
Definition k256 : list N :=
  Eval vm_compute in List.map (fun p => w32 (cube_root 36 0 (p * 2 ^ 96))) sha_primes.

(** The eight working words. *)
Record st := mk { a : N; b : N; c : N; d : N; e : N; f : N; g : N; h : N }.

Definition iv : st :=
  Eval vm_compute in
    let w i := w32 (N.sqrt (nth i sha_primes 0 * 2 ^ 64)) in
    mk (w 0%nat) (w 1%nat) (w 2%nat) (w 3%nat) (w 4%nat) (w 5%nat) (w 6%nat) (w 7%nat).

Definition round (s : st) (k w : N) : st :=
  let t1 := add (add (add (h s) (bsig1 (e s))) (add (ch (e s) (f s) (g s)) k)) w in
  let t2 := add (bsig0 (a s)) (maj (a s) (b s) (c s)) in
  mk (add t1 t2) (a s) (b s) (c s) (add (d s) t1) (e s) (f s) (g s).

(** One round per constant; [win] holds the next sixteen schedule words. *)
Fixpoint rounds (ks : list N) (win : list N) (s : st) : st :=
  match ks with
  | [] => s
  | k :: ks' =>
      let w i := nth i win 0 in
      let new := add (add (w 0%nat) (ssig0 (w 1%nat))) (add (w 9%nat) (ssig1 (w 14%nat))) in
      rounds ks' (tl win ++ [new]) (round s k (w 0%nat))
  end.

Definition block (s : st) (win : list N) : st :=
  let s' := rounds k256 win s in
  mk (add (a s) (a s')) (add (b s) (b s')) (add (c s) (c s')) (add (d s) (d s'))
     (add (e s) (e s')) (add (f s) (f s')) (add (g s) (g s')) (add (h s) (h s')).

Fixpoint words (n : nat) (m : bytes) : list N :=
  match n with
  | O => []
  | S n' => be_decode (take 4 m) :: words n' (drop 4 m)
  end.

Fixpoint blocks (n : nat) (m : bytes) (s : st) : st :=
  match n with
  | O => s
  | S n' => blocks n' (drop 64 m) (block s (words 16 m))
  end.

Definition pad (m : bytes) : bytes :=
  let len := length m in
  m ++ x80 :: repeat x00 ((119 - len mod 64) mod 64)%nat ++ be64 (8 * N.of_nat len).

Definition output (s : st) : bytes :=
  be32 (a s) ++ be32 (b s) ++ be32 (c s) ++ be32 (d s) ++
  be32 (e s) ++ be32 (f s) ++ be32 (g s) ++ be32 (h s).

Definition digest (m : bytes) : bytes :=
  let p := pad m in output (blocks (Nat.div (length p) 64) p iv).
End Sha.

Definition sha256 : bytes -> bytes := Sha.digest.

Lemma sha256_length m : length (sha256 m) = 32.
Proof. unfold sha256, Sha.digest, Sha.output, be32. by rewrite !length_app, !be_bytes_length. Qed.

Example sha256_abc :
  hex_encode (sha256 (of_string "abc"))
  = "ba7816bf8f01cfea414140de5dae2223b00361a396177a9cb410ff61f20015ad"%string.
Proof. vm_compute. reflexivity. Qed.

Example sha256_two_blocks :
  hex_encode (sha256 (of_string "abcdbcdecdefdefgefghfghighijhijkijkljklmklmnlmnomnopnopq"))
  = "248d6a61d20638b8e5c026930c3e6039a33ce45964ff2167f6ecedd419db06c1"%string.
Proof. vm_compute. reflexivity. Qed.

(** ** HMAC-SHA256 (RFC 2104), as [hmac.New(sha256.New, key)] computes it *)

Definition xor_pad (k : N) (key : bytes) : bytes :=
  map (fun x => byte_of_N (N.lxor (Byte.to_N x) k)) key.

Definition hmac_sha256 (key msg : bytes) : bytes :=
  let key := if (64 <? length key)%nat then sha256 key else key in
  let key := key ++ repeat x00 (64 - length key) in
  sha256 (xor_pad 0x5c key ++ sha256 (xor_pad 0x36 key ++ msg)).

Lemma hmac_length key msg : length (hmac_sha256 key msg) = 32.
Proof. apply sha256_length. Qed.

Example hmac_rfc4231_2 :
  hex_encode (hmac_sha256 (of_string "Jefe") (of_string "what do ya want for nothing?"))
  = "5bdcc146bf60754e6a042426089575c75a003f089d2739839dec58b964ec3843"%string.
Proof. vm_compute. reflexivity. Qed.

(** [hmac.Equal] compares in constant time; its value is equality. *)
Definition hmac_equal (x y : bytes) : bool := bool_decide (x = y).

(** ** Generic lemmas on framed byte strings *)

Lemma app_inj_length {A} (a b x y : list A) :
  length a = length b -> a ++ x = b ++ y -> a = b /\ x = y.
Proof. intros Hl H. by apply app_inj_1. Qed.

Lemma concat_inj_length {A} (n : nat) (xs ys : list (list A)) :
  0 < n -> Forall (fun x => length x = n) xs -> Forall (fun x => length x = n) ys ->
  concat xs = concat ys -> xs = ys.
Proof.
  intros Hn Hx. revert ys. induction Hx as [|x xs Hlx Hx IH]; intros ys Hy H.
  - destruct Hy as [|y ys Hly Hy]; [done|]. destruct y; simpl in *; [lia|discriminate].
  - destruct Hy as [|y ys Hly Hy].
    + destruct x; simpl in *; [lia|discriminate].
    + simpl in H. apply app_inj_length in H as [-> H]; [|congruence].
      f_equal. by apply IH.
Qed.

(** Proofs never unfold the hash functions; computation still does. *)
#[global] Opaque sha256 hmac_sha256.
#[global] Arguments be_bytes : simpl never.
#[global] Arguments be32 : simpl never.
#[global] Arguments be64 : simpl never.
#[global] Arguments hex_encode : simpl never.
