(* ===== verification/Encoding.v ===== *)
(** * Text encodings: base64 and UTF-8

    What the repository uses of Go's [encoding/base64] and [unicode/utf8], with
    the round trip of base64 and the texts that encoding/json keeps. *)
From Stdlib Require Import ZArith NArith Lia String Ascii Strings.Byte.
From stdpp Require Import base gmap list strings.
From S2P Require Import Prelude Bytes.

(** ** base64 *)

Definition base64_char (n : N) : byte :=
  if (n <? 26)%N then byte_of_N (n + 65)
  else if (n <? 52)%N then byte_of_N (n + 71)
  else if (n <? 62)%N then byte_of_N (n - 4)
  else if (n =? 62)%N then x2b else x2f.

(** [base64.StdEncoding.DecodeString]: line ends are skipped; the last quantum
    is padded, its unused bits are ignored, and nothing may follow it. *)
Definition from_base64_char (b : byte) : option N :=
  let n := Byte.to_N b in
  if (65 <=? n)%N && (n <=? 90)%N then Some (n - 65)%N
  else if (97 <=? n)%N && (n <=? 122)%N then Some (n - 71)%N
  else if (48 <=? n)%N && (n <=? 57)%N then Some (n + 4)%N
  else if (n =? 43)%N then Some 62%N
  else if (n =? 47)%N then Some 63%N
  else None.
Definition base64_pad : byte := x3d.
Definition is_newline (b : byte) : bool := bool_decide (b = x0a) || bool_decide (b = x0d).

Fixpoint base64_quanta (s : bytes) : option bytes :=
  match s with
  | [] => Some []
  | a :: b :: c :: d :: s' =>
      match from_base64_char a, from_base64_char b with
      | Some va, Some vb =>
          let b1 := byte_of_N (va * 4 + vb / 16) in
          match from_base64_char c, from_base64_char d with
          | Some vc, Some vd =>
              match base64_quanta s' with
              | Some r => Some (b1 :: byte_of_N (vb * 16 + vc / 4) :: byte_of_N (vc * 64 + vd) :: r)
              | None => None
              end
          | Some vc, None =>
              if bool_decide (d = base64_pad) && bool_decide (s' = [])
              then Some [b1; byte_of_N (vb * 16 + vc / 4)] else None
          | None, _ =>
              if bool_decide (c = base64_pad) && bool_decide (d = base64_pad) && bool_decide (s' = [])
              then Some [b1] else None
          end
      | _, _ => None
      end
  | _ => None
  end.
Definition base64_DecodeString (s : bytes) : option bytes :=
  base64_quanta (filter (fun b => is_newline b = false) s).

(** [base64.StdEncoding.EncodeToString]: three bytes make four characters, and
    the last quantum is padded. *)
Fixpoint base64_EncodeToString (s : bytes) : bytes :=
  match s with
  | [] => []
  | [a] => [base64_char (Byte.to_N a / 4); base64_char (Byte.to_N a mod 4 * 16); base64_pad; base64_pad]
  | [a; b] =>
      [base64_char (Byte.to_N a / 4); base64_char (Byte.to_N a mod 4 * 16 + Byte.to_N b / 16);
       base64_char (Byte.to_N b mod 16 * 4); base64_pad]
  | a :: b :: c :: s' =>
      base64_char (Byte.to_N a / 4) :: base64_char (Byte.to_N a mod 4 * 16 + Byte.to_N b / 16) ::
      base64_char (Byte.to_N b mod 16 * 4 + Byte.to_N c / 64) :: base64_char (Byte.to_N c mod 64) ::
      base64_EncodeToString s'
  end.

Lemma byte_range b : (Byte.to_N b < 256)%N.
Proof. pose proof (Byte.to_N_bounded b). lia. Qed.

(** A property of the 64 values of a character, by evaluation. *)
Lemma below_64 (f : N -> bool) n :
  forallb f (N.of_nat <$> seq 0 64) = true -> (n < 64)%N -> f n = true.
Proof.
  intros H Hn. rewrite forallb_forall in H. apply H. apply list_elem_of_In, list_elem_of_fmap.
  exists (N.to_nat n). split; [by rewrite N2Nat.id|]. apply elem_of_seq. lia.
Qed.

Lemma from_base64_char_base64 n : (n < 64)%N -> from_base64_char (base64_char n) = Some n.
Proof.
  intros Hn. apply (below_64 (fun n => bool_decide (from_base64_char (base64_char n) = Some n))) in Hn; [|vm_compute; reflexivity].
  by apply bool_decide_eq_true in Hn.
Qed.
Lemma base64_char_plain n :
  (n < 64)%N -> is_newline (base64_char n) = false /\ (Byte.to_N (base64_char n) < 128)%N.
Proof.
  intros Hn. apply (below_64 (fun n => negb (is_newline (base64_char n)) && (Byte.to_N (base64_char n) <? 128)%N)) in Hn;
    [|vm_compute; reflexivity].
  apply andb_true_iff in Hn as [H1%negb_true_iff H2%N.ltb_lt]. done.
Qed.

(** The encoder's values are below 64, and the decoder puts the bytes back. *)
Lemma sextet_1 a : (Byte.to_N a / 4 < 64)%N.
Proof. pose proof (byte_range a). apply N.Div0.div_lt_upper_bound; lia. Qed.
Lemma sextet_2 a (b : N) : (b < 256)%N -> (Byte.to_N a mod 4 * 16 + b / 16 < 64)%N.
Proof.
  intros Hb. pose proof (N.mod_lt (Byte.to_N a) 4). assert (b / 16 < 16)%N by (apply N.Div0.div_lt_upper_bound; lia). lia.
Qed.
Lemma sextet_3 b (c : N) : (c < 256)%N -> (Byte.to_N b mod 16 * 4 + c / 64 < 64)%N.
Proof.
  intros Hc. pose proof (N.mod_lt (Byte.to_N b) 16). assert (c / 64 < 4)%N by (apply N.Div0.div_lt_upper_bound; lia). lia.
Qed.
Lemma sextet_4 c : (Byte.to_N c mod 64 < 64)%N.
Proof. apply N.mod_lt. lia. Qed.

Lemma byte_of_to_N b : byte_of_N (Byte.to_N b) = b.
Proof. unfold byte_of_N. rewrite N.mod_small by apply byte_range. by rewrite Byte.of_to_N. Qed.
Lemma byte_of_eq n b : (n mod 256 = Byte.to_N b)%N -> byte_of_N n = b.
Proof. intros H. rewrite <- (byte_of_to_N b), <- H. unfold byte_of_N. by rewrite N.Div0.mod_mod. Qed.

Lemma octet_1 a (b : N) :
  (b < 256)%N -> byte_of_N (Byte.to_N a / 4 * 4 + (Byte.to_N a mod 4 * 16 + b / 16) / 16) = a.
Proof.
  intros Hb. apply byte_of_eq. pose proof (byte_range a). pose proof (N.div_mod' (Byte.to_N a) 4).
  assert (b / 16 < 16)%N by (apply N.Div0.div_lt_upper_bound; lia).
  rewrite (N.add_comm (_ * 16)), N.div_add, (N.div_small (b / 16)) by lia. rewrite N.mod_small; lia.
Qed.
Lemma octet_2 a b (c : N) :
  (c < 256)%N ->
  byte_of_N ((Byte.to_N a mod 4 * 16 + Byte.to_N b / 16) * 16 + (Byte.to_N b mod 16 * 4 + c / 64) / 4) = b.
Proof.
  intros Hc. apply byte_of_eq. pose proof (byte_range b). pose proof (N.div_mod' (Byte.to_N b) 16).
  pose proof (N.mod_lt (Byte.to_N b) 16). assert (c / 64 < 4)%N by (apply N.Div0.div_lt_upper_bound; lia).
  rewrite (N.add_comm (_ * 4)), N.div_add, (N.div_small (c / 64)) by lia.
  replace ((Byte.to_N a mod 4 * 16 + Byte.to_N b / 16) * 16 + (0 + Byte.to_N b mod 16))%N
    with (Byte.to_N b + Byte.to_N a mod 4 * 256)%N by lia.
  rewrite N.Div0.mod_add. apply N.mod_small. lia.
Qed.
Lemma octet_3 b c : byte_of_N ((Byte.to_N b mod 16 * 4 + Byte.to_N c / 64) * 64 + Byte.to_N c mod 64) = c.
Proof.
  apply byte_of_eq. pose proof (byte_range c). pose proof (N.div_mod' (Byte.to_N c) 64).
  replace ((Byte.to_N b mod 16 * 4 + Byte.to_N c / 64) * 64 + Byte.to_N c mod 64)%N
    with (Byte.to_N c + Byte.to_N b mod 16 * 256)%N by lia.
  rewrite N.Div0.mod_add. apply N.mod_small. lia.
Qed.

Lemma bytes_by_three (P : bytes -> Prop) :
  P [] -> (forall a, P [a]) -> (forall a b, P [a; b]) -> (forall a b c s, P s -> P (a :: b :: c :: s)) -> forall s, P s.
Proof.
  intros H0 H1 H2 H3. fix IH 1. intros [|a [|b [|c s]]]; [done|apply H1|apply H2|apply H3, IH].
Qed.

Lemma base64_quanta_encode s : base64_quanta (base64_EncodeToString s) = Some s.
Proof.
  induction s as [|a|a b|a b c s IH] using bytes_by_three; [done|..].
  - cbn [base64_EncodeToString base64_quanta].
    pose proof (sextet_2 a 0 ltac:(lia)) as H2. pose proof (octet_1 a 0 ltac:(lia)) as Ho.
    rewrite N.Div0.div_0_l, N.add_0_r in H2, Ho.
    rewrite (from_base64_char_base64 _ (sextet_1 a)), (from_base64_char_base64 _ H2). cbn. by rewrite Ho.
  - cbn [base64_EncodeToString base64_quanta]. pose proof (byte_range b).
    pose proof (sextet_3 b 0 ltac:(lia)) as H3. pose proof (octet_2 a b 0 ltac:(lia)) as Ho.
    rewrite N.Div0.div_0_l, N.add_0_r in H3, Ho.
    rewrite (from_base64_char_base64 _ (sextet_1 a)), (from_base64_char_base64 _ (sextet_2 a _ (byte_range b))),
      (from_base64_char_base64 _ H3). cbn. by rewrite Ho, octet_1.
  - cbn [base64_EncodeToString base64_quanta].
    rewrite (from_base64_char_base64 _ (sextet_1 a)), (from_base64_char_base64 _ (sextet_2 a _ (byte_range b))),
      (from_base64_char_base64 _ (sextet_3 b _ (byte_range c))), (from_base64_char_base64 _ (sextet_4 c)), IH.
    by rewrite octet_1, octet_2, octet_3 by apply byte_range.
Qed.

(** The characters of an encoding are neither line ends nor outside ASCII. *)
Lemma base64_plain s :
  Forall (fun b => is_newline b = false /\ (Byte.to_N b < 128)%N) (base64_EncodeToString s).
Proof.
  assert (is_newline base64_pad = false /\ (Byte.to_N base64_pad < 128)%N) as Hp by done.
  induction s as [|a|a b|a b c s IH] using bytes_by_three; cbn [base64_EncodeToString];
    repeat apply Forall_cons_2; try done; try apply Forall_nil_2; try apply base64_char_plain;
    auto using sextet_1, sextet_2, sextet_3, sextet_4, byte_range.
  - pose proof (N.mod_lt (Byte.to_N a) 4). lia.
  - pose proof (N.mod_lt (Byte.to_N b) 16). lia.
Qed.

Lemma base64_roundtrip s : base64_DecodeString (base64_EncodeToString s) = Some s.
Proof.
  unfold base64_DecodeString. assert (forall l, Forall (fun b => is_newline b = false) l ->
    filter (fun b => is_newline b = false) l = l) as Hf.
  { intros l Hl. induction Hl as [|b l Hb _ IH]; [done|]. by rewrite filter_cons_True, IH. }
  rewrite Hf; [apply base64_quanta_encode|]. eapply Forall_impl; [apply base64_plain|]. by intros b [H _].
Qed.

(** ** UTF-8 *)

(** [utf8.Valid]. *)
Definition cont_byte (b : byte) : bool := (128 <=? Byte.to_N b)%N && (Byte.to_N b <=? 191)%N.
Fixpoint utf8_Valid (s : bytes) : bool :=
  match s with
  | [] => true
  | a :: s1 =>
      let n := Byte.to_N a in
      if (n <? 128)%N then utf8_Valid s1
      else match s1 with
      | [] => false
      | b :: s2 =>
          let m := Byte.to_N b in
          if (194 <=? n)%N && (n <=? 223)%N then cont_byte b && utf8_Valid s2
          else match s2 with
          | [] => false
          | c :: s3 =>
              if (224 <=? n)%N && (n <=? 239)%N then
                cont_byte b && cont_byte c && implb (n =? 224)%N (160 <=? m)%N
                && implb (n =? 237)%N (m <=? 159)%N && utf8_Valid s3
              else match s3 with
              | [] => false
              | d :: s4 =>
                  (240 <=? n)%N && (n <=? 244)%N && cont_byte b && cont_byte c && cont_byte d
                  && implb (n =? 240)%N (144 <=? m)%N && implb (n =? 244)%N (m <=? 143)%N
                  && utf8_Valid s4
              end
          end
      end
  end.

(** The integers of a Go int64. *)
Definition int64_ok (n : Z) : bool := (- 2 ^ 63 <=? n)%Z && (n <? 2 ^ 63)%Z.

(** Text that is not UTF-8 does not survive encoding/json. *)
Definition json_text (s : string) : bool := utf8_Valid (of_string s).

Lemma utf8_ascii s : Forall (fun b => (Byte.to_N b < 128)%N) s -> utf8_Valid s = true.
Proof. induction 1 as [|b s Hb _ IH]; [done|]. simpl. by apply N.ltb_lt in Hb as ->. Qed.

Lemma hex_json_text b : json_text (hex_encode b) = true.
Proof.
  unfold json_text. apply utf8_ascii. induction b as [|x b IH]; [constructor|].
  unfold of_string in *. cbn. repeat constructor; [by destruct x..|done].
Qed.

Lemma base64_json_text s : json_text (to_string (base64_EncodeToString s)) = true.
Proof.
  unfold json_text. rewrite of_to_string. apply utf8_ascii. eapply Forall_impl; [apply base64_plain|]. by intros b [_ H].
Qed.
