(* ===== verification/GoFloat.v ===== *)
(** * IEEE-754 double precision

    A Go [float64] is a [spec_float] of the Standard Library: the executable
    specification of binary64 arithmetic (53-bit significand, exponent bound
    1024), with no axiom.  This file holds the operations the repository uses
    and the order facts about [<=] and [<] that hold for every value, NaN and
    infinities included. *)
From Stdlib Require Import ZArith Lia Floats.SpecFloat.
From stdpp Require Import base tactics decidable.
From S2P Require Import Prelude.

Abbreviation float64 := spec_float.

Definition prec64 : Z := 53.
Definition emax64 : Z := 1024.

Definition fadd : float64 -> float64 -> float64 := SFadd prec64 emax64.
Definition fsub : float64 -> float64 -> float64 := SFsub prec64 emax64.
Definition fmul : float64 -> float64 -> float64 := SFmul prec64 emax64.
Definition fdiv : float64 -> float64 -> float64 := SFdiv prec64 emax64.
Definition fopp : float64 -> float64 := SFopp.
(** [math.Sqrt] and [math.Abs]. *)
Definition fsqrt : float64 -> float64 := SFsqrt prec64 emax64.
Definition fabs : float64 -> float64 := SFabs.

(** [float64(n)] for an integer [n], rounded to nearest even. *)
Definition of_Z (n : Z) : float64 := binary_normalize prec64 emax64 n 0 false.

(** The [float64] nearest to the rational [n / d]: a decimal literal. *)
Definition of_ratio (n : Z) (d : positive) : float64 :=
  match n with
  | Z0 => S754_zero false
  | Zpos p => fdiv (S754_finite false p 0) (S754_finite false d 0)
  | Zneg p => fdiv (S754_finite true p 0) (S754_finite false d 0)
  end.

(** Go's comparison operators; every comparison with a NaN is false. *)
Definition fleb (x y : float64) : bool := SFleb x y.
Definition fltb (x y : float64) : bool := SFltb x y.
Definition feqb (x y : float64) : bool := SFeqb x y.
Definition fgeb (x y : float64) : bool := SFleb y x.
Definition fgtb (x y : float64) : bool := SFltb y x.

Definition is_nan (x : float64) : bool := match x with S754_nan => true | _ => false end.
Definition is_zero (x : float64) : bool := match x with S754_zero _ => true | _ => false end.
Definition is_pos_inf (x : float64) : bool :=
  match x with S754_infinity false => true | _ => false end.
Definition signbit (x : float64) : bool :=
  match x with
  | S754_zero s | S754_infinity s | S754_finite s _ _ => s
  | S754_nan => false
  end.

Definition f0 : float64 := S754_zero false.
Definition f1 : float64 := of_Z 1.
Definition pos_inf : float64 := S754_infinity false.

(** [math.Max], with its special cases in the order of the Go library. *)
Definition fmax (x y : float64) : float64 :=
  if is_pos_inf x || is_pos_inf y then pos_inf
  else if is_nan x || is_nan y then S754_nan
  else if is_zero x && is_zero y then (if signbit x then y else x)
  else if fgtb x y then x else y.

(** The integer part, truncated towards zero; NaN and infinities have none. *)
Definition ftrunc (x : float64) : option Z :=
  match x with
  | S754_zero _ => Some 0%Z
  | S754_finite s m e =>
      let a := if (0 <=? e)%Z then (Z.pos m * 2 ^ e)%Z else (Z.pos m / 2 ^ (- e))%Z in
      Some (if s then (- a)%Z else a)
  | _ => None
  end.

(** [math.Round]: nearest integer, halves away from zero. *)
Definition fround (x : float64) : option Z :=
  match x with
  | S754_zero _ => Some 0%Z
  | S754_finite s m e =>
      let a := if (0 <=? e)%Z then (Z.pos m * 2 ^ e)%Z
               else ((Z.pos m + 2 ^ (- e - 1)) / 2 ^ (- e))%Z in
      Some (if s then (- a)%Z else a)
  | _ => None
  end.

(** ** Order

    Every value but NaN has a key, and Go's order is the lexicographic order
    of the keys. *)

Definition fkey (x : float64) : Z * Z * Z :=
  match x with
  | S754_infinity true => (-2, 0, 0)
  | S754_finite true m e => (-1, - e, - Z.pos m)
  | S754_zero _ | S754_nan => (0, 0, 0)
  | S754_finite false m e => (1, e, Z.pos m)
  | S754_infinity false => (2, 0, 0)
  end%Z.

Definition lex_compare (x y : Z * Z * Z) : comparison :=
  match (x.1.1 ?= y.1.1)%Z with
  | Eq => match (x.1.2 ?= y.1.2)%Z with
          | Eq => (x.2 ?= y.2)%Z
          | c => c
          end
  | c => c
  end.

Lemma SFcompare_key x y :
  SFcompare x y = if is_nan x || is_nan y then None else Some (lex_compare (fkey x) (fkey y)).
Proof.
  destruct x as [[]|[]| |[] m e], y as [[]|[]| |[] m' e']; try reflexivity.
  cbn. unfold lex_compare. cbn. rewrite Z.compare_opp, (Z.compare_antisym e e').
    by destruct (e ?= e')%Z.
Qed.

Definition lex_lt (x y : Z * Z * Z) : Prop :=
  (x.1.1 < y.1.1 \/ x.1.1 = y.1.1 /\ (x.1.2 < y.1.2 \/ x.1.2 = y.1.2 /\ x.2 < y.2))%Z.

Lemma lex_compare_spec x y :
  match lex_compare x y with
  | Lt => lex_lt x y
  | Gt => lex_lt y x
  | Eq => x = y
  end.
Proof.
  unfold lex_compare, lex_lt. destruct x as [[x1 x2] x3], y as [[y1 y2] y3]; simpl.
  destruct (Z.compare_spec x1 y1); [|lia|lia].
  destruct (Z.compare_spec x2 y2); [|lia|lia].
  destruct (Z.compare_spec x3 y3); [|lia|lia]. congruence.
Qed.

Lemma fltb_key x y :
  fltb x y = true <-> is_nan x = false /\ is_nan y = false /\ lex_lt (fkey x) (fkey y).
Proof.
  unfold fltb, SFltb. rewrite SFcompare_key.
  pose proof (lex_compare_spec (fkey x) (fkey y)) as H.
  assert (forall k, ~ lex_lt k k) by (intros [[]]; unfold lex_lt; simpl; lia).
  assert (forall k l, lex_lt k l -> lex_lt l k -> False)
    by (intros [[]] [[]]; unfold lex_lt; simpl; lia).
  destruct (is_nan x), (is_nan y); simpl; try (split; [discriminate | by intros (?&?&?)]).
  destruct (lex_compare _ _); split; try discriminate; intros; try (by eauto).
  - exfalso. rewrite H in *. naive_solver.
  - exfalso. naive_solver.
Qed.

Lemma fleb_key x y :
  fleb x y = true <-> is_nan x = false /\ is_nan y = false /\
                      (lex_lt (fkey x) (fkey y) \/ fkey x = fkey y).
Proof.
  unfold fleb, SFleb. rewrite SFcompare_key.
  pose proof (lex_compare_spec (fkey x) (fkey y)) as H.
  assert (forall k, ~ lex_lt k k) by (intros [[]]; unfold lex_lt; simpl; lia).
  assert (forall k l, lex_lt k l -> lex_lt l k -> False)
    by (intros [[]] [[]]; unfold lex_lt; simpl; lia).
  destruct (is_nan x), (is_nan y); simpl; try (split; [discriminate | by intros (?&?&?)]).
  destruct (lex_compare _ _); split; try discriminate; intros; try (by eauto).
  exfalso. destruct H2 as (_ & _ & [?| E]); [naive_solver|]. rewrite E in H. naive_solver.
Qed.

Lemma lex_lt_trans a b c : lex_lt a b -> lex_lt b c -> lex_lt a c.
Proof. destruct a as [[]], b as [[]], c as [[]]. unfold lex_lt. simpl. lia. Qed.

Lemma lex_total a b : lex_lt a b \/ a = b \/ lex_lt b a.
Proof.
  pose proof (lex_compare_spec a b) as H. destruct (lex_compare a b); auto.
Qed.

Lemma fltb_fleb x y : fltb x y = true -> fleb x y = true.
Proof. rewrite fltb_key, fleb_key. naive_solver. Qed.

Lemma fleb_refl x : is_nan x = false -> fleb x x = true.
Proof. intros H. apply fleb_key. auto. Qed.

Lemma fleb_trans x y z : fleb x y = true -> fleb y z = true -> fleb x z = true.
Proof.
  rewrite !fleb_key. intros (?&?&[?|E1]) (?&?&[?|E2]); repeat split; auto;
    try rewrite E1; try rewrite <- E2; auto.
  left. by eapply lex_lt_trans.
Qed.

Lemma fleb_fltb_trans x y z : fleb x y = true -> fltb y z = true -> fltb x z = true.
Proof.
  rewrite fleb_key, !fltb_key. intros (?&?&[?|E1]) (?&?&?); repeat split; auto;
    try rewrite E1; auto. by eapply lex_lt_trans.
Qed.

Lemma fltb_irrefl x : fltb x x = false.
Proof.
  destruct (fltb x x) eqn:E; [|done]. apply fltb_key in E as (_ & _ & H).
  exfalso. revert H. destruct (fkey x) as [[]]. unfold lex_lt. simpl. lia.
Qed.

(** Without a NaN the order is total: [not (y < x)] is [x <= y]. *)
Lemma fltb_false_fleb x y :
  is_nan x = false -> is_nan y = false -> fltb y x = false -> fleb x y = true.
Proof.
  intros Hx Hy H. apply fleb_key. repeat split; auto.
  destruct (lex_total (fkey x) (fkey y)) as [?|[?|E]]; auto.
  assert (fltb y x = true) by (apply fltb_key; auto). congruence.
Qed.

Lemma fleb_false_fltb x y :
  is_nan x = false -> is_nan y = false -> fleb x y = false -> fltb y x = true.
Proof.
  intros Hx Hy H. apply fltb_key. repeat split; auto.
  destruct (lex_total (fkey x) (fkey y)) as [E|[E|?]]; auto;
    (assert (fleb x y = true) by (apply fleb_key; auto); congruence).
Qed.

Lemma fltb_not_fleb x y : fltb y x = true -> fleb x y = false.
Proof.
  intros H. destruct (fleb x y) eqn:E; [|done].
  pose proof (fleb_fltb_trans _ _ _ E H) as F. by rewrite fltb_irrefl in F.
Qed.

Lemma fleb_nan_l y : fleb S754_nan y = false. Proof. by destruct y as [[]|[]| |[]]. Qed.
Lemma fleb_nan_r x : fleb x S754_nan = false. Proof. by destruct x as [[]|[]| |[]]. Qed.

#[export] Hint Resolve fltb_fleb fleb_refl fltb_false_fleb fltb_not_fleb : ares.

(** ** Sign *)

Definition nonpos (x : float64) : bool :=
  match x with S754_finite false _ _ | S754_infinity false => false | _ => true end.

Lemma nonpos_not_positive x : nonpos x = true -> fltb f0 x = false.
Proof. by destruct x as [[]|[]| |[]]. Qed.

Lemma binary_round_aux_nonpos m e l : nonpos (binary_round_aux prec64 emax64 true m e l) = true.
Proof.
  unfold binary_round_aux. destruct (shr_fexp _ _ m e l) as [r e'].
  destruct (shr_fexp _ _ _ e' loc_Exact) as [r' e'']. destruct (shr_m r'); [done| |done].
  by destruct (e'' <=? _)%Z.
Qed.

Lemma binary_normalize_nonpos m e : (m <= 0)%Z -> nonpos (binary_normalize prec64 emax64 m e false) = true.
Proof.
  intros Hm. destruct m as [|p|p]; [done|lia|]. simpl. unfold binary_round.
  destruct (shl_align _ _ _) as [mz ez]. apply binary_round_aux_nonpos.
Qed.

Lemma of_Z_nonpos n : (n <= 0)%Z -> nonpos (of_Z n) = true.
Proof. apply binary_normalize_nonpos. Qed.

Lemma fadd_nonpos x y : nonpos x = true -> nonpos y = true -> nonpos (fadd x y) = true.
Proof.
  destruct x as [[]|[]| |[] m e], y as [[]|[]| |[] m' e']; try done.
  intros _ _. apply binary_normalize_nonpos. simpl. lia.
Qed.

Lemma fdiv_nonpos x m e : nonpos x = true -> nonpos (fdiv x (S754_finite false m e)) = true.
Proof.
  destruct x as [[]|[]| |[] m' e']; try done. intros _. unfold fdiv, SFdiv.
  destruct (SFdiv_core_binary _ _ _ _ _ _) as [[mz ez] lz]. apply binary_round_aux_nonpos.
Qed.

(** ** Subtraction

    Of two finite numbers in order, the difference is not positive.  The
    representation has to be canonical: of two numbers with different
    exponents the one with the greater exponent is then the greater. *)

Definition valid (x : float64) : Prop := valid_binary prec64 emax64 x = true.
Definition is_finite (x : float64) : bool :=
  match x with S754_zero _ | S754_finite _ _ _ => true | _ => false end.

Lemma digits2_pos_bounds m :
  (2 ^ (Z.pos (digits2_pos m) - 1) <= Z.pos m < 2 ^ Z.pos (digits2_pos m))%Z.
Proof.
  induction m as [m IH|m IH|]; simpl digits2_pos; [| |done];
    rewrite Pos2Z.inj_succ, Z.pow_succ_r by lia;
    replace (Z.succ (Z.pos (digits2_pos m)) - 1)%Z with (Z.succ (Z.pos (digits2_pos m) - 1)) by lia;
    rewrite Z.pow_succ_r by lia; lia.
Qed.

Lemma valid_mantissa s m e :
  valid (S754_finite s m e) ->
  (Z.pos m < 2 ^ prec64 /\ emin prec64 emax64 <= e /\
   (e = emin prec64 emax64 \/ 2 ^ (prec64 - 1) <= Z.pos m))%Z.
Proof.
  unfold valid, valid_binary, bounded, canonical_mantissa, fexp.
  intros [Hc%Z.eqb_eq _]%andb_true_iff. pose proof (digits2_pos_bounds m) as [Hl Hu].
  assert (Hp : prec64 = 53%Z) by done. rewrite Hp in *.
  set (d := Z.pos (digits2_pos m)) in *. assert (d <= 53)%Z by lia.
  assert (2 ^ d <= 2 ^ 53)%Z by (apply Z.pow_le_mono_r; lia).
  split; [lia|]. split; [lia|].
  destruct (decide (d = 53)%Z) as [->|]; [right; lia|left; lia].
Qed.

Lemma shl_align_value m e ez :
  (ez <= e)%Z -> Z.pos (fst (shl_align m e ez)) = (Z.pos m * 2 ^ (e - ez))%Z.
Proof.
  intros He. unfold shl_align. destruct (ez - e)%Z as [|d|d] eqn:E; [|lia|].
  - replace (e - ez)%Z with 0%Z by lia. simpl. lia.
  - replace (e - ez)%Z with (Z.pos d) by lia. cbn [fst]. clear.
    induction d as [|d IH] using Pos.peano_ind; [simpl; lia|].
    rewrite Pos.iter_succ, Pos2Z.inj_succ, Z.pow_succ_r by lia.
    rewrite Pos2Z.inj_xO, IH. lia.
Qed.

Lemma aligned_le s1 m1 e1 s2 m2 e2 :
  valid (S754_finite s1 m1 e1) -> valid (S754_finite s2 m2 e2) ->
  (e1 < e2 \/ e1 = e2 /\ Z.pos m1 <= Z.pos m2)%Z ->
  (Z.pos (fst (shl_align m1 e1 (Z.min e1 e2))) <= Z.pos (fst (shl_align m2 e2 (Z.min e1 e2))))%Z.
Proof.
  intros (Hu & Hmin & _)%valid_mantissa (_ & _ & Hn)%valid_mantissa Hc.
  rewrite !shl_align_value by lia.
  assert (Hp : (prec64 = 53)%Z) by done. rewrite Hp in *.
  destruct Hc as [He|[-> Hm]]; [|nia].
  rewrite Z.min_l by lia. replace (e1 - e1)%Z with 0%Z by lia. change (2 ^ 0)%Z with 1%Z.
  assert (H2 : (2 ^ 1 <= 2 ^ (e2 - e1))%Z) by (apply Z.pow_le_mono_r; lia).
  change (53 - 1)%Z with 52%Z in Hn. change (2 ^ 53)%Z with (2 * 2 ^ 52)%Z in Hu. nia.
Qed.

Lemma fsub_nonpos x y :
  valid x -> valid y -> is_finite x || is_finite y = true -> fleb x y = true ->
  nonpos (fsub x y) = true.
Proof.
  intros Hx Hy Hf Hle. destruct x as [sx|sx| |sx mx ex], y as [sy|sy| |sy my ey]; try done;
    destruct sx, sy; try done; unfold fsub, SFsub; apply binary_normalize_nonpos;
    unfold cond_Zopp; [|lia|].
  - enough (Z.pos (fst (shl_align my ey (Z.min ey ex))) <= Z.pos (fst (shl_align mx ex (Z.min ey ex))))%Z
      by (rewrite Z.min_comm; lia).
    apply (aligned_le true _ _ true); [done..|].
    unfold fleb, SFleb, SFcompare in Hle. destruct (Z.compare_spec ex ey); [|done|lia].
    change (Pos.compare_cont Eq mx my) with (Pos.compare mx my) in Hle.
    destruct (Pos.compare_spec mx my); simpl in Hle; [lia|done|lia].
  - enough (Z.pos (fst (shl_align mx ex (Z.min ex ey))) <= Z.pos (fst (shl_align my ey (Z.min ex ey))))%Z by lia.
    apply (aligned_le false _ _ false); [done..|].
    unfold fleb, SFleb, SFcompare in Hle. destruct (Z.compare_spec ex ey); [|lia|done].
    change (Pos.compare_cont Eq mx my) with (Pos.compare mx my) in Hle.
    destruct (Pos.compare_spec mx my); simpl in Hle; [lia|lia|done].
Qed.

Lemma fleb_nonpos x y : nonpos x = true -> is_nan x = false -> fleb f0 y = true -> fleb x y = true.
Proof. by destruct x as [[]|[]| |[]], y as [[]|[]| |[]]. Qed.

(** [math.Max] of two numbers that are not positive. *)
Lemma fmax_nonpos x y :
  nonpos x = true -> nonpos y = true -> is_nan x = false -> is_nan y = false ->
  nonpos (fmax x y) = true /\ is_nan (fmax x y) = false.
Proof.
  intros Hx Hy Nx Ny. unfold fmax. destruct (is_pos_inf x || is_pos_inf y) eqn:E.
  { by destruct x as [[]|[]| |[]], y as [[]|[]| |[]]. }
  rewrite Nx, Ny. simpl. destruct (_ && _), (signbit x), (fgtb x y); done.
Qed.

(** The difference of a finite number and a number is a number. *)
Lemma shr_nonneg r e n : (0 <= shr_m r)%Z -> (0 <= shr_m (fst (shr r e n)))%Z.
Proof.
  intros Hr. destruct n as [|p|p]; [done| |done]. simpl.
  assert (Hone : forall r, (0 <= shr_m r)%Z -> (0 <= shr_m (shr_1 r))%Z).
  { intros [m b s] Hm. simpl in *. destruct m as [|[]|]; simpl; lia. }
  revert r Hr. induction p as [p IH|p IH|]; intros r Hr; simpl; auto.
Qed.

Lemma shr_fexp_nonneg m e l : (0 <= m)%Z -> (0 <= shr_m (fst (shr_fexp prec64 emax64 m e l)))%Z.
Proof. intros Hm. apply shr_nonneg. by destruct l as [|[]]. Qed.

Lemma binary_round_aux_not_nan s m e l :
  (0 <= m)%Z -> is_nan (binary_round_aux prec64 emax64 s m e l) = false.
Proof.
  intros Hm. unfold binary_round_aux.
  pose proof (shr_fexp_nonneg m e l Hm) as H1. destruct (shr_fexp _ _ m e l) as [r e1]. cbn [fst] in H1.
  set (m' := round_nearest_even _ _).
  assert (Hm' : (0 <= m')%Z).
  { unfold m', round_nearest_even. destruct (loc_of_shr_record r) as [|[]]; try destruct (Z.even _); lia. }
  pose proof (shr_fexp_nonneg m' e1 loc_Exact Hm') as H2.
  destruct (shr_fexp _ _ m' e1 loc_Exact) as [r2 e2]. cbn [fst] in H2.
  destruct (shr_m r2); [done| |lia]. by destruct (_ <=? _)%Z.
Qed.

Lemma binary_normalize_not_nan m e : is_nan (binary_normalize prec64 emax64 m e false) = false.
Proof.
  destruct m as [|p|p]; [done|..]; simpl; unfold binary_round;
    destruct (shl_align _ _ _); by apply binary_round_aux_not_nan.
Qed.

Lemma fsub_not_nan x y :
  is_finite x || is_finite y = true -> is_nan x = false -> is_nan y = false -> is_nan (fsub x y) = false.
Proof.
  destruct x as [[]|[]| |[]], y as [[]|[]| |[]]; try done; intros _ _ _;
    apply binary_normalize_not_nan.
Qed.

(** [math.Max] against a bound that is not +Inf: +Inf wins over a NaN. *)
Lemma fleb_fmax x y z :
  is_pos_inf z = false -> fleb (fmax x y) z = true <-> fleb x z = true /\ fleb y z = true.
Proof.
  intros Hz. unfold fmax. destruct (is_pos_inf x || is_pos_inf y) eqn:E.
  { destruct x as [[]|[]| |[]], y as [[]|[]| |[]], z as [[]|[]| |[]]; naive_solver. }
  destruct (is_nan x || is_nan y) eqn:En.
  { rewrite fleb_nan_l. destruct x, y; try done; rewrite ?fleb_nan_l; naive_solver. }
  apply orb_false_iff in En as [Hx Hy].
  destruct (is_zero x && is_zero y) eqn:Ez.
  { destruct x as [[]| | |], y as [[]| | |], z as [[]|[]| |[]]; try done; naive_solver. }
  destruct (fgtb x y) eqn:Eg.
  - split; [|by intros [? _]]. intros Hxz. split; [done|].
    apply fleb_trans with x; [by apply fltb_fleb|done].
  - split; [|by intros [_ ?]]. intros Hyz. split; [|done].
    apply fleb_trans with y; [by apply fltb_false_fleb|done].
Qed.

(** *** Numbers that are not negative *)

Definition nonneg (x : float64) : bool :=
  match x with S754_zero _ => true | S754_finite s _ _ | S754_infinity s => negb s | S754_nan => false end.

Lemma nonneg_not_nan x : nonneg x = true -> is_nan x = false.
Proof. by destruct x. Qed.
Lemma fltb_nonneg x : fltb f0 x = true -> nonneg x = true.
Proof. by destruct x as [[]|[]| |[]]. Qed.
Lemma binary_round_aux_nonneg m e l : (0 <= m)%Z -> nonneg (binary_round_aux prec64 emax64 false m e l) = true.
Proof.
  intros Hm. pose proof (binary_round_aux_not_nan false m e l Hm) as Hn. revert Hn. unfold binary_round_aux.
  destruct (shr_fexp _ _ m e l) as [r e1]. destruct (shr_fexp _ _ _ e1 loc_Exact) as [r2 e2].
  destruct (shr_m r2); [done| |done]. by destruct (_ <=? _)%Z.
Qed.
Lemma binary_normalize_nonneg m e : (0 <= m)%Z -> nonneg (binary_normalize prec64 emax64 m e false) = true.
Proof.
  intros Hm. destruct m as [|p|p]; [done| |lia]. simpl. unfold binary_round.
  destruct (shl_align _ _ _) as [mz ez]. by apply binary_round_aux_nonneg.
Qed.
Lemma fadd_nonneg x y : nonneg x = true -> nonneg y = true -> nonneg (fadd x y) = true.
Proof.
  destruct x as [[]|[]| |[] m e], y as [[]|[]| |[] m' e']; try done.
  intros _ _. apply binary_normalize_nonneg. simpl. lia.
Qed.
