(* ===== verification/GoFmt.v ===== *)
(** * Dynamic values and their text

    Go's [any] as the repository uses it, and [fmt]'s [%v] rendering of it,
    which decides the equality of two pipeline constraints. *)
From Stdlib Require Import ZArith NArith Lia String Ascii Strings.Byte Floats.SpecFloat.
From stdpp Require Import base gmap list strings pretty.
From S2P Require Import Prelude Bytes.
From S2P Require Import GoFloat.

(** ** Values of type [any]

    Integers carry their mathematical value, which lies in the range of their
    type.  [ASlice], [AMap] and [AStruct] hold the composite values that have
    no constructor of their own; their first argument names the dynamic
    type. *)
#[warnings="-register-all"]
Inductive Any :=
| ANil
| ABool (b : bool)
| AInt (n : Z) | AInt32 (n : Z) | AInt64 (n : Z)
| AUint (n : Z) | AUint32 (n : Z) | AUint64 (n : Z)
| AFloat32 (x : float64) | AFloat64 (x : float64)
| AString (s : string)
| ABytes (b : bytes)
| AStrings (l : list string)
| AMapBytes (m : gmap string bytes)
| ASlice (ty : string) (l : list Any)
| AMap (ty : string) (m : list (string * Any))
| AStruct (ty : string) (fields : list (string * Any)).

(** ** Floats

    [strconv.AppendFloat(x, 'g', -1)]: the fewest significant digits that read
    back as [x], in exponent form when the exponent is below -4 or at least 6,
    the threshold [strconv] uses for the shortest form. *)

Section Shortest.
Local Open Scope Z_scope.
Variables (prec emax : Z).

Definition div_half_even (num den : Z) : Z :=
  let q := num / den in
  let r := 2 * (num mod den) in
  if r <? den then q else if den <? r then q + 1 else if Z.even q then q else q + 1.

(** [num/den * 10^k] as a fraction. *)
Definition scale10 (num den k : Z) : Z * Z :=
  if 0 <=? k then (num * 10 ^ k, den) else (num, den * 10 ^ (- k)).

Definition read_fraction (num den : Z) : float64 :=
  match num, den with
  | Zpos n, Zpos d => SFdiv prec emax (S754_finite false n 0) (S754_finite false d 0)
  | _, _ => S754_zero false
  end.

(** The least [k] from the given one on with [num/den < 10^k]. *)
Fixpoint dec_exponent (fuel : nat) (num den k : Z) : Z :=
  match fuel with
  | O => k
  | S fuel' =>
      let '(n, d) := scale10 num den (- k) in
      if n <? d then k else dec_exponent fuel' num den (k + 1)
  end.

(** The digits and [k] with the value written [0.digits * 10^k]. *)
Fixpoint shortest_from (tries : nat) (x : float64) (num den k nd : Z) : Z * Z :=
  let '(n, d) := scale10 num den (nd - k) in
  let ds := div_half_even n d in
  let '(n', d') := scale10 ds 1 (k - nd) in
  match tries with
  | O => (ds, k)
  | S tries' =>
      if SFeqb (read_fraction n' d') x then
        (if ds =? 10 ^ nd then (1, k + 1) else (ds, k))
      else shortest_from tries' x num den k (nd + 1)
  end.

Definition shortest (m e : Z) : Z * Z :=
  let '(num, den) := if 0 <=? e then (m * 2 ^ e, 1) else (m, 2 ^ (- e)) in
  let k := dec_exponent 700 num den (-330) in
  shortest_from 17 (binary_normalize prec emax m e false) num den k 1.
End Shortest.

Definition fmt_int (n : Z) : string := pretty n.

Fixpoint zeros (n : nat) : string :=
  match n with O => EmptyString | S n' => String "0" (zeros n') end.

(** [%e] and [%f] layouts of the digits [ds = d1 d2 ...] with point at [k]. *)
Definition fmt_digits (ds : string) (k : Z) : string :=
  let nd := Z.of_nat (String.length ds) in
  let exp := (k - 1)%Z in
  if (exp <? -4)%Z || (6 <=? exp)%Z then
    let frac := substring 1 (String.length ds - 1) ds in
    let mant := if String.eqb frac EmptyString then substring 0 1 ds
                else (substring 0 1 ds +:+ "." +:+ frac)%string in
    let sgn := (if (exp <? 0)%Z then "-" else "+")%string in
    let a := Z.abs exp in
    (mant +:+ "e" +:+ sgn +:+ (if (a <? 10)%Z then "0" else "") +:+ fmt_int a)%string
  else if (k <=? 0)%Z then ("0." +:+ zeros (Z.to_nat (- k)) +:+ ds)%string
  else if (nd <=? k)%Z then (ds +:+ zeros (Z.to_nat (k - nd)))%string
  else (substring 0 (Z.to_nat k) ds +:+ "." +:+
        substring (Z.to_nat k) (String.length ds - Z.to_nat k) ds)%string.

Definition fmt_float (prec emax : Z) (x : float64) : string :=
  match x with
  | S754_nan => "NaN"
  | S754_infinity false => "+Inf"
  | S754_infinity true => "-Inf"
  | S754_zero s => (if s then "-0" else "0")%string
  | S754_finite s m e =>
      let '(ds, k) := shortest prec emax (Z.pos m) e in
      ((if s then "-" else "") +:+ fmt_digits (fmt_int ds) k)%string
  end.

(** ** [fmt.Sprintf("%v", x)] *)

Fixpoint join (sep : string) (l : list string) : string :=
  match l with
  | [] => EmptyString
  | [x] => x
  | x :: l' => (x +:+ sep +:+ join sep l')%string
  end.

Fixpoint insert_key {A} (x : string * A) (l : list (string * A)) : list (string * A) :=
  match l with
  | [] => [x]
  | y :: l' => if String.ltb y.1 x.1 then y :: insert_key x l' else x :: l
  end.
(** [fmt] prints a map in key order. *)
Definition sort_keys {A} (l : list (string * A)) : list (string * A) := foldr insert_key [] l.

Definition fmt_bytes (b : bytes) : string :=
  ("[" +:+ join " " (map (fun x => pretty (Byte.to_N x)) b) +:+ "]")%string.

Definition fmt_map (m : list (string * string)) : string :=
  ("map[" +:+ join " " (map (fun kv => kv.1 +:+ ":" +:+ kv.2) (sort_keys m)) +:+ "]")%string.

Fixpoint fmt_v (x : Any) : string :=
  match x with
  | ANil => "<nil>"
  | ABool b => (if b then "true" else "false")%string
  | AInt n | AInt32 n | AInt64 n | AUint n | AUint32 n | AUint64 n => fmt_int n
  | AFloat32 f => fmt_float 24 128 f
  | AFloat64 f => fmt_float 53 1024 f
  | AString s => s
  | ABytes b => fmt_bytes b
  | AStrings l => ("[" +:+ join " " l +:+ "]")%string
  | AMapBytes m => fmt_map (map (fun kv => (kv.1, fmt_bytes kv.2)) (map_to_list m))
  | ASlice _ l => ("[" +:+ join " " (map fmt_v l) +:+ "]")%string
  | AMap _ m => fmt_map (map (fun kv => (kv.1, fmt_v kv.2)) m)
  | AStruct _ fs => ("{" +:+ join " " (map (fun kv => fmt_v kv.2) fs) +:+ "}")%string
  end.

Example fmt_v_samples :
  map fmt_v [AInt (-7); AFloat64 (of_ratio 1 10); AFloat64 (of_Z 1000000); AFloat64 (of_ratio 1 3);
             AFloat64 (of_Z (10 ^ 22)); AFloat64 (of_ratio (-125) 100); AFloat64 (of_ratio 1 100000);
             ABytes (of_string "ab");
             AMap "map[string]any" [("b", AString "x"); ("a", AInt 1)]%string] =
  ["-7"; "0.1"; "1e+06"; "0.3333333333333333"; "1e+22"; "-1.25"; "1e-05"; "[97 98]"; "map[a:1 b:x]"]%string.
Proof. vm_compute. reflexivity. Qed.
