(* ===== verification/Sign.v ===== *)
(** * Signatures (pkg/ares/sign)

  The [Signer] interface with its contract, and [Ed25519Signer] over the
  primitives of crypto/ed25519. *)
From Stdlib Require Import ZArith Lia String Strings.Byte.
From stdpp Require Import base gmap list strings.
From S2P Require Import Prelude Bytes.

(** ** Signers (pkg/ares/sign/signer.go) *)

(** The [Signer] interface; [Verify] returns [None] for a nil error. *)
Record Signer := {
Sign : bytes -> Outcome bytes;
SigVerify : bytes -> bytes -> bytes -> option GoError;
PublicKey : bytes;
Algorithm : string
}.

(** The contract of the interface: a signature the signer produces verifies
  under its public key, which is not empty. *)
Class SignerLaws (s : Signer) := {
sign_verifies m sig : Sign s m = Ok sig -> SigVerify s (PublicKey s) m sig = None;
public_key_nonempty : PublicKey s <> []
}.

(** ** [Ed25519Signer] (pkg/ares/sign/ed25519.go) *)

Module Ed25519.
Section Ed25519.
(** [ed25519.Sign], [ed25519.Verify] and [PrivateKey.Public]. *)
Variable ed_sign : bytes -> bytes -> bytes.
Variable ed_verify : bytes -> bytes -> bytes -> bool.
Variable ed_public : bytes -> bytes.

Definition Ed25519Algorithm : string := "ed25519".
Definition PublicKeySize : nat := 32.
Definition SignatureSize : nat := 64.

Record Ed25519Signer := { privateKey : bytes; publicKey : bytes }.

Definition NewEd25519SignerFromKey (priv : bytes) : Ed25519Signer :=
  {| privateKey := priv; publicKey := ed_public priv |}.

(** [generated] is what [ed25519.GenerateKey] makes of the system's randomness. *)
Definition NewEd25519Signer (generated : GoError + bytes * bytes) : Outcome Ed25519Signer :=
  match generated with
  | inl e => Err (Errorf [T "sign: ed25519 keygen: "; W e])
  | inr (pub, priv) => Ok {| privateKey := priv; publicKey := pub |}
  end.

Definition ed_Sign (s : Ed25519Signer) (msg : bytes) : Outcome bytes :=
  Ok (ed_sign (privateKey s) msg).

Definition ed_Verify (pubkey msg sig : bytes) : option GoError :=
  if negb (Nat.eqb (length pubkey) PublicKeySize) then
    Some (ErrorsNew "sign: invalid ed25519 pubkey size")
  else if negb (Nat.eqb (length sig) SignatureSize) then
    Some (ErrorsNew "sign: invalid ed25519 signature size")
  else if negb (ed_verify pubkey msg sig) then
    Some (ErrorsNew "sign: ed25519 signature verification failed")
  else None.

(** [Ed25519Signer] as a [Signer]. *)
Definition signer (s : Ed25519Signer) : Signer := {|
  Sign := ed_Sign s; SigVerify := ed_Verify;
  PublicKey := publicKey s; Algorithm := Ed25519Algorithm |}.

(** What crypto/ed25519 documents: sizes, and that a signature verifies
    under the public key of the signing key. *)
Hypothesis ed_public_size : forall priv, length (ed_public priv) = PublicKeySize.
Hypothesis ed_sign_size : forall priv m, length (ed_sign priv m) = SignatureSize.
Hypothesis ed_sign_verify : forall priv m, ed_verify (ed_public priv) m (ed_sign priv m) = true.

(** The interface contract holds for a signer loaded from a key. *)
Lemma ed25519_signer_laws priv : SignerLaws (signer (NewEd25519SignerFromKey priv)).
Proof.
  split.
  - intros m sig [= <-]. simpl. unfold ed_Verify.
    by rewrite ed_public_size, ed_sign_size, ed_sign_verify.
  - simpl. intros H. pose proof (ed_public_size priv) as Hs. by rewrite H in Hs.
Qed.

(** So does it for a new one, whose public key is that of its private key. *)
Lemma NewEd25519Signer_laws priv s : NewEd25519Signer (inr (ed_public priv, priv)) = Ok s -> SignerLaws (signer s).
Proof. intros [= <-]. apply (ed25519_signer_laws priv). Qed.

(** A verification that succeeds passed all three checks. *)
Lemma ed_Verify_iff pubkey msg sig :
  ed_Verify pubkey msg sig = None <->
  length pubkey = PublicKeySize /\ length sig = SignatureSize /\ ed_verify pubkey msg sig = true.
Proof.
  unfold ed_Verify.
  destruct (Nat.eqb_spec (length pubkey) PublicKeySize); simpl; [|naive_solver].
  destruct (Nat.eqb_spec (length sig) SignatureSize); simpl; [|naive_solver].
  destruct (ed_verify pubkey msg sig); simpl; naive_solver.
Qed.
End Ed25519.
End Ed25519.

(** ** A concrete scheme

  A toy signature scheme with which the witnesses of the development run:
  the key is public and the signature is the HMAC of the message. *)

Module ToyScheme.
Definition toy_sign (priv m : bytes) : bytes := hmac_sha256 priv m ++ hmac_sha256 priv m.
Definition toy_public (priv : bytes) : bytes := sha256 priv.
Definition toy_key : bytes := of_string "key".
Definition toy_verify (pub m sig : bytes) : bool := bool_decide (sig = toy_sign toy_key m).

Definition toy_signer : Signer :=
  {| Sign m := Ok (toy_sign toy_key m);
     SigVerify pub m sig := if toy_verify pub m sig then None else Some (ErrorsNew "toy: bad signature");
     PublicKey := toy_key; Algorithm := "toy" |}.

#[global] Instance toy_laws : SignerLaws toy_signer.
Proof.
  split; [|done]. intros m sig [= <-]. simpl. unfold toy_verify.
  by rewrite bool_decide_true.
Qed.
End ToyScheme.
