(* ===== verification/Lineage.v ===== *)
(** * Ciphertext lineage (pkg/ares/lineage)

    The session-rooted Merkle DAG: node references, the canonical node hash
    and signing message, [Commit], [Verify], the [Store] interface with its
    laws and the in-memory store that implements it. *)
From Stdlib Require Import ZArith NArith Lia String Strings.Byte.
From stdpp Require Import base gmap list strings sorting.
From S2P Require Import Prelude Bytes.
From S2P Require Import Sign.

(** ** Node references *)

(** [type NodeRef [32]byte]. *)
Definition NodeRef : Type := { b : bytes | Is_true (Nat.eqb (length b) 32) }.

Definition ref_bytes (r : NodeRef) : bytes := proj1_sig r.

Lemma ref_eq (r s : NodeRef) : ref_bytes r = ref_bytes s -> r = s.
Proof.
  destruct r as [b p], s as [c q]. simpl. intros ->. f_equal. apply proof_irrel.
Qed.

Lemma ref_length (r : NodeRef) : length (ref_bytes r) = 32.
Proof. destruct r as [b p]. simpl. by apply Is_true_true, Nat.eqb_eq in p. Qed.

#[export] Instance NodeRef_eq_dec : EqDecision NodeRef := _.
#[export] Instance NodeRef_countable : Countable NodeRef := _.

Lemma sha256_is_ref m : Is_true (Nat.eqb (length (sha256 m)) 32).
Proof. apply Is_true_true, Nat.eqb_eq, sha256_length. Qed.

(** [NodeRef(sha256.Sum256(m))]. *)
Definition sum256 (m : bytes) : NodeRef := exist _ (sha256 m) (sha256_is_ref m).

Lemma sum256_eq m n : sum256 m = sum256 n <-> sha256 m = sha256 n.
Proof. split; [intros H; exact (f_equal ref_bytes H) | intros H; by apply ref_eq]. Qed.

(** [copy(r[:], raw)] into a fresh 32-byte array. *)
Lemma copy_is_ref (raw : bytes) :
  Is_true (Nat.eqb (length (take 32 (raw ++ repeat x00 32))) 32).
Proof.
  apply Is_true_true, Nat.eqb_eq.
  rewrite length_take, length_app, repeat_length. lia.
Qed.
Definition ref_copy (raw : bytes) : NodeRef :=
  exist _ (take 32 (raw ++ repeat x00 32)) (copy_is_ref raw).

(** [NodeRef.MarshalJSON] and [UnmarshalJSON], between the reference and the
    text of the JSON string. *)
Definition NodeRef_MarshalJSON (r : NodeRef) : string := hex_encode (ref_bytes r).

Definition NodeRef_UnmarshalJSON (s : string) : Outcome NodeRef :=
  if negb (Nat.eqb (String.length s) 64) then
    Err (Errorf [T "lineage: NodeRef must be 64 hex chars"])
  else match hex_decode s with
       | None => Err (Errorf [T "lineage: NodeRef hex decode: "; T s])
       | Some raw => Ok (ref_copy raw)
       end.

(** ** Nodes *)

Record DAGNode := {
  Hash : NodeRef;
  SessionID : string;
  PhaseID : string;
  Role : string;
  Parents : list NodeRef;
  ParentRoles : list string;
  PayloadHash : NodeRef;
  CreatedAt : Z;
  Producer : bytes;
  Signature : bytes;
  NodeAlgorithm : string
}.

(** The wire form of a node: binary fields in lowercase hex. *)
Record dagNodeJSON := {
  j_hash : string;
  j_session_id : string;
  j_phase_id : string;
  j_role : string;
  j_parents : list string;
  j_parent_roles : list string;
  j_payload_hash : string;
  j_created_at : Z;
  j_producer : string;
  j_signature : string;
  j_algorithm : string
}.

Definition DAGNode_MarshalJSON (n : DAGNode) : dagNodeJSON := {|
  j_hash := NodeRef_MarshalJSON (Hash n);
  j_session_id := SessionID n;
  j_phase_id := PhaseID n;
  j_role := Role n;
  j_parents := NodeRef_MarshalJSON <$> Parents n;
  j_parent_roles := ParentRoles n;
  j_payload_hash := NodeRef_MarshalJSON (PayloadHash n);
  j_created_at := CreatedAt n;
  j_producer := hex_encode (Producer n);
  j_signature := hex_encode (Signature n);
  j_algorithm := NodeAlgorithm n
|}.

Fixpoint unmarshal_refs (l : list string) : Outcome (list NodeRef) :=
  match l with
  | [] => Ok []
  | s :: l' =>
      match NodeRef_UnmarshalJSON s with
      | Ok r => match unmarshal_refs l' with Ok rs => Ok (r :: rs) | o => o end
      | Err e => Err e
      | Panic w => Panic w
      end
  end.

Definition DAGNode_UnmarshalJSON (d : dagNodeJSON) : Outcome DAGNode :=
  match NodeRef_UnmarshalJSON (j_hash d), unmarshal_refs (j_parents d),
        NodeRef_UnmarshalJSON (j_payload_hash d) with
  | Ok h, Ok ps, Ok ph =>
      match hex_decode (j_producer d) with
      | None => Err (Errorf [T "lineage: producer hex decode: "; T (j_producer d)])
      | Some prod =>
          match hex_decode (j_signature d) with
          | None => Err (Errorf [T "lineage: signature hex decode: "; T (j_signature d)])
          | Some sig => Ok {|
              Hash := h; SessionID := j_session_id d; PhaseID := j_phase_id d;
              Role := j_role d; Parents := ps; ParentRoles := j_parent_roles d;
              PayloadHash := ph; CreatedAt := j_created_at d; Producer := prod;
              Signature := sig; NodeAlgorithm := j_algorithm d |}
          end
      end
  | Err e, _, _ | _, Err e, _ | _, _, Err e => Err e
  | Panic w, _, _ | _, Panic w, _ | _, _, Panic w => Panic w
  end.

(** [bytes.Compare(a, b) < 0]. *)
Fixpoint bytes_ltb (a b : bytes) : bool :=
  match a, b with
  | _, [] => false
  | [], _ :: _ => true
  | x :: a', y :: b' =>
      if (Byte.to_N x <? Byte.to_N y)%N then true
      else if (Byte.to_N y <? Byte.to_N x)%N then false
      else bytes_ltb a' b'
  end.

(** [sort.SliceStable] by reference: insertion keeps the order of equal
    references. *)
Fixpoint insert_parent (x : NodeRef * string) (l : list (NodeRef * string)) :=
  match l with
  | [] => [x]
  | y :: l' =>
      if bytes_ltb (ref_bytes y.1) (ref_bytes x.1) then y :: insert_parent x l' else x :: l
  end.

Fixpoint index_parents (parents : list NodeRef) (roles : list string) : list (NodeRef * string) :=
  match parents with
  | [] => []
  | p :: ps =>
      match roles with
      | [] => (p, EmptyString) :: index_parents ps []
      | r :: rs => (p, r) :: index_parents ps rs
      end
  end.

Definition sort_indexed (l : list (NodeRef * string)) : list (NodeRef * string) :=
  foldr insert_parent [] l.

Definition sortParents (parents : list NodeRef) (parentRoles : list string)
  : list NodeRef * list string :=
  let sorted := sort_indexed (index_parents parents parentRoles) in
  (sorted.*1, sorted.*2).

Definition writeLenPrefixed (b : bytes) : bytes := be32 (N.of_nat (length b)) ++ b.

Definition HashPayload (payload : bytes) : NodeRef := sum256 payload.

(** The bytes [DeriveNodeHash] feeds to SHA-256. *)
Definition node_preimage (sessionID phaseID role : string) (payload : bytes)
    (sortedParents : list NodeRef) : bytes :=
  writeLenPrefixed (of_string sessionID) ++
  writeLenPrefixed (of_string phaseID) ++
  writeLenPrefixed (of_string role) ++
  writeLenPrefixed (ref_bytes (HashPayload payload)) ++
  be32 (N.of_nat (length sortedParents)) ++
  concat (ref_bytes <$> sortedParents).

Definition DeriveNodeHash (sessionID phaseID role : string) (payload : bytes)
    (sortedParents : list NodeRef) : NodeRef :=
  sum256 (node_preimage sessionID phaseID role payload sortedParents).

Definition SigningMessage (hash : NodeRef) (sessionID phaseID role : string) : bytes :=
  ref_bytes hash ++ writeLenPrefixed (of_string sessionID) ++
  writeLenPrefixed (of_string phaseID) ++ writeLenPrefixed (of_string role).

(** [NewDAGNode]; [now] is the reading of [time.Now().UTC()]. *)
Definition NewDAGNode (now : Z) (sessionID phaseID role : string) (payload : bytes)
    (parents : list NodeRef) (parentRoles : list string)
    (producer signature : bytes) (algorithm : string) : DAGNode :=
  let '(sortedParents, sortedRoles) := sortParents parents parentRoles in
  {| Hash := DeriveNodeHash sessionID phaseID role payload sortedParents;
     SessionID := sessionID; PhaseID := phaseID; Role := role;
     Parents := sortedParents; ParentRoles := sortedRoles;
     PayloadHash := HashPayload payload; CreatedAt := now;
     Producer := producer; Signature := signature; NodeAlgorithm := algorithm |}.

(** ** Commit and Verify *)

Definition Commit (now : Z) (sessionID phaseID role : string) (payload : bytes)
    (parents : list DAGNode) (signer : option Signer) : Outcome DAGNode :=
  match signer with
  | None => Err (ErrorsNew "lineage: Commit requires non-nil signer")
  | Some sg =>
      let '(sortedRefs, sortedRoles) := sortParents (Hash <$> parents) (Role <$> parents) in
      let hash := DeriveNodeHash sessionID phaseID role payload sortedRefs in
      match Sign sg (SigningMessage hash sessionID phaseID role) with
      | Ok signature =>
          Ok (NewDAGNode now sessionID phaseID role payload sortedRefs sortedRoles
                (PublicKey sg) signature (Algorithm sg))
      | Err e => Err e
      | Panic w => Panic w
      end
  end.

Definition mismatch (field : string) (expected got : bytes) (n : DAGNode) : GoError :=
  MismatchError field expected got (ref_bytes (Hash n)).

(** [Verify]: [None] is a nil error. *)
Definition Verify (node : DAGNode) (payload : bytes) (verifiers : gmap string Signer)
  : option GoError :=
  match verifiers !! NodeAlgorithm node with
  | None =>
      Some (mismatch "Algorithm" (of_string ("verifier for " +:+ dquote +:+ NodeAlgorithm node +:+ dquote)) [] node)
  | Some v =>
      let payloadHash := HashPayload payload in
      if bool_decide (payloadHash <> PayloadHash node) then
        Some (mismatch "PayloadHash" (ref_bytes (PayloadHash node)) (ref_bytes payloadHash) node)
      else
        let derived := DeriveNodeHash (SessionID node) (PhaseID node) (Role node) payload (Parents node) in
        if bool_decide (derived <> Hash node) then
          Some (mismatch "PayloadHash" (ref_bytes (Hash node)) (ref_bytes derived) node)
        else if Nat.eqb (length (Producer node)) 0 then
          Some (mismatch "Signature" (of_string "non-empty producer pubkey") [] node)
        else
          match SigVerify v (Producer node)
                  (SigningMessage (Hash node) (SessionID node) (PhaseID node) (Role node))
                  (Signature node) with
          | Some _ => Some (mismatch "Signature" (Signature node) [] node)
          | None => None
          end
  end.

(** The text of an error: [MismatchError.Error], [MissingContextError.Error]
    and the texts of the standard library's errors. *)
Fixpoint Error (e : GoError) : string :=
  match e with
  | ErrorsNew msg => msg
  | MismatchError Field Expected Got NodeHash =>
      ("lineage: mismatch on field " +:+ dquote +:+ Field +:+ dquote +:+ ": expected=" +:+
       hex_encode Expected +:+ " got=" +:+ hex_encode Got +:+ " node=" +:+ hex_encode NodeHash)%string
  | MissingContextError Key Phase =>
      ("phase: " +:+ Phase +:+ " requires context key " +:+ Key +:+ " which is not set")%string
  | Errorf parts =>
      (fix go (ps : list (string + GoError)) : string :=
         match ps with
         | [] => EmptyString
         | inl t :: ps' => (t +:+ go ps')%string
         | inr e' :: ps' => (Error e' +:+ go ps')%string
         end) parts
  end.

(** ** The [Store] interface (lineage/store.go) *)

Definition ErrNodeNotFound_msg : string := "lineage: node not found".
Definition ErrNodeNotFound : GoError := ErrorsNew ErrNodeNotFound_msg.
Definition ErrNodeExists_msg : string := "lineage: node exists".
Definition ErrNodeExists : GoError := ErrorsNew ErrNodeExists_msg.

Class Store (S : Type) := {
  Append : DAGNode -> M S unit;
  Get : NodeRef -> S -> Outcome DAGNode;
  (** the nodes of one session in iteration order; an [Err] entry is a pair
      whose error is not nil *)
  WalkSession : string -> S -> list (Outcome DAGNode)
}.

(** What a client of the store relies on.  [store_inv] is the representation
    invariant of the implementation. *)
Class StoreLaws (S : Type) `{Store S} := {
  store_inv : S -> Prop;
  append_inv n s : store_inv s -> store_inv (Append n s).2;
  append_new n s : store_inv s -> (forall m, Get (Hash n) s <> Ok m) ->
    (Append n s).1 = Ok tt /\ Get (Hash n) (Append n s).2 = Ok n;
  append_dup n m s : store_inv s -> Get (Hash n) s = Ok m ->
    Append n s = (Err ErrNodeExists, s);
  append_frame n s h : store_inv s -> h <> Hash n -> Get h (Append n s).2 = Get h s;
  get_hash h s n : store_inv s -> Get h s = Ok n -> Hash n = h;
  walk_sound sid s n : store_inv s -> Ok n ∈ WalkSession sid s ->
    SessionID n = sid /\ Get (Hash n) s = Ok n
}.

(** ** [InMemoryStore] *)

Module InMemory.
Record InMemoryStore := {
  byHash : gmap NodeRef DAGNode;
  bySession : gmap string (list NodeRef)
}.

Definition NewInMemoryStore : InMemoryStore := {| byHash := ∅; bySession := ∅ |}.

(** [s.bySession[id]]: a missing key reads as the nil slice. *)
Definition session_refs (sid : string) (s : InMemoryStore) : list NodeRef :=
  default [] (bySession s !! sid).

Definition Append (node : DAGNode) : M InMemoryStore unit := fun s =>
  match byHash s !! Hash node with
  | Some _ => (Err ErrNodeExists, s)
  | None =>
      (Ok tt, {| byHash := <[Hash node := node]> (byHash s);
                 bySession := <[SessionID node := session_refs (SessionID node) s ++ [Hash node]]> (bySession s) |})
  end.

Definition Get (hash : NodeRef) (s : InMemoryStore) : Outcome DAGNode :=
  match byHash s !! hash with
  | Some node => Ok node
  | None => Err ErrNodeNotFound
  end.

(** The snapshot the iterator walks. *)
Definition snapshot (sid : string) (s : InMemoryStore) : list DAGNode :=
  omap (fun r => byHash s !! r) (session_refs sid s).

Definition WalkSession (sid : string) (s : InMemoryStore) : list (Outcome DAGNode) :=
  Ok <$> snapshot sid s.

Definition Clear (sid : string) (s : InMemoryStore) : InMemoryStore :=
  {| byHash := foldr (fun r m => delete r m) (byHash s) (session_refs sid s);
     bySession := delete sid (bySession s) |}.

#[global] Instance store : Store InMemoryStore :=
  Build_Store InMemoryStore Append Get WalkSession.

(** The two indexes describe the same set of nodes. *)
Record store_wf (s : InMemoryStore) : Prop := {
  wf_hash h n : byHash s !! h = Some n -> Hash n = h /\ h ∈ session_refs (SessionID n) s;
  wf_refs sid r : r ∈ session_refs sid s ->
    exists n, byHash s !! r = Some n /\ SessionID n = sid;
  wf_nodup sid : NoDup (session_refs sid s)
}.

Lemma session_refs_insert sid sid' l h m :
  session_refs sid {| byHash := h; bySession := <[sid' := l]> m |} =
  if decide (sid = sid') then l else default [] (m !! sid).
Proof.
  unfold session_refs. simpl. destruct (decide (sid = sid')) as [->|Hne].
  - by rewrite lookup_insert_eq.
  - by rewrite lookup_insert_ne.
Qed.

Lemma NewInMemoryStore_wf : store_wf NewInMemoryStore.
Proof.
  split; unfold session_refs; simpl.
  - intros h n. by rewrite lookup_empty.
  - intros sid r. rewrite lookup_empty. simpl. set_solver.
  - intros sid. rewrite lookup_empty. simpl. constructor.
Qed.

Lemma Append_wf n s : store_wf s -> store_wf (Append n s).2.
Proof.
  intros [Hh Hr Hn]. unfold Append. destruct (byHash s !! Hash n) as [m|] eqn:E; [done|].
  split; simpl.
  - intros h m. rewrite session_refs_insert. destruct (decide (Hash n = h)) as [<-|Hd].
    + rewrite lookup_insert_eq. intros [= <-]. rewrite decide_True by done. set_solver.
    + rewrite lookup_insert_ne by done. intros Hm. destruct (Hh _ _ Hm) as [? Hin].
      split; [done|]. destruct (decide (SessionID m = SessionID n)) as [Hs|Hs]; [|done].
      rewrite Hs in Hin. set_solver.
  - intros sid r. rewrite session_refs_insert. intros Hin.
    destruct (decide (r = Hash n)) as [->|Hne].
    + exists n. rewrite lookup_insert_eq. split; [done|].
      destruct (decide (sid = SessionID n)); [done|].
      destruct (Hr sid (Hash n)) as (m & Hm & _); [done|]. congruence.
    + rewrite lookup_insert_ne by done. apply Hr.
      destruct (decide (sid = SessionID n)) as [->|Hs]; [set_solver | done].
  - intros sid. rewrite session_refs_insert.
    destruct (decide (sid = SessionID n)); [|apply Hn].
    apply NoDup_app. repeat split; [apply Hn| |apply NoDup_singleton].
    intros r Hin ->%list_elem_of_singleton. destruct (Hr _ _ Hin) as (m & Hm & _). congruence.
Qed.

Lemma foldr_delete_lookup (l : list NodeRef) (m : gmap NodeRef DAGNode) h :
  foldr (fun r m => delete r m) m l !! h = if decide (h ∈ l) then None else m !! h.
Proof.
  induction l as [|r l IH]; [done|]. cbn [foldr].
  destruct (decide (r = h)) as [->|Hd].
  - by rewrite lookup_delete_eq, decide_True by set_solver.
  - rewrite lookup_delete_ne, IH by done.
    apply decide_ext. set_solver.
Qed.

Lemma session_refs_clear sid sid' s :
  session_refs sid' (Clear sid s) = if decide (sid' = sid) then [] else session_refs sid' s.
Proof.
  unfold session_refs, Clear. simpl. destruct (decide (sid' = sid)) as [->|].
  - by rewrite lookup_delete_eq.
  - by rewrite lookup_delete_ne.
Qed.

Lemma Clear_wf sid s : store_wf s -> store_wf (Clear sid s).
Proof.
  intros [Hh Hr Hn]. split.
  - intros h n. simpl. rewrite foldr_delete_lookup, session_refs_clear.
    case_decide as Hd; [done|]. intros Hl. destruct (Hh _ _ Hl) as [? Hin].
    split; [done|]. rewrite decide_False; [done|]. intros <-. done.
  - intros sid' r. rewrite session_refs_clear. case_decide as Hd; [set_solver|].
    intros Hin. destruct (Hr _ _ Hin) as (n & Hl & <-). exists n. split; [|done].
    simpl. rewrite foldr_delete_lookup, decide_False; [done|].
    intros Hin'. destruct (Hr _ _ Hin') as (m & Hm & ?). congruence.
  - intros sid'. rewrite session_refs_clear. case_decide; [constructor|apply Hn].
Qed.

Lemma snapshot_elem sid s n :
  store_wf s -> n ∈ snapshot sid s <-> byHash s !! Hash n = Some n /\ SessionID n = sid.
Proof.
  intros [Hh Hr Hn]. unfold snapshot. rewrite list_elem_of_omap. split.
  - intros (r & Hin & Hl). destruct (Hh _ _ Hl) as [<- _].
    destruct (Hr _ _ Hin) as (m & Hm & <-). split; [done|]. congruence.
  - intros [Hl <-]. exists (Hash n). split; [|done]. by apply (Hh _ _ Hl).
Qed.

#[global] Instance store_laws : StoreLaws InMemoryStore.
Proof.
  refine {| store_inv := store_wf |}; simpl; unfold Get.
  - intros. by apply Append_wf.
  - intros n s Hwf Hno. unfold Append.
    destruct (byHash s !! Hash n) as [m|] eqn:E; [by destruct (Hno m)|].
    simpl. by rewrite lookup_insert_eq.
  - intros n m s Hwf Hg. unfold Append. by destruct (byHash s !! Hash n).
  - intros n s h Hwf Hne. unfold Append. destruct (byHash s !! Hash n); [done|].
    simpl. by rewrite lookup_insert_ne.
  - intros h s n Hwf Hg. destruct (byHash s !! h) eqn:E; [|done].
    injection Hg as ->. by apply (wf_hash _ Hwf) in E as [? _].
  - intros sid s n Hwf (m & [= ->] & Hin)%list_elem_of_fmap.
    apply snapshot_elem in Hin as [Hl ?]; [|done]. by rewrite Hl.
Defined.
End InMemory.

(** ** Canonical parent order *)

(** The order the sort leaves the references in. *)
Definition ref_le (r s : NodeRef) : Prop := bytes_ltb (ref_bytes s) (ref_bytes r) = false.

Lemma bytes_ltb_antisym a b : bytes_ltb a b = false -> bytes_ltb b a = false -> a = b.
Proof.
  revert b. induction a as [|x a IH]; intros [|y b]; simpl; try done.
  destruct (N.ltb_spec (Byte.to_N x) (Byte.to_N y)); [done|].
  destruct (N.ltb_spec (Byte.to_N y) (Byte.to_N x)); [done|].
  intros ? ?. rewrite (IH b) by done. f_equal.
  assert (Some x = Some y) as [= ->]; [|done].
  rewrite <- !Byte.of_to_N. f_equal. lia.
Qed.

Lemma bytes_le_trans a b c :
  bytes_ltb b a = false -> bytes_ltb c b = false -> bytes_ltb c a = false.
Proof.
  revert b c. induction a as [|x a IH]; intros [|y b] [|z c]; simpl; try done.
  destruct (N.ltb_spec (Byte.to_N y) (Byte.to_N x)); [done|].
  destruct (N.ltb_spec (Byte.to_N z) (Byte.to_N y)); [done|].
  destruct (N.ltb_spec (Byte.to_N z) (Byte.to_N x)); [lia|].
  destruct (N.ltb_spec (Byte.to_N x) (Byte.to_N y));
    destruct (N.ltb_spec (Byte.to_N x) (Byte.to_N z)); try done; try lia.
  destruct (N.ltb_spec (Byte.to_N y) (Byte.to_N z)); [lia|]. eauto.
Qed.

Lemma bytes_ltb_asym a b : bytes_ltb a b = true -> bytes_ltb b a = false.
Proof.
  revert b. induction a as [|x a IH]; intros [|y b]; simpl; try done.
  destruct (N.ltb_spec (Byte.to_N x) (Byte.to_N y)).
  - destruct (N.ltb_spec (Byte.to_N y) (Byte.to_N x)); [lia|done].
  - destruct (N.ltb_spec (Byte.to_N y) (Byte.to_N x)); [done|]. eauto.
Qed.

#[export] Instance ref_le_trans : Transitive ref_le.
Proof. intros r s t. unfold ref_le. eauto using bytes_le_trans. Qed.

#[export] Instance ref_le_antisymm : AntiSymm (=) ref_le.
Proof. intros r s Hr Hs. by apply ref_eq, bytes_ltb_antisym. Qed.

Lemma index_parents_fst ps rs : (index_parents ps rs).*1 = ps.
Proof. revert rs. induction ps as [|p ps IH]; intros [|r rs]; simpl; by rewrite ?IH. Qed.

Lemma insert_parent_perm x l : insert_parent x l ≡ₚ x :: l.
Proof.
  induction l as [|y l IH]; [done|]. cbn [insert_parent].
  destruct (bytes_ltb _ _); [|done]. rewrite IH. apply Permutation_swap.
Qed.

Lemma sort_indexed_perm l : sort_indexed l ≡ₚ l.
Proof.
  unfold sort_indexed. induction l as [|x l IH]; [done|]. simpl.
  rewrite insert_parent_perm. by f_equiv.
Qed.

Lemma insert_parent_sorted x l :
  Sorted ref_le l.*1 -> Sorted ref_le (insert_parent x l).*1.
Proof.
  induction l as [|y l IH]; intros Hs; [repeat constructor|]. cbn [insert_parent].
  destruct (bytes_ltb _ _) eqn:E.
  - cbn [fmap list_fmap]. apply Sorted_inv in Hs as [Hs Hd]. constructor; [by apply IH|].
    destruct l as [|z l]; cbn [insert_parent] in *.
    + constructor. by apply bytes_ltb_asym.
    + destruct (bytes_ltb (ref_bytes z.1) _); constructor.
      * by inversion Hd.
      * by apply bytes_ltb_asym.
  - cbn [fmap list_fmap]. constructor; [done|]. by constructor.
Qed.

Lemma sort_indexed_sorted l : Sorted ref_le (sort_indexed l).*1.
Proof.
  unfold sort_indexed. induction l; simpl; [constructor|]. by apply insert_parent_sorted.
Qed.

(** Two sorts of the same references agree on the references. *)
Lemma sort_refs_unique l1 l2 : l1.*1 ≡ₚ l2.*1 -> (sort_indexed l1).*1 = (sort_indexed l2).*1.
Proof.
  intros Hp. apply (Sorted_unique ref_le); try apply sort_indexed_sorted.
  by rewrite !sort_indexed_perm.
Qed.

Lemma insert_parent_filter x l (r : NodeRef) :
  Sorted ref_le l.*1 ->
  filter (fun y => y.1 = r) (insert_parent x l) = filter (fun y => y.1 = r) (x :: l).
Proof.
  induction l as [|y l IH]; intros Hs; [done|]. cbn [insert_parent].
  destruct (bytes_ltb _ _) eqn:E; [|done].
  apply Sorted_inv in Hs as [Hs _]. specialize (IH Hs).
  assert (y.1 <> x.1).
  { intros Heq. rewrite Heq in E. pose proof (bytes_ltb_asym _ _ E). congruence. }
  rewrite !filter_cons in *. rewrite IH. repeat case_decide; congruence.
Qed.

(** The sort is stable: entries with the same reference keep their order. *)
Lemma sort_indexed_stable l (r : NodeRef) :
  filter (fun y => y.1 = r) (sort_indexed l) = filter (fun y => y.1 = r) l.
Proof.
  unfold sort_indexed. induction l as [|x l IH]; [done|]. cbn [foldr].
  rewrite insert_parent_filter by apply sort_indexed_sorted.
  rewrite !filter_cons, IH. done.
Qed.

(** ** Framing *)

Lemma be32_inj_len {A} (a b : list A) x y :
  (N.of_nat (length a) < 2 ^ 32)%N -> (N.of_nat (length b) < 2 ^ 32)%N ->
  be32 (N.of_nat (length a)) ++ x = be32 (N.of_nat (length b)) ++ y ->
  length a = length b /\ x = y.
Proof.
  intros Ha Hb H. apply app_inj_length in H as [H ?].
  - split; [|done]. apply be_bytes_inj in H; [lia| |]; by simpl.
  - unfold be32. by rewrite !be_bytes_length.
Qed.

Lemma writeLenPrefixed_inj a b x y :
  (N.of_nat (length a) < 2 ^ 32)%N -> (N.of_nat (length b) < 2 ^ 32)%N ->
  writeLenPrefixed a ++ x = writeLenPrefixed b ++ y -> a = b /\ x = y.
Proof.
  unfold writeLenPrefixed. rewrite <- !app_assoc. intros Ha Hb H.
  apply be32_inj_len in H as [Hl H]; [|done..]. by apply app_inj_length.
Qed.

Lemma concat_refs_inj ps qs :
  concat (ref_bytes <$> ps) = concat (ref_bytes <$> qs) -> ps = qs.
Proof.
  intros H. apply (concat_inj_length 32) in H; [|lia|..].
  - revert qs H. induction ps as [|p ps IH]; intros [|q qs]; simpl; try done.
    intros [= Hpq H]. f_equal; [by apply ref_eq | by apply IH].
  - apply Forall_fmap, Forall_true. intros r. simpl. apply ref_length.
  - apply Forall_fmap, Forall_true. intros r. simpl. apply ref_length.
Qed.

(** A string short enough for its length prefix not to be truncated. *)
Definition framed (s : string) : Prop := (N.of_nat (length (of_string s)) < 2 ^ 32)%N.

Lemma node_preimage_inj s1 p1 r1 pl1 ps1 s2 p2 r2 pl2 ps2 :
  framed s1 -> framed p1 -> framed r1 -> (N.of_nat (length ps1) < 2 ^ 32)%N ->
  framed s2 -> framed p2 -> framed r2 -> (N.of_nat (length ps2) < 2 ^ 32)%N ->
  node_preimage s1 p1 r1 pl1 ps1 = node_preimage s2 p2 r2 pl2 ps2 ->
  s1 = s2 /\ p1 = p2 /\ r1 = r2 /\ HashPayload pl1 = HashPayload pl2 /\ ps1 = ps2.
Proof.
  intros Hs1 Hp1 Hr1 Hl1 Hs2 Hp2 Hr2 Hl2 H. unfold node_preimage in H.
  apply writeLenPrefixed_inj in H as [Hs H]; [|done..].
  apply writeLenPrefixed_inj in H as [Hp H]; [|done..].
  apply writeLenPrefixed_inj in H as [Hr H]; [|done..].
  apply writeLenPrefixed_inj in H as [Hpl H]; [|by rewrite ref_length..].
  apply be32_inj_len in H as [_ H]; [|done..].
  repeat split; eauto using of_string_inj, ref_eq, concat_refs_inj.
Qed.

(** ** Properties of nodes *)

(** C27. The canonical hash binds every identifying field: when two nodes have
    the same hash, their session, phase, role, payload hash and parents are the
    same, or their two (different) preimages are a SHA-256 collision. *)
Theorem DeriveNodeHash_binding s1 p1 r1 pl1 ps1 s2 p2 r2 pl2 ps2 :
  framed s1 -> framed p1 -> framed r1 -> (N.of_nat (length ps1) < 2 ^ 32)%N ->
  framed s2 -> framed p2 -> framed r2 -> (N.of_nat (length ps2) < 2 ^ 32)%N ->
  DeriveNodeHash s1 p1 r1 pl1 ps1 = DeriveNodeHash s2 p2 r2 pl2 ps2 ->
  (s1 = s2 /\ p1 = p2 /\ r1 = r2 /\ HashPayload pl1 = HashPayload pl2 /\ ps1 = ps2) \/
  (node_preimage s1 p1 r1 pl1 ps1 <> node_preimage s2 p2 r2 pl2 ps2 /\
   sha256 (node_preimage s1 p1 r1 pl1 ps1) = sha256 (node_preimage s2 p2 r2 pl2 ps2)).
Proof.
  intros ???????? Hh.
  destruct (decide (node_preimage s1 p1 r1 pl1 ps1 = node_preimage s2 p2 r2 pl2 ps2)).
  - left. by apply node_preimage_inj.
  - right. split; [assumption|]. exact (proj1 (sum256_eq _ _) Hh).
Qed.

Lemma DeriveNodeHash_binding_witness :
  let h := DeriveNodeHash "s" "p" "r" [] [] in
  h = h /\ (("s" = "s" /\ "p" = "p" /\ "r" = "r" /\ HashPayload [] = HashPayload [] /\
             @nil NodeRef = [])%string \/
            (node_preimage "s" "p" "r" [] [] <> node_preimage "s" "p" "r" [] [] /\
             sha256 (node_preimage "s" "p" "r" [] []) = sha256 (node_preimage "s" "p" "r" [] []))).
Proof.
  split; [reflexivity|].
  apply (DeriveNodeHash_binding "s" "p" "r" [] [] "s" "p" "r" [] []); reflexivity.
Defined.

(** The signing message binds the hash and the labels: two messages are
    equal only for the same hash, session, phase and role. *)
Lemma SigningMessage_inj h1 s1 p1 r1 h2 s2 p2 r2 :
  framed s1 -> framed p1 -> framed r1 -> framed s2 -> framed p2 -> framed r2 ->
  SigningMessage h1 s1 p1 r1 = SigningMessage h2 s2 p2 r2 ->
  h1 = h2 /\ s1 = s2 /\ p1 = p2 /\ r1 = r2.
Proof.
  unfold SigningMessage. intros ?????? H.
  apply app_inj_length in H as [Hh H]; [|by rewrite !ref_length].
  apply writeLenPrefixed_inj in H as [Hs H]; [|done..].
  apply writeLenPrefixed_inj in H as [Hp H]; [|done..].
  rewrite <- (app_nil_r (writeLenPrefixed (of_string r1))),
          <- (app_nil_r (writeLenPrefixed (of_string r2))) in H.
  apply writeLenPrefixed_inj in H as [Hr _]; [|done..].
  split; [by apply ref_eq|]. repeat split; by apply of_string_inj.
Qed.

Lemma SigningMessage_inj_witness :
  let h := sum256 [] in h = h /\ "s"%string = "s"%string /\ "p"%string = "p"%string /\ "r"%string = "r"%string.
Proof. apply (SigningMessage_inj (sum256 []) "s" "p" "r" (sum256 []) "s" "p" "r"); reflexivity. Defined.

Lemma sortParents_facts ps rs :
  let '(refs, roles) := sortParents ps rs in
  Sorted ref_le refs /\
  zip refs roles ≡ₚ index_parents ps rs /\
  (forall r, filter (fun y => y.1 = r) (zip refs roles) =
             filter (fun y => y.1 = r) (index_parents ps rs)) /\
  refs ≡ₚ ps.
Proof.
  unfold sortParents. set (l := index_parents ps rs).
  assert (Hz : zip (sort_indexed l).*1 (sort_indexed l).*2 = sort_indexed l)
    by apply zip_fst_snd.
  repeat split.
  - apply sort_indexed_sorted.
  - rewrite Hz. apply sort_indexed_perm.
  - intros r. rewrite Hz. apply sort_indexed_stable.
  - rewrite sort_indexed_perm. unfold l. by rewrite index_parents_fst.
Qed.

(** [sortParents] returns the references in lexicographic order, moves
    every role with its reference, and is stable; a missing role reads as the
    empty string. *)
Lemma sortParents_spec ps rs :
  let '(refs, roles) := sortParents ps rs in
  Sorted ref_le refs /\
  zip refs roles ≡ₚ index_parents ps rs /\
  (forall r, filter (fun y => y.1 = r) (zip refs roles) =
             filter (fun y => y.1 = r) (index_parents ps rs)) /\
  refs ≡ₚ ps.
Proof. exact (sortParents_facts ps rs). Qed.

(** A node's hash and parent list do not depend on the order in which the
    caller lists the parents, nor on roles, time, producer or signature. *)
Lemma NewDAGNode_parent_order now1 now2 sid ph role payload ps1 rs1 ps2 rs2 pr1 sg1 al1 pr2 sg2 al2 :
  ps1 ≡ₚ ps2 ->
  let n1 := NewDAGNode now1 sid ph role payload ps1 rs1 pr1 sg1 al1 in
  let n2 := NewDAGNode now2 sid ph role payload ps2 rs2 pr2 sg2 al2 in
  Hash n1 = Hash n2 /\ Parents n1 = Parents n2.
Proof.
  intros Hp. unfold NewDAGNode, sortParents. simpl.
  assert (E : (sort_indexed (index_parents ps1 rs1)).*1 = (sort_indexed (index_parents ps2 rs2)).*1).
  { apply sort_refs_unique. by rewrite !index_parents_fst. }
  by rewrite E.
Qed.

Lemma NewDAGNode_parent_order_witness :
  let a := sum256 [x01] in let b := sum256 [x02] in
  [a; b] ≡ₚ [b; a] /\
  Hash (NewDAGNode 0 "s" "p" "r" [] [a; b] [] [] [] "x") =
  Hash (NewDAGNode 1 "s" "p" "r" [] [b; a] ["q"%string] [] [] "y").
Proof.
  split; [apply Permutation_swap|].
  apply (NewDAGNode_parent_order 0 1 "s" "p" "r" [] [sum256 [x01]; sum256 [x02]] []
           [sum256 [x02]; sum256 [x01]] ["q"%string] [] [] "x" [] [] "y"), Permutation_swap.
Defined.

Lemma Verify_None node payload verifiers :
  Verify node payload verifiers = None <->
  exists v, verifiers !! NodeAlgorithm node = Some v /\
    PayloadHash node = HashPayload payload /\
    Hash node = DeriveNodeHash (SessionID node) (PhaseID node) (Role node) payload (Parents node) /\
    Producer node <> [] /\
    SigVerify v (Producer node)
      (SigningMessage (Hash node) (SessionID node) (PhaseID node) (Role node)) (Signature node) = None.
Proof.
  unfold Verify. destruct (verifiers !! NodeAlgorithm node) as [v|]; [|naive_solver].
  case_bool_decide as H1; [naive_solver|]. case_bool_decide as H2; [naive_solver|].
  destruct (Nat.eqb_spec (length (Producer node)) 0) as [H3|H3].
  - apply length_zero_iff_nil in H3. naive_solver.
  - destruct (SigVerify _ _ _ _) eqn:E; split; try done.
    + intros (v' & [= <-] & _ & _ & _ & H). congruence.
    + intros _. exists v. repeat split; auto.
      intros Hn. apply H3. by rewrite Hn.
Qed.

(** [Verify] accepts exactly the nodes whose algorithm has a verifier,
    whose payload hash and canonical hash are those of the payload, whose
    producer key is not empty and whose signature verifies. *)
Lemma Verify_iff node payload verifiers :
  Verify node payload verifiers = None <->
  exists v, verifiers !! NodeAlgorithm node = Some v /\
    PayloadHash node = HashPayload payload /\
    Hash node = DeriveNodeHash (SessionID node) (PhaseID node) (Role node) payload (Parents node) /\
    Producer node <> [] /\
    SigVerify v (Producer node)
      (SigningMessage (Hash node) (SessionID node) (PhaseID node) (Role node)) (Signature node) = None.
Proof. exact (Verify_None node payload verifiers). Qed.

(** Tampering with a payload is detected: a node that verifies with two
    different payloads is a SHA-256 collision between them. *)
Lemma Verify_tamper node p1 p2 verifiers :
  Verify node p1 verifiers = None -> p1 <> p2 -> sha256 p1 <> sha256 p2 ->
  exists field expected got,
    Verify node p2 verifiers = Some (mismatch field expected got node).
Proof.
  intros (v & Hv & Hp & _)%Verify_None Hne Hh. unfold Verify. rewrite Hv.
  assert (HashPayload p2 <> PayloadHash node).
  { rewrite Hp. unfold HashPayload. rewrite sum256_eq. congruence. }
  rewrite bool_decide_true by done. eauto.
Qed.

Lemma sortParents_sorted_refs ps rs : Sorted ref_le ps -> (sortParents ps rs).1 = ps.
Proof.
  intros Hs. simpl. apply (Sorted_unique ref_le); [apply sort_indexed_sorted|done|].
  by rewrite sort_indexed_perm, index_parents_fst.
Qed.

(** [Commit] signs the hash the node ends up with. *)
Lemma Commit_Ok now sid ph role payload parents sg n :
  Commit now sid ph role payload parents (Some sg) = Ok n ->
  exists sig,
    Sign sg (SigningMessage (Hash n) sid ph role) = Ok sig /\
    SessionID n = sid /\ PhaseID n = ph /\ Role n = role /\
    PayloadHash n = HashPayload payload /\
    Hash n = DeriveNodeHash sid ph role payload (Parents n) /\
    Parents n ≡ₚ Hash <$> parents /\
    Producer n = PublicKey sg /\ Signature n = sig /\ NodeAlgorithm n = Algorithm sg.
Proof.
  unfold Commit. destruct (sortParents (Hash <$> parents) (Role <$> parents)) as [refs roles] eqn:E.
  pose proof (sortParents_facts (Hash <$> parents) (Role <$> parents)) as Hspec.
  rewrite E in Hspec. destruct Hspec as (Hs & _ & _ & Hp).
  destruct (Sign sg _) as [sig| |] eqn:Hsig; [|done|done]. intros [= <-].
  pose proof (sortParents_sorted_refs refs roles Hs) as Hrefs.
  unfold NewDAGNode. destruct (sortParents refs roles) as [refs' roles'].
  simpl in Hrefs. subst refs'. simpl. exists sig. repeat split; auto.
Qed.

Lemma Commit_verifies now sid ph role payload parents sg `{!SignerLaws sg} n verifiers :
  Commit now sid ph role payload parents (Some sg) = Ok n ->
  verifiers !! Algorithm sg = Some sg ->
  Verify n payload verifiers = None.
Proof.
  intros (sig & Hsig & Hs & Hp & Hr & Hpl & Hh & _ & Hprod & Hsg & Halg)%Commit_Ok Hv.
  apply Verify_None. exists sg. rewrite Halg, Hs, Hp, Hr, Hprod, Hsg.
  repeat split; auto.
  - apply public_key_nonempty.
  - by apply sign_verifies.
Qed.

(** C26. What [Commit] produces, [Verify] accepts, on every runner whose
    verifier map holds the producer's own scheme. *)
Theorem Commit_Verify now sid ph role payload parents sg `{!SignerLaws sg} n verifiers :
  Commit now sid ph role payload parents (Some sg) = Ok n ->
  verifiers !! Algorithm sg = Some sg ->
  Verify n payload verifiers = None.
Proof. exact (Commit_verifies now sid ph role payload parents sg n verifiers). Qed.

Lemma Verify_tamper_witness :
  exists n, Commit 0 "s" "p" "r" [x01] [] (Some ToyScheme.toy_signer) = Ok n /\
    exists field expected got,
      Verify n [x02] {["toy"%string := ToyScheme.toy_signer]} = Some (mismatch field expected got n).
Proof.
  eexists. split; [reflexivity|].
  apply (Verify_tamper _ [x01] [x02]).
  - vm_compute. reflexivity.
  - discriminate.
  - vm_compute. discriminate.
Defined.

Lemma Commit_Verify_witness :
  exists n, Commit 0 "s" "p" "r" [x01] [] (Some ToyScheme.toy_signer) = Ok n /\
    Verify n [x01] {["toy"%string := ToyScheme.toy_signer]} = None.
Proof.
  eexists. split; [reflexivity|].
  exact (Commit_Verify 0 "s" "p" "r" [x01] [] ToyScheme.toy_signer _
           {["toy"%string := ToyScheme.toy_signer]} eq_refl eq_refl).
Defined.

Lemma NodeRef_JSON_roundtrip r : NodeRef_UnmarshalJSON (NodeRef_MarshalJSON r) = Ok r.
Proof.
  unfold NodeRef_UnmarshalJSON, NodeRef_MarshalJSON.
  rewrite hex_encode_length, ref_length. cbn [Nat.mul Nat.add Nat.eqb negb].
  rewrite hex_decode_encode. f_equal. apply ref_eq. cbn [ref_copy ref_bytes proj1_sig].
  pose proof (ref_length r) as Hl. rewrite take_app_le by lia. by rewrite take_ge by lia.
Qed.

Lemma unmarshal_refs_marshal rs : unmarshal_refs (NodeRef_MarshalJSON <$> rs) = Ok rs.
Proof.
  induction rs as [|r rs IH]; [done|]. cbn [fmap list_fmap unmarshal_refs].
  by rewrite NodeRef_JSON_roundtrip, IH.
Qed.

(** The wire form of a node decodes to the node. *)
Lemma DAGNode_JSON_roundtrip n : DAGNode_UnmarshalJSON (DAGNode_MarshalJSON n) = Ok n.
Proof.
  unfold DAGNode_UnmarshalJSON, DAGNode_MarshalJSON. simpl.
  rewrite !NodeRef_JSON_roundtrip, unmarshal_refs_marshal, !hex_decode_encode.
  by destruct n.
Qed.

(** ** The in-memory store refines an append-only log *)

Section LogSpec.
Import InMemory.

(** The abstract state: the nodes in the order they were first appended. *)
Definition log_get (h : NodeRef) (log : list DAGNode) : Outcome DAGNode :=
  match list_find (fun n => Hash n = h) log with
  | Some (_, n) => Ok n
  | None => Err ErrNodeNotFound
  end.
Definition log_append (n : DAGNode) : M (list DAGNode) unit := fun log =>
  match log_get (Hash n) log with
  | Ok _ => (Err ErrNodeExists, log)
  | _ => (Ok tt, log ++ [n])
  end.
Definition log_walk (sid : string) (log : list DAGNode) : list DAGNode :=
  filter (fun n => SessionID n = sid) log.
Definition log_clear (sid : string) (log : list DAGNode) : list DAGNode :=
  filter (fun n => SessionID n <> sid) log.

(** The operations a client performs, with what it observes. *)
Inductive store_op := OpAppend (n : DAGNode) | OpClear (sid : string).

Definition run_op (op : store_op) (s : InMemoryStore) : Outcome unit * InMemoryStore :=
  match op with OpAppend n => Append n s | OpClear sid => (Ok tt, Clear sid s) end.
Definition run_log (op : store_op) (l : list DAGNode) : Outcome unit * list DAGNode :=
  match op with OpAppend n => log_append n l | OpClear sid => (Ok tt, log_clear sid l) end.

Fixpoint run_ops {St} (f : store_op -> St -> Outcome unit * St) (ops : list store_op) (s : St)
  : list (Outcome unit) * St :=
  match ops with
  | [] => ([], s)
  | op :: ops' =>
      let '(o, s1) := f op s in
      let '(os, s2) := run_ops f ops' s1 in (o :: os, s2)
  end.

Record refines (s : InMemoryStore) (log : list DAGNode) : Prop := {
  ref_lookup h n : byHash s !! h = Some n <-> n ∈ log /\ Hash n = h;
  ref_session sid : session_refs sid s = Hash <$> log_walk sid log;
  ref_nodup : NoDup (Hash <$> log)
}.

Lemma NoDup_fmap_inj_elem (log : list DAGNode) a b :
  NoDup (Hash <$> log) -> a ∈ log -> b ∈ log -> Hash a = Hash b -> a = b.
Proof.
  induction log as [|x log IH]; [set_solver|]. rewrite fmap_cons.
  intros [Hx Hn]%NoDup_cons [->|Ha]%elem_of_cons [->|Hb]%elem_of_cons He; auto.
  - destruct Hx. rewrite He. by apply list_elem_of_fmap_2.
  - destruct Hx. rewrite <- He. by apply list_elem_of_fmap_2.
Qed.

Lemma refines_get s log h : refines s log -> Get h s = log_get h log.
Proof.
  intros [Hl _ Hn]. unfold Get, log_get.
  destruct (list_find _ log) as [[i n]|] eqn:E.
  - apply list_find_Some in E as (Hi & <- & _).
    rewrite (proj2 (Hl (Hash n) n)); [done|]. split; [|done].
    by eapply list_elem_of_lookup_2.
  - destruct (byHash s !! h) as [n|] eqn:El; [|done].
    apply Hl in El as [Hin Hh]. apply list_find_None in E.
    rewrite Forall_forall in E. by destruct (E n Hin).
Qed.

Lemma refines_append s log n :
  refines s log ->
  (Append n s).1 = (log_append n log).1 /\ refines (Append n s).2 (log_append n log).2.
Proof.
  intros HR. unfold log_append. rewrite <- (refines_get s) by done.
  unfold Append, Get. destruct (byHash s !! Hash n) as [m|] eqn:E; [done|].
  destruct HR as [Hl Hs Hn]. split; [done|]. simpl. split.
  - intros h m. cbn [byHash]. rewrite lookup_insert_Some, Hl. rewrite elem_of_app, list_elem_of_singleton.
    split; [naive_solver|]. intros [[Hin| ->] <-]; [|by left].
    right. split; [|done]. intros Heq. rewrite Heq in E.
    assert (byHash s !! Hash m = Some m) by (by apply Hl). congruence.
  - intros sid. rewrite session_refs_insert. unfold log_walk. rewrite filter_app, fmap_app.
    destruct (decide (sid = SessionID n)) as [->|Hne].
    + rewrite Hs, filter_cons_True by done. done.
    + rewrite filter_cons_False by congruence. simpl. rewrite app_nil_r. apply Hs.
  - rewrite fmap_app. apply NoDup_app. split; [done|]. split; [|apply NoDup_singleton].
    intros h (m & -> & Hin)%list_elem_of_fmap Hh. apply list_elem_of_singleton in Hh.
    assert (byHash s !! Hash m = Some m) by (by apply Hl). congruence.
Qed.

Lemma refines_clear s log sid : refines s log -> refines (Clear sid s) (log_clear sid log).
Proof.
  intros [Hl Hs Hn]. unfold log_clear. split.
  - intros h n. simpl. rewrite foldr_delete_lookup, Hs. unfold log_walk.
    rewrite list_elem_of_filter. destruct (decide _) as [Hin|Hno].
    + split; [done|]. intros ((Hne & Hnl) & <-).
      apply list_elem_of_fmap in Hin as (m & Hh & [Hsm Hm]%list_elem_of_filter).
      assert (n = m) as -> by (by eapply NoDup_fmap_inj_elem). done.
    + rewrite Hl. split; [|naive_solver]. intros [Hin <-]. repeat split; auto.
      intros Hsn. apply Hno, list_elem_of_fmap_2. by apply list_elem_of_filter.
  - intros sid'. rewrite session_refs_clear, Hs. unfold log_walk.
    destruct (decide (sid' = sid)) as [->|Hne].
    + rewrite (list_filter_filter _ (fun n => SessionID n <> sid)).
      rewrite (list_filter_iff _ (fun _ => False)) by naive_solver.
      clear. by induction log.
    + rewrite list_filter_filter_l; [done|]. naive_solver.
  - eapply sublist_NoDup; [done|]. apply fmap_sublist, sublist_filter.
Qed.

Lemma refines_run_op op s log :
  refines s log ->
  (run_op op s).1 = (run_log op log).1 /\ refines (run_op op s).2 (run_log op log).2.
Proof.
  destruct op as [n|sid]; intros HR; simpl; [by apply refines_append|].
  split; [done|by apply refines_clear].
Qed.

Lemma refines_run_ops ops s log :
  refines s log ->
  (run_ops run_op ops s).1 = (run_ops run_log ops log).1 /\
  refines (run_ops run_op ops s).2 (run_ops run_log ops log).2.
Proof.
  revert s log. induction ops as [|op ops IH]; intros s log HR; simpl; [done|].
  destruct (refines_run_op op s log HR) as [Ho HR'].
  destruct (run_op op s) as [o s1], (run_log op log) as [o' l1]; simpl in *.
  destruct (IH _ _ HR') as [IHo IHr].
  destruct (run_ops run_op ops s1), (run_ops run_log ops l1); simpl in *.
  by rewrite Ho, IHo.
Qed.

Lemma refines_empty : refines NewInMemoryStore [].
Proof. split; [|done|constructor]. intros h n. simpl. set_solver. Qed.

Lemma refines_walk s log sid :
  refines s log -> WalkSession sid s = Ok <$> log_walk sid log.
Proof.
  intros HR. destruct HR as [Hl Hs Hn]. unfold WalkSession, snapshot. rewrite Hs.
  assert (Hsub : forall n, n ∈ log_walk sid log -> byHash s !! Hash n = Some n).
  { intros n [_ Hin]%list_elem_of_filter. by apply Hl. }
  induction (log_walk sid log) as [|n l IH]; [done|].
  rewrite fmap_cons. simpl. rewrite (Hsub n) by set_solver. simpl.
  f_equal. apply IH. set_solver.
Qed.

(** C28. Whatever sequence of [Append] and [Clear] calls a client makes on a
    new [InMemoryStore], each call returns what an append-only log of nodes
    returns, and afterwards [Get] answers as the log's first entry with that
    hash and [WalkSession] yields exactly the session's entries of the log,
    in insertion order and each without error. *)
Theorem InMemoryStore_refines_log (ops : list store_op) :
  let sm := run_ops run_op ops NewInMemoryStore in
  let lg := run_ops run_log ops [] in
  sm.1 = lg.1 /\
  (forall h, Get h sm.2 = log_get h lg.2) /\
  (forall sid, WalkSession sid sm.2 = Ok <$> log_walk sid lg.2).
Proof.
  destruct (refines_run_ops ops NewInMemoryStore [] refines_empty) as [Ho HR].
  split; [done|]. split; intros; [by apply refines_get|by apply refines_walk].
Qed.
End LogSpec.
