(* ===== verification/Context.v ===== *)
(** * Session context (pkg/ares/phase: types.go, context.go, accumulator.go, errors.go)

    Context schemas, the error sentinels, the session context with its typed
    accessors and lineage operations, and the message accumulator.  A Go map is
    a [gmap] where only its content matters and an association list where the
    code ranges over it: the list is then one of the iteration orders Go may
    choose. *)
From Stdlib Require Import ZArith NArith Lia String Ascii Strings.Byte.
From stdpp Require Import base gmap list strings.
From S2P Require Import Prelude Bytes.
From S2P Require Import GoFmt.
From S2P Require Import Sign.
From S2P Require Import Lineage.

(** ** Error sentinels (errors.go) *)

Definition ErrTransient_msg : string := "phase: transient failure (retryable)".
Definition ErrTransient : GoError := ErrorsNew ErrTransient_msg.
Definition ErrPermanent_msg : string := "phase: permanent failure (config or invariant)".
Definition ErrPermanent : GoError := ErrorsNew ErrPermanent_msg.
Definition ErrAppAttributable_msg : string := "phase: app-attributable failure".
Definition ErrAppAttributable : GoError := ErrorsNew ErrAppAttributable_msg.
Definition ErrFrameworkBug_msg : string := "phase: framework bug".
Definition ErrFrameworkBug : GoError := ErrorsNew ErrFrameworkBug_msg.

(** ** Schemas and enumerations (types.go) *)

Definition LifetimePerSession : string := "per-session".
Definition LifetimePerCohort : string := "per-cohort".
Definition LifetimePersistent : string := "persistent".

Definition RunsAtRegistration : string := "registration".
Definition RunsAtSessionStart : string := "session-start".
Definition RunsAtInline : string := "inline".

Definition SessionState := string.
Definition StateNone : SessionState := EmptyString.

Record ContextKeyType := {
  TypeName : string;
  Required : bool;
  Constraints : list (string * Any);
  NoLineage : bool
}.

Definition ContextSchema := list (string * ContextKeyType).

(** Schema entries as the phases write them. *)
Definition key_type (ty : string) (req : bool) (cs : list (string * Any)) : ContextKeyType :=
  {| TypeName := ty; Required := req; Constraints := cs; NoLineage := false |}.

(** ** The environment of a hook

    The lineage store is shared by every session of a runner, and the wall
    clock is an arbitrary sequence of readings, of which [ticks] have been
    taken. *)

Record Env (S : Type) := { env_store : S; env_clock : nat -> Z; env_ticks : nat }.
Arguments env_store {S} _.
Arguments env_clock {S} _ _.
Arguments env_ticks {S} _.

Section Env.
Context {S : Type}.
Definition set_store (e : Env S) (s : S) : Env S :=
  {| env_store := s; env_clock := env_clock e; env_ticks := env_ticks e |}.
(** [time.Now()]. *)
Definition time_Now : M (Env S) Z := fun e =>
  (Ok (env_clock e (env_ticks e)),
   {| env_store := env_store e; env_clock := env_clock e; env_ticks := Datatypes.S (env_ticks e) |}).
(** A call on the lineage store. *)
Definition on_store {A} (m : M S A) : M (Env S) A := fun e =>
  let '(o, s') := m (env_store e) in (o, set_store e s').
End Env.

(** ** Session context (context.go) *)

Record SessionContext := {
  ctxSessionID : string;
  ctxCohortID : string;
  values : gmap string Any;
  (** the context holds the runner's lineage store *)
  ctxHasStore : bool;
  lineageSigner : option Signer
}.

Definition NewSessionContext (sessionID : string) : SessionContext :=
  {| ctxSessionID := sessionID; ctxCohortID := EmptyString; values := ∅;
     ctxHasStore := false; lineageSigner := None |}.

Definition with_values (c : SessionContext) (v : gmap string Any) : SessionContext :=
  {| ctxSessionID := ctxSessionID c; ctxCohortID := ctxCohortID c; values := v;
     ctxHasStore := ctxHasStore c; lineageSigner := lineageSigner c |}.

Definition ctx_Get (key : string) (c : SessionContext) : option Any := values c !! key.

Definition ctx_Set (key : string) (v : Any) (c : SessionContext) : SessionContext :=
  with_values c (<[key := v]> (values c)).

(** [fn] receives [nil] when the key is absent. *)
Definition ctx_Update (key : string) (fn : Any -> Any) (c : SessionContext) : SessionContext :=
  with_values c (<[key := fn (default ANil (values c !! key))]> (values c)).

Definition ctx_Has (key : string) (c : SessionContext) : bool :=
  bool_decide (is_Some (values c !! key)).

Definition ctx_Keys (c : SessionContext) : list string := (map_to_list (values c)).*1.

(** A type argument [T] is its assertion [v.(T)]. *)
Definition TypeAssert (T : Type) := Any -> option T.
Definition asBytes : TypeAssert bytes := fun v => match v with ABytes b => Some b | _ => None end.
Definition asString : TypeAssert string := fun v => match v with AString s => Some s | _ => None end.
Definition asInt : TypeAssert Z := fun v => match v with AInt n => Some n | _ => None end.
Definition asStrings : TypeAssert (list string) :=
  fun v => match v with AStrings l => Some l | _ => None end.
Definition asMapBytes : TypeAssert (gmap string bytes) :=
  fun v => match v with AMapBytes m => Some m | _ => None end.

Definition MustGet {T} (assert : TypeAssert T) (key : string) (c : SessionContext) : Outcome T :=
  match ctx_Get key c with
  | None => Panic ("phase: required context key " +:+ key +:+ " is not set")
  | Some v =>
      match assert v with
      | None => Panic ("phase: context key " +:+ key +:+ " has the wrong type")
      | Some t => Ok t
      end
  end.

Definition TryGet {T} (assert : TypeAssert T) (key : string) (c : SessionContext) : option T :=
  match ctx_Get key c with
  | None => None
  | Some v => assert v
  end.

(** What a hook of a phase reads and writes. *)
Definition HookState (S : Type) : Type := SessionContext * Env S.

Section Hooks.
Context {S : Type} `{Store S}.

Definition get_ctx : M (HookState S) SessionContext := fun h => (Ok h.1, h).
Definition modify_ctx (f : SessionContext -> SessionContext) : M (HookState S) unit :=
  fun h => (Ok tt, (f h.1, h.2)).
Definition on_env {A} (m : M (Env S) A) : M (HookState S) A := fun h =>
  let '(o, e) := m h.2 in (o, (h.1, e)).
Definition lift_outcome {St A} (o : Outcome A) : M St A := fun s => (o, s).

(** The nodes the iterator yields: it stops at the first error. *)
Fixpoint until_error (l : list (Outcome DAGNode)) : list DAGNode :=
  match l with
  | Ok n :: l' => n :: until_error l'
  | _ => []
  end.
Definition LineageDAG (h : HookState S) : list DAGNode :=
  if ctxHasStore h.1 then until_error (WalkSession (ctxSessionID h.1) (env_store h.2)) else [].

(** [if err := store.Append(node); err != nil && !errors.Is(err, ErrNodeExists)]:
    an error is rewrapped by [f] unless the node was there already. *)
Definition append_idempotent (f : GoError -> GoError) (node : DAGNode) : M (Env S) unit :=
  fun e =>
    match on_store (Append node) e with
    | (Err er, e') => if errors_Is er ErrNodeExists_msg then (Ok tt, e') else (Err (f er), e')
    | o => o
    end.

(** [lineage.Commit] reads the clock only once the node is signed. *)
Definition commit_now (sessionID phaseID role : string) (payload : bytes)
    (parents : list DAGNode) (signer : option Signer) : M (Env S) DAGNode := fun e =>
  match Commit (env_clock e (env_ticks e)) sessionID phaseID role payload parents signer with
  | Ok n => let '(_, e') := time_Now e in (Ok n, e')
  | Err er => (Err er, e)
  | Panic w => (Panic w, e)
  end.

Definition CommitArtifact (phaseID role : string) (payload : bytes) (parents : list DAGNode)
  : M (HookState S) DAGNode :=
  let! c := get_ctx in
  match ctxHasStore c, lineageSigner c with
  | true, Some sg =>
      let! node := wrap_err (fun e => Errorf [W ErrFrameworkBug; T ": CommitArtifact: "; W e])
        (on_env (commit_now (ctxSessionID c) phaseID role payload parents (Some sg))) in
      on_env (append_idempotent
        (fun e => Errorf [W ErrFrameworkBug; T ": CommitArtifact store.Append: "; W e]) node) ;;;
      ret node
  | _, _ =>
      throw (Errorf [W ErrPermanent;
        T ": CommitArtifact requires a lineage-enabled runner (build via ComposeWith)"])
  end.
End Hooks.

(** ** Accumulated messages (accumulator.go) *)

(** [bucket, _ := v.(map[string][]byte)]: the zero value is the nil map. *)
Definition as_bucket (v : Any) : gmap string bytes := default ∅ (asMapBytes v).

Definition AccumulateMessage (bucketKey from : string) (payload : bytes)
  : SessionContext -> SessionContext :=
  ctx_Update bucketKey (fun current => AMapBytes (<[from := payload]> (as_bucket current))).

Definition MessageCount (bucketKey : string) (c : SessionContext) : nat :=
  match ctx_Get bucketKey c with
  | None => 0
  | Some v => size (as_bucket v)
  end.

Definition AccumulatedMessages (bucketKey : string) (c : SessionContext) : gmap string bytes :=
  match ctx_Get bucketKey c with
  | None => ∅
  | Some v => as_bucket v
  end.

Definition QuorumReached (bucketKey : string) (n : Z) (c : SessionContext) : bool :=
  (n <=? Z.of_nat (MessageCount bucketKey c))%Z.

(** ** Properties *)

Lemma MessageCount_size k c : MessageCount k c = size (AccumulatedMessages k c).
Proof. unfold MessageCount, AccumulatedMessages. by destruct (ctx_Get k c). Qed.

Lemma AccumulatedMessages_accumulate k from p c :
  AccumulatedMessages k (AccumulateMessage k from p c) = <[from := p]> (AccumulatedMessages k c).
Proof.
  unfold AccumulatedMessages, AccumulateMessage, ctx_Update, ctx_Get, with_values. simpl.
  rewrite lookup_insert_eq. simpl. by destruct (values c !! k).
Qed.

Lemma AccumulatedMessages_accumulate_ne k k' from p c :
  k <> k' -> AccumulatedMessages k (AccumulateMessage k' from p c) = AccumulatedMessages k c.
Proof.
  intros Hne. unfold AccumulatedMessages, AccumulateMessage, ctx_Update, ctx_Get, with_values. simpl.
  by rewrite lookup_insert_ne by congruence.
Qed.

(** The messages of a session, in arrival order. *)
Definition accumulate_all (k : string) (msgs : list (string * bytes)) (c : SessionContext) :=
  foldl (fun c m => AccumulateMessage k m.1 m.2 c) c msgs.

Lemma accumulate_all_messages k msgs c :
  AccumulatedMessages k (accumulate_all k msgs c) =
  insert_all msgs (AccumulatedMessages k c).
Proof.
  unfold accumulate_all. revert c. induction msgs as [|m msgs IH]; intros c; [done|].
  simpl. by rewrite IH, AccumulatedMessages_accumulate.
Qed.

(** After any messages on a fresh session, [QuorumReached] holds exactly
    when the number of distinct sender names is at least [n]; a repeated
    sender counts once, and a later message replaces the earlier one. *)
Lemma quorum_counts_distinct_senders k msgs sid n :
  QuorumReached k n (accumulate_all k msgs (NewSessionContext sid)) = true <->
  (n <= Z.of_nat (size (list_to_set msgs.*1 : gset string)))%Z.
Proof.
  unfold QuorumReached. rewrite MessageCount_size, accumulate_all_messages, Z.leb_le.
  rewrite <- size_dom, insert_all_dom. unfold AccumulatedMessages, ctx_Get. simpl.
  rewrite lookup_empty, dom_empty_L, union_empty_l_L. done.
Qed.

(** A sender's last message is the one that is kept. *)
Lemma accumulate_last k msgs from p c :
  AccumulatedMessages k (accumulate_all k (msgs ++ [(from, p)]) c) !! from = Some p.
Proof.
  rewrite accumulate_all_messages, insert_all_app. simpl. by rewrite lookup_insert_eq.
Qed.
