(* ===== verification/Pipeline.v ===== *)
(** * Pipelines (pkg/ares/phase: phase.go, options.go, compose_with.go, and the
    validation half of runner.go)

    The [Phase] interface as a record of its methods, [Compose] with its
    validation rules, [ComposeWith], and the exact set of pipelines they
    accept. *)
From Stdlib Require Import ZArith NArith Lia String Ascii Strings.Byte Floats.SpecFloat.
From stdpp Require Import base gmap list strings pretty.
From S2P Require Import Prelude Bytes.
From S2P Require Import GoFloat.
From S2P Require Import GoFmt.
From S2P Require Import Sign.
From S2P Require Import Lineage.
From S2P Require Import Context.

(** ** The [Phase] interface

    A hook reads and writes the session context and, through it, the lineage
    store; [S] is the type of the store's state. *)
Record Phase (S : Type) := {
  Name : string;
  Lifetime : string;
  RunsAt : string;
  EntryState : SessionState;
  ExitState : SessionState;
  InternalStates : list SessionState;
  ConsumedMessageTypes : list string;
  Requires : ContextSchema;
  Provides : ContextSchema;
  Enter : M (HookState S) unit;
  OnMessage : string -> string -> bytes -> M (HookState S) unit;
  CheckComplete : SessionContext -> bool;
  Exit : M (HookState S) unit
}.
Arguments Name {S} _.
Arguments Lifetime {S} _.
Arguments RunsAt {S} _.
Arguments EntryState {S} _.
Arguments ExitState {S} _.
Arguments InternalStates {S} _.
Arguments ConsumedMessageTypes {S} _.
Arguments Requires {S} _.
Arguments Provides {S} _.
Arguments Enter {S} _ _.
Arguments OnMessage {S} _ _ _ _ _.
Arguments CheckComplete {S} _ _.
Arguments Exit {S} _ _.

(** ** Lineage failures (hooks.go) *)

Record LineageFailureEvent := {
  Kind : string;
  evSessionID : string;
  evPhaseID : string;
  evRole : string;
  Attributee : string;
  DAGNodes : list DAGNode
}.

(** The application's hook: it returns or it panics. *)
Definition LineageFailureFn := LineageFailureEvent -> Outcome unit.

(** ** The runner's configuration

    What [Compose] builds and no later call changes.  [runner_lineage] is
    [Some] exactly when [lineageStore] is not nil. *)
Record LineageConfig := {
  cfgSigner : Signer;
  cfgVerifiers : gmap string Signer;
  cfgFailureHook : option LineageFailureFn
}.

Record SessionRunner (S : Type) := {
  phases : list (Phase S);
  byName : gmap string (Phase S);
  byEntryState : gmap SessionState (Phase S);
  byInternalState : gmap SessionState (Phase S);
  initialState : SessionState;
  runner_lineage : option LineageConfig
}.
Arguments phases {S} _.
Arguments byName {S} _.
Arguments byEntryState {S} _.
Arguments byInternalState {S} _.
Arguments initialState {S} _.
Arguments runner_lineage {S} _.

(** ** Constraint checking *)

Definition asFloat (v : Any) : option float64 :=
  match v with
  | AInt n | AInt32 n | AInt64 n | AUint n | AUint32 n | AUint64 n => Some (of_Z n)
  | AFloat32 x | AFloat64 x => Some x
  | _ => None
  end.

Definition atLeast (a b : Any) : Outcome bool :=
  match asFloat a, asFloat b with
  | Some af, Some bf => Ok (fgeb af bf)
  | _, _ => Err (Errorf [T "non-numeric values "; T (fmt_v a); T " vs "; T (fmt_v b)])
  end.

Definition equalConstraint (a b : Any) : bool := String.eqb (fmt_v a) (fmt_v b).

(** [got[name]]. *)
Fixpoint assoc {A} (name : string) (l : list (string * A)) : option A :=
  match l with
  | [] => None
  | (k, v) :: l' => if String.eqb k name then Some v else assoc name l'
  end.

(** The name of the producer's constraint when [cname] ends in [_min] and is
    longer than the suffix. *)
Definition min_suffix (cname : string) : option string :=
  let n := String.length cname in
  if (4 <? n)%nat && String.eqb (substring (n - 4) 4 cname) "_min"
  then Some (substring 0 (n - 4) cname) else None.

Definition checkConstraint (phaseName key cname : string) (cval : Any) (got : list (string * Any))
  : option GoError :=
  if String.eqb cname EmptyString then None
  else match min_suffix cname with
  | Some producerKey =>
      match assoc producerKey got with
      | None => Some (Errorf [T "phase "; Q phaseName; T ": context key "; Q key;
                  T " requires minimum "; T cname; T " but producer omits "; T producerKey])
      | Some gv =>
          match atLeast gv cval with
          | Ok true => None
          | Ok false => Some (Errorf [T "phase "; Q phaseName; T ": context key "; Q key;
                  T " requires "; T cname; T "="; T (fmt_v cval); T " but producer provides ";
                  T producerKey; T "="; T (fmt_v gv)])
          | Err e => Some (Errorf [T "phase "; Q phaseName; T ": context key "; Q key;
                  T " constraint "; T cname; T ": "; W e])
          | Panic w => Some (ErrorsNew w)
          end
      end
  | None =>
      match assoc cname got with
      | None => Some (Errorf [T "phase "; Q phaseName; T ": context key "; Q key;
                  T " requires constraint "; T cname; T " but producer omits it"])
      | Some gv =>
          if negb (equalConstraint gv cval) then
            Some (Errorf [T "phase "; Q phaseName; T ": context key "; Q key; T " constraint ";
                  T cname; T ": producer="; T (fmt_v gv); T ", required="; T (fmt_v cval)])
          else None
      end
  end.

Definition checkConstraints (phaseName key : string) (want got : list (string * Any))
  : option GoError :=
  first_error (fun c => checkConstraint phaseName key c.1 c.2 got) want.

Definition validateRequire (phaseName : string) (provided : gmap string ContextKeyType)
    (r : string * ContextKeyType) : option GoError :=
  let '(key, want) := r in
  match provided !! key with
  | None =>
      if Required want then
        Some (Errorf [T "phase "; Q phaseName; T ": requires context key "; Q key;
                T " but no preceding phase provides it"])
      else None
  | Some got =>
      if negb (String.eqb (TypeName want) EmptyString) && negb (String.eqb (TypeName got) EmptyString)
         && negb (String.eqb (TypeName want) (TypeName got)) then
        Some (Errorf [T "phase "; Q phaseName; T ": context key "; Q key; T " has provided type ";
                Q (TypeName got); T ", required type "; Q (TypeName want)])
      else checkConstraints phaseName key (Constraints want) (Constraints got)
  end.

Definition validateRequires (phaseName : string) (reqs : ContextSchema)
    (provided : gmap string ContextKeyType) : option GoError :=
  first_error (validateRequire phaseName provided) reqs.

(** [for k, t := range p.Provides() { provided[k] = t }]. *)
Definition add_provides (provides : ContextSchema) (provided : gmap string ContextKeyType)
  : gmap string ContextKeyType :=
  insert_all provides provided.

(** ** [Compose] *)

Section Compose.
Context {S : Type}.
Implicit Types (p : Phase S) (ps : list (Phase S)).

Definition is_inline p : bool := String.eqb (RunsAt p) RunsAtInline.

(** The variables of the loop. *)
Record cstate := {
  c_byName : gmap string (Phase S);
  c_byEntry : gmap SessionState (Phase S);
  c_byInternal : gmap SessionState (Phase S);
  c_provided : gmap string ContextKeyType;
  c_prev : option (Phase S);
  c_initial : SessionState
}.

Definition cstate0 : cstate :=
  {| c_byName := ∅; c_byEntry := ∅; c_byInternal := ∅; c_provided := ∅;
     c_prev := None; c_initial := StateNone |}.

Definition set_byName st m := {| c_byName := m; c_byEntry := c_byEntry st;
  c_byInternal := c_byInternal st; c_provided := c_provided st; c_prev := c_prev st;
  c_initial := c_initial st |}.
Definition set_byEntry st m := {| c_byName := c_byName st; c_byEntry := m;
  c_byInternal := c_byInternal st; c_provided := c_provided st; c_prev := c_prev st;
  c_initial := c_initial st |}.
Definition set_byInternal st m := {| c_byName := c_byName st; c_byEntry := c_byEntry st;
  c_byInternal := m; c_provided := c_provided st; c_prev := c_prev st;
  c_initial := c_initial st |}.
Definition set_provided st m := {| c_byName := c_byName st; c_byEntry := c_byEntry st;
  c_byInternal := c_byInternal st; c_provided := m; c_prev := c_prev st;
  c_initial := c_initial st |}.
Definition set_prev st p i := {| c_byName := c_byName st; c_byEntry := c_byEntry st;
  c_byInternal := c_byInternal st; c_provided := c_provided st; c_prev := Some p;
  c_initial := i |}.

Definition permanent (parts : list (string + GoError)) : GoError :=
  Errorf (W ErrPermanent :: T ": " :: parts).

(** The checks on one internal state, and its registration. *)
Definition claim_internal p (sub : SessionState) : M cstate unit :=
  let! st := get in
  if String.eqb sub StateNone then
    throw (permanent [T "phase "; Q (Name p); T ": InternalStates contains StateNone"])
  else if String.eqb sub (EntryState p) then
    throw (permanent [T "phase "; Q (Name p); T ": InternalStates duplicates EntryState "; Q sub])
  else match c_byEntry st !! sub with
  | Some existing =>
      throw (permanent [T "phase "; Q (Name p); T ": internal state "; Q sub;
               T " is also EntryState of "; Q (Name existing)])
  | None =>
      match c_byInternal st !! sub with
      | Some existing =>
          throw (permanent [T "phase "; Q (Name p); T ": internal state "; Q sub;
                   T " is also an internal state of "; Q (Name existing)])
      | None => modify (fun st => set_byInternal st (<[sub := p]> (c_byInternal st)))
      end
  end.

Definition compose_inline p : M cstate unit :=
  let! st := get in
  let entry := EntryState p in
  if String.eqb entry StateNone then
    throw (permanent [T "phase "; Q (Name p); T ": inline phase needs an EntryState"])
  else match c_byEntry st !! entry with
  | Some existing =>
      throw (permanent [T "phase: entry state "; Q entry; T " claimed by both ";
               Q (Name existing); T " and "; Q (Name p)])
  | None =>
      modify (fun st => set_byEntry st (<[entry := p]> (c_byEntry st))) ;;;
      for_each (InternalStates p) (claim_internal p) ;;;
      match c_prev st with
      | None => modify (fun st => set_prev st p entry)
      | Some prev =>
          if negb (String.eqb (ExitState prev) entry) then
            throw (permanent [T "phase: "; Q (Name prev); T ".ExitState="; Q (ExitState prev);
                     T " but "; Q (Name p); T ".EntryState="; Q entry;
                     T ": pipeline is not connected"])
          else modify (fun st => set_prev st p (c_initial st))
      end
  end.

Definition compose_phase p : M cstate unit :=
  let! st := get in
  let name := Name p in
  if String.eqb name EmptyString then
    throw (permanent [T "Compose: phase has empty Name() (index ";
             T (pretty (size (c_byName st))); T " in pipeline)"])
  else match c_byName st !! name with
  | Some _ => throw (permanent [T "Compose: duplicate phase name "; Q name])
  | None =>
      modify (fun st => set_byName st (<[name := p]> (c_byName st))) ;;;
      match validateRequires name (Requires p) (c_provided st) with
      | Some e => throw (permanent [W e])
      | None =>
          modify (fun st => set_provided st (add_provides (Provides p) (c_provided st))) ;;;
          if is_inline p then compose_inline p
          else if negb (String.eqb (EntryState p) StateNone) || negb (String.eqb (ExitState p) StateNone)
          then throw (permanent [T "phase "; Q name;
                        T ": non-inline phases must have StateNone for entry and exit"])
          else ret tt
      end
  end.

Definition Compose ps : Outcome (SessionRunner S) :=
  match ps with
  | [] => Err (Errorf [W ErrPermanent; T ": Compose needs at least one phase"])
  | _ =>
      match for_each ps compose_phase cstate0 with
      | (Ok _, st) => Ok {|
          phases := ps; byName := c_byName st; byEntryState := c_byEntry st;
          byInternalState := c_byInternal st; initialState := c_initial st;
          runner_lineage := None |}
      | (Err e, _) => Err e
      | (Panic w, _) => Panic w
      end
  end.

Definition Phases (r : SessionRunner S) : list (Phase S) := phases r.
Definition InitialState (r : SessionRunner S) : SessionState := initialState r.

Definition PhaseForState (r : SessionRunner S) (s : SessionState) : option (Phase S) :=
  match byEntryState r !! s with
  | Some p => Some p
  | None => byInternalState r !! s
  end.

(** ** [ComposeWith] *)

(** [WithStore] chooses the store's type and initial state, which are
    arguments of the session operations; it has no field here. *)
Record runnerOpts := {
  o_signer : option Signer;
  o_peerVerifiers : gmap string Signer;
  o_failureHook : option LineageFailureFn
}.
Definition no_opts : runnerOpts :=
  {| o_signer := None; o_peerVerifiers := ∅; o_failureHook := None |}.
Definition ComposeOption := runnerOpts -> runnerOpts.
Definition WithSigner (s : Signer) : ComposeOption := fun o =>
  {| o_signer := Some s; o_peerVerifiers := o_peerVerifiers o; o_failureHook := o_failureHook o |}.
Definition WithPeerVerifiers (v : gmap string Signer) : ComposeOption := fun o =>
  {| o_signer := o_signer o; o_peerVerifiers := v; o_failureHook := o_failureHook o |}.
Definition WithLineageFailureHook (fn : LineageFailureFn) : ComposeOption := fun o =>
  {| o_signer := o_signer o; o_peerVerifiers := o_peerVerifiers o; o_failureHook := Some fn |}.

Definition needsPeers ps : bool :=
  existsb (fun p => negb (Nat.eqb (length (ConsumedMessageTypes p)) 0)) ps.

(** Our own signer joins the peers' verifiers unless a peer verifier has
    its algorithm already. *)
Definition own_verifiers (sg : Signer) (peers : gmap string Signer) : gmap string Signer :=
  match peers !! Algorithm sg with
  | Some _ => peers
  | None => <[Algorithm sg := sg]> peers
  end.

Definition attachLineage (r : SessionRunner S) (cfg : LineageConfig) : SessionRunner S :=
  {| phases := phases r; byName := byName r; byEntryState := byEntryState r;
     byInternalState := byInternalState r; initialState := initialState r;
     runner_lineage := Some cfg |}.

Definition ComposeWith ps (opts : list ComposeOption) : Outcome (SessionRunner S) :=
  let o := foldl (fun o opt => opt o) no_opts opts in
  match o_signer o with
  | None => Err (Errorf [W ErrPermanent; T ": ComposeWith requires WithSigner(...)"])
  | Some sg =>
      if needsPeers ps && Nat.eqb (size (o_peerVerifiers o)) 0 then
        Err (Errorf [W ErrPermanent; T ": ComposeWith requires WithPeerVerifiers(...) for multi-party pipelines (pipeline contains phases that consume WS messages)"])
      else
        match Compose ps with
        | Err e => Err (Errorf [T "ComposeWith: "; W e])
        | Panic w => Panic w
        | Ok r => Ok (attachLineage r {|
            cfgSigner := sg; cfgVerifiers := own_verifiers sg (o_peerVerifiers o);
            cfgFailureHook := o_failureHook o |})
        end
  end.
End Compose.
Arguments cstate S : clear implicits.

(** ** What a valid constraint, requirement and pipeline are *)

(** One consumer constraint against the producer's constraints: a [_min]
    constraint compares numbers, any other one compares printed forms. *)
Definition constraint_ok (got : list (string * Any)) (c : string * Any) : Prop :=
  c.1 = EmptyString \/
  (exists pk gv x y, pk <> EmptyString /\ c.1 = (pk +:+ "_min")%string /\
     assoc pk got = Some gv /\ asFloat gv = Some x /\ asFloat c.2 = Some y /\ fleb y x = true) \/
  (~ (exists pk, pk <> EmptyString /\ c.1 = (pk +:+ "_min")%string) /\
     exists gv, assoc c.1 got = Some gv /\ fmt_v gv = fmt_v c.2).

Definition requirement_ok (provided : gmap string ContextKeyType)
    (r : string * ContextKeyType) : Prop :=
  match provided !! r.1 with
  | None => Required r.2 = false
  | Some got =>
      (TypeName r.2 = EmptyString \/ TypeName got = EmptyString \/ TypeName r.2 = TypeName got) /\
      forall c, c ∈ Constraints r.2 -> constraint_ok (Constraints got) c
  end.

Lemma min_suffix_spec c pk :
  min_suffix c = Some pk <-> pk <> EmptyString /\ c = (pk +:+ "_min")%string.
Proof.
  unfold min_suffix. set (n := String.length c). split.
  - destruct (4 <? n)%nat eqn:En; [|done]. apply Nat.ltb_lt in En. simpl.
    destruct (String.eqb _ _) eqn:E; [|done]. apply String.eqb_eq in E.
    intros [= <-]. split.
    + intros H. apply (f_equal String.length) in H.
      rewrite substring_0_length in H by (unfold n in *; lia). simpl in H. lia.
    + rewrite <- E at 1. rewrite (substring_split (n - 4) c) at 1 by (unfold n in *; lia).
      replace (String.length c - (n - 4)) with 4 by (unfold n in *; lia). done.
  - intros [Hp ->]. unfold n. rewrite string_length_app. simpl.
    replace (String.length pk + 4 - 4) with (String.length pk) by lia.
    pose proof (substring_suffix pk "_min") as Hsuf. simpl in Hsuf.
    rewrite Hsuf, substring_prefix.
    assert (String.length pk <> 0) by (by destruct pk).
    destruct (Nat.ltb_spec 4 (String.length pk + 4)); [done|lia].
Qed.

Lemma checkConstraint_None ph key got c :
  checkConstraint ph key c.1 c.2 got = None <-> constraint_ok got c.
Proof.
  destruct c as [cn cv]. unfold checkConstraint, constraint_ok. simpl.
  destruct (String.eqb_spec cn EmptyString) as [->|Hne]; [naive_solver|].
  destruct (min_suffix cn) as [pk|] eqn:Em.
  - apply min_suffix_spec in Em as [Hp ->].
    assert (Hinj : forall pk', (pk +:+ "_min" = pk' +:+ "_min")%string -> pk' = pk).
    { intros pk' H. assert (Hs : min_suffix (pk' +:+ "_min") = Some pk).
      { rewrite <- H. by apply min_suffix_spec. }
      destruct (decide (pk' = EmptyString)) as [->|Hp'].
      - apply min_suffix_spec in Hs as [_ Hs].
        apply (f_equal String.length) in Hs. rewrite !string_length_app in Hs. simpl in Hs.
        destruct pk; [done|simpl in Hs; lia].
      - assert (Hs' : min_suffix (pk' +:+ "_min") = Some pk') by (by apply min_suffix_spec).
        congruence. }
    split.
    + unfold atLeast, fgeb.
      destruct (assoc pk got) as [gv|] eqn:Ea; [|done].
      destruct (asFloat gv) as [x|] eqn:Ex; [|done].
      destruct (asFloat cv) as [y|] eqn:Ey; [|done].
      destruct (SFleb y x) eqn:Ele; [|done]. intros _. right. left.
      exists pk, gv, x, y. done.
    + intros [H|[(pk' & gv & x & y & Hp' & He & Ha & Hx & Hy & Hle)|[Hno _]]].
      * done.
      * apply Hinj in He as ->. rewrite Ha. unfold atLeast, fgeb. rewrite Hx, Hy.
        unfold fleb in Hle. by rewrite Hle.
      * destruct Hno. by exists pk.
  - assert (Hno : ~ exists pk, pk <> EmptyString /\ cn = (pk +:+ "_min")%string).
    { intros (pk & Hp & He). assert (min_suffix cn = Some pk) by (by apply min_suffix_spec).
      congruence. }
    split.
    + destruct (assoc cn got) as [gv|] eqn:Ea; [|done]. unfold equalConstraint.
      destruct (String.eqb_spec (fmt_v gv) (fmt_v cv)) as [He|]; [|done].
      intros _. right. right. split; [done|]. by exists gv.
    + intros [H|[(pk' & gv & x & y & Hp' & He & _)|[_ (gv & Ha & He)]]].
      * done.
      * destruct Hno. by exists pk'.
      * rewrite Ha. unfold equalConstraint. by rewrite He, String.eqb_refl.
Qed.

Lemma checkConstraints_None ph key want got :
  checkConstraints ph key want got = None <-> forall c, c ∈ want -> constraint_ok got c.
Proof.
  unfold checkConstraints. rewrite first_error_None.
  split; intros H c Hc; apply checkConstraint_None with (ph := ph) (key := key); auto.
Qed.

Lemma validateRequires_None ph reqs provided :
  validateRequires ph reqs provided = None <-> forall r, r ∈ reqs -> requirement_ok provided r.
Proof.
  unfold validateRequires. rewrite first_error_None.
  enough (Hone : forall r, validateRequire ph provided r = None <-> requirement_ok provided r).
  { split; intros H r Hr; apply Hone; auto. }
  intros [key want]. unfold validateRequire, requirement_ok. simpl.
  destruct (provided !! key) as [got|]; [|by destruct (Required want)].
  rewrite <- checkConstraints_None with (ph := ph) (key := key).
  destruct (String.eqb_spec (TypeName want) EmptyString);
    destruct (String.eqb_spec (TypeName got) EmptyString);
    destruct (String.eqb_spec (TypeName want) (TypeName got)); simpl; naive_solver.
Qed.

Section PipelineSpec.
Context {S : Type}.
Implicit Types (p q : Phase S) (ps pre : list (Phase S)).

Definition inlines ps : list (Phase S) := filter (fun p => is_inline p = true) ps.

(** The context entries the phases of a list provide, the last provider of a
    key winning. *)
Definition provided_by ps : gmap string ContextKeyType :=
  foldl (fun m p => add_provides (Provides p) m) ∅ ps.

(** [p] may follow the phases [pre]. *)
Record valid_after pre p : Prop := {
  v_named : Name p <> EmptyString;
  v_unique : Name p ∉ Name <$> pre;
  v_requires : forall r, r ∈ Requires p -> requirement_ok (provided_by pre) r;
  v_entry : is_inline p = true ->
    EntryState p <> StateNone /\ EntryState p ∉ EntryState <$> inlines pre;
  v_internal : is_inline p = true ->
    NoDup (InternalStates p) /\
    forall sub, sub ∈ InternalStates p ->
      sub <> StateNone /\ sub <> EntryState p /\
      forall q, q ∈ inlines pre -> sub <> EntryState q /\ sub ∉ InternalStates q;
  v_chain : is_inline p = true ->
    forall q, last (inlines pre) = Some q -> ExitState q = EntryState p;
  v_out_of_band : is_inline p = false -> EntryState p = StateNone /\ ExitState p = StateNone
}.

Definition pipeline_valid ps : Prop :=
  ps <> [] /\ forall pre p post, ps = pre ++ p :: post -> valid_after pre p.

(** The tables of the runner over a valid pipeline. *)
Definition internal_claims p : list (SessionState * Phase S) :=
  (fun sub => (sub, p)) <$> InternalStates p.

Definition tables ps : cstate S := {|
  c_byName := insert_all ((fun p => (Name p, p)) <$> ps) ∅;
  c_byEntry := insert_all ((fun p => (EntryState p, p)) <$> inlines ps) ∅;
  c_byInternal := insert_all (inlines ps ≫= internal_claims) ∅;
  c_provided := provided_by ps;
  c_prev := last (inlines ps);
  c_initial := default StateNone (EntryState <$> head (inlines ps))
|}.

Definition pipeline_runner ps : SessionRunner S := {|
  phases := ps;
  byName := c_byName (tables ps);
  byEntryState := c_byEntry (tables ps);
  byInternalState := c_byInternal (tables ps);
  initialState := c_initial (tables ps);
  runner_lineage := None
|}.

(** *** One phase *)

Definition internals_ok (st : cstate S) p (l : list SessionState) : Prop :=
  NoDup l /\ forall sub, sub ∈ l ->
    sub <> StateNone /\ sub <> EntryState p /\
    c_byEntry st !! sub = None /\ c_byInternal st !! sub = None.

Lemma permanent_is parts : errors_Is (permanent parts) ErrPermanent_msg = true.
Proof. done. Qed.
Hint Resolve permanent_is : ares.

Lemma claim_internal_checked p sub st :
  checked ErrPermanent_msg (internals_ok st p [sub]) (claim_internal p sub st)
    (set_byInternal st (<[sub := p]> (c_byInternal st))).
Proof.
  unfold claim_internal, bind, get, internals_ok.
  destruct (String.eqb_spec sub StateNone) as [->|Hn].
  { right. split; [|by eexists _, _]. intros [_ H].
    by destruct (H StateNone) as (? & _); [left|]. }
  destruct (String.eqb_spec sub (EntryState p)) as [->|He].
  { right. split; [|by eexists _, _]. intros [_ H].
    by destruct (H (EntryState p)) as (_ & ? & _); [left|]. }
  destruct (c_byEntry st !! sub) eqn:E1.
  { right. split; [|by eexists _, _]. intros [_ H].
    destruct (H sub) as (_ & _ & H' & _); [by left|congruence]. }
  destruct (c_byInternal st !! sub) eqn:E2.
  { right. split; [|by eexists _, _]. intros [_ H].
    destruct (H sub) as (_ & _ & _ & H'); [by left|congruence]. }
  left. split; [|done]. split; [apply NoDup_singleton|].
  intros s ->%list_elem_of_singleton. done.
Qed.

Lemma internals_ok_cons st p sub l :
  internals_ok st p [sub] /\
  internals_ok (set_byInternal st (<[sub := p]> (c_byInternal st))) p l <->
  internals_ok st p (sub :: l).
Proof.
  unfold internals_ok. simpl. rewrite (NoDup_cons sub l). split.
  - intros [[_ H1] [Hn H2]]. split; [split; [|done]|].
    + intros Hin. destruct (H2 _ Hin) as (_ & _ & _ & H).
      by rewrite lookup_insert_eq in H.
    + intros s [->|Hin]%elem_of_cons; [by apply H1; left|].
      destruct (H2 _ Hin) as (? & ? & ? & H). by apply lookup_insert_None in H as [? _].
  - intros [[Hsub Hn] H]. split; split; [apply NoDup_singleton| |done|].
    + intros s ->%list_elem_of_singleton. apply H. by left.
    + intros s Hin. destruct (H s) as (? & ? & ? & ?); [by right|].
      split_and!; [done..|]. apply lookup_insert_None. split; [done|]. intros ->. done.
Qed.

Lemma claim_internals_checked p l st :
  checked ErrPermanent_msg (internals_ok st p l) (for_each l (claim_internal p) st)
    (set_byInternal st (insert_all ((fun sub => (sub, p)) <$> l) (c_byInternal st))).
Proof.
  revert st. induction l as [|sub l IH]; intros st.
  - left. split; [split; [constructor|set_solver]|]. by destruct st.
  - simpl. eapply checked_iff; [apply internals_ok_cons|].
    eapply checked_bind; [apply claim_internal_checked | intros _; apply IH].
Qed.

Definition entry_ok (st : cstate S) p : Prop :=
  EntryState p <> StateNone /\ c_byEntry st !! EntryState p = None.
Definition chain_ok (st : cstate S) p : Prop :=
  forall q, c_prev st = Some q -> ExitState q = EntryState p.

Definition inline_step (st : cstate S) p : cstate S :=
  set_prev
    (set_byInternal (set_byEntry st (<[EntryState p := p]> (c_byEntry st)))
       (insert_all (internal_claims p) (c_byInternal st)))
    p (match c_prev st with None => EntryState p | Some _ => c_initial st end).

Lemma compose_inline_checked p st :
  checked ErrPermanent_msg
    (entry_ok st p /\ internals_ok st p (InternalStates p) /\ chain_ok st p)
    (compose_inline p st) (inline_step st p).
Proof.
  unfold compose_inline, bind at 1, get, entry_ok.
  destruct (String.eqb_spec (EntryState p) StateNone) as [He|He].
  { right. split; [tauto|]. by eexists _, _. }
  destruct (c_byEntry st !! EntryState p) eqn:Ee.
  { right. split; [naive_solver|]. by eexists _, _. }
  erewrite bind_Ok by reflexivity.
  apply (checked_iff _
    (internals_ok (set_byEntry st (<[EntryState p:=p]> (c_byEntry st))) p (InternalStates p) /\
     chain_ok st p)); cycle 1.
  { eapply checked_bind; [apply claim_internals_checked|]. intros _.
    unfold chain_ok, inline_step. simpl. destruct (c_prev st) as [q|].
    - destruct (String.eqb_spec (ExitState q) (EntryState p)); simpl.
      + left. split; [naive_solver|done].
      + right. split; [naive_solver|]. by eexists _, _.
    - left. split; [naive_solver|done]. }
  enough (internals_ok (set_byEntry st (<[EntryState p:=p]> (c_byEntry st))) p (InternalStates p)
          <-> internals_ok st p (InternalStates p)) by tauto.
  unfold internals_ok. simpl. split; intros [Hn H]; (split; [done|]); intros s Hs;
    destruct (H s Hs) as (? & Hse & Hb & ?); (split_and!; [done..| |done]).
  - by apply lookup_insert_None in Hb as [? _].
  - apply lookup_insert_None. split; [done|congruence].
Qed.

(** *** The loop *)

Lemma inlines_app pre ps : inlines (pre ++ ps) = inlines pre ++ inlines ps.
Proof. apply filter_app. Qed.

Lemma inlines_one p : inlines [p] = if is_inline p then [p] else [].
Proof. unfold inlines. rewrite filter_cons. simpl. by destruct (is_inline p). Qed.

Definition bookkeeping (st : cstate S) p : cstate S :=
  set_provided (set_byName st (<[Name p := p]> (c_byName st)))
    (add_provides (Provides p) (c_provided st)).

Lemma tables_snoc pre p :
  tables (pre ++ [p]) =
  if is_inline p then inline_step (bookkeeping (tables pre) p) p
  else bookkeeping (tables pre) p.
Proof.
  unfold tables, bookkeeping, inline_step, provided_by. simpl.
  rewrite inlines_app, inlines_one, !fmap_app, foldl_app, !insert_all_app. simpl.
  destruct (is_inline p); simpl.
  - rewrite bind_app, !insert_all_app, last_snoc. simpl.
    rewrite app_nil_r. unfold set_prev, set_byInternal, set_byEntry, set_provided, set_byName. simpl.
    f_equal. destruct (inlines pre) as [|q l]; [done|]. by rewrite last_cons; destruct (last l).
  - by rewrite !app_nil_r.
Qed.

Lemma tables_name_None pre p : c_byName (tables pre) !! Name p = None <-> Name p ∉ Name <$> pre.
Proof.
  simpl. rewrite insert_all_None, <- list_fmap_compose.
  split; [by intros [? _]|]. intros H. split; [exact H|apply lookup_empty].
Qed.

Lemma tables_entry_None pre s :
  c_byEntry (tables pre) !! s = None <-> s ∉ EntryState <$> inlines pre.
Proof.
  simpl. rewrite insert_all_None, <- list_fmap_compose.
  split; [by intros [? _]|]. intros H. split; [exact H|apply lookup_empty].
Qed.

Lemma claims_keys ps : (ps ≫= internal_claims).*1 = ps ≫= InternalStates.
Proof.
  induction ps as [|p ps IH]; [done|].
  change ((internal_claims p ++ (ps ≫= internal_claims)).*1 =
          InternalStates p ++ (ps ≫= InternalStates)).
  rewrite fmap_app, IH. f_equal.
  unfold internal_claims. rewrite <- list_fmap_compose. apply list_fmap_id.
Qed.

Lemma tables_internal_None pre s :
  c_byInternal (tables pre) !! s = None <-> forall q, q ∈ inlines pre -> s ∉ InternalStates q.
Proof.
  simpl. rewrite insert_all_None, claims_keys, lookup_empty. split.
  - intros [H _] q Hq Hs. apply H. apply list_elem_of_bind. by exists q.
  - intros H. split; [|done]. intros (q & Hs & Hq)%list_elem_of_bind. by apply (H q).
Qed.

Lemma tables_inline_ok pre p :
  entry_ok (bookkeeping (tables pre) p) p /\
  internals_ok (bookkeeping (tables pre) p) p (InternalStates p) /\
  chain_ok (bookkeeping (tables pre) p) p <->
  (EntryState p <> StateNone /\ EntryState p ∉ EntryState <$> inlines pre) /\
  (NoDup (InternalStates p) /\
    forall sub, sub ∈ InternalStates p ->
      sub <> StateNone /\ sub <> EntryState p /\
      forall q, q ∈ inlines pre -> sub <> EntryState q /\ sub ∉ InternalStates q) /\
  (forall q, last (inlines pre) = Some q -> ExitState q = EntryState p).
Proof.
  unfold entry_ok, internals_ok, chain_ok, bookkeeping.
  cbn [c_byEntry c_byInternal c_prev set_provided set_byName].
  rewrite tables_entry_None. setoid_rewrite tables_entry_None.
  setoid_rewrite tables_internal_None. apply and_iff_compat_l, and_iff_compat_r.
  apply and_iff_compat_l. split; intros H sub Hs; destruct (H sub Hs) as (? & ? & H');
    (split; [done|split; [done|]]).
  - destruct H' as [He Hi]. intros q Hq. split; [|by apply Hi].
    intros ->. apply He. by apply list_elem_of_fmap_2.
  - split.
    + intros (q & -> & Hq)%list_elem_of_fmap. by destruct (H' q Hq).
    + intros q Hq. by apply H'.
Qed.

Lemma valid_after_iff pre p :
  valid_after pre p <->
  (Name p <> EmptyString /\ Name p ∉ Name <$> pre) /\
  (forall r, r ∈ Requires p -> requirement_ok (provided_by pre) r) /\
  (if is_inline p then
     entry_ok (bookkeeping (tables pre) p) p /\
     internals_ok (bookkeeping (tables pre) p) p (InternalStates p) /\
     chain_ok (bookkeeping (tables pre) p) p
   else EntryState p = StateNone /\ ExitState p = StateNone).
Proof.
  destruct (is_inline p) eqn:Ei.
  - rewrite tables_inline_ok. split.
    + intros []. auto 10.
    + intros ((? & ?) & ? & ? & ? & ?). split; auto; congruence.
  - split; [intros []; auto 10|]. intros ((? & ?) & ? & ? & ?).
    split; auto; congruence.
Qed.

Lemma compose_phase_checked pre p :
  checked ErrPermanent_msg (valid_after pre p)
    (compose_phase p (tables pre)) (tables (pre ++ [p])).
Proof.
  eapply checked_iff; [symmetry; apply valid_after_iff|].
  rewrite <- validateRequires_None with (ph := Name p), tables_snoc, <- tables_name_None.
  unfold compose_phase, bind at 1, get.
  destruct (String.eqb_spec (Name p) EmptyString) as [He|He].
  { right. split; [tauto|]. by eexists _, _. }
  destruct (c_byName (tables pre) !! Name p) eqn:En.
  { right. split; [naive_solver|]. by eexists _, _. }
  erewrite bind_Ok by reflexivity.
  change (c_provided (tables pre)) with (provided_by pre).
  destruct (validateRequires (Name p) (Requires p) (provided_by pre)) as [e|] eqn:Ev.
  { right. split; [naive_solver|]. by eexists _, _. }
  erewrite bind_Ok by reflexivity.
  destruct (is_inline p).
  - eapply checked_iff; [|apply compose_inline_checked]. tauto.
  - destruct (String.eqb_spec (EntryState p) StateNone),
      (String.eqb_spec (ExitState p) StateNone); simpl;
      [left; tauto|right..]; (split; [tauto|]); by eexists _, _.
Qed.

Lemma compose_loop_checked pre ps :
  checked ErrPermanent_msg
    (forall l p post, ps = l ++ p :: post -> valid_after (pre ++ l) p)
    (for_each ps compose_phase (tables pre)) (tables (pre ++ ps)).
Proof.
  revert pre. induction ps as [|p ps IH]; intros pre; simpl.
  - left. rewrite app_nil_r. split; [|done]. by intros [|] ? ?.
  - eapply checked_iff;
      [|eapply checked_bind; [apply compose_phase_checked|intros _]].
    2: { specialize (IH (pre ++ [p])). rewrite <- app_assoc in IH. exact IH. }
    split.
    + intros [Hp H] [|q l] p' post Heq; injection Heq as <- ->; [by rewrite app_nil_r|].
      specialize (H l p' post eq_refl). by rewrite <- app_assoc in H.
    + intros H. split; [rewrite <- (app_nil_r pre); by apply (H [] p ps)|].
      intros l p' post ->. rewrite <- app_assoc. by apply (H (p :: l) p' post).
Qed.

Lemma Compose_run ps r : Compose ps = Ok r <-> pipeline_valid ps /\ r = pipeline_runner ps.
Proof.
  unfold Compose, pipeline_valid. destruct ps as [|p0 ps']; [naive_solver|].
  set (ps := p0 :: ps'). pose proof (compose_loop_checked [] ps) as Hc.
  change (tables []) with (cstate0 (S := S)) in Hc.
  destruct Hc as [[HP ->]|[HP (e & s' & -> & _)]]; [|naive_solver].
  split.
  - intros [= <-]. by split.
  - intros [_ ->]. done.
Qed.

(** C1. [Compose] succeeds exactly on the valid pipelines (unique non-empty
    names, requirements met by what precedes, unclaimed entry and internal
    states, connected inline chain, no states on out-of-band phases), and
    the runner it returns holds exactly the tables of the phase list. *)
Theorem Compose_iff ps r :
  Compose ps = Ok r <-> pipeline_valid ps /\ r = pipeline_runner ps.
Proof. apply Compose_run. Qed.

Lemma Compose_error_run ps :
  ~ pipeline_valid ps <-> exists e, Compose ps = Err e /\ errors_Is e ErrPermanent_msg = true.
Proof.
  unfold Compose, pipeline_valid. destruct ps as [|p0 ps'].
  { split; [|tauto]. intros _. by eexists. }
  set (ps := p0 :: ps'). pose proof (compose_loop_checked [] ps) as Hc.
  change (tables []) with (cstate0 (S := S)) in Hc.
  destruct Hc as [[HP ->]|[HP (e & s' & -> & He)]].
  - split; [intros H; destruct H; by split|naive_solver].
  - split; [by exists e|]. intros _ [_ H]. by apply HP.
Qed.

(** [Compose] never panics, and every error it returns wraps
    [ErrPermanent]; it fails exactly on the invalid pipelines. *)
Lemma Compose_error ps :
  ~ pipeline_valid ps <-> exists e, Compose ps = Err e /\ errors_Is e ErrPermanent_msg = true.
Proof. apply Compose_error_run. Qed.
End PipelineSpec.

Section ComposeWithSpec.
Context {S : Type}.
Implicit Types (ps : list (Phase S)).

Definition options (opts : list ComposeOption) : runnerOpts :=
  foldl (fun o opt => opt o) no_opts opts.

Lemma own_verifiers_own sg peers : is_Some (own_verifiers sg peers !! Algorithm sg).
Proof.
  unfold own_verifiers. destruct (peers !! Algorithm sg) as [v|] eqn:E.
  - rewrite E. eauto.
  - rewrite lookup_insert_eq. eauto.
Qed.

(** A peer's verifier is never replaced by our own signer. *)
Lemma own_verifiers_peer sg peers alg v :
  peers !! alg = Some v -> own_verifiers sg peers !! alg = Some v.
Proof.
  unfold own_verifiers. destruct (peers !! Algorithm sg) eqn:E; [done|].
  intros H. rewrite lookup_insert_ne; [done|congruence].
Qed.

Lemma ComposeWith_run ps opts r :
  ComposeWith ps opts = Ok r <->
  exists sg, o_signer (options opts) = Some sg /\
    (needsPeers ps = true -> o_peerVerifiers (options opts) <> ∅) /\
    pipeline_valid ps /\
    r = attachLineage (pipeline_runner ps) {|
          cfgSigner := sg;
          cfgVerifiers := own_verifiers sg (o_peerVerifiers (options opts));
          cfgFailureHook := o_failureHook (options opts) |}.
Proof.
  unfold ComposeWith. fold (options opts).
  destruct (o_signer (options opts)) as [sg|]; [|naive_solver].
  destruct (needsPeers ps && Nat.eqb (size (o_peerVerifiers (options opts))) 0) eqn:Ep.
  - apply andb_true_iff in Ep as [Hn Hz%Nat.eqb_eq]. apply map_size_empty_inv in Hz.
    split; [done|]. intros (? & _ & H & _). by destruct (H Hn).
  - assert (Hp : needsPeers ps = true -> o_peerVerifiers (options opts) <> ∅).
    { intros Hn He. rewrite Hn, He, map_size_empty in Ep. done. }
    destruct (Compose ps) as [r0|e|w] eqn:Ec.
    + apply Compose_run in Ec as [Hv ->]. split; [intros [= <-]; eauto|].
      intros (sg' & [= <-] & _ & _ & ->). done.
    + split; [done|]. intros (? & _ & _ & Hv & _).
      assert (Compose ps = Ok (pipeline_runner ps)) by (by apply Compose_run). congruence.
    + split; [done|]. intros (? & _ & _ & Hv & _).
      assert (Compose ps = Ok (pipeline_runner ps)) by (by apply Compose_run). congruence.
Qed.

(** [ComposeWith] succeeds exactly when a signer was given, peer
    verifiers were given if any phase consumes messages, and the pipeline is
    valid; the runner is then [Compose]'s with the lineage state attached,
    and its verifier map resolves every peer algorithm and the signer's
    own. *)
Lemma ComposeWith_iff ps opts r :
  let o := options opts in
  ComposeWith ps opts = Ok r <->
  exists sg, o_signer o = Some sg /\
    (needsPeers ps = true -> o_peerVerifiers o <> ∅) /\
    pipeline_valid ps /\
    r = attachLineage (pipeline_runner ps) {|
          cfgSigner := sg;
          cfgVerifiers := own_verifiers sg (o_peerVerifiers o);
          cfgFailureHook := o_failureHook o |}.
Proof.
  cbv zeta. apply ComposeWith_run.
Qed.
End ComposeWithSpec.
