(* ===== verification/Runner.v ===== *)
(** * Session runner (pkg/ares/phase: runner.go, runner_lineage.go)

    The session operations of a composed runner as state transformers over the
    tracked sessions and the shared lineage store: [BeginSession],
    [HandleMessage], [HandleLineageMessage], [AdvanceToState], [EndSession],
    the auto-commit of phase outputs and the mismatch claims. *)
From Stdlib Require Import ZArith NArith Lia String Ascii Strings.Byte.
From stdpp Require Import base gmap list strings pretty.
From S2P Require Import Prelude Bytes.
From S2P Require Import GoFmt.
From S2P Require Import Sign.
From S2P Require Import Lineage.
From S2P Require Import Context.
From S2P Require Import Pipeline.

(** ** State *)

Record sessionTracker (S : Type) := {
  tr_ctx : SessionContext;
  tr_state : SessionState;
  tr_current : option (Phase S);
  tr_entered : bool
}.
Arguments tr_ctx {S} _.
Arguments tr_state {S} _.
Arguments tr_current {S} _.
Arguments tr_entered {S} _.

(** The mutable part of a runner: the tracked sessions, the environment of
    the hooks, the failure events fired so far and the lines written to the
    hook-panic log. *)
Record RunnerState (S : Type) := {
  sessions : gmap string (sessionTracker S);
  rs_env : Env S;
  fired : list LineageFailureEvent;
  hookPanicLog : list LineageFailureEvent
}.
Arguments sessions {S} _.
Arguments rs_env {S} _.
Arguments fired {S} _.
Arguments hookPanicLog {S} _.

Section Runner.
Context {S : Type} `{Store S}.

Definition set_sessions (st : RunnerState S) m : RunnerState S :=
  {| sessions := m; rs_env := rs_env st; fired := fired st; hookPanicLog := hookPanicLog st |}.
Definition set_env (st : RunnerState S) e : RunnerState S :=
  {| sessions := sessions st; rs_env := e; fired := fired st; hookPanicLog := hookPanicLog st |}.

(** One session being driven: its tracker and the shared environment. *)
Definition TState : Type := sessionTracker S * Env S.

Definition with_ctx (t : sessionTracker S) (c : SessionContext) : sessionTracker S :=
  {| tr_ctx := c; tr_state := tr_state t; tr_current := tr_current t;
     tr_entered := tr_entered t |}.

(** A hook call on the tracker's context. *)
Definition run_hook (h : M (HookState S) unit) : M TState unit := fun ts =>
  let '(o, (c, e)) := h (tr_ctx ts.1, ts.2) in (o, (with_ctx ts.1 c, e)).

Definition set_position (s : SessionState) (p : option (Phase S)) (entered : bool)
  : M TState unit :=
  modify (fun ts => ({| tr_ctx := tr_ctx ts.1; tr_state := s; tr_current := p;
                        tr_entered := entered |}, ts.2)).
Definition set_entered : M TState unit :=
  modify (fun ts => ({| tr_ctx := tr_ctx ts.1; tr_state := tr_state ts.1;
                        tr_current := tr_current ts.1; tr_entered := true |}, ts.2)).

Definition phaseConsumes (p : Phase S) (msgType : string) : bool :=
  existsb (fun t => String.eqb t msgType) (ConsumedMessageTypes p).

(** ** Auto-commit (runner_lineage.go) *)

(** The first node of the walk with this payload hash; an error of the walk
    met before it is the result. *)
Fixpoint find_payload (hash : NodeRef) (l : list (Outcome DAGNode)) : Outcome (option DAGNode) :=
  match l with
  | [] => Ok None
  | Ok n :: l' => if decide (PayloadHash n = hash) then Ok (Some n) else find_payload hash l'
  | Err e :: _ => Err e
  | Panic w :: _ => Panic w
  end.

Fixpoint resolve_keys (keys : list string) (c : SessionContext) (s : S) : Outcome (list DAGNode) :=
  match keys with
  | [] => Ok []
  | key :: keys' =>
      match ctx_Get key c ≫= asBytes with
      | None => resolve_keys keys' c s
      | Some payload =>
          match find_payload (HashPayload payload) (WalkSession (ctxSessionID c) s) with
          | Ok found =>
              match resolve_keys keys' c s with
              | Ok ps => Ok (match found with Some n => n :: ps | None => ps end)
              | o => o
              end
          | Err e => Err e
          | Panic w => Panic w
          end
      end
  end.

Definition resolveParents (p : Phase S) (c : SessionContext) (s : S) : Outcome (list DAGNode) :=
  resolve_keys (Requires p).*1 c s.

Definition commit_output (cfg : LineageConfig) (p : Phase S) (c : SessionContext)
    (parents : list DAGNode) (kt : string * ContextKeyType) : M (Env S) unit :=
  let '(key, t) := kt in
  if NoLineage t then ret tt
  else match ctx_Get key c ≫= asBytes with
  | None => ret tt
  | Some payload =>
      let! node := wrap_err (fun e => Errorf [W ErrFrameworkBug; T ": lineage.Commit for phase ";
                       Q (Name p); T " output "; Q key; T ": "; W e])
        (commit_now (ctxSessionID c) (Name p) key payload parents (Some (cfgSigner cfg))) in
      append_idempotent (fun e => Errorf [W ErrFrameworkBug; T ": lineage.Store.Append for phase ";
                       Q (Name p); T " output "; Q key; T ": "; W e]) node
  end.

Definition commitPhaseOutputsIfEnabled (r : SessionRunner S) (p : Phase S) : M (HookState S) unit :=
  match runner_lineage r with
  | None => ret tt
  | Some cfg => fun h =>
      match resolveParents p h.1 (env_store h.2) with
      | Ok parents => on_env (for_each (Provides p) (commit_output cfg p h.1 parents)) h
      | Err e => (Err e, h)
      | Panic w => (Panic w, h)
      end
  end.

(** ** Transitions *)

Definition wrap_phase (p : Phase S) (what : string) (e : GoError) : GoError :=
  Errorf [T "phase "; Q (Name p); T what; W e].

Definition nil_pointer : string := "runtime error: invalid memory address or nil pointer dereference".

(** One iteration of the loop of [advance], up to the decision to cascade:
    [Some res] returns, [None] goes round again. *)
Definition advance_step (r : SessionRunner S) : M TState (option bool) :=
  let! ts := get in
  match tr_current ts.1 with
  | None => panic nil_pointer
  | Some current =>
      wrap_err (wrap_phase current ": Exit: ") (run_hook (Exit current)) ;;;
      wrap_err (wrap_phase current ": lineage commit: ")
        (run_hook (commitPhaseOutputsIfEnabled r current)) ;;;
      let next := ExitState current in
      if String.eqb next StateNone then
        set_position StateNone None (tr_entered ts.1) ;;; ret (Some true)
      else match byEntryState r !! next with
      | None => throw (Errorf [W ErrFrameworkBug; T ": no phase claims state "; Q next;
                          T " (ExitState of "; Q (Name current); T ")"])
      | Some nextPhase =>
          set_position next (Some nextPhase) false ;;;
          wrap_err (wrap_phase nextPhase ": Enter: ") (run_hook (Enter nextPhase)) ;;;
          set_entered ;;;
          let! ts' := get in
          if (0 <? length (ConsumedMessageTypes nextPhase))%nat then ret (Some true)
          else if negb (CheckComplete nextPhase (tr_ctx ts'.1)) then ret (Some true)
          else ret None
      end
  end.

Definition hopCap (r : SessionRunner S) : nat := length (phases r) + 1.

Definition hop_limit (r : SessionRunner S) : GoError :=
  Errorf [W ErrFrameworkBug; T ": cascade hop limit exceeded (>"; T (pretty (hopCap r));
          T " hops); pipeline likely has a cycle"].

(** [for hop := 0; hop < hopCap; hop++]. *)
Fixpoint advance_loop (r : SessionRunner S) (hops : nat) : M TState bool :=
  match hops with
  | O => throw (hop_limit r)
  | Datatypes.S hops' =>
      let! res := advance_step r in
      match res with
      | Some b => ret b
      | None => advance_loop r hops'
      end
  end.

Definition advance (r : SessionRunner S) : M TState bool := advance_loop r (hopCap r).

(** One iteration of the loop of [AdvanceToState]: it has stepped to the
    next phase, or returned an error. *)
Definition walk_step (r : SessionRunner S) (sessionID : string) (target : SessionState)
  : M TState unit :=
  let! ts := get in
  match tr_current ts.1 with
  | None => throw (Errorf [W ErrFrameworkBug; T ": AdvanceToState: session "; Q sessionID;
                     T " has no current phase but target "; Q target; T " not reached"])
  | Some current =>
      wrap_err (wrap_phase current ": Exit during AdvanceToState: ") (run_hook (Exit current)) ;;;
      wrap_err (wrap_phase current ": lineage commit during AdvanceToState: ")
        (run_hook (commitPhaseOutputsIfEnabled r current)) ;;;
      let next := ExitState current in
      if String.eqb next StateNone then
        throw (Errorf [W ErrPermanent; T ": AdvanceToState: session "; Q sessionID;
                 T " reached terminal phase "; Q (Name current); T " without entering target "; Q target])
      else match byEntryState r !! next with
      | None => throw (Errorf [W ErrFrameworkBug; T ": AdvanceToState: no phase claims state "; Q next])
      | Some nextPhase =>
          set_position next (Some nextPhase) false ;;;
          wrap_err (wrap_phase nextPhase ": Enter during AdvanceToState: ")
            (run_hook (Enter nextPhase)) ;;;
          set_entered
      end
  end.

Definition walk_limit (sessionID : string) (target : SessionState) : GoError :=
  Errorf [W ErrFrameworkBug; T ": AdvanceToState: hop limit exceeded for session "; Q sessionID;
    T " (target "; Q target; T "); pipeline likely has a cycle"].

Fixpoint walk_loop (r : SessionRunner S) (sessionID : string) (target : SessionState) (hops : nat)
  : M TState unit :=
  match hops with
  | O => throw (walk_limit sessionID target)
  | Datatypes.S hops' =>
      let! ts := get in
      if String.eqb (tr_state ts.1) target then ret tt
      else walk_step r sessionID target ;;; walk_loop r sessionID target hops'
  end.

(** [AdvanceToState] once the tracker is found. *)
Definition advance_to (r : SessionRunner S) (sessionID : string) (target : SessionState)
  : M TState unit :=
  let! ts := get in
  if String.eqb (tr_state ts.1) target then ret tt
  else if match tr_current ts.1 with
          | Some current => existsb (fun sub => String.eqb sub target) (InternalStates current)
          | None => false
          end then ret tt
  else walk_loop r sessionID target (hopCap r).

(** The operation [m] on the tracker of a session; the tracker is shared by
    pointer, so every mutation stays in the map. *)
Definition with_tracker {A} (sessionID : string) (missing : GoError) (m : M TState A)
  : M (RunnerState S) A := fun st =>
  match sessions st !! sessionID with
  | None => (Err missing, st)
  | Some tracker =>
      let '(o, (tracker', e)) := m (tracker, rs_env st) in
      (o, set_env (set_sessions st (<[sessionID := tracker']> (sessions st))) e)
  end.

(** ** The public operations *)

Definition BeginSession (r : SessionRunner S) (sessionID cohortID : string)
  : M (RunnerState S) SessionContext := fun st =>
  if String.eqb sessionID EmptyString then
    (Err (Errorf [W ErrPermanent; T ": BeginSession requires non-empty sessionID"]), st)
  else match sessions st !! sessionID with
  | Some _ => (Err (Errorf [W ErrPermanent; T ": BeginSession: session "; Q sessionID;
                      T " is already active"]), st)
  | None =>
      let ctx := {| ctxSessionID := sessionID; ctxCohortID := cohortID; values := ∅;
                    ctxHasStore := bool_decide (is_Some (runner_lineage r));
                    lineageSigner := cfgSigner <$> runner_lineage r |} in
      match byEntryState r !! initialState r with
      | None => (Err (Errorf [W ErrFrameworkBug; T ": BeginSession: no phase claims initial state ";
                        Q (initialState r)]), st)
      | Some first =>
          let tracker := {| tr_ctx := ctx; tr_state := initialState r; tr_current := Some first;
                            tr_entered := false |} in
          match run_hook (Enter first) (tracker, rs_env st) with
          | (Ok _, (t, e)) =>
              (Ok (tr_ctx t),
               set_env (set_sessions st (<[sessionID := {| tr_ctx := tr_ctx t;
                 tr_state := tr_state t; tr_current := tr_current t; tr_entered := true |}]>
                 (sessions st))) e)
          | (Err er, (_, e)) =>
              (Err (Errorf [T "phase "; Q (Name first); T ": Enter: "; W er]),
               set_env (set_sessions st (delete sessionID (sessions st))) e)
          | (Panic w, (t, e)) =>
              (Panic w, set_env (set_sessions st (<[sessionID := t]> (sessions st))) e)
          end
      end
  end.

(** [HandleMessage] up to the completion check: the message is delivered to
    the current phase. *)
Definition deliver (msgType from : string) (payload : bytes) : M TState bool :=
  let! ts := get in
  match tr_current ts.1 with
  | None => panic nil_pointer
  | Some current =>
      if negb (phaseConsumes current msgType) then
        throw (Errorf [W ErrPermanent; T ": phase "; Q (Name current);
                 T ": does not consume message type "; Q msgType; T " in state "; Q (tr_state ts.1)])
      else
        wrap_err (wrap_phase current ": OnMessage: ")
          (run_hook (OnMessage current msgType from payload)) ;;;
        let! ts' := get in
        ret (CheckComplete current (tr_ctx ts'.1))
  end.

Definition handle (r : SessionRunner S) (msgType from : string) (payload : bytes) : M TState bool :=
  let! complete := deliver msgType from payload in
  if negb complete then ret false else advance r.

Definition not_active (op sessionID : string) : GoError :=
  Errorf [W ErrPermanent; T ": "; T op; T ": session "; Q sessionID; T " is not active"].

Definition HandleMessage (r : SessionRunner S) (sessionID msgType from : string) (payload : bytes)
  : M (RunnerState S) bool :=
  with_tracker sessionID (not_active "HandleMessage" sessionID) (handle r msgType from payload).

Definition AdvanceToState (r : SessionRunner S) (sessionID : string) (target : SessionState)
  : M (RunnerState S) unit :=
  with_tracker sessionID (not_active "AdvanceToState" sessionID) (advance_to r sessionID target).

Definition EndSession (sessionID : string) (st : RunnerState S) : RunnerState S :=
  set_sessions st (delete sessionID (sessions st)).

Definition CurrentState (sessionID : string) (st : RunnerState S) : SessionState * bool :=
  match sessions st !! sessionID with
  | None => (StateNone, false)
  | Some t => (tr_state t, true)
  end.

Definition RunnerSessionContext (sessionID : string) (st : RunnerState S) : option SessionContext :=
  tr_ctx <$> sessions st !! sessionID.

(** The text of a context entry; [json_Marshal] is encoding/json's, [None]
    when it fails. *)
Definition context_text (json_Marshal : Any -> option string) (v : Any) : option string :=
  match v with
  | ABytes b => Some (hex_encode b)
  | AString s => Some s
  | AMap ty m =>
      if String.eqb ty "map[string]any" then json_Marshal v else Some (fmt_v v)
  | _ => Some (fmt_v v)
  end.

Definition SessionContextKeys (json_Marshal : Any -> option string) (sessionID : string)
    (names : list string) (st : RunnerState S) : option (gmap string string) :=
  ctx ← RunnerSessionContext sessionID st;
  Some (foldl (fun out k =>
    match ctx_Get k ctx ≫= context_text json_Marshal with
    | Some s => <[k := s]> out
    | None => out
    end) ∅ names).

(** ** Lineage (runner_lineage.go) *)

Definition fireFailureHook (r : SessionRunner S) (ev : LineageFailureEvent) (st : RunnerState S)
  : RunnerState S :=
  match runner_lineage r ≫= cfgFailureHook with
  | None => st
  | Some hook =>
      {| sessions := sessions st; rs_env := rs_env st; fired := fired st ++ [ev];
         hookPanicLog := match hook ev with Panic _ => hookPanicLog st ++ [ev]
                                          | _ => hookPanicLog st end |}
  end.

(** The first parent the store does not hold. *)
Fixpoint missing_parent (i : nat) (parents : list NodeRef) (nodeHash : NodeRef) (s : S)
  : Outcome unit :=
  match parents with
  | [] => Ok tt
  | parent :: ps =>
      match Get parent s with
      | Ok _ => missing_parent (Datatypes.S i) ps nodeHash s
      | Err e => Err (MismatchError "ParentRef" (ref_bytes parent)
               (of_string ("parent[" +:+ pretty i +:+ "] not in store: " +:+ Error e)) (ref_bytes nodeHash))
      | Panic w => Panic w
      end
  end.

Definition verify_inbound (cfg : LineageConfig) (node : DAGNode) (payload : bytes) (s : S)
  : Outcome unit :=
  match Verify node payload (cfgVerifiers cfg) with
  | Some e => Err e
  | None => missing_parent 0 (Parents node) (Hash node) s
  end.

Definition failure_event (kind sessionID : string) (n : DAGNode) : LineageFailureEvent :=
  {| Kind := kind; evSessionID := sessionID; evPhaseID := PhaseID n; evRole := Role n;
     Attributee := to_string (Producer n); DAGNodes := [n] |}.

Definition HandleLineageMessage (r : SessionRunner S) (sessionID msgType from : string)
    (payload : bytes) (lineageNode : option DAGNode) : M (RunnerState S) bool :=
  match runner_lineage r with
  | None => HandleMessage r sessionID msgType from payload
  | Some cfg =>
      match lineageNode with
      | None => throw (Errorf [W ErrPermanent;
                  T ": HandleLineageMessage requires non-nil lineage node (v2 frame)"])
      | Some node => fun st =>
          match verify_inbound cfg node payload (env_store (rs_env st)) with
          | Panic w => (Panic w, st)
          | Err e =>
              (Err (Errorf [W ErrAppAttributable; T ": HandleLineageMessage: session "; Q sessionID;
                      T " phase "; Q (PhaseID node); T " role "; Q (Role node); T ": "; W e]),
               fireFailureHook r (failure_event "mismatch-confirmed" sessionID node) st)
          | Ok _ =>
              match append_idempotent (fun e => Errorf [W ErrFrameworkBug;
                      T ": HandleLineageMessage: store.Append for phase "; Q (PhaseID node);
                      T " role "; Q (Role node); T ": "; W e]) node (rs_env st) with
              | (Ok _, e) => HandleMessage r sessionID msgType from payload (set_env st e)
              | (Err er, e) => (Err er, set_env st e)
              | (Panic w, e) => (Panic w, set_env st e)
              end
          end
      end
  end.

Definition BuildMismatchClaim (r : SessionRunner S) (sessionID phaseID role : string)
    (mismatchErr : GoError) : M (RunnerState S) DAGNode :=
  match runner_lineage r with
  | None => throw (Errorf [W ErrPermanent;
              T ": BuildMismatchClaim requires lineage-enabled runner (build via ComposeWith, not Compose)"])
  | Some cfg => fun st =>
      let '(o, e) := commit_now sessionID phaseID "mismatch-claim" (of_string (Error mismatchErr)) []
                       (Some (cfgSigner cfg)) (rs_env st) in
      (o, set_env st e)
  end.

Definition ReportFalseLineageClaim (r : SessionRunner S) (sessionID : string) (claim : DAGNode)
  : RunnerState S -> RunnerState S :=
  fireFailureHook r (failure_event "mismatch-false-claim" sessionID claim).
End Runner.
Arguments TState S : clear implicits.
