(* ===== verification/Defaults.v ===== *)
(** * Default phases (pkg/ares/phase/defaults, pkg/ares/phase/keygen)

    The phases the framework ships: session initiation, threshold key
    generation and decryption, registration, and the three alternative key
    topologies; and what the composition rules of [Pipeline] make of them. *)
From Stdlib Require Import ZArith NArith Lia String Ascii Strings.Byte Floats.SpecFloat.
From stdpp Require Import base gmap list strings pretty.
From S2P Require Import Prelude Bytes.
From S2P Require Import GoFloat.
From S2P Require Import GoFmt.
From S2P Require Import Sign.
From S2P Require Import Lineage.
From S2P Require Import Context.
From S2P Require Import Pipeline.

(** ** State labels and context keys (states.go) *)

Definition StateInviting : SessionState := "INVITING".
Definition StateLocked : SessionState := "LOCKED".
Definition StateKeygen : SessionState := "KEYGEN".
Definition StateGossip : SessionState := "GOSSIP".
Definition StateVerifying : SessionState := "VERIFYING".
Definition StateSubmitting : SessionState := "SUBMITTING".
Definition StateScoring : SessionState := "SCORING".
Definition StateDecrypting : SessionState := "DECRYPTING".
Definition StateBroadcasting : SessionState := "BROADCASTING".
Definition StateClosed : SessionState := "CLOSED".

Definition CtxParticipants : string := "participants".
Definition CtxCryptoContract : string := "crypto_ctx".
Definition CtxCollectivePublicKey : string := "collective_pk".
Definition CtxSecretShares : string := "secret_shares".
Definition CtxEvalKeys : string := "eval_keys".
Definition CtxResultCiphertext : string := "result_ct".
Definition CtxResultBytes : string := "result_bytes".

Section Phases.
Context {S : Type} `{Store S}.

(** A hook whose body is [return nil]. *)
Definition no_hook : M (HookState S) unit := ret tt.
Definition no_message (msgType from : string) (payload : bytes) : M (HookState S) unit := ret tt.

Definition topology (t : string) : list (string * Any) := [("topology"%string, AString t)].

Definition Phase1aSessionInitiation : Phase S := {|
  Name := "phase-1a-session-initiation";
  Lifetime := LifetimePerSession; RunsAt := RunsAtInline;
  EntryState := StateInviting; ExitState := StateLocked; InternalStates := [];
  ConsumedMessageTypes := ["session.accept"%string];
  Requires := [];
  Provides := [
    (CtxParticipants, key_type "[]string" false []);
    (CtxCryptoContract, key_type "OpenFHEContract" false
      [("depth", AInt 30); ("ring_dim", AInt 4096); ("scaling_mod_size", AInt 50)]%string)];
  Enter := no_hook; OnMessage := no_message; CheckComplete := fun _ => true; Exit := no_hook
|}.

Definition Phase0aThresholdKeygen : Phase S := {|
  Name := "phase-0a-threshold-keygen";
  Lifetime := LifetimePerSession; RunsAt := RunsAtInline;
  EntryState := StateLocked; ExitState := StateGossip; InternalStates := [StateKeygen];
  ConsumedMessageTypes := ["keygen.share"; "keygen.eval_round1"; "keygen.eval_share"]%string;
  Requires := [
    (CtxParticipants, key_type "[]string" true []);
    (CtxCryptoContract, key_type "OpenFHEContract" true [("depth_min"%string, AInt 4)])];
  Provides := [
    (CtxCollectivePublicKey, key_type "[]byte" false (topology "threshold"));
    (CtxSecretShares, key_type "map[string][]byte" false (topology "threshold"));
    (CtxEvalKeys, key_type "OpenFHEEvalKeys" false [])];
  Enter := no_hook; OnMessage := no_message; CheckComplete := fun _ => false; Exit := no_hook
|}.

Definition Phase0bRegistration : Phase S := {|
  Name := "phase-0b-registration";
  Lifetime := LifetimePersistent; RunsAt := RunsAtRegistration;
  EntryState := StateNone; ExitState := StateNone; InternalStates := [];
  ConsumedMessageTypes := [];
  Requires := [];
  Provides := [("participant_identity"%string, key_type "ParticipantIdentity" false [])];
  Enter := no_hook; OnMessage := no_message; CheckComplete := fun _ => true; Exit := no_hook
|}.

Definition Phase3ThresholdDecrypt : Phase S := {|
  Name := "phase-3-threshold-decrypt";
  Lifetime := LifetimePerSession; RunsAt := RunsAtInline;
  EntryState := StateDecrypting; ExitState := StateBroadcasting; InternalStates := [];
  ConsumedMessageTypes := ["decrypt.partial"%string];
  Requires := [
    (CtxParticipants, key_type "[]string" true []);
    (CtxSecretShares, key_type "map[string][]byte" true (topology "threshold"));
    (CtxResultCiphertext, key_type "[]byte" true [])];
  Provides := [(CtxResultBytes, key_type "[]byte" false [])];
  Enter := no_hook; OnMessage := no_message; CheckComplete := fun _ => false; Exit := no_hook
|}.

(** ** Key topologies (keygen/variants.go) *)

Definition SinglePartyKeygen : Phase S := {|
  Name := "keygen-single-party";
  Lifetime := LifetimePerSession; RunsAt := RunsAtInline;
  EntryState := StateLocked; ExitState := StateGossip; InternalStates := [StateKeygen];
  ConsumedMessageTypes := [];
  Requires := [
    (CtxParticipants, key_type "[]string" true []);
    (CtxCryptoContract, key_type "OpenFHEContract" true [("depth_min"%string, AInt 4)])];
  Provides := [
    (CtxCollectivePublicKey, key_type "[]byte" false []);
    (CtxSecretShares, key_type "map[string][]byte" false (topology "single_party"));
    (CtxEvalKeys, key_type "OpenFHEEvalKeys" false [])];
  Enter := no_hook; OnMessage := no_message; CheckComplete := fun _ => true; Exit := no_hook
|}.

Definition PlaintextKeygen : Phase S := {|
  Name := "keygen-plaintext";
  Lifetime := LifetimePerSession; RunsAt := RunsAtInline;
  EntryState := StateLocked; ExitState := StateGossip; InternalStates := [StateKeygen];
  ConsumedMessageTypes := [];
  Requires := [(CtxParticipants, key_type "[]string" true [])];
  Provides := [
    (CtxCollectivePublicKey, key_type "[]byte" false (topology "plaintext"));
    (CtxSecretShares, key_type "[]byte" false (topology "plaintext"));
    (CtxEvalKeys, key_type "OpenFHEEvalKeys" false [])];
  Enter := no_hook; OnMessage := no_message; CheckComplete := fun _ => true; Exit := no_hook
|}.

Definition preshared_keys : list string := [CtxCollectivePublicKey; CtxSecretShares; CtxEvalKeys].

Definition preshared_Enter : M (HookState S) unit :=
  for_each preshared_keys (fun key =>
    let! c := get_ctx in
    if negb (ctx_Has key c) then throw (MissingContextError key "keygen-preshared") else ret tt).

Definition PreSharedKeygen : Phase S := {|
  Name := "keygen-preshared";
  Lifetime := LifetimePerCohort; RunsAt := RunsAtInline;
  EntryState := StateLocked; ExitState := StateGossip; InternalStates := [StateKeygen];
  ConsumedMessageTypes := [];
  Requires := [
    (CtxParticipants, key_type "[]string" true []);
    (CtxCollectivePublicKey, key_type "[]byte" true []);
    (CtxSecretShares, key_type "map[string][]byte" true (topology "threshold"));
    (CtxEvalKeys, key_type "OpenFHEEvalKeys" true [])];
  Provides := [];
  Enter := preshared_Enter; OnMessage := no_message; CheckComplete := fun _ => true; Exit := no_hook
|}.
End Phases.

(** ** Properties *)

Section Topology.
Context {S : Type}.
Implicit Types (p q k : Phase S) (ps pre mid post : list (Phase S)).

(** The entry a key has after a phase that provides it and phases that do
    not. *)
Lemma add_provides_lookup l m key :
  key ∉ l.*1 -> add_provides l m !! key = m !! key.
Proof.
  unfold add_provides. revert m. induction l as [|[k t] l IH]; intros m Hk; [done|].
  simpl in *. apply not_elem_of_cons in Hk as [Hne Hk]. rewrite IH by done.
  by rewrite lookup_insert_ne by congruence.
Qed.

Lemma provided_by_app pre ps :
  provided_by (pre ++ ps) = foldl (fun m p => add_provides (Provides p) m) (provided_by pre) ps.
Proof. unfold provided_by. by rewrite foldl_app. Qed.

Lemma provided_by_last pre k mid key t :
  add_provides (Provides k) (provided_by pre) !! key = Some t ->
  (forall q, q ∈ mid -> key ∉ (Provides q).*1) ->
  provided_by (pre ++ k :: mid) !! key = Some t.
Proof.
  intros Hk. rewrite provided_by_app. simpl. revert Hk.
  generalize (add_provides (Provides k) (provided_by pre)). induction mid as [|q mid IH]; intros m Hm Hmid.
  - done.
  - simpl. apply IH.
    + rewrite add_provides_lookup; [done|]. apply Hmid. by left.
    + intros q' Hq'. apply Hmid. by right.
Qed.
End Topology.

Section Properties.
Context {S : Type} `{Store S}.
Implicit Types (pre mid post : list (Phase S)).

Lemma topology_mismatch (provided : gmap string ContextKeyType) ty t :
  provided !! CtxSecretShares = Some (key_type ty false (topology t)) ->
  fmt_v (AString t) <> fmt_v (AString "threshold") ->
  ~ requirement_ok provided
      (CtxSecretShares, key_type "map[string][]byte" true (topology "threshold")).
Proof.
  intros Hl Hf Hr. unfold requirement_ok in Hr. cbn [fst snd] in Hr. rewrite Hl in Hr.
  destruct Hr as [_ Hc]. specialize (Hc ("topology"%string, AString "threshold")). simpl in Hc.
  destruct Hc as [He|[(pk & gv & x & y & Hp & Hn & _)|[_ (gv & Ha & He)]]]; [by left|done| |].
  - assert (Hs : min_suffix "topology" = Some pk) by (by apply min_suffix_spec). done.
  - simpl in Ha. injection Ha as <-. done.
Qed.

(** A key topology cannot be swapped under threshold decryption: with
    single-party or plaintext keys and no later provider of secret shares,
    [Compose] refuses every pipeline that reaches [Phase3ThresholdDecrypt],
    with an error wrapping [ErrPermanent]. *)
Lemma topology_not_substitutable pre keygen mid post :
  keygen ∈ [SinglePartyKeygen; PlaintextKeygen] ->
  (forall q, q ∈ mid -> CtxSecretShares ∉ (Provides q).*1) ->
  exists e, Compose (pre ++ keygen :: mid ++ Phase3ThresholdDecrypt :: post) = Err e /\
    errors_Is e ErrPermanent_msg = true.
Proof.
  intros Hk Hmid. apply Compose_error_run. intros [_ Hv].
  specialize (Hv (pre ++ keygen :: mid) Phase3ThresholdDecrypt post).
  rewrite <- app_assoc in Hv. specialize (Hv eq_refl).
  pose proof (v_requires _ _ Hv) as Hr. clear Hv.
  specialize (Hr (CtxSecretShares, key_type "map[string][]byte" true (topology "threshold"))).
  specialize (Hr ltac:(right; left)).
  apply elem_of_cons in Hk as [->|Hk%list_elem_of_singleton]; [|subst keygen].
  - revert Hr. apply (topology_mismatch _ "map[string][]byte" "single_party"); [|vm_compute; discriminate].
    apply provided_by_last; [|done]. apply insert_all_NoDup; [by apply (bool_decide_unpack _)|right; left].
  - revert Hr. apply (topology_mismatch _ "[]byte" "plaintext"); [|vm_compute; discriminate].
    apply provided_by_last; [|done]. apply insert_all_NoDup; [by apply (bool_decide_unpack _)|right; left].
Qed.

(** [PreSharedKeygen] starts a session exactly when the whole key bundle
    is in its context, and then changes nothing; otherwise its error names the
    first missing key. *)
Lemma preshared_Enter_spec (h : HookState S) :
  preshared_Enter h =
  (match find (fun key => negb (ctx_Has key h.1)) preshared_keys with
   | None => Ok tt
   | Some key => Err (MissingContextError key "keygen-preshared")
   end, h).
Proof.
  unfold preshared_Enter. generalize preshared_keys. intros l. induction l as [|key l IH]; [done|].
  simpl. unfold bind at 1 2, get_ctx. destruct (ctx_Has key h.1); simpl; [exact IH|done].
Qed.
End Properties.

Module Witnesses.
Import InMemory.

(** The application's phases between the default ones. *)
Definition glue (name entry exit : string) (prov : ContextSchema) : Phase InMemoryStore := {|
  Name := name; Lifetime := LifetimePerSession; RunsAt := RunsAtInline;
  EntryState := entry; ExitState := exit; InternalStates := []; ConsumedMessageTypes := [];
  Requires := []; Provides := prov;
  Enter := no_hook; OnMessage := no_message; CheckComplete := fun _ => true; Exit := no_hook |}.
Definition score : Phase InMemoryStore :=
  glue "score" StateGossip StateDecrypting [(CtxResultCiphertext, key_type "[]byte" false [])].

(** The default pipeline composes with threshold keys ... *)
Example default_pipeline_composes :
  match Compose [Phase0bRegistration; Phase1aSessionInitiation; Phase0aThresholdKeygen; score; Phase3ThresholdDecrypt] with
  | Ok r => initialState r = StateInviting
  | _ => False
  end.
Proof. vm_compute. reflexivity. Qed.

(** ... and not with single-party ones. *)
Lemma topology_not_substitutable_witness :
  exists e, Compose ([Phase1aSessionInitiation] ++ SinglePartyKeygen :: [score] ++ Phase3ThresholdDecrypt :: []) = Err e /\
    errors_Is e ErrPermanent_msg = true.
Proof.
  apply topology_not_substitutable; [by left|].
  intros q ->%list_elem_of_singleton Hin. by apply list_elem_of_singleton in Hin.
Defined.

(** The pre-shared variant cannot be swapped in either: nothing of the
    default pipeline provides the bundle it requires, whatever is seeded into
    the context when a session begins. *)
Example preshared_needs_a_provider :
  match Compose [Phase1aSessionInitiation; PreSharedKeygen; score; Phase3ThresholdDecrypt] with
  | Err e => errors_Is e ErrPermanent_msg = true
  | _ => False
  end.
Proof. vm_compute. reflexivity. Qed.

(** The last exit state of that pipeline belongs to no phase, and [Compose]
    accepts it all the same: leaving the decryption phase then fails. *)
Example unclaimed_exit_state_composes :
  match Compose [Phase1aSessionInitiation; Phase0aThresholdKeygen; score; Phase3ThresholdDecrypt] with
  | Ok r => byEntryState r !! ExitState (Phase3ThresholdDecrypt (S := InMemoryStore)) = None
  | _ => False
  end.
Proof. vm_compute. reflexivity. Qed.

(** An entry state that is an internal state of an earlier phase composes; the
    converse order is refused. *)
Definition with_internal (n entry exit : string) (sub : list SessionState) : Phase InMemoryStore := {|
  Name := n; Lifetime := LifetimePerSession; RunsAt := RunsAtInline;
  EntryState := entry; ExitState := exit; InternalStates := sub; ConsumedMessageTypes := [];
  Requires := []; Provides := [];
  Enter := no_hook; OnMessage := no_message; CheckComplete := fun _ => true; Exit := no_hook |}.
Example entry_state_of_an_internal_state :
  match Compose [with_internal "p" "A" "B" ["B"]%string; with_internal "q" "B" "C" []%string] with
  | Ok _ => true | _ => false end = true /\
  match Compose [with_internal "q" "B" "C" []%string; with_internal "p" "C" "D" ["B"]%string] with
  | Ok _ => true | _ => false end = false.
Proof. vm_compute. split; reflexivity. Qed.
End Witnesses.
