(* ===== verification/RunnerSpec.v ===== *)
(** * Correctness of the session runner

    The runner of a valid pipeline keeps every session on the chain of inline
    phases, moves it forward only, never exhausts its hop limit on an acyclic
    chain, isolates sessions from each other, and dispatches no lineage message
    that does not verify. *)
From Stdlib Require Import ZArith NArith Lia String Ascii Strings.Byte.
From stdpp Require Import base gmap list strings pretty relations.
From S2P Require Import Prelude Bytes.
From S2P Require Import GoFmt.
From S2P Require Import Sign.
From S2P Require Import Lineage.
From S2P Require Import Context.
From S2P Require Import Pipeline.
From S2P Require Import Runner.

(** ** The tables of a composed runner *)

Section Built.
Context {S : Type}.
Implicit Types (p q : Phase S) (ps : list (Phase S)) (r : SessionRunner S).

(** [r] is what [Compose] or [ComposeWith] returned. *)
Record built r : Prop := {
  built_valid : pipeline_valid (phases r);
  built_entry : byEntryState r = c_byEntry (tables (phases r));
  built_internal : byInternalState r = c_byInternal (tables (phases r));
  built_initial : initialState r = c_initial (tables (phases r))
}.

Lemma Compose_built ps r : Compose ps = Ok r -> built r.
Proof. intros [Hv ->]%Compose_run. by split. Qed.

Lemma ComposeWith_built ps opts r : ComposeWith ps opts = Ok r -> built r.
Proof. intros (sg & _ & _ & Hv & ->)%ComposeWith_run. by split. Qed.

Lemma inlines_elem p ps : p ∈ inlines ps <-> is_inline p = true /\ p ∈ ps.
Proof. unfold inlines. by rewrite list_elem_of_filter. Qed.

Lemma inlines_split ps l p l' :
  inlines ps = l ++ p :: l' ->
  exists pre post, ps = pre ++ p :: post /\ inlines pre = l /\ is_inline p = true.
Proof.
  revert l. induction ps as [|x ps IH]; intros l Heq; [by destruct l|].
  unfold inlines in Heq. rewrite filter_cons in Heq. fold (inlines ps) in Heq.
  destruct (decide (is_inline x = true)) as [Hx|Hx].
  - destruct l as [|y l]; injection Heq as <- Heq.
    + by exists [], ps.
    + destruct (IH l Heq) as (pre & post & -> & <- & Hp).
      exists (x :: pre), post. split; [done|]. split; [|done].
      unfold inlines. by rewrite filter_cons_True.
  - destruct (IH l Heq) as (pre & post & -> & <- & Hp).
    exists (x :: pre), post. split; [done|]. split; [|done].
    unfold inlines. by rewrite filter_cons_False.
Qed.

Section Valid.
Context (ps : list (Phase S)) (Hv : pipeline_valid ps).

Lemma valid_inline l p l' :
  inlines ps = l ++ p :: l' ->
  EntryState p <> StateNone /\ EntryState p ∉ EntryState <$> l /\
  (forall q, last l = Some q -> ExitState q = EntryState p).
Proof.
  intros (pre & post & -> & <- & Hi)%inlines_split.
  destruct Hv as [_ H]. destruct (H pre p post eq_refl). naive_solver.
Qed.

Lemma valid_entry_some p : p ∈ inlines ps -> EntryState p <> StateNone.
Proof. intros (l & l' & Heq)%list_elem_of_split. by apply valid_inline in Heq as [? _]. Qed.

Lemma valid_entries_NoDup : NoDup (EntryState <$> inlines ps).
Proof.
  apply NoDup_alt. enough (Hlt : forall i j s, i < j ->
    (EntryState <$> inlines ps) !! i = Some s -> (EntryState <$> inlines ps) !! j = Some s -> False).
  { intros i j s Hi Hj. destruct (Nat.lt_trichotomy i j) as [?|[?|?]]; [|done|];
      exfalso; eauto. }
  intros i j s Hij Hi Hj. apply list_lookup_fmap_Some in Hj as (q & -> & Hq).
  destruct (valid_inline _ _ _ (eq_sym (take_drop_middle _ _ _ Hq))) as (_ & Hn & _).
  apply Hn. rewrite fmap_take. apply list_elem_of_lookup. exists i.
  by rewrite lookup_take_lt by lia.
Qed.

Lemma valid_chain i p q :
  inlines ps !! i = Some p -> inlines ps !! Datatypes.S i = Some q -> ExitState p = EntryState q.
Proof.
  intros Hp Hq.
  destruct (valid_inline _ _ _ (eq_sym (take_drop_middle _ _ _ Hq))) as (_ & _ & Hc).
  apply Hc. rewrite (take_S_r _ _ _ Hp). apply last_snoc.
Qed.

Lemma valid_entry_inj i j p q :
  inlines ps !! i = Some p -> inlines ps !! j = Some q -> EntryState p = EntryState q -> i = j.
Proof.
  intros Hp Hq He. eapply NoDup_lookup; [apply valid_entries_NoDup| |];
    rewrite list_lookup_fmap; [by rewrite Hp|]. rewrite Hq. simpl. by rewrite He.
Qed.

Lemma entry_table s p :
  c_byEntry (tables ps) !! s = Some p <-> p ∈ inlines ps /\ EntryState p = s.
Proof.
  simpl. split.
  - intros [H|H]%insert_all_Some_inv; [|by rewrite lookup_empty in H].
    apply list_elem_of_fmap in H as (q & [= -> ->] & Hq). done.
  - intros [Hp <-]. apply insert_all_NoDup.
    + rewrite <- list_fmap_compose. apply valid_entries_NoDup.
    + apply list_elem_of_fmap. by exists p.
Qed.
End Valid.

Section BuiltFacts.
Context (r : SessionRunner S) (Hb : built r).

Lemma built_lookup s p :
  byEntryState r !! s = Some p <-> p ∈ inlines (phases r) /\ EntryState p = s.
Proof. rewrite (built_entry r Hb). apply entry_table, built_valid, Hb. Qed.

Lemma built_next i p q :
  inlines (phases r) !! i = Some p -> inlines (phases r) !! Datatypes.S i = Some q ->
  ExitState p <> StateNone /\ byEntryState r !! ExitState p = Some q.
Proof.
  intros Hp Hq. rewrite (valid_chain _ (built_valid r Hb) i p q Hp Hq).
  assert (q ∈ inlines (phases r)) by (by eapply list_elem_of_lookup_2).
  split; [|by apply built_lookup]. by eapply valid_entry_some; [apply built_valid|].
Qed.
End BuiltFacts.
End Built.

(** ** Transitions *)

Section Steps.
Context {S : Type} `{Store S}.
Implicit Types (p q : Phase S) (r : SessionRunner S) (t : sessionTracker S) (ts : TState S).

Definition position t : SessionState * option (Phase S) * bool :=
  (tr_state t, tr_current t, tr_entered t).

(** The error of a hook, rewrapped by the runner. *)
Definition is_hook_error (e : GoError) : Prop :=
  exists p what e', e = wrap_phase (S := S) p what e'.

(** A hook call only touches the context and the environment. *)
Lemma hook_frame p what (h : M (HookState S) unit) ts :
  exists o c e, wrap_err (wrap_phase p what) (run_hook h) ts = (o, (with_ctx ts.1 c, e)) /\
    (forall er, o = Err er -> is_hook_error er).
Proof.
  unfold wrap_err, run_hook. destruct (h (tr_ctx ts.1, ts.2)) as [[a|e|w] [c e']];
    simpl; eexists _, _, _; (split; [reflexivity|]); [done| |done].
  intros er [= <-]. by exists p, what, e.
Qed.

(** The results of one hop: it stays where it was with an error or a panic,
    it finds no phase claiming the exit state, it leaves the terminal phase,
    or it is in the next phase, entered or not. *)
Inductive hop_result r ts : Outcome (option bool) -> TState S -> Prop :=
| hop_panic ts' w :
    position ts'.1 = position ts.1 -> hop_result r ts (Panic w) ts'
| hop_stay ts' e :
    position ts'.1 = position ts.1 -> is_hook_error e -> hop_result r ts (Err e) ts'
| hop_unclaimed ts' p e :
    position ts'.1 = position ts.1 -> tr_current ts.1 = Some p ->
    ExitState p <> StateNone -> byEntryState r !! ExitState p = None ->
    e = Errorf [W ErrFrameworkBug; T ": no phase claims state "; Q (ExitState p);
                T " (ExitState of "; Q (Name p); T ")"] ->
    hop_result r ts (Err e) ts'
| hop_done ts' p :
    tr_current ts.1 = Some p -> ExitState p = StateNone ->
    position ts'.1 = (StateNone, None, tr_entered ts.1) ->
    hop_result r ts (Ok (Some true)) ts'
| hop_not_entered ts' p q (o : Outcome (option bool)) :
    tr_current ts.1 = Some p -> ExitState p <> StateNone ->
    byEntryState r !! ExitState p = Some q ->
    position ts'.1 = (ExitState p, Some q, false) ->
    (forall b, o <> Ok b) -> (forall e, o = Err e -> is_hook_error e) ->
    hop_result r ts o ts'
| hop_entered ts' p q res :
    tr_current ts.1 = Some p -> ExitState p <> StateNone ->
    byEntryState r !! ExitState p = Some q ->
    position ts'.1 = (ExitState p, Some q, true) ->
    (res = None <-> ConsumedMessageTypes q = [] /\ CheckComplete q (tr_ctx ts'.1) = true) ->
    (res = None \/ res = Some true) ->
    hop_result r ts (Ok res) ts'.

Lemma advance_step_result r ts :
  let '(o, ts') := advance_step r ts in hop_result r ts o ts'.
Proof.
  unfold advance_step, bind at 1, get.
  destruct (tr_current ts.1) as [p|] eqn:Ecur; [|apply hop_panic].
  unfold bind at 1.
  destruct (hook_frame p ": Exit: " (Exit p) ts) as (o & c & env & -> & Hw).
  destruct o as [[]|e|w]; [|by apply hop_stay, Hw|by apply hop_panic].
  unfold bind at 1.
  destruct (hook_frame p ": lineage commit: " (commitPhaseOutputsIfEnabled r p)
    (with_ctx ts.1 c, env)) as (o & c' & env' & -> & Hw').
  destruct o as [[]|e|w]; [|by apply hop_stay, Hw'|by apply hop_panic].
  simpl. destruct (String.eqb_spec (ExitState p) StateNone) as [Hx|Hx].
  { by eapply hop_done. }
  destruct (byEntryState r !! ExitState p) as [q|] eqn:Eq; [|by eapply hop_unclaimed].
  erewrite bind_Ok by reflexivity. unfold bind at 1.
  match goal with |- context [wrap_err _ _ ?ts0] =>
    destruct (hook_frame q ": Enter: " (Enter q) ts0) as (o & c2 & env2 & -> & Hw2)
  end.
  destruct o as [[]|e|w]; simpl.
  - unfold bind, set_entered, modify, get, ret, throw. simpl.
    destruct (ConsumedMessageTypes q) as [|m l] eqn:Em; simpl.
    + destruct (CheckComplete q c2) eqn:Ec; simpl.
      * eapply hop_entered; [done..| |by left]. simpl. rewrite Em, Ec. naive_solver.
      * eapply hop_entered; [done..| |by right]. simpl. rewrite Em, Ec. naive_solver.
    + eapply hop_entered; [done..| |by right]. simpl. rewrite Em. naive_solver.
  - eapply hop_not_entered; [done..|]. intros ? [= <-]. by apply Hw2.
  - by eapply hop_not_entered.
  - done.
Qed.

(** One hop of [AdvanceToState]. *)
Inductive walk_result r ts : Outcome unit -> TState S -> Prop :=
| walk_stay ts' o :
    position ts'.1 = position ts.1 -> o <> Ok tt ->
    (forall sid target, o <> Err (walk_limit sid target)) -> walk_result r ts o ts'
| walk_not_entered ts' p q o :
    tr_current ts.1 = Some p -> ExitState p <> StateNone ->
    byEntryState r !! ExitState p = Some q ->
    position ts'.1 = (ExitState p, Some q, false) -> o <> Ok tt ->
    (forall sid target, o <> Err (walk_limit sid target)) -> walk_result r ts o ts'
| walk_entered ts' p q :
    tr_current ts.1 = Some p -> ExitState p <> StateNone ->
    byEntryState r !! ExitState p = Some q ->
    position ts'.1 = (ExitState p, Some q, true) ->
    walk_result r ts (Ok tt) ts'.

Ltac hook_neq :=
  let E := fresh "E" in
  intros ? ? [= E]; match goal with
  | Hw : forall er, Err _ = Err er -> is_hook_error er |- _ =>
      destruct (Hw _ eq_refl) as (? & ? & ? & ->); discriminate E
  end.

Lemma walk_step_result r sid target ts :
  let '(o, ts') := walk_step r sid target ts in walk_result r ts o ts'.
Proof.
  unfold walk_step, bind at 1, get.
  destruct (tr_current ts.1) as [p|] eqn:Ecur; [|by apply walk_stay].
  unfold bind at 1.
  destruct (hook_frame p ": Exit during AdvanceToState: " (Exit p) ts) as (o & c & env & -> & ?).
  destruct o as [[]|e|w]; [|apply walk_stay; [done..|hook_neq]|by apply walk_stay].
  unfold bind at 1.
  destruct (hook_frame p ": lineage commit during AdvanceToState: "
    (commitPhaseOutputsIfEnabled r p) (with_ctx ts.1 c, env)) as (o & c' & env' & -> & ?).
  destruct o as [[]|e|w]; [|apply walk_stay; [done..|hook_neq]|by apply walk_stay].
  simpl. destruct (String.eqb_spec (ExitState p) StateNone) as [Hx|Hx]; [by apply walk_stay|].
  destruct (byEntryState r !! ExitState p) as [q|] eqn:Eq; [|by apply walk_stay].
  erewrite bind_Ok by reflexivity. unfold bind at 1.
  match goal with |- context [wrap_err _ _ ?ts0] =>
    destruct (hook_frame q ": Enter during AdvanceToState: " (Enter q) ts0)
      as (o & c2 & env2 & -> & ?)
  end.
  destruct o as [[]|e|w]; simpl;
    [by eapply walk_entered|eapply walk_not_entered; [done..|hook_neq]|by eapply walk_not_entered].
Qed.

(** ** The position invariant *)

(** A live session is in the entry state of its current inline phase; a
    finished one has no phase and no state. *)
Definition tracker_ok r t : Prop :=
  match tr_current t with
  | Some p => p ∈ inlines (phases r) /\ tr_state t = EntryState p
  | None => tr_state t = StateNone
  end.

(** One transition of the state machine the runner derives. *)
Inductive moves r : option (Phase S) -> option (Phase S) -> Prop :=
| moves_next p q :
    ExitState p <> StateNone -> byEntryState r !! ExitState p = Some q -> moves r (Some p) (Some q)
| moves_end p : ExitState p = StateNone -> moves r (Some p) None.

Definition progress r t t' : Prop :=
  tracker_ok r t' /\ rtc (moves r) (tr_current t) (tr_current t').

Lemma progress_refl r t t' :
  tracker_ok r t -> position t' = position t -> progress r t t'.
Proof.
  unfold tracker_ok, progress, position. intros Hok [= Hs Hc _].
  unfold tracker_ok. rewrite Hs, Hc. by split.
Qed.

Lemma progress_trans r t1 t2 t3 : progress r t1 t2 -> progress r t2 t3 -> progress r t1 t3.
Proof. intros [_ H1] [Hok H2]. split; [done|by etransitivity]. Qed.

Section OnChain.
Context (r : SessionRunner S) (Hb : built r).

Lemma progress_next t t' p q b :
  tr_current t = Some p -> ExitState p <> StateNone ->
  byEntryState r !! ExitState p = Some q -> position t' = (ExitState p, Some q, b) ->
  progress r t t'.
Proof.
  unfold progress, tracker_ok, position. intros Hp Hx Hq [= Hs Hc _]. rewrite Hc, Hs, Hp.
  pose proof (proj1 (built_lookup r Hb _ _) Hq) as [? ?].
  split; [done|]. apply rtc_once. by constructor.
Qed.

Lemma progress_end t t' p b :
  tr_current t = Some p -> ExitState p = StateNone ->
  position t' = (StateNone, None, b) -> progress r t t'.
Proof.
  unfold progress, tracker_ok, position. intros Hp Hx [= Hs Hc _]. rewrite Hc, Hs, Hp.
  split; [done|]. apply rtc_once. by constructor.
Qed.

Lemma hop_progress ts o ts' :
  tracker_ok r ts.1 -> hop_result r ts o ts' -> progress r ts.1 ts'.1.
Proof.
  intros Hok [ts0 w Hp|ts0 e Hp _|ts0 p e Hp|ts0 p Hc Hx Hp|ts0 p q o0 Hc Hx Hq Hp|
              ts0 p q res Hc Hx Hq Hp];
    eauto using progress_refl, progress_end, progress_next.
Qed.

Lemma walk_progress ts o ts' :
  tracker_ok r ts.1 -> walk_result r ts o ts' -> progress r ts.1 ts'.1.
Proof.
  intros Hok [ts0 o0 Hp|ts0 p q o0 Hc Hx Hq Hp|ts0 p q Hc Hx Hq Hp];
    eauto using progress_refl, progress_next.
Qed.

Lemma advance_loop_progress n ts :
  tracker_ok r ts.1 -> progress r ts.1 (advance_loop r n ts).2.1.
Proof.
  revert ts. induction n as [|n IH]; intros ts Hok; simpl; [by apply progress_refl|].
  unfold bind. pose proof (advance_step_result r ts) as Hs.
  destruct (advance_step r ts) as [o ts']. apply hop_progress in Hs; [|done].
  destruct o as [[b|]|e|w]; try exact Hs.
  eapply progress_trans; [exact Hs|]. apply IH, Hs.
Qed.

Lemma walk_loop_progress sid target n ts :
  tracker_ok r ts.1 -> progress r ts.1 (walk_loop r sid target n ts).2.1.
Proof.
  revert ts. induction n as [|n IH]; intros ts Hok; simpl; [by apply progress_refl|].
  unfold bind at 1, get. destruct (String.eqb _ _); [by apply progress_refl|].
  unfold bind. pose proof (walk_step_result r sid target ts) as Hs.
  destruct (walk_step r sid target ts) as [o ts']. apply walk_progress in Hs; [|done].
  destruct o as [[]|e|w]; try exact Hs.
  eapply progress_trans; [exact Hs|]. apply IH, Hs.
Qed.

Lemma advance_to_progress sid target ts :
  tracker_ok r ts.1 -> progress r ts.1 (advance_to r sid target ts).2.1.
Proof.
  intros Hok. unfold advance_to, bind, get.
  destruct (String.eqb _ _); [by apply progress_refl|].
  match goal with |- context [if ?b then _ else _] => destruct b end;
    [by apply progress_refl|]. by apply walk_loop_progress.
Qed.

Lemma deliver_frame msgType from payload ts :
  position (deliver msgType from payload ts).2.1 = position ts.1.
Proof.
  unfold deliver, bind at 1, get. destruct (tr_current ts.1) as [p|] eqn:E; [|done].
  destruct (negb _); [done|]. unfold bind at 1.
  destruct (hook_frame p ": OnMessage: " (OnMessage p msgType from payload) ts)
    as (o & c & e & -> & _). by destruct o.
Qed.

Lemma handle_progress msgType from payload ts :
  tracker_ok r ts.1 -> progress r ts.1 (handle r msgType from payload ts).2.1.
Proof.
  intros Hok. unfold handle, bind. pose proof (deliver_frame msgType from payload ts) as Hd.
  destruct (deliver msgType from payload ts) as [[[]|e|w] ts']; simpl in *;
    try (by apply progress_refl).
  eapply progress_trans; [by eapply progress_refl|]. apply advance_loop_progress.
  by eapply progress_refl.
Qed.
End OnChain.
End Steps.

(** ** Reachable runner states *)

Section Reachable.
Context {S : Type} `{Store S}.
Implicit Types (r : SessionRunner S) (t : sessionTracker S) (st : RunnerState S).

(** The calls of the transport and of a session trigger. [OSeed] is a write
    to the live context [BeginSession] returned. *)
Inductive runner_op :=
| OBegin (sid cid : string)
| OMessage (sid msgType from : string) (payload : bytes)
| OLineage (sid msgType from : string) (payload : bytes) (node : option DAGNode)
| OAdvance (sid : string) (target : SessionState)
| OSeed (sid key : string) (v : Any)
| OEnd (sid : string).

Definition op_session (op : runner_op) : string :=
  match op with
  | OBegin sid _ | OMessage sid _ _ _ | OLineage sid _ _ _ _ | OAdvance sid _
  | OSeed sid _ _ | OEnd sid => sid
  end.

Definition seed (sid key : string) (v : Any) st : RunnerState S :=
  match sessions st !! sid with
  | None => st
  | Some t => set_sessions st (<[sid := with_ctx t (ctx_Set key v (tr_ctx t))]> (sessions st))
  end.

Definition run_op r (op : runner_op) st : RunnerState S :=
  match op with
  | OBegin sid cid => (BeginSession r sid cid st).2
  | OMessage sid ty from pl => (HandleMessage r sid ty from pl st).2
  | OLineage sid ty from pl node => (HandleLineageMessage r sid ty from pl node st).2
  | OAdvance sid target => (AdvanceToState r sid target st).2
  | OSeed sid key v => seed sid key v st
  | OEnd sid => EndSession sid st
  end.

Definition initial_state (e : Env S) : RunnerState S :=
  {| sessions := ∅; rs_env := e; fired := []; hookPanicLog := [] |}.

Definition reachable r (e : Env S) st : Prop :=
  rtc (fun st1 st2 => exists op, st2 = run_op r op st1) (initial_state e) st.

(** [m] acts on the tracker of [sid] alone. *)
Definition local r (sid : string) st st' : Prop :=
  (forall sid', sid' <> sid -> sessions st' !! sid' = sessions st !! sid') /\
  (forall t, sessions st !! sid = Some t -> tracker_ok r t ->
     exists t', sessions st' !! sid = Some t' /\ progress r t t') /\
  (sessions st !! sid = None -> sessions st' !! sid = None).

Lemma local_refl r sid st st' : sessions st' = sessions st -> local r sid st st'.
Proof.
  intros Hs. split; [by rewrite Hs|]. rewrite Hs. split; [|done].
  intros t Ht Hok. exists t. split; [done|by apply progress_refl].
Qed.

Lemma with_tracker_local {A} r sid missing (m : M (TState S) A) st :
  (forall ts, tracker_ok r ts.1 -> progress r ts.1 (m ts).2.1) ->
  local r sid st (with_tracker sid missing m st).2.
Proof.
  intros Hm. unfold with_tracker. destruct (sessions st !! sid) as [t|] eqn:E;
    [|by apply local_refl].
  pose proof (Hm (t, rs_env st)) as Hp. destruct (m (t, rs_env st)) as [o [t' e]].
  simpl in *. split; [|split].
  - intros sid' Hne. simpl. by rewrite lookup_insert_ne.
  - intros t0 Ht0 Hok. assert (t0 = t) as -> by congruence. exists t'.
    simpl. rewrite lookup_insert_eq. auto.
  - congruence.
Qed.

Lemma fireFailureHook_sessions r ev st : sessions (fireFailureHook r ev st) = sessions st.
Proof. unfold fireFailureHook. by destruct (_ ≫= _). Qed.

Section Ops.
Context r (Hb : built r).

Lemma HandleMessage_local sid ty from pl st :
  local r sid st (HandleMessage r sid ty from pl st).2.
Proof. apply with_tracker_local. intros. by apply handle_progress. Qed.

Lemma AdvanceToState_local sid target st : local r sid st (AdvanceToState r sid target st).2.
Proof. apply with_tracker_local. intros. by apply advance_to_progress. Qed.

Lemma HandleLineageMessage_local sid ty from pl node st :
  local r sid st (HandleLineageMessage r sid ty from pl node st).2.
Proof.
  unfold HandleLineageMessage. destruct (runner_lineage r) as [cfg|];
    [|by apply HandleMessage_local].
  destruct node as [node|]; [|by apply local_refl].
  destruct (verify_inbound _ _ _ _) as [[]|e|w].
  - destruct (append_idempotent _ _ _) as [[[]|e|w] env]; [|by apply local_refl..].
    exact (HandleMessage_local sid ty from pl (set_env st env)).
  - apply local_refl, fireFailureHook_sessions.
  - by apply local_refl.
Qed.

Lemma seed_local sid key v st : local r sid st (seed sid key v st).
Proof.
  unfold seed. destruct (sessions st !! sid) as [t|] eqn:E; [|by apply local_refl].
  split; [|split]; [|intros t0 Ht0 Hok|congruence].
  - intros sid' Hne. simpl. by rewrite lookup_insert_ne.
  - assert (t0 = t) as -> by congruence. eexists. simpl. rewrite lookup_insert_eq.
    split; [done|by apply progress_refl].
Qed.

(** [BeginSession] on a fresh identifier: the tracker starts at the first
    inline phase, or is gone again. *)
Lemma BeginSession_new sid cid st :
  sessions st !! sid = None ->
  (forall sid', sid' <> sid -> sessions (BeginSession r sid cid st).2 !! sid' = sessions st !! sid') /\
  (forall t, sessions (BeginSession r sid cid st).2 !! sid = Some t -> tracker_ok r t).
Proof.
  intros Hn. unfold BeginSession. destruct (String.eqb sid EmptyString); [naive_solver|].
  rewrite Hn. destruct (byEntryState r !! initialState r) as [first|] eqn:Ef; [|naive_solver].
  pose proof (proj1 (built_lookup r Hb _ _) Ef) as [Hin He].
  unfold run_hook. destruct (Enter first _) as [[[]|e|w] [c env]]; simpl; split.
  - intros sid' Hne. by rewrite lookup_insert_ne.
  - intros t. rewrite lookup_insert_eq. intros [= <-]. unfold tracker_ok. simpl. auto.
  - intros sid' Hne. by rewrite lookup_delete_ne.
  - intros t. by rewrite lookup_delete_eq.
  - intros sid' Hne. by rewrite lookup_insert_ne.
  - intros t. rewrite lookup_insert_eq. intros [= <-]. unfold tracker_ok. simpl. auto.
Qed.

Lemma BeginSession_active sid cid st t :
  sessions st !! sid = Some t -> (BeginSession r sid cid st).2 = st.
Proof. intros Ht. unfold BeginSession. destruct (String.eqb _ _); [done|]. by rewrite Ht. Qed.

(** Every operation but [EndSession] keeps the tracker of a live session,
    moved along the chain; every operation leaves the others alone. *)
Lemma run_op_isolated op sid st :
  sid <> op_session op -> sessions (run_op r op st) !! sid = sessions st !! sid.
Proof.
  destruct op; simpl; intros Hne.
  - destruct (sessions st !! sid0) as [t|] eqn:E.
    + by rewrite (BeginSession_active _ _ _ t).
    + by apply BeginSession_new.
  - by apply HandleMessage_local.
  - by apply HandleLineageMessage_local.
  - by apply AdvanceToState_local.
  - by apply seed_local.
  - by rewrite lookup_delete_ne.
Qed.

Lemma run_op_progress op st t :
  (forall sid, op <> OEnd sid) ->
  sessions st !! op_session op = Some t -> tracker_ok r t ->
  exists t', sessions (run_op r op st) !! op_session op = Some t' /\ progress r t t'.
Proof.
  destruct op; simpl; intros Hop Ht Hok.
  - rewrite (BeginSession_active _ _ _ t) by done. exists t. split; [done|by apply progress_refl].
  - by eapply HandleMessage_local.
  - by eapply HandleLineageMessage_local.
  - by eapply AdvanceToState_local.
  - by eapply seed_local.
  - by destruct (Hop sid).
Qed.

Definition all_ok st : Prop := forall sid t, sessions st !! sid = Some t -> tracker_ok r t.

Lemma run_op_ok op st : all_ok st -> all_ok (run_op r op st).
Proof.
  intros Hall sid t. destruct (decide (sid = op_session op)) as [->|Hne].
  - destruct (sessions st !! op_session op) as [t0|] eqn:E.
    + assert ((exists s, op = OEnd s) \/ forall s, op <> OEnd s) as [[s ->]|Hop]
        by (destruct op; naive_solver).
      * simpl. by rewrite lookup_delete_eq.
      * destruct (run_op_progress op st t0 Hop E) as (t' & -> & [Hok _]); [by eapply Hall|].
        by intros [= <-].
    + destruct op; simpl in *.
      * by apply BeginSession_new.
      * destruct (HandleMessage_local sid msgType from payload st) as (_ & _ & ->); done.
      * destruct (HandleLineageMessage_local sid msgType from payload node st) as (_ & _ & ->); done.
      * destruct (AdvanceToState_local sid target st) as (_ & _ & ->); done.
      * destruct (seed_local sid key v st) as (_ & _ & ->); done.
      * by rewrite lookup_delete_eq.
  - rewrite run_op_isolated by done. apply Hall.
Qed.

Lemma reachable_ok e st : reachable r e st -> all_ok st.
Proof.
  unfold reachable. apply rtc_ind_r with (P := all_ok).
  - intros sid t. simpl. by rewrite lookup_empty.
  - intros st1 st2 _ [op ->] Hall. by apply run_op_ok.
Qed.
End Ops.
End Reachable.

(** ** Termination of the hop loops *)

Section Termination.
Context {S : Type} `{Store S}.
Implicit Types (p q : Phase S) (ts : TState S).
Context (r : SessionRunner S) (Hb : built r).

(** The last inline phase does not exit into an entry state of the
    pipeline. *)
Definition acyclic (r : SessionRunner S) : Prop :=
  forall p, last (inlines (phases r)) = Some p -> ExitState p ∉ EntryState <$> inlines (phases r).

Lemma next_index i p q :
  acyclic r -> inlines (phases r) !! i = Some p ->
  byEntryState r !! ExitState p = Some q -> inlines (phases r) !! Datatypes.S i = Some q.
Proof.
  intros Ha Hp Hq. destruct (inlines (phases r) !! Datatypes.S i) as [q'|] eqn:E.
  - destruct (built_next r Hb i p q' Hp E) as [_ Hq']. congruence.
  - exfalso. apply lookup_ge_None in E. apply lookup_lt_Some in Hp as Hlt.
    assert (Hl : last (inlines (phases r)) = Some p).
    { rewrite last_lookup. rewrite <- Hp. f_equal. lia. }
    apply Ha in Hl. apply Hl. apply (built_lookup r Hb) in Hq as [Hin <-].
    by apply list_elem_of_fmap_2.
Qed.

Lemma inlines_length : length (inlines (phases r)) <= length (phases r).
Proof. apply length_filter. Qed.

Lemma hook_error_neq e : is_hook_error (S := S) e -> e <> hop_limit r.
Proof. by intros (p & w & e' & ->). Qed.

(** From the [i]-th inline phase, any cap above the number of phases left is
    never reached, and a larger cap changes nothing. *)
Lemma advance_loop_cap n k i p ts :
  acyclic r -> tr_current ts.1 = Some p -> inlines (phases r) !! i = Some p ->
  length (inlines (phases r)) < n + i ->
  advance_loop r (n + k) ts = advance_loop r n ts /\
  (advance_loop r n ts).1 <> Err (hop_limit r).
Proof.
  intros Ha. revert i p ts. induction n as [|n IH]; intros i p ts Hc Hi Hn.
  { apply lookup_lt_Some in Hi. lia. }
  simpl. unfold bind. pose proof (advance_step_result r ts) as Hs.
  destruct (advance_step r ts) as [o ts'].
  destruct Hs as [ts' w Hp|ts' e Hp He|ts' p' e Hp Hc' Hx Hq ->|ts' p' Hc' Hx Hp|
                  ts' p' q o Hc' Hx Hq Hp Ho He|ts' p' q res Hc' Hx Hq Hp Hr [->| ->]]; simpl.
  - done.
  - split; [done|]. intros [= ?]. by eapply hook_error_neq.
  - split; [done|]. intros [= ?].
  - done.
  - destruct o as [b|e|w]; simpl; [by destruct (Ho b)| |done].
    split; [done|]. intros [= ?]. by eapply hook_error_neq; [apply He|].
  - assert (p' = p) as -> by congruence. injection Hp as _ Hcur _.
    eapply IH; [exact Hcur|by eapply next_index|lia].
  - done.
Qed.

Lemma walk_loop_cap sid target n k i p ts :
  acyclic r -> tr_current ts.1 = Some p -> inlines (phases r) !! i = Some p ->
  length (inlines (phases r)) < n + i ->
  walk_loop r sid target (n + k) ts = walk_loop r sid target n ts /\
  (walk_loop r sid target n ts).1 <> Err (walk_limit sid target).
Proof.
  intros Ha. revert i p ts. induction n as [|n IH]; intros i p ts Hc Hi Hn.
  { apply lookup_lt_Some in Hi. lia. }
  simpl. unfold bind at 1 3 5, get. destruct (String.eqb _ _); [done|].
  unfold bind. pose proof (walk_step_result r sid target ts) as Hs.
  destruct (walk_step r sid target ts) as [o ts'].
  destruct Hs as [ts' o Hp Ho He|ts' p' q o Hc' Hx Hq Hp Ho He|ts' p' q Hc' Hx Hq Hp].
  - destruct o as [[]|e|w]; simpl; [done| |done]. split; [done|]. intros [= ->]. by eapply He.
  - destruct o as [[]|e|w]; simpl; [done| |done]. split; [done|]. intros [= ->]. by eapply He.
  - assert (p' = p) as -> by congruence. injection Hp as _ Hcur _.
    eapply IH; [exact Hcur|by eapply next_index|lia].
Qed.
End Termination.

(** ** [AdvanceToState] as a fold of transitions *)

Section Walk.
Context {S : Type} `{Store S}.
Implicit Types (p q : Phase S) (ts : TState S).
Context (r : SessionRunner S) (Hb : built r).

(** Leaving [p] for [q]: exit, commit, move, enter. *)
Definition transit p q : M (TState S) unit :=
  wrap_err (wrap_phase p ": Exit during AdvanceToState: ") (run_hook (Exit p)) ;;;
  wrap_err (wrap_phase p ": lineage commit during AdvanceToState: ")
    (run_hook (commitPhaseOutputsIfEnabled r p)) ;;;
  set_position (EntryState q) (Some q) false ;;;
  wrap_err (wrap_phase q ": Enter during AdvanceToState: ") (run_hook (Enter q)) ;;;
  set_entered.

(** Through the phases of [l] in order, each left and entered once. *)
Fixpoint transits (l : list (Phase S)) : M (TState S) unit :=
  match l with
  | p :: ((q :: _) as l') => transit p q ;;; transits l'
  | _ => ret tt
  end.

Lemma walk_step_transit sid target p q ts :
  tr_current ts.1 = Some p -> ExitState p <> StateNone -> byEntryState r !! ExitState p = Some q ->
  walk_step r sid target ts = transit p q ts.
Proof.
  intros Hc Hx Hq. unfold walk_step, transit, bind at 1, get. rewrite Hc.
  destruct (String.eqb_spec (ExitState p) StateNone); [done|]. rewrite Hq.
  by apply (built_lookup r Hb) in Hq as [_ <-].
Qed.

Lemma walk_loop_transits sid target i d n p q ts :
  inlines (phases r) !! i = Some p -> inlines (phases r) !! (i + d) = Some q ->
  EntryState q = target -> tr_current ts.1 = Some p -> tr_state ts.1 = EntryState p -> d < n ->
  walk_loop r sid target n ts = transits (take (Datatypes.S d) (drop i (inlines (phases r)))) ts.
Proof.
  intros Hi Hj Ht. revert i n p ts Hi Hj. induction d as [|d IH];
    intros i [|n] p ts Hi Hj Hc Hst Hn; try lia; simpl;
    rewrite (drop_S _ _ _ Hi); simpl; unfold bind at 1, get.
  - rewrite Nat.add_0_r in Hj. assert (p = q) as -> by congruence.
    by rewrite Hst, Ht, String.eqb_refl.
  - destruct (inlines (phases r) !! Datatypes.S i) as [q'|] eqn:E; cycle 1.
    { apply lookup_ge_None in E. apply lookup_lt_Some in Hj. lia. }
    destruct (String.eqb_spec (tr_state ts.1) target) as [He|_].
    { exfalso. rewrite Hst, <- Ht in He.
      pose proof (valid_entry_inj _ (built_valid r Hb) _ _ _ _ Hi Hj He). lia. }
    destruct (built_next r Hb i p q' Hi E) as [Hx Hq'].
    rewrite (drop_S _ _ _ E) in *. simpl. unfold bind.
    rewrite (walk_step_transit sid target p q') by done.
    pose proof (walk_step_result r sid target ts) as Hs.
    rewrite (walk_step_transit sid target p q') in Hs by done.
    destruct (transit p q' ts) as [[[]|e|w] ts'] eqn:Etr; [|done..].
    inversion Hs as [| |ts0 p0 q0 Hc0 _ Hq0 Hp0]; subst; [done..|].
    assert (p0 = p) as -> by congruence. assert (q0 = q') as -> by congruence.
    injection Hp0 as Hst' Hcur' _.
    rewrite (IH (Datatypes.S i) n q' ts'); [|done|by rewrite Nat.add_succ_comm|done| |lia].
    + by rewrite (drop_S _ _ _ E).
    + rewrite Hst'. by apply (built_lookup r Hb) in Hq' as [_ ->].
Qed.

Lemma walk_loop_Ok sid target n ts ts' :
  walk_loop r sid target n ts = (Ok tt, ts') -> tr_state ts'.1 = target.
Proof.
  revert ts. induction n as [|n IH]; intros ts; simpl; [done|].
  unfold bind at 1, get. destruct (String.eqb_spec (tr_state ts.1) target) as [He|_].
  - by intros [= <-].
  - intros (? & ts1 & _ & Hw)%bind_Ok_inv. by apply IH in Hw.
Qed.
End Walk.

(** ** A sample pipeline

    An intake phase that waits for one message, a computing phase that needs
    none, and a final phase that waits again. *)
Module Sample.
Definition idle : M (HookState InMemory.InMemoryStore) unit := ret tt.

Definition phase_of (name entry exit : string) (msgs : list string)
    (req prov : ContextSchema) (onMessage : string -> string -> bytes -> M (HookState InMemory.InMemoryStore) unit)
    (complete : SessionContext -> bool) (exit_hook : M (HookState InMemory.InMemoryStore) unit)
  : Phase InMemory.InMemoryStore :=
  {| Name := name; Lifetime := LifetimePerSession; RunsAt := RunsAtInline;
     EntryState := entry; ExitState := exit; InternalStates := [];
     ConsumedMessageTypes := msgs; Requires := req; Provides := prov;
     Enter := idle; OnMessage := onMessage; CheckComplete := complete; Exit := exit_hook |}.

Definition accumulate (_ from : string) (payload : bytes) : M (HookState InMemory.InMemoryStore) unit :=
  modify_ctx (AccumulateMessage "bucket" from payload).

Definition intake := phase_of "intake" "INTAKE" "COMPUTE" ["offer"]%string []
  [("sum", key_type "[]byte" false [("depth", AInt 30)])]%string
  accumulate (QuorumReached "bucket" 1) (modify_ctx (ctx_Set "sum" (ABytes (of_string "s")))).
Definition compute := phase_of "compute" "COMPUTE" "REVEAL" []
  [("sum", key_type "[]byte" true [("depth_min", AInt 4)])]%string
  [("out", key_type "[]byte" false [])]%string
  (fun _ _ _ => ret tt) (fun _ => true) (modify_ctx (ctx_Set "out" (ABytes (of_string "o")))).
Definition reveal := phase_of "reveal" "REVEAL" StateNone ["ack"]%string [] []
  accumulate (fun _ => true) idle.

Definition pipeline := [intake; compute; reveal].

Definition lineage_opts : list (ComposeOption) :=
  [WithSigner ToyScheme.toy_signer;
   WithPeerVerifiers {["toy"%string := ToyScheme.toy_signer]};
   WithLineageFailureHook (fun _ => Ok tt)].

Definition config : LineageConfig :=
  {| cfgSigner := ToyScheme.toy_signer;
     cfgVerifiers := own_verifiers ToyScheme.toy_signer {["toy"%string := ToyScheme.toy_signer]};
     cfgFailureHook := Some (fun _ => Ok tt) |}.
Definition runner : SessionRunner InMemory.InMemoryStore :=
  attachLineage (pipeline_runner pipeline) config.

Definition env0 : Env InMemory.InMemoryStore :=
  {| env_store := InMemory.NewInMemoryStore; env_clock := Z.of_nat; env_ticks := 0 |}.

Lemma pipeline_composes : match Compose pipeline with Ok _ => true | _ => false end = true.
Proof. vm_compute. reflexivity. Qed.

Lemma pipeline_is_valid : pipeline_valid pipeline.
Proof.
  pose proof pipeline_composes as H. destruct (Compose pipeline) as [r|e|w] eqn:E; try discriminate H.
  by apply Compose_run in E as [? _].
Qed.

Lemma runner_built : built runner.
Proof. split; [apply pipeline_is_valid|reflexivity..]. Qed.

Lemma runner_acyclic : acyclic runner.
Proof. intros p Hp. injection Hp as <-. simpl. intros H. repeat (apply elem_of_cons in H as [H|H]; [discriminate H|]). by apply elem_of_nil in H. Qed.

(** A session begun and waiting in the intake phase. *)
Definition begun : RunnerState InMemory.InMemoryStore :=
  (BeginSession runner "s" "" (initial_state env0)).2.
Definition begun_tracker : sessionTracker InMemory.InMemoryStore :=
  {| tr_ctx := default (NewSessionContext "") (RunnerSessionContext "s" begun);
     tr_state := "INTAKE"; tr_current := Some intake; tr_entered := true |}.
Lemma begun_lookup : sessions begun !! "s"%string = Some begun_tracker.
Proof. reflexivity. Qed.
Lemma begun_reachable : reachable runner env0 begun.
Proof. apply rtc_once. by exists (OBegin "s" ""). Qed.
End Sample.

(** ** Properties *)

Section Properties.
Context {S : Type} `{Store S}.
Implicit Types (r : SessionRunner S) (st : RunnerState S) (t : sessionTracker S).

(** C2. In every state a runner reaches by its operations, whatever the
    phases' hooks do (errors and panics included), each tracked session is
    in the entry state of its current inline phase, or has finished with no
    phase and no state. *)
Theorem session_position_invariant r e st sid t :
  built r -> reachable r e st -> sessions st !! sid = Some t -> tracker_ok r t.
Proof. intros Hb Hr. by apply (reachable_ok r Hb e st Hr). Qed.

(** C9. An operation on one session leaves every other session's tracker
    (context included) unchanged; and unless it is [EndSession] it keeps its
    own session tracked and moves it forward only, along the transitions
    derived from the phases' entry and exit states. *)
Theorem session_isolated_forward r e st op :
  built r -> reachable r e st ->
  (forall sid, sid <> op_session op -> sessions (run_op r op st) !! sid = sessions st !! sid) /\
  ((forall sid, op <> OEnd sid) ->
   forall t, sessions st !! op_session op = Some t ->
   exists t', sessions (run_op r op st) !! op_session op = Some t' /\
              rtc (moves r) (tr_current t) (tr_current t')).
Proof.
  intros Hb Hr. split; [intros sid; by apply run_op_isolated|].
  intros Hop t Ht. pose proof (reachable_ok r Hb e st Hr _ _ Ht) as Hok.
  destruct (run_op_progress r Hb op st t Hop Ht Hok) as (t' & ? & _ & ?). by exists t'.
Qed.

Lemma live_index r t p :
  tracker_ok r t -> tr_current t = Some p -> exists i, inlines (phases r) !! i = Some p.
Proof.
  unfold tracker_ok. intros Hok Hc. rewrite Hc in Hok. destruct Hok as [Hin _].
  by apply list_elem_of_lookup.
Qed.

(** C8. On a chain whose last phase does not exit into the pipeline again,
    neither loop ever reaches its hop limit, from any live session: a larger
    cap changes nothing, and the framework-bug error of the limit is never
    returned.  The cap [len(phases)+1] is therefore enough. *)
Theorem hop_limit_unreachable r (ts : TState S) p sid target k :
  built r -> acyclic r -> tracker_ok r ts.1 -> tr_current ts.1 = Some p ->
  advance_loop r (hopCap r + k) ts = advance r ts /\
  (advance r ts).1 <> Err (hop_limit r) /\
  walk_loop r sid target (hopCap r + k) ts = walk_loop r sid target (hopCap r) ts /\
  (walk_loop r sid target (hopCap r) ts).1 <> Err (walk_limit sid target).
Proof.
  intros Hb Ha Hok Hc. destruct (live_index r _ p Hok Hc) as [i Hi].
  assert (Hn : length (inlines (phases r)) < hopCap r + i).
  { unfold hopCap. pose proof (inlines_length r). lia. }
  destruct (advance_loop_cap r Hb (hopCap r) k i p ts Ha Hc Hi Hn) as [H1 H2].
  destruct (walk_loop_cap r Hb sid target (hopCap r) k i p ts Ha Hc Hi Hn) as [H3 H4].
  done.
Qed.

(** C3. [AdvanceToState] to the entry state of a later inline phase is
    exactly the sequence of transitions from the current phase to that one:
    every phase on the way is exited (and its outputs committed) once, every
    following one entered once, in pipeline order, stopping at the first
    hook error. *)
Theorem AdvanceToState_transits r sid st t i d p q :
  built r -> sessions st !! sid = Some t -> tracker_ok r t -> tr_current t = Some p ->
  inlines (phases r) !! i = Some p -> inlines (phases r) !! (i + d) = Some q ->
  EntryState q ∉ InternalStates p ->
  AdvanceToState r sid (EntryState q) st =
  with_tracker sid (not_active "AdvanceToState" sid)
    (transits r (take (Datatypes.S d) (drop i (inlines (phases r))))) st.
Proof.
  intros Hb Ht Hok Hc Hi Hj Hint. unfold AdvanceToState, with_tracker. rewrite Ht.
  enough (advance_to r sid (EntryState q) (t, rs_env st) =
          transits r (take (Datatypes.S d) (drop i (inlines (phases r)))) (t, rs_env st)) as -> by done.
  assert (Hst : tr_state t = EntryState p).
  { unfold tracker_ok in Hok. rewrite Hc in Hok. by destruct Hok. }
  assert (Hd : d < hopCap r).
  { unfold hopCap. pose proof (inlines_length r). apply lookup_lt_Some in Hj. lia. }
  rewrite <- (walk_loop_transits r Hb sid (EntryState q) i d (hopCap r) p q) by done.
  unfold advance_to, bind, get. simpl. rewrite Hc.
  destruct (String.eqb_spec (tr_state t) (EntryState q)) as [He|He].
  - unfold hopCap. rewrite Nat.add_1_r. simpl. unfold bind, get. simpl.
    by rewrite (proj2 (String.eqb_eq _ _) He).
  - destruct (existsb _ _) eqn:Ex; [|done]. destruct Hint.
    apply existsb_exists in Ex as (x & Hx & Heq%String.eqb_eq). subst x.
    by apply list_elem_of_In.
Qed.

(** When [AdvanceToState] returns nil the session is in the target
    state, or the target was an internal state of its current phase and
    nothing at all has changed. *)
Lemma AdvanceToState_Ok r sid target st st' :
  AdvanceToState r sid target st = (Ok tt, st') ->
  exists t', sessions st' !! sid = Some t' /\
    (tr_state t' = target \/
     sessions st' = sessions st /\ rs_env st' = rs_env st /\
     exists p, tr_current t' = Some p /\ target ∈ InternalStates p).
Proof.
  unfold AdvanceToState, with_tracker. destruct (sessions st !! sid) as [t|] eqn:Et; [|done].
  destruct (advance_to r sid target (t, rs_env st)) as [[[]|e|w] [t' env]] eqn:E; [|done..].
  intros [= <-]. exists t'. simpl. split; [apply lookup_insert_eq|].
  revert E. unfold advance_to, bind at 1, get. simpl.
  destruct (String.eqb_spec (tr_state t) target) as [Hs|_]; [intros [= <- <-]; by left|].
  destruct (tr_current t) as [p|] eqn:Ec.
  - destruct (existsb _ _) eqn:Ex.
    + intros [= <- <-]. right. split_and!; [by apply insert_id|done|]. exists p.
      split; [done|]. apply existsb_exists in Ex as (x & Hx & <-%String.eqb_eq).
      by apply list_elem_of_In.
    + intros Hw%walk_loop_Ok. by left.
  - intros Hw%walk_loop_Ok. by left.
Qed.
End Properties.

(** ** The contract of [HandleMessage] *)

Section Contract.
Context {S : Type} `{Store S}.
Implicit Types (r : SessionRunner S) (st : RunnerState S) (t : sessionTracker S).

(** Nothing more can happen without a message: the session has finished, or
    its phase has been entered and either consumes messages or is not yet
    complete. *)
Definition settled t : Prop :=
  match tr_current t with
  | None => tr_state t = StateNone
  | Some q => tr_entered t = true /\
      ~ (ConsumedMessageTypes q = [] /\ CheckComplete q (tr_ctx t) = true)
  end.

Lemma advance_loop_Ok r n (ts ts' : TState S) b :
  advance_loop r n ts = (Ok b, ts') ->
  b = true /\ tc (moves r) (tr_current ts.1) (tr_current ts'.1) /\ settled ts'.1.
Proof.
  revert ts. induction n as [|n IH]; intros ts; simpl; [done|].
  intros (res & ts1 & Hstep & Hrest)%bind_Ok_inv.
  pose proof (advance_step_result r ts) as Hs. rewrite Hstep in Hs. unfold settled.
  inversion Hs as [|? ?|? ? ? ? ? ? ? ? |ts0 p Hc Hx Hp|ts0 p q o Hc Hx Hq Hp Ho|
                   ts0 p q res0 Hc Hx Hq Hp Hr Hres]; subst.
  - injection Hrest as <- <-. injection Hp as Hs' Hcur _. rewrite Hc, Hcur.
    split; [done|]. split; [apply tc_once; by constructor|done].
  - by destruct (Ho res).
  - injection Hp as Hs' Hcur He. assert (Hm : moves r (tr_current ts.1) (tr_current ts1.1)).
    { rewrite Hc, Hcur. by constructor. }
    destruct Hres as [-> | ->].
    + apply IH in Hrest as (-> & Htc & Hset). split; [done|]. split; [by eapply tc_l|exact Hset].
    + injection Hrest as <- <-. split; [done|]. split; [by apply tc_once|].
      rewrite Hcur. split; [done|]. intros Hn. by apply Hr in Hn.
Qed.

Lemma phaseConsumes_iff (p : Phase S) ty :
  phaseConsumes p ty = true <-> ty ∈ ConsumedMessageTypes p.
Proof.
  unfold phaseConsumes. rewrite existsb_exists. split.
  - intros (x & Hx & <-%String.eqb_eq). by apply list_elem_of_In.
  - intros Hx. exists ty. split; [by apply list_elem_of_In|apply String.eqb_refl].
Qed.

Lemma handle_Ok r ty from payload (ts ts' : TState S) b :
  handle r ty from payload ts = (Ok b, ts') ->
  exists p, tr_current ts.1 = Some p /\ ty ∈ ConsumedMessageTypes p /\
    if b then tc (moves r) (tr_current ts.1) (tr_current ts'.1) /\ settled ts'.1
    else position ts'.1 = position ts.1 /\ CheckComplete p (tr_ctx ts'.1) = false.
Proof.
  unfold handle. intros (c & ts1 & Hd & Hrest)%bind_Ok_inv. pose proof (deliver_frame ty from payload ts) as Hpos.
  rewrite Hd in Hpos. simpl in Hpos. revert Hd. unfold deliver.
  rewrite (bind_Ok get _ _ _ _ eq_refl). simpl.
  destruct (tr_current ts.1) as [p|] eqn:Ec; [|done].
  destruct (phaseConsumes p ty) eqn:Ep; [|done]. simpl.
  intros (u & ts2 & Hm & Hc)%bind_Ok_inv. injection Hc as <- <-.
  apply phaseConsumes_iff in Ep. exists p. split_and!; try done.
  pose proof Hpos as Hpos'. injection Hpos as _ Hcur _. rewrite Ec in Hcur.
  destruct (CheckComplete p (tr_ctx ts2.1)) eqn:Ek; simpl in Hrest.
  - apply advance_loop_Ok in Hrest as (-> & Htc & Hset). by rewrite Hcur in Htc.
  - injection Hrest as <- ->. by split.
Qed.
Lemma HandleMessage_tracker r sid ty from payload st b st' :
  HandleMessage r sid ty from payload st = (Ok b, st') ->
  exists t ts', sessions st !! sid = Some t /\ sessions st' = <[sid := ts'.1]> (sessions st) /\
    handle r ty from payload (t, rs_env st) = (Ok b, ts').
Proof.
  unfold HandleMessage, with_tracker. destruct (sessions st !! sid) as [t|] eqn:Et; [|done].
  destruct (handle r ty from payload (t, rs_env st)) as [o [t' e]] eqn:Eh.
  intros [= -> <-]. by exists t, (t', e).
Qed.

(** A hook call that succeeds, with its effect. *)
Lemma hook_Ok_iff (p : Phase S) what (h : M (HookState S) unit) (ts ts' : TState S) :
  wrap_err (wrap_phase p what) (run_hook h) ts = (Ok tt, ts') <->
  exists h', h (tr_ctx ts.1, ts.2) = (Ok tt, h') /\ ts' = (with_ctx ts.1 h'.1, h'.2).
Proof.
  unfold wrap_err, run_hook. destruct (h (tr_ctx ts.1, ts.2)) as [[[]|e|w] [c e']]; simpl;
    naive_solver.
Qed.

(** Leaving a phase: its [Exit] hook, then the commit of its outputs, each on
    the context and environment the one before left. *)
Definition leaves r (p : Phase S) (h h' : HookState S) : Prop :=
  exists h1, Exit p h = (Ok tt, h1) /\ commitPhaseOutputsIfEnabled r p h1 = (Ok tt, h').

(** [moves_on r p h q h']: [p] is left, the phase claiming its exit state is
    [q], and [q]'s [Enter] hook ends in [h']. *)
Definition moves_on r (p : Phase S) h q h' : Prop :=
  exists h1, leaves r p h h1 /\ ExitState p <> StateNone /\
    byEntryState r !! ExitState p = Some q /\ Enter q h1 = (Ok tt, h').

Definition tracker_at (c : SessionContext) s (p : option (Phase S)) entered : sessionTracker S :=
  {| tr_ctx := c; tr_state := s; tr_current := p; tr_entered := entered |}.

(** The cascade, by the hooks it runs: [cascade r n p e h ts] leaves the
    complete phase [p] (with its entered flag [e]) in [h], makes [n] hops and
    rests in [ts].  It ends past the terminal phase, or in a phase that
    consumes messages or is not complete; a phase that consumes none and is
    complete is left at once. *)
Inductive cascade r : nat -> Phase S -> bool -> HookState S -> TState S -> Prop :=
| cascade_end p e h h' :
    leaves r p h h' -> ExitState p = StateNone ->
    cascade r 1 p e h (tracker_at h'.1 StateNone None e, h'.2)
| cascade_waits p e h q h' :
    moves_on r p h q h' -> ConsumedMessageTypes q <> [] \/ CheckComplete q h'.1 = false ->
    cascade r 1 p e h (tracker_at h'.1 (ExitState p) (Some q) true, h'.2)
| cascade_on n p e h q h' ts :
    moves_on r p h q h' -> ConsumedMessageTypes q = [] -> CheckComplete q h'.1 = true ->
    cascade r n q true h' ts -> cascade r (Datatypes.S n) p e h ts.

(** Entering [q], and the decision to cascade on. *)
Lemma enter_Ok_iff s (q : Phase S) (ts ts' : TState S) res :
  (set_position s (Some q) false ;;;
   wrap_err (wrap_phase q ": Enter: ") (run_hook (Enter q)) ;;;
   set_entered ;;;
   let! ts' := get in
   if (0 <? length (ConsumedMessageTypes q))%nat then ret (Some true)
   else if negb (CheckComplete q (tr_ctx ts'.1)) then ret (Some true)
   else ret None) ts = (Ok res, ts') <->
  exists h', Enter q (tr_ctx ts.1, ts.2) = (Ok tt, h') /\ ts' = (tracker_at h'.1 s (Some q) true, h'.2) /\
    res = if (0 <? length (ConsumedMessageTypes q))%nat then Some true
          else if CheckComplete q h'.1 then None else Some true.
Proof.
  erewrite bind_Ok by reflexivity. rewrite bind_Ok_iff. split.
  - intros ([] & ts1 & (h' & Hh & ->)%hook_Ok_iff & Hk). exists h'. split; [exact Hh|].
    revert Hk. unfold bind, set_entered, modify, get, ret. simpl.
    destruct (0 <? _)%nat; [by intros [= <- <-]|]. by destruct (CheckComplete q h'.1); intros [= <- <-].
  - intros (h' & Hh & -> & ->). eexists tt, _. split; [apply hook_Ok_iff; by exists h'|].
    unfold bind, set_entered, modify, get, ret. simpl.
    destruct (0 <? _)%nat; [done|]. by destruct (CheckComplete q h'.1).
Qed.

(** One hop of [advance] that succeeds. *)
Lemma advance_step_Ok_iff r (ts ts' : TState S) res :
  advance_step r ts = (Ok res, ts') <->
  exists p, tr_current ts.1 = Some p /\
    ((exists h', leaves r p (tr_ctx ts.1, ts.2) h' /\ ExitState p = StateNone /\ res = Some true /\
        ts' = (tracker_at h'.1 StateNone None (tr_entered ts.1), h'.2)) \/
     (exists q h', moves_on r p (tr_ctx ts.1, ts.2) q h' /\
        ts' = (tracker_at h'.1 (ExitState p) (Some q) true, h'.2) /\
        res = if (0 <? length (ConsumedMessageTypes q))%nat then Some true
              else if CheckComplete q h'.1 then None else Some true)).
Proof.
  unfold advance_step. rewrite (bind_Ok get _ _ _ _ eq_refl).
  destruct (tr_current ts.1) as [p|] eqn:Ec; [|split; [done|naive_solver]].
  assert (Hl : forall (k : M (TState S) (option bool)) o, (exists u ts1, wrap_err (wrap_phase p ": Exit: ") (run_hook (Exit p)) ts = (Ok u, ts1) /\
      ((wrap_err (wrap_phase p ": lineage commit: ") (run_hook (commitPhaseOutputsIfEnabled r p)) ;;; k) ts1
       = (Ok o, ts'))) <->
      exists h', leaves r p (tr_ctx ts.1, ts.2) h' /\ k (with_ctx ts.1 h'.1, h'.2) = (Ok o, ts')).
  { intros k o. unfold leaves. split.
    - intros ([] & ts1 & (h1 & H1 & ->)%hook_Ok_iff & ([] & ts2 & (h2 & H2 & ->)%hook_Ok_iff & Hk)%bind_Ok_iff).
      exists h2. destruct h1. eauto.
    - intros (h' & ([c1 e1] & H1 & H2) & Hk). exists tt, (with_ctx ts.1 c1, e1).
      split; [apply hook_Ok_iff; by exists (c1, e1)|]. apply bind_Ok_iff.
      exists tt, (with_ctx ts.1 h'.1, h'.2). split; [apply hook_Ok_iff; by exists h'|done]. }
  rewrite bind_Ok_iff, Hl. clear Hl.
  destruct (String.eqb_spec (ExitState p) StateNone) as [Hx|Hx].
  { unfold set_position, bind, modify, ret. simpl. split.
    - intros (h' & Hl & [= <- <-]). exists p. split; [done|]. left. by exists h'.
    - intros (? & [= <-] & [(h' & Hl & _ & -> & ->)|(q & h' & (h1 & _ & Hn & _) & _)]); [by exists h'|done]. }
  unfold moves_on. destruct (byEntryState r !! ExitState p) as [q|] eqn:Eq; cycle 1.
  { split; [by intros (? & _ & ?)|].
    intros (? & [= <-] & [(h' & _ & Hn & _)|(q & h' & (h1 & _ & _ & Hq & _) & _)]); [done|congruence]. }
  setoid_rewrite enter_Ok_iff. simpl. split.
  - intros (h1 & Hl & h' & He & -> & ->). exists p. split; [done|]. right. exists q, h'.
    split_and!; [exists h1; by destruct h1|done..].
  - intros (? & [= <-] & [(h' & _ & Hn & _)|(q' & h' & (h1 & Hl & _ & Hq & He) & -> & ->)]); [done|].
    assert (q' = q) as -> by congruence. exists h1. split; [done|].
    exists h'. by destruct h1.
Qed.

(** The loop of [advance] is the cascade. *)
Lemma advance_loop_Ok_iff r n (ts ts' : TState S) b :
  advance_loop r n ts = (Ok b, ts') <->
  b = true /\ exists p k, tr_current ts.1 = Some p /\ k <= n /\
    cascade r k p (tr_entered ts.1) (tr_ctx ts.1, ts.2) ts'.
Proof.
  revert ts. induction n as [|n IH]; intros ts; simpl.
  { split; [done|]. intros (_ & p & k & _ & Hk & Hc). inversion Hc; lia. }
  rewrite bind_Ok_iff. split.
  - intros (res & ts1 & (p & Hp & [(h' & Hl & Hx & -> & ->)|(q & h' & Hm & -> & Hres)])%advance_step_Ok_iff & Hr).
    + injection Hr as <- <-. split; [done|]. exists p, 1. split_and!; [done|lia|by constructor].
    + destruct (ConsumedMessageTypes q) as [|m l] eqn:Eq; simpl in Hres; cycle 1.
      { subst res. injection Hr as <- <-. split; [done|]. exists p, 1.
        split_and!; [done|lia|apply cascade_waits; [done|left; by rewrite Eq]]. }
      destruct (CheckComplete q h'.1) eqn:Ec; subst res.
      * apply IH in Hr as (-> & q' & k & [= <-] & Hk & Hc). split; [done|].
        exists p, (Datatypes.S k). split_and!; [done|lia|]. apply (cascade_on r k p _ _ q h'); try done.
        by destruct h'.
      * injection Hr as <- <-. split; [done|]. exists p, 1.
        split_and!; [done|lia|apply cascade_waits; [done|by right]].
  - intros (-> & p & k & Hp & Hk & Hc). inversion Hc as [? ? ? h' Hl Hx|? ? ? q h' Hm Hw|k' ? ? ? q h' ? Hm Hn Hcc Hrest]; subst.
    + exists (Some true), (tracker_at h'.1 StateNone None (tr_entered ts.1), h'.2).
      split; [|done]. apply advance_step_Ok_iff. exists p. split; [done|]. left. by exists h'.
    + exists (Some true), (tracker_at h'.1 (ExitState p) (Some q) true, h'.2).
      split; [|done]. apply advance_step_Ok_iff. exists p. split; [done|]. right. exists q, h'.
      split_and!; [done..|]. destruct (ConsumedMessageTypes q); [|done]. by destruct Hw as [?| ->].
    + exists None, (tracker_at h'.1 (ExitState p) (Some q) true, h'.2). split.
      * apply advance_step_Ok_iff. exists p. split; [done|]. right. exists q, h'.
        split_and!; [done..|]. by rewrite Hn, Hcc.
      * apply IH. split; [done|]. exists q, k'. split_and!; [done|lia|]. by destruct h'.
Qed.

Lemma deliver_Ok_iff ty from payload (ts ts' : TState S) b :
  deliver ty from payload ts = (Ok b, ts') <->
  exists p h, tr_current ts.1 = Some p /\ ty ∈ ConsumedMessageTypes p /\
    OnMessage p ty from payload (tr_ctx ts.1, ts.2) = (Ok tt, h) /\
    b = CheckComplete p h.1 /\ ts' = (with_ctx ts.1 h.1, h.2).
Proof.
  unfold deliver. rewrite (bind_Ok get _ _ _ _ eq_refl).
  destruct (tr_current ts.1) as [p|]; [|split; [done|naive_solver]].
  destruct (phaseConsumes p ty) eqn:Ep; simpl; cycle 1.
  { split; [done|]. intros (? & ? & [= <-] & Hty%phaseConsumes_iff & _). congruence. }
  apply phaseConsumes_iff in Ep. rewrite bind_Ok_iff. split.
  - intros ([] & ts1 & (h & Hm & ->)%hook_Ok_iff & [= <- <-]). by exists p, h.
  - intros (? & h & [= <-] & _ & Hm & -> & ->). exists tt, (with_ctx ts.1 h.1, h.2).
    split; [|done]. apply hook_Ok_iff. by exists h.
Qed.

Lemma handle_Ok_iff r ty from payload (ts ts' : TState S) b :
  handle r ty from payload ts = (Ok b, ts') <->
  exists p h, tr_current ts.1 = Some p /\ ty ∈ ConsumedMessageTypes p /\
    OnMessage p ty from payload (tr_ctx ts.1, ts.2) = (Ok tt, h) /\
    b = CheckComplete p h.1 /\
    if b then exists n, n <= hopCap r /\ cascade r n p (tr_entered ts.1) h ts'
    else ts' = (with_ctx ts.1 h.1, h.2).
Proof.
  unfold handle. rewrite bind_Ok_iff. split.
  - intros (c & ts1 & (p & h & Hp & Hty & Hm & Hc & ->)%deliver_Ok_iff & Hr). exists p, h.
    subst c. destruct (CheckComplete p h.1) eqn:Ec; simpl in Hr.
    + apply advance_loop_Ok_iff in Hr as (-> & q & k & Hq & Hk & Hrun). simpl in Hq.
      assert (q = p) as -> by congruence. destruct h. split_and!; eauto.
    + injection Hr as <- <-. by split_and!.
  - intros (p & h & Hp & Hty & Hm & Hc & Hr). exists b, (with_ctx ts.1 h.1, h.2).
    split; [apply deliver_Ok_iff; by exists p, h|]. destruct b; simpl; [|by subst ts'].
    apply advance_loop_Ok_iff. split; [done|]. destruct Hr as (n & Hn & Hrun). exists p, n. by destruct h.
Qed.

(** C4. [HandleMessage] returns [b] without error exactly when: the session
    is tracked and its current phase [p] consumes the type; [p]'s own
    [OnMessage] hook, called with the message's type, sender and payload on
    the session's context, succeeds and leaves [h]; and, if [p] is not
    complete in the context of [h], [b] is [false] and the session has that
    context and its old position, while if [p] is complete [b] is [true] and
    the session rests where the cascade from [p] in [h] does, within the hop
    cap.  The cascade is spelled out hook by hook: each phase is exited, its
    outputs committed, the phase claiming its exit state entered, and the run
    goes on exactly through the phases that consume no messages and are
    complete.  Nothing else of the runner's state changes. *)
Theorem HandleMessage_Ok r sid ty from payload st b st' :
  HandleMessage r sid ty from payload st = (Ok b, st') <->
  exists t p h ts', sessions st !! sid = Some t /\ tr_current t = Some p /\
    ty ∈ ConsumedMessageTypes p /\
    OnMessage p ty from payload (tr_ctx t, rs_env st) = (Ok tt, h) /\
    b = CheckComplete p h.1 /\
    (if b then exists n, n <= hopCap r /\ cascade r n p (tr_entered t) h ts'
     else ts' = (with_ctx t h.1, h.2)) /\
    st' = set_env (set_sessions st (<[sid := ts'.1]> (sessions st))) ts'.2.
Proof.
  unfold HandleMessage, with_tracker. destruct (sessions st !! sid) as [t|] eqn:Et; [|naive_solver].
  destruct (handle r ty from payload (t, rs_env st)) as [o [t' e]] eqn:Eh. split.
  - intros [= -> <-]. apply handle_Ok_iff in Eh as (p & h & Eh). exists t, p, h, (t', e). naive_solver.
  - intros (? & p & h & ts' & [= <-] & Hp & Hty & Hm & Hc & Hr & ->).
    assert (handle r ty from payload (t, rs_env st) = (Ok b, ts')) as E by (apply handle_Ok_iff; eauto 8).
    rewrite Eh in E. by injection E as -> <-.
Qed.

(** A message type the current phase does not consume is refused with
    [ErrPermanent] and leaves the whole runner state unchanged. *)
Lemma HandleMessage_unconsumed r sid ty from payload st t p :
  sessions st !! sid = Some t -> tr_current t = Some p -> ty ∉ ConsumedMessageTypes p ->
  exists e, errors_Is e ErrPermanent_msg = true /\
    HandleMessage r sid ty from payload st = (Err e, st).
Proof.
  intros Ht Hc Hn. unfold HandleMessage, with_tracker, handle, deliver. rewrite Ht.
  unfold bind, get. simpl. rewrite Hc.
  destruct (phaseConsumes p ty) eqn:Ep; [by apply phaseConsumes_iff in Ep|]. simpl.
  eexists. split; cycle 1.
  - f_equal. destruct st as [m e f l]. unfold set_env, set_sessions. simpl in *. f_equal.
    by apply insert_id.
  - done.
Qed.

(** A session that has finished stays tracked until [EndSession], and
    every message to it panics on its nil current phase instead of returning
    the documented [ErrPermanent]. *)
Lemma HandleMessage_finished_panics r sid ty from payload st t :
  sessions st !! sid = Some t -> tr_current t = None ->
  (HandleMessage r sid ty from payload st).1 = Panic nil_pointer.
Proof.
  intros Ht Hc. unfold HandleMessage, with_tracker, handle, deliver. rewrite Ht.
  unfold bind, get. simpl. by rewrite Hc.
Qed.

End Contract.

(** ** Witnesses *)

Module Witnesses.
Import Sample.

Definition offered : RunnerState InMemory.InMemoryStore :=
  (HandleMessage runner "s" "offer" "alice" (of_string "o") begun).2.
Definition acked : RunnerState InMemory.InMemoryStore :=
  (HandleMessage runner "s" "ack" "alice" (of_string "a") offered).2.

Lemma session_position_invariant_witness :
  sessions begun !! "s"%string = Some begun_tracker /\ tracker_ok runner begun_tracker.
Proof.
  split; [exact begun_lookup|].
  exact (session_position_invariant runner env0 begun "s" begun_tracker
           runner_built begun_reachable begun_lookup).
Defined.

Lemma session_isolated_forward_witness :
  sessions (run_op runner (OMessage "t" "offer" "bob" []) begun) !! "s"%string =
  sessions begun !! "s"%string.
Proof.
  refine (proj1 (session_isolated_forward runner env0 begun (OMessage "t" "offer" "bob" [])
                   runner_built begun_reachable) "s" _). discriminate.
Defined.

Lemma begun_ok : tracker_ok runner begun_tracker.
Proof. exact (reachable_ok runner runner_built env0 begun begun_reachable "s" begun_tracker begun_lookup). Qed.

Lemma hop_limit_unreachable_witness :
  (advance runner (begun_tracker, rs_env begun)).1 <> Err (hop_limit runner).
Proof.
  exact (proj1 (proj2 (hop_limit_unreachable runner (begun_tracker, rs_env begun) intake "s" "REVEAL" 0
    runner_built runner_acyclic begun_ok eq_refl))).
Defined.

Lemma AdvanceToState_transits_witness :
  AdvanceToState runner "s" "REVEAL" begun =
  with_tracker "s" (not_active "AdvanceToState" "s") (transits runner pipeline) begun.
Proof.
  refine (AdvanceToState_transits runner "s" begun begun_tracker 0 2 intake reveal
           runner_built begun_lookup begun_ok eq_refl eq_refl eq_refl _).
  intros Hin. by apply elem_of_nil in Hin.
Defined.

Lemma AdvanceToState_Ok_witness :
  let st' := (AdvanceToState runner "s" "REVEAL" begun).2 in
  exists t', sessions st' !! "s"%string = Some t' /\
    (tr_state t' = "REVEAL"%string \/
     sessions st' = sessions begun /\ rs_env st' = rs_env begun /\
     exists p, tr_current t' = Some p /\ "REVEAL"%string ∈ InternalStates p).
Proof.
  refine (AdvanceToState_Ok runner "s" "REVEAL" begun _ (outcome_of _ _ _)).
  vm_compute. reflexivity.
Defined.

(** The offer completes the intake phase; the run goes on through the
    compute phase, which consumes nothing, and rests in the reveal phase. *)
Lemma HandleMessage_Ok_witness :
  exists t p h ts', sessions begun !! "s"%string = Some t /\ tr_current t = Some p /\
    OnMessage p "offer" "alice" (of_string "o") (tr_ctx t, rs_env begun) = (Ok tt, h) /\
    (exists n, n <= 4 /\ cascade runner n p (tr_entered t) h ts') /\
    sessions offered !! "s"%string = Some ts'.1 /\ tr_state ts'.1 = "REVEAL"%string.
Proof.
  assert (E : (HandleMessage runner "s" "offer" "alice" (of_string "o") begun).1 = Ok true)
    by (vm_compute; reflexivity).
  assert (Hs : tr_state <$> sessions offered !! "s"%string = Some "REVEAL"%string) by (vm_compute; reflexivity).
  destruct (proj1 (HandleMessage_Ok runner "s" "offer" "alice" (of_string "o") begun true offered) (outcome_of _ _ E))
    as (t & p & h & ts' & Ht & Hp & _ & Hm & _ & Hc & Ho).
  assert (Hl : sessions offered !! "s"%string = Some ts'.1) by (rewrite Ho; apply lookup_insert_eq).
  exists t, p, h, ts'. split_and!; [exact Ht|exact Hp|exact Hm|exact Hc|exact Hl|].
  rewrite Hl in Hs. by injection Hs.
Defined.

Lemma HandleMessage_unconsumed_witness :
  exists e, errors_Is e ErrPermanent_msg = true /\
    HandleMessage runner "s" "ack" "alice" [] begun = (Err e, begun).
Proof.
  refine (HandleMessage_unconsumed runner "s" "ack" "alice" [] begun begun_tracker intake
            begun_lookup eq_refl _).
  intros Hin. apply list_elem_of_singleton in Hin. discriminate Hin.
Defined.

(** The session finishes by its own messages, is still tracked, and the next
    message panics. *)
Lemma acked_finished : tr_current <$> sessions acked !! "s"%string = Some None.
Proof. vm_compute. reflexivity. Qed.

Lemma HandleMessage_finished_panics_witness :
  (HandleMessage runner "s" "ack" "bob" [] acked).1 = Panic nil_pointer.
Proof.
  destruct (sessions acked !! "s"%string) as [t|] eqn:E.
  - apply (HandleMessage_finished_panics runner "s" "ack" "bob" [] acked t E).
    pose proof acked_finished as Hf. rewrite E in Hf. by injection Hf.
  - pose proof acked_finished as Hf. rewrite E in Hf. discriminate Hf.
Defined.

(** Two final messages delivered before either one advances: both see the
    phase complete, both advance, and the second one leaves the phase the
    first one has just entered. *)
Definition two_phase (n : string) : Phase InMemory.InMemoryStore :=
  phase_of n n (if String.eqb n "A" then "B" else if String.eqb n "B" then "C" else "")%string
    [n] [] [] accumulate (QuorumReached "bucket" 1) idle.
Definition abc : SessionRunner InMemory.InMemoryStore :=
  pipeline_runner [two_phase "A"; two_phase "B"; two_phase "C"]%string.
Definition race : M (TState InMemory.InMemoryStore) bool :=
  let! c1 := deliver "A" "alice" [] in
  let! c2 := deliver "A" "bob" [] in
  (if c1 then advance abc else ret false) ;;; (if c2 then advance abc else ret false).
Definition abc_begun := (BeginSession abc "s" "" (initial_state env0)).2.

Example concurrent_final_messages_skip_a_phase :
  (fun t => (tr_state t, (race (t, rs_env abc_begun)).1, tr_state (race (t, rs_env abc_begun)).2.1)) <$>
    sessions abc_begun !! "s"%string = Some ("A"%string, Ok true, "C"%string).
Proof. vm_compute. reflexivity. Qed.

(** A phase whose [Enter] fails is current all the same, marked not entered,
    and the next message reaches its [OnMessage]. *)
Definition refusing : Phase InMemory.InMemoryStore :=
  {| Name := "B"; Lifetime := LifetimePerSession; RunsAt := RunsAtInline; EntryState := "B";
     ExitState := "C"; InternalStates := []; ConsumedMessageTypes := ["B"]%string;
     Requires := []; Provides := []; Enter := throw (ErrorsNew "no key");
     OnMessage := accumulate; CheckComplete := fun _ => false; Exit := idle |}.
Definition refusing_runner : SessionRunner InMemory.InMemoryStore :=
  pipeline_runner [two_phase "A"; refusing; two_phase "C"]%string.
Definition refused : RunnerState InMemory.InMemoryStore :=
  (HandleMessage refusing_runner "s" "A" "alice" []
     (BeginSession refusing_runner "s" "" (initial_state env0)).2).2.

Example failed_enter_still_dispatches :
  (fun t => (tr_state t, tr_entered t)) <$> sessions refused !! "s"%string = Some ("B"%string, false) /\
  (HandleMessage refusing_runner "s" "B" "bob" [] refused).1 = Ok false.
Proof. vm_compute. split; reflexivity. Qed.

(** [AdvanceToState] to [StateNone] runs the hooks of the whole chain before
    it errs, and accepts a session that has already finished. *)
Example advance_to_StateNone_walks :
  tr_state <$> sessions (AdvanceToState runner "s" StateNone begun).2 !! "s"%string = Some "REVEAL"%string /\
  (AdvanceToState runner "s" StateNone acked).1 = Ok tt.
Proof. vm_compute. split; reflexivity. Qed.

(** Printed forms decide constraint equality. *)
Example equalConstraint_printed : equalConstraint (AInt 10) (AString "10") = true.
Proof. reflexivity. Qed.
End Witnesses.
