(* ===== verification/RunnerLive.v ===== *)
(** * A session ends

    Under a fair schedule of the runner's operations, on all its sessions, a
    session whose messages are each accepted and bring its phase nearer to
    completion runs through every phase of the pipeline and finishes. *)
From Stdlib Require Import ZArith NArith Lia String Ascii Strings.Byte.
From stdpp Require Import base gmap list strings pretty relations.
From S2P Require Import Prelude Bytes.
From S2P Require Import GoFmt.
From S2P Require Import Sign.
From S2P Require Import Lineage.
From S2P Require Import Context.
From S2P Require Import Pipeline.
From S2P Require Import Runner.
From S2P Require Import RunnerSpec.

Section Live.
Context {S : Type} `{Store S}.
Implicit Types (r : SessionRunner S) (st : RunnerState S) (t : sessionTracker S) (p : Phase S).

(** The state after the first [n] operations of a schedule. *)
Fixpoint after r (schedule : nat -> runner_op) st (n : nat) : RunnerState S :=
  match n with
  | O => st
  | Datatypes.S n' => run_op r (schedule n') (after r schedule st n')
  end.

(** [sid] is served again and again. *)
Definition fair (sid : string) (schedule : nat -> runner_op) : Prop :=
  forall n, exists m, op_session (schedule (n + m)) = sid.

(** What a phase still waits for, in a context. *)
Context (need : Phase S -> SessionContext -> nat).

(** A message that is accepted and, when the phase is still not complete after
    it, that the phase needed. *)
Definition productive r (sid : string) (op : runner_op) st : Prop := forall t p,
  sessions st !! sid = Some t -> tr_current t = Some p ->
  exists ty from payload b t', op = OMessage sid ty from payload /\
    (HandleMessage r sid ty from payload st).1 = Ok b /\
    sessions (run_op r op st) !! sid = Some t' /\
    (b = false -> need p (tr_ctx t') < need p (tr_ctx t)).

Section Schedule.
Context r (Hb : built r) (Ha : acyclic r).

(** The inline phases that are still to come. *)
Definition ahead (c : option (Phase S)) (d : nat) : Prop :=
  match c with
  | None => d = 0
  | Some p => exists i, inlines (phases r) !! i = Some p /\ d = length (inlines (phases r)) - i
  end.

Lemma ahead_moves c c' d : ahead c d -> moves r c c' -> exists d', ahead c' d' /\ d' < d.
Proof.
  intros Hc Hm. revert Hc. destruct Hm as [p q _ Hq|p _]; intros (i & Hi & ->); pose proof (lookup_lt_Some _ _ _ Hi).
  - exists (length (inlines (phases r)) - Datatypes.S i). split; [|lia].
    exists (Datatypes.S i). split; [|done]. by eapply next_index.
  - exists 0. split; [done|lia].
Qed.
Lemma ahead_tc c c' d : ahead c d -> tc (moves r) c c' -> exists d', ahead c' d' /\ d' < d.
Proof.
  intros Hc Htc. revert d Hc. induction Htc as [c c' Hm|c c1 c' Hm _ IH]; intros d Hc.
  - by eapply ahead_moves.
  - destruct (ahead_moves _ _ _ Hc Hm) as (d1 & H1 & ?). destruct (IH _ H1) as (d2 & H2 & ?).
    exists d2. split; [done|lia].
Qed.

Context (schedule : nat -> runner_op) (st : RunnerState S) (sid : string).
Notation at_ n := (after r schedule st n).
Context (Hfair : fair sid schedule)
  (Hprod : forall n, op_session (schedule n) = sid -> productive r sid (schedule n) (at_ n)).

Definition finishes : Prop := exists n t, sessions (at_ n) !! sid = Some t /\ tr_current t = None.

(** One operation on the session. *)
Lemma productive_step n t p :
  tr_current t = Some p -> op_session (schedule n) = sid -> sessions (at_ n) !! sid = Some t ->
  exists t', sessions (at_ (Datatypes.S n)) !! sid = Some t' /\
    (tc (moves r) (tr_current t) (tr_current t') \/
     tr_current t' = Some p /\ need p (tr_ctx t') < need p (tr_ctx t)).
Proof.
  intros Hp Hn Ht. destruct (Hprod n Hn t p Ht Hp) as (ty & from & payload & b & t' & Hop & Hok & Ht' & Hneed).
  exists t'. split; [done|]. rewrite Hop in Ht'. cbn [run_op] in Ht'.
  destruct (HandleMessage r sid ty from payload (at_ n)) as [o st1] eqn:E. cbn [fst snd] in Hok, Ht'. subst o.
  apply HandleMessage_tracker in E as (t0 & ts' & Ht0 & Hs & Hh). rewrite Ht0 in Ht. injection Ht as ->.
  rewrite Hs, lookup_insert_eq in Ht'. injection Ht' as <-. apply handle_Ok in Hh as (q & Hq & _ & Hb').
  destruct b; [left; by destruct Hb'|right]. destruct Hb' as [Hpos _]. cbn [fst] in *.
  injection Hpos as _ Hcur _. rewrite Hcur. split; [done|]. by apply Hneed.
Qed.

Lemma after_ok n : all_ok r st -> all_ok r (at_ n).
Proof. intros Hok. induction n as [|n IH]; [done|]. by apply run_op_ok. Qed.

(** Until it is served, the session rests. *)
Lemma next_service n t : sessions (at_ n) !! sid = Some t ->
  exists m, op_session (schedule m) = sid /\ sessions (at_ m) !! sid = Some t.
Proof.
  destruct (Hfair n) as [j Hj]. revert n Hj. induction j as [|j IH]; intros n Hj Ht.
  - rewrite Nat.add_0_r in Hj. by exists n.
  - destruct (decide (op_session (schedule n) = sid)) as [Hn|Hn]; [by exists n|].
    apply (IH (Datatypes.S n)); [by rewrite Nat.add_succ_comm|]. cbn [after]. by rewrite run_op_isolated.
Qed.

(** From a state with [d] phases and [k] inputs to go. *)
Lemma finishes_from d k n t p :
  ahead (tr_current t) d -> tr_current t = Some p -> need p (tr_ctx t) = k -> sessions (at_ n) !! sid = Some t -> finishes.
Proof.
  revert k n t p. induction d as [d IHd] using lt_wf_ind. intros k. induction k as [k IHk] using lt_wf_ind.
  intros n t p Hd Hp Hk (m & Hm & Ht)%next_service.
  destruct (productive_step m t p Hp Hm Ht) as (t' & Ht' & [Htc|[Hp' Hlt]]).
  - destruct (ahead_tc _ _ _ Hd Htc) as (d' & Hd' & Hlt). destruct (tr_current t') as [q|] eqn:Hq; [|by exists (Datatypes.S m), t'].
    eapply (IHd d' Hlt); [by rewrite Hq|done|done|done].
  - eapply (IHk (need p (tr_ctx t'))); [by rewrite <- Hk|by rewrite Hp', <- Hp|done|done|done].
Qed.
End Schedule.

(** C10. Under a schedule that serves a session again and again, among any
    operations on other sessions, whose operations on it are accepted messages
    that its phase needed, the session finishes, after finitely many of them and
    having passed every phase of the chain.  [need] measures what a phase still
    waits for. *)
Theorem session_finishes r e st sid t schedule :
  built r -> acyclic r -> reachable r e st -> sessions st !! sid = Some t ->
  fair sid schedule ->
  (forall n, op_session (schedule n) = sid -> productive r sid (schedule n) (after r schedule st n)) ->
  exists n t', sessions (after r schedule st n) !! sid = Some t' /\ tr_current t' = None /\ tr_state t' = StateNone.
Proof.
  intros Hb Ha Hreach Ht Hfair Hprod. pose proof (reachable_ok r Hb e st Hreach) as Hok.
  assert (Hfin : finishes r schedule st sid).
  { destruct (tr_current t) as [p|] eqn:Hp; [|by exists 0, t].
    destruct (live_index r t p (Hok sid t Ht) Hp) as [i Hi].
    eapply (finishes_from r Hb Ha schedule st sid Hfair Hprod _ _ 0 t p); [rewrite Hp; by exists i|done|done|done]. }
  destruct Hfin as (n & t' & Ht' & Hp'). exists n, t'. split_and!; [done|done|].
  pose proof (after_ok r Hb schedule st n Hok sid t' Ht') as Htr. unfold tracker_ok in Htr. by rewrite Hp' in Htr.
Qed.
End Live.

Module LiveWitnesses.
Import Sample.

(** Other sessions' operations come between those of the session. *)
Definition schedule (n : nat) : runner_op :=
  match n with
  | 0 => OBegin "t" ""
  | 1 => OMessage "s" "offer" "alice" (of_string "o")
  | 2 => OEnd "t"
  | 3 => OMessage "s" "ack" "alice" (of_string "a")
  | _ => OBegin "s" ""
  end.
Definition need (p : Phase InMemory.InMemoryStore) (c : SessionContext) : nat := 1 - MessageCount "bucket" c.

Lemma finished_at_4 : tr_current <$> sessions (after runner schedule begun 4) !! "s"%string = Some None.
Proof. vm_compute. reflexivity. Qed.
Lemma schedule_rests n : after runner schedule begun (4 + n) = after runner schedule begun 4.
Proof.
  destruct (fmap_Some_1 _ _ _ finished_at_4) as (t & Ht & _).
  induction n as [|n IH]; [done|]. change (4 + Datatypes.S n) with (Datatypes.S (4 + n)). cbn [after]. rewrite IH.
  change (schedule (4 + n)) with (OBegin "s" ""). cbn [run_op]. by rewrite (BeginSession_active runner "s" "" _ t Ht).
Qed.
Lemma schedule_fair : fair "s" schedule.
Proof. intros n. exists 3. rewrite Nat.add_comm. by destruct n. Qed.
Lemma tracked_in (st : RunnerState InMemory.InMemoryStore) : (match sessions st !! "s"%string with Some _ => true | None => false end) = true ->
  exists t, sessions st !! "s"%string = Some t.
Proof. destruct (sessions st !! _) as [t|]; [by exists t|done]. Qed.

Lemma session_finishes_witness :
  exists n t', sessions (after runner schedule begun n) !! "s"%string = Some t' /\ tr_current t' = None /\ tr_state t' = StateNone.
Proof.
  apply (session_finishes need runner env0 begun "s" begun_tracker schedule runner_built runner_acyclic begun_reachable begun_lookup schedule_fair).
  intros n Hn t p Ht Hp. destruct n as [|[|[|[|n]]]]; [discriminate Hn| |discriminate Hn| |].
  - destruct (tracked_in (after runner schedule begun 2)) as [t' Ht']; [vm_compute; reflexivity|].
    exists "offer"%string, "alice"%string, (of_string "o"), true, t'.
    split; [reflexivity|split; [vm_compute; reflexivity|split; [exact Ht'|discriminate]]].
  - destruct (tracked_in (after runner schedule begun 4)) as [t' Ht']; [vm_compute; reflexivity|].
    exists "ack"%string, "alice"%string, (of_string "a"), true, t'.
    split; [reflexivity|split; [vm_compute; reflexivity|split; [exact Ht'|discriminate]]].
  - exfalso. change (Datatypes.S (Datatypes.S (Datatypes.S (Datatypes.S n)))) with (4 + n) in Ht.
    rewrite schedule_rests in Ht. pose proof finished_at_4 as Hf. rewrite Ht in Hf. cbn [fmap option_fmap option_map] in Hf.
    rewrite Hp in Hf. discriminate Hf.
Defined.
End LiveWitnesses.
