(* ===== verification/RunnerTypes.v ===== *)
(** * Typed session contexts

    [Compose] checks that every required key has a provider of the required type
    among the phases before.  Here: in a runner built from such a pipeline, over
    phases that keep to the schemas they declare, a phase finds each key it
    requires in the session context, with the type it requires, so [MustGet]
    does not panic. *)
From Stdlib Require Import ZArith NArith Lia String Ascii Strings.Byte.
From stdpp Require Import base gmap list strings pretty relations.
From S2P Require Import Prelude Bytes.
From S2P Require Import GoFmt.
From S2P Require Import Sign.
From S2P Require Import Lineage.
From S2P Require Import Context.
From S2P Require Import Pipeline.
From S2P Require Import Runner.
From S2P Require Import RunnerSpec.

(** ** The types of values *)

(** The name of a value's type, as the schemas write it; other types than these
    are named by the value. *)
Definition basic_type (v : Any) : option string :=
  match v with
  | ABool _ => Some "bool"
  | AInt _ => Some "int" | AInt32 _ => Some "int32" | AInt64 _ => Some "int64"
  | AUint _ => Some "uint" | AUint32 _ => Some "uint32" | AUint64 _ => Some "uint64"
  | AFloat32 _ => Some "float32" | AFloat64 _ => Some "float64"
  | AString _ => Some "string" | ABytes _ => Some "[]byte" | AStrings _ => Some "[]string"
  | AMapBytes _ => Some "map[string][]byte"
  | _ => None
  end%string.
Definition basic_types : list string :=
  ["bool"; "int"; "int32"; "int64"; "uint"; "uint32"; "uint64"; "float32"; "float64"; "string"; "[]byte"; "[]string";
   "map[string][]byte"]%string.
Definition has_type (name : string) (v : Any) : Prop :=
  match v with
  | ANil => False
  | ASlice ty _ | AMap ty _ | AStruct ty _ => ty = name /\ name ∉ basic_types
  | _ => basic_type v = Some name
  end.

(** An assertion that succeeds on the values of a type. *)
Definition asserts {T} (assert : TypeAssert T) (name : string) : Prop := forall v, has_type name v -> is_Some (assert v).
Ltac asserts_basic :=
  intros v; destruct v; cbn; try discriminate; try done; try (by eexists); intros [_ []]; unfold basic_types; set_solver.
Lemma asBytes_asserts : asserts asBytes "[]byte".
Proof. asserts_basic. Qed.
Lemma asString_asserts : asserts asString "string".
Proof. asserts_basic. Qed.
Lemma asInt_asserts : asserts asInt "int".
Proof. asserts_basic. Qed.
Lemma asStrings_asserts : asserts asStrings "[]string".
Proof. asserts_basic. Qed.
Lemma asMapBytes_asserts : asserts asMapBytes "map[string][]byte".
Proof. asserts_basic. Qed.

(** The values of a context have the types of a schema. *)
Definition typed (schema : gmap string ContextKeyType) (c : SessionContext) : Prop :=
  forall k T v, schema !! k = Some T -> values c !! k = Some v -> has_type (TypeName T) v.
Definition has_keys (ks : list string) (c : SessionContext) : Prop := forall k, k ∈ ks -> is_Some (values c !! k).

Section Typing.
Context {S : Type} `{Store S}.
Implicit Types (r : SessionRunner S) (st : RunnerState S) (t : sessionTracker S) (p q : Phase S).

(** A hook that leaves a typed context typed and removes no key, whatever its
    outcome. *)
Definition keeps schema (h : M (HookState S) unit) : Prop := forall hs,
  typed schema hs.1 -> typed schema (h hs).2.1 /\ forall k, is_Some (values hs.1 !! k) -> is_Some (values (h hs).2.1 !! k).

(** What a phase declares it does: it writes values of the types of the schema,
    and has set what it provides when it has exited; it names the types of what
    it provides, which are those of the schema. *)
Record phase_typed schema p : Prop := {
  keeps_Enter : keeps schema (Enter p);
  keeps_OnMessage ty from payload : keeps schema (OnMessage p ty from payload);
  keeps_Exit : keeps schema (Exit p);
  Exit_provides hs hs' : typed schema hs.1 -> Exit p hs = (Ok tt, hs') -> has_keys (Provides p).*1 hs'.1;
  provides_types k T : (k, T) ∈ Provides p -> TypeName T <> EmptyString /\ exists T', schema !! k = Some T' /\ TypeName T' = TypeName T
}.

Section Fixed.
Context r (Hb : built r) (Ha : acyclic r).
Notation schema := (provided_by (phases r)).
Notation chain := (inlines (phases r)).
Context (Hphases : forall p, p ∈ phases r -> phase_typed schema p).

Lemma chain_typed i p : chain !! i = Some p -> phase_typed schema p.
Proof. intros Hi. apply Hphases. apply list_elem_of_lookup_2 in Hi. by apply inlines_elem in Hi as [_ Hi]. Qed.

(** The keys the first [n] phases of the chain provide. *)
Definition given (n : nat) : list string := take n chain ≫= (fun p => (Provides p).*1).
Lemma given_S i p : chain !! i = Some p -> given (Datatypes.S i) = given i ++ (Provides p).*1.
Proof. intros Hi. unfold given. rewrite (take_S_r _ _ _ Hi), bind_app. cbn. by rewrite app_nil_r. Qed.

(** The context of a tracker at its phase. *)
Definition well_typed t : Prop :=
  typed schema (tr_ctx t) /\ forall i p, tr_current t = Some p -> chain !! i = Some p -> has_keys (given i) (tr_ctx t).

Lemma hook_typed h (ts : TState S) : keeps schema h -> well_typed ts.1 -> well_typed (run_hook h ts).2.1.
Proof.
  intros Hh [Ht Hg]. unfold run_hook. specialize (Hh (tr_ctx ts.1, ts.2) Ht).
  destruct (h (tr_ctx ts.1, ts.2)) as [o [c e]]. cbn in *. split; [apply Hh|].
  intros i p Hp Hi k Hk. apply Hh. by eapply Hg.
Qed.
Lemma commit_context p hs : (commitPhaseOutputsIfEnabled r p hs).2.1 = hs.1.
Proof.
  unfold commitPhaseOutputsIfEnabled. destruct (runner_lineage r) as [cfg|]; [|done].
  destruct (resolveParents p hs.1 (env_store hs.2)); [|done|done]. unfold on_env. by destruct (for_each _ _ _) as [o e].
Qed.
Lemma commit_keeps p : keeps schema (commitPhaseOutputsIfEnabled r p).
Proof. intros hs Ht. by rewrite commit_context. Qed.

(** Nothing a context holds depends on the position. *)
Lemma frame_typed t t' : tr_ctx t' = tr_ctx t -> tr_current t' = tr_current t -> well_typed t -> well_typed t'.
Proof. unfold well_typed. by intros -> ->. Qed.

(** A tracker whose phase has exited. *)
Definition exited p (ts : TState S) : Prop :=
  well_typed ts.1 /\ tr_current ts.1 = Some p /\ has_keys (Provides p).*1 (tr_ctx ts.1).
Lemma exit_typed p what (ts : TState S) : tr_current ts.1 = Some p -> p ∈ chain -> well_typed ts.1 ->
  match wrap_err (wrap_phase p what) (run_hook (Exit p)) ts with
  | (Ok _, ts') => exited p ts'
  | (_, ts') => well_typed ts'.1
  end.
Proof.
  intros Hp [i Hi]%list_elem_of_lookup Ht. pose proof (chain_typed i p Hi) as Hph.
  pose proof (hook_typed (Exit p) ts (keeps_Exit _ _ Hph) Ht) as Ht'. unfold wrap_err, run_hook in *.
  destruct (Exit p (tr_ctx ts.1, ts.2)) as [[[]|e|w] [c e']] eqn:E; [|done|done].
  split; [done|]. split; [done|]. exact (Exit_provides _ _ Hph (tr_ctx ts.1, ts.2) (c, e') (proj1 Ht) E).
Qed.
Lemma commit_typed p what (ts : TState S) : exited p ts ->
  exited p (wrap_err (wrap_phase p what) (run_hook (commitPhaseOutputsIfEnabled r p)) ts).2.
Proof.
  intros (Ht & Hp & Hk). rewrite wrap_err_state. pose proof (hook_typed _ ts (commit_keeps p) Ht) as Ht'.
  pose proof (commit_context p (tr_ctx ts.1, ts.2)) as Hc. unfold run_hook in *.
  destruct (commitPhaseOutputsIfEnabled r p (tr_ctx ts.1, ts.2)) as [o [c e]]. cbn in *. subst c.
  by split; [|split].
Qed.
(** The next phase is entered. *)
Lemma next_typed p q what s b (ts : TState S) : exited p ts -> p ∈ chain -> byEntryState r !! ExitState p = Some q ->
  well_typed (wrap_err (wrap_phase q what) (run_hook (Enter q))
    ({| tr_ctx := tr_ctx ts.1; tr_state := s; tr_current := Some q; tr_entered := b |}, ts.2)).2.1.
Proof.
  intros (Ht & Hp & Hk) [i Hi]%list_elem_of_lookup Hq. pose proof (next_index r Hb i p q Ha Hi Hq) as Hi'.
  rewrite wrap_err_state. apply hook_typed; [by eapply keeps_Enter, chain_typed|]. split; [apply Ht|].
  intros j q' [= <-] Hj. assert (j = Datatypes.S i) as ->.
  { eapply (valid_entry_inj _ (built_valid r Hb)); [exact Hj|exact Hi'|done]. }
  rewrite (given_S i p Hi). intros k [Hin|Hin]%elem_of_app; [by eapply Ht|by apply Hk].
Qed.

(** *** The operations *)

Lemma current_in_chain t p : tracker_ok r t -> tr_current t = Some p -> p ∈ chain.
Proof. unfold tracker_ok. intros Hok Hp. rewrite Hp in Hok. apply Hok. Qed.
Lemma advance_step_typed ts : tracker_ok r ts.1 -> well_typed ts.1 -> well_typed (advance_step r ts).2.1.
Proof.
  intros Hok Ht. unfold advance_step, bind at 1, get. destruct (tr_current ts.1) as [p|] eqn:Hp; [|done].
  pose proof (current_in_chain _ p Hok Hp) as Hin. unfold bind at 1.
  pose proof (exit_typed p ": Exit: " ts Hp Hin Ht) as Hx.
  destruct (wrap_err (wrap_phase p ": Exit: ") (run_hook (Exit p)) ts) as [[[]|e|w] ts1]; [|done|done].
  unfold bind at 1. pose proof (commit_typed p ": lineage commit: " ts1 Hx) as Hc.
  destruct (wrap_err (wrap_phase p ": lineage commit: ") (run_hook (commitPhaseOutputsIfEnabled r p)) ts1) as [[[]|e|w] ts2]; [|by apply Hc..]. simpl in Hc. simpl.
  destruct (String.eqb _ _); [by split; [apply Hc|]|]. destruct (byEntryState r !! ExitState p) as [q|] eqn:Hq; [|by apply Hc].
  erewrite bind_Ok by reflexivity. unfold bind at 1.
  pose proof (next_typed p q ": Enter: " (ExitState p) false ts2 Hc Hin Hq) as Hn.
  match type of Hn with context [wrap_err ?f ?m ?x] => destruct (wrap_err f m x) as [[[]|e|w] ts3] end; [|done|done].
  erewrite bind_Ok by reflexivity. erewrite bind_Ok by reflexivity.
  destruct (0 <? _)%nat; [done|]. by destruct (negb _).
Qed.
Lemma walk_step_typed sid target ts : tracker_ok r ts.1 -> well_typed ts.1 -> well_typed (walk_step r sid target ts).2.1.
Proof.
  intros Hok Ht. unfold walk_step, bind at 1, get. destruct (tr_current ts.1) as [p|] eqn:Hp; [|done].
  pose proof (current_in_chain _ p Hok Hp) as Hin. unfold bind at 1.
  pose proof (exit_typed p ": Exit during AdvanceToState: " ts Hp Hin Ht) as Hx.
  destruct (wrap_err (wrap_phase p ": Exit during AdvanceToState: ") (run_hook (Exit p)) ts) as [[[]|e|w] ts1]; [|done|done].
  unfold bind at 1. pose proof (commit_typed p ": lineage commit during AdvanceToState: " ts1 Hx) as Hc.
  destruct (wrap_err (wrap_phase p ": lineage commit during AdvanceToState: ") (run_hook (commitPhaseOutputsIfEnabled r p)) ts1) as [[[]|e|w] ts2]; [|by apply Hc..]. simpl in Hc. simpl.
  destruct (String.eqb _ _); [by apply Hc|]. destruct (byEntryState r !! ExitState p) as [q|] eqn:Hq; [|by apply Hc].
  erewrite bind_Ok by reflexivity. unfold bind at 1.
  pose proof (next_typed p q ": Enter during AdvanceToState: " (ExitState p) false ts2 Hc Hin Hq) as Hn.
  by (match type of Hn with context [wrap_err ?f ?m ?x] => destruct (wrap_err f m x) as [[[]|e|w] ts3] end).
Qed.

Lemma advance_loop_typed n ts : tracker_ok r ts.1 -> well_typed ts.1 -> well_typed (advance_loop r n ts).2.1.
Proof.
  revert ts. induction n as [|n IH]; intros ts Hok Ht; cbn [advance_loop]; [done|]. unfold bind at 1.
  pose proof (advance_step_typed ts Hok Ht) as Hs. pose proof (advance_step_result r ts) as Hr.
  destruct (advance_step r ts) as [o ts']. apply (hop_progress r Hb) in Hr; [|done]. destruct o as [[b|]|e|w]; [done| |done|done].
  apply IH; [apply Hr|done].
Qed.
Lemma walk_loop_typed sid target n ts : tracker_ok r ts.1 -> well_typed ts.1 -> well_typed (walk_loop r sid target n ts).2.1.
Proof.
  revert ts. induction n as [|n IH]; intros ts Hok Ht; cbn [walk_loop]; [done|]. unfold bind at 1, get.
  destruct (String.eqb _ _); [done|]. unfold bind at 1.
  pose proof (walk_step_typed sid target ts Hok Ht) as Hs. pose proof (walk_step_result r sid target ts) as Hr.
  destruct (walk_step r sid target ts) as [o ts']. apply (walk_progress r Hb) in Hr; [|done]. destruct o as [[]|e|w]; [|done|done].
  apply IH; [apply Hr|done].
Qed.
Lemma handle_typed ty from payload ts : tracker_ok r ts.1 -> well_typed ts.1 -> well_typed (handle r ty from payload ts).2.1.
Proof.
  intros Hok Ht. unfold handle, bind at 1. pose proof (deliver_frame ty from payload ts) as Hpos.
  assert (Hd : well_typed (deliver ty from payload ts).2.1).
  { unfold deliver, bind at 1, get. destruct (tr_current ts.1) as [p|] eqn:Hp; [|done]. destruct (negb _); [done|].
    pose proof (current_in_chain _ p Hok Hp) as [i Hi]%list_elem_of_lookup. unfold bind at 1.
    pose proof (hook_typed (OnMessage p ty from payload) ts (keeps_OnMessage _ _ (chain_typed i p Hi) ty from payload) Ht) as Hm.
    unfold wrap_err. by destruct (run_hook _ ts) as [[[]|e|w] ts1]. }
  destruct (deliver ty from payload ts) as [[[]|e|w] ts1]; cbn in *; [|done..].
  apply advance_loop_typed; [|done]. by apply (progress_refl r ts.1).
Qed.
Lemma advance_to_typed sid target ts : tracker_ok r ts.1 -> well_typed ts.1 -> well_typed (advance_to r sid target ts).2.1.
Proof.
  intros Hok Ht. unfold advance_to, bind, get. destruct (String.eqb _ _); [done|].
  match goal with |- context [if ?b then _ else _] => destruct b end; [done|]. by apply walk_loop_typed.
Qed.

(** *** All sessions *)

Definition all_typed st : Prop := forall sid t, sessions st !! sid = Some t -> tracker_ok r t /\ well_typed t.
(** A value written to the live context has the type of its key. *)
Definition typed_op (op : runner_op) : Prop :=
  match op with
  | OSeed _ k v => forall T, schema !! k = Some T -> has_type (TypeName T) v
  | _ => True
  end.

Lemma with_tracker_typed {A} sid missing (m : M (TState S) A) st :
  (forall ts, tracker_ok r ts.1 -> well_typed ts.1 -> well_typed (m ts).2.1) ->
  (forall ts, tracker_ok r ts.1 -> progress r ts.1 (m ts).2.1) ->
  all_typed st -> all_typed (with_tracker sid missing m st).2.
Proof.
  intros Hm Hp Hall. unfold with_tracker. destruct (sessions st !! sid) as [t|] eqn:E; [|done].
  destruct (Hall sid t E) as [Hok Ht]. pose proof (Hm (t, rs_env st) Hok Ht) as Ht'. pose proof (Hp (t, rs_env st) Hok) as Hp'.
  destruct (m (t, rs_env st)) as [o [t' e]]. intros sid' t1. cbn in *. destruct (decide (sid' = sid)) as [->|Hne].
  - rewrite lookup_insert_eq. intros [= <-]. split; [apply Hp'|done].
  - rewrite lookup_insert_ne by done. apply Hall.
Qed.
Lemma HandleMessage_typed sid ty from pl st : all_typed st -> all_typed (HandleMessage r sid ty from pl st).2.
Proof. apply with_tracker_typed; intros ts; [apply handle_typed|by apply handle_progress]. Qed.
Lemma AdvanceToState_typed sid target st : all_typed st -> all_typed (AdvanceToState r sid target st).2.
Proof. apply with_tracker_typed; intros ts; [apply advance_to_typed|by apply advance_to_progress]. Qed.
Lemma same_sessions_typed st st' : sessions st' = sessions st -> all_typed st -> all_typed st'.
Proof. unfold all_typed. by intros ->. Qed.
Lemma HandleLineageMessage_typed sid ty from pl node st : all_typed st -> all_typed (HandleLineageMessage r sid ty from pl node st).2.
Proof.
  intros Hall. unfold HandleLineageMessage. destruct (runner_lineage r) as [cfg|]; [|by apply HandleMessage_typed].
  destruct node as [node|]; [|done]. destruct (verify_inbound _ _ _ _) as [[]|e|w].
  - destruct (append_idempotent _ _ _) as [[[]|e|w] env]; [|done|done]. by apply HandleMessage_typed.
  - eapply same_sessions_typed; [apply fireFailureHook_sessions|done].
  - done.
Qed.
Lemma seed_typed sid k v st : typed_op (OSeed sid k v) -> all_typed st -> all_typed (seed sid k v st).
Proof.
  intros Hv Hall. unfold seed. destruct (sessions st !! sid) as [t|] eqn:E; [|done]. destruct (Hall sid t E) as [Hok [Ht Hg]].
  intros sid' t1. cbn. destruct (decide (sid' = sid)) as [->|Hne]; [|rewrite lookup_insert_ne by done; apply Hall].
  rewrite lookup_insert_eq. intros [= <-]. split; [exact Hok|]. split.
  - intros k' T v' HT. cbn [with_ctx tr_ctx]. unfold ctx_Set, with_values. cbn [values]. destruct (decide (k' = k)) as [->|Hk].
    + rewrite lookup_insert_eq. intros [= <-]. by apply Hv.
    + rewrite lookup_insert_ne by done. by apply Ht.
  - intros i p Hp Hi k' Hk'. cbn [with_ctx tr_ctx]. unfold ctx_Set, with_values. cbn [values]. destruct (decide (k' = k)) as [->|Hk]; [rewrite lookup_insert_eq; by eexists|].
    rewrite lookup_insert_ne by done. by apply (Hg i p Hp Hi).
Qed.
Lemma first_typed first sid cid state : byEntryState r !! initialState r = Some first ->
  well_typed {| tr_ctx := {| ctxSessionID := sid; ctxCohortID := cid; values := ∅;
                             ctxHasStore := bool_decide (is_Some (runner_lineage r)); lineageSigner := cfgSigner <$> runner_lineage r |};
                tr_state := state; tr_current := Some first; tr_entered := false |}.
Proof.
  intros Hf. split; [intros k T v _; cbn; by rewrite lookup_empty|]. intros i p [= <-] Hi.
  assert (i = 0) as ->; [|intros k Hk; by apply elem_of_nil in Hk].
  apply (built_lookup r Hb) in Hf as [Hin He]. destruct chain as [|p0 chain'] eqn:Ec; [by apply elem_of_nil in Hin|].
  eapply (valid_entry_inj _ (built_valid r Hb)); [by rewrite Ec|by rewrite Ec|].
  rewrite He, (built_initial r Hb). cbn. by rewrite Ec.
Qed.
Lemma BeginSession_typed sid cid st : all_typed st -> all_typed (BeginSession r sid cid st).2.
Proof.
  intros Hall. unfold BeginSession. destruct (String.eqb _ _); [done|]. destruct (sessions st !! sid) as [t|] eqn:E; [done|].
  destruct (byEntryState r !! initialState r) as [first|] eqn:Hf; [|done].
  pose proof (first_typed first sid cid (initialState r) Hf) as Ht.
  pose proof (proj1 (built_lookup r Hb _ _) Hf) as [Hin He]. apply list_elem_of_lookup in Hin as Hi. destruct Hi as [i Hi].
  match goal with |- context [run_hook ?h ?x] =>
    pose proof (hook_typed h x (keeps_Enter _ _ (chain_typed i first Hi)) Ht) as Ht';
    assert (Hok : tracker_ok r (run_hook h x).2.1) by (unfold run_hook; destruct (h _) as [o [c e]]; by split);
    destruct (run_hook h x) as [[[]|e|w] [t env]]
  end; intros sid' t1; cbn in *; destruct (decide (sid' = sid)) as [->|Hne].
  - rewrite lookup_insert_eq. intros [= <-]. split; [exact Hok|]. exact Ht'.
  - rewrite lookup_insert_ne by done. apply Hall.
  - by rewrite lookup_delete_eq.
  - rewrite lookup_delete_ne by done. apply Hall.
  - rewrite lookup_insert_eq. intros [= <-]. by split.
  - rewrite lookup_insert_ne by done. apply Hall.
Qed.
Lemma run_op_typed op st : typed_op op -> all_typed st -> all_typed (run_op r op st).
Proof.
  destruct op; cbn [run_op]; intros Hop Hall.
  - by apply BeginSession_typed.
  - by apply HandleMessage_typed.
  - by apply HandleLineageMessage_typed.
  - by apply AdvanceToState_typed.
  - by apply seed_typed.
  - intros sid' t. cbn. intros Ht. apply (Hall sid' t). destruct (decide (sid' = sid)) as [->|Hne].
    + by rewrite lookup_delete_eq in Ht.
    + by rewrite lookup_delete_ne in Ht.
Qed.

(** The states a runner reaches when what is written from outside has its
    declared type. *)
Definition reachable_typed e st : Prop :=
  rtc (fun st1 st2 => exists op, typed_op op /\ st2 = run_op r op st1) (initial_state e) st.
Lemma reachable_all_typed e st : reachable_typed e st -> all_typed st.
Proof.
  unfold reachable_typed. apply rtc_ind_r with (P := all_typed).
  - intros sid t. cbn. by rewrite lookup_empty.
  - intros st1 st2 _ (op & Hop & ->) Hall. by apply run_op_typed.
Qed.
End Fixed.

(** *** Hooks that keep a schema *)

Lemma keeps_schema_ret schema : keeps schema (ret tt).
Proof. intros hs Ht. by split. Qed.
Lemma keeps_set schema (f : SessionContext -> SessionContext) k v :
  (forall c, values (f c) = <[k := v c]> (values c)) ->
  (forall c T, schema !! k = Some T -> has_type (TypeName T) (v c)) -> keeps schema (modify_ctx f).
Proof.
  intros Hf Hv hs Ht. unfold modify_ctx, modify. cbn. rewrite Hf. split.
  - intros k' T v' HT. rewrite Hf. destruct (decide (k' = k)) as [->|Hk].
    + rewrite lookup_insert_eq. intros [= <-]. by apply Hv.
    + rewrite lookup_insert_ne by done. by apply Ht.
  - intros k' Hk'. destruct (decide (k' = k)) as [->|Hk]; [rewrite lookup_insert_eq; by eexists|by rewrite lookup_insert_ne].
Qed.

(** *** What [Compose] checked *)

Lemma provided_by_snoc pre p : provided_by (pre ++ [p]) = add_provides (Provides p) (provided_by pre).
Proof. unfold provided_by. by rewrite foldl_app. Qed.
Lemma provided_by_inv ps k T : provided_by ps !! k = Some T -> exists q, q ∈ ps /\ (k, T) ∈ Provides q.
Proof.
  induction ps as [|p ps IH] using rev_ind; [done|]. rewrite provided_by_snoc. intros [Hin|Hin]%insert_all_Some_inv.
  - exists p. split; [|done]. apply elem_of_app. right. by apply list_elem_of_singleton.
  - destruct (IH Hin) as (q & Hq & ?). exists q. split; [|done]. apply elem_of_app. by left.
Qed.

(** C11. Type soundness of composed pipelines.  A runner is built from a valid
    pipeline whose phases keep to the schemas they declare: the hooks write
    values of the declared types and remove nothing, and a phase that exited has
    set what it provides.  Then in every state reached by its operations, hook
    errors and panics included, a session's current phase finds each key it
    requires with the type it requires: [MustGet] returns its value and does not
    panic, as long as no out-of-band phase is what provides the key. *)
Theorem required_keys_typed r e st sid t p k want {T} (assert : TypeAssert T) :
  built r -> acyclic r -> (forall q, q ∈ phases r -> phase_typed (provided_by (phases r)) q) ->
  (forall q, q ∈ phases r -> k ∈ (Provides q).*1 -> is_inline q = true) ->
  reachable_typed r e st -> sessions st !! sid = Some t -> tr_current t = Some p ->
  (k, want) ∈ Requires p -> Required want = true -> TypeName want <> EmptyString -> asserts assert (TypeName want) ->
  exists x, MustGet assert k (tr_ctx t) = Ok x.
Proof.
  intros Hb Ha Hphases Hinline Hreach Ht Hp Hreq Hrequired Hname Hassert.
  destruct (reachable_all_typed r Hb Ha Hphases e st Hreach sid t Ht) as [Hok [Htyped Hgiven]].
  pose proof (current_in_chain r t p Hok Hp) as Hin. apply list_elem_of_lookup in Hin as [i Hi].
  destruct (inlines_split _ _ _ _ (eq_sym (take_drop_middle _ _ _ Hi))) as (pre & post & Hps & Hpre & _).
  pose proof (v_requires _ _ (proj2 (built_valid r Hb) pre p post Hps) _ Hreq) as Hr. unfold requirement_ok in Hr. cbn in Hr.
  destruct (provided_by pre !! k) as [got|] eqn:Hgot; [|congruence].
  apply provided_by_inv in Hgot as (q & Hq & Hprov). assert (Hqr : q ∈ phases r) by (rewrite Hps; apply elem_of_app; by left).
  destruct (provides_types _ _ (Hphases q Hqr) k got Hprov) as (Hgname & T' & HT' & Heq).
  assert (Hkey : is_Some (values (tr_ctx t) !! k)).
  { apply (Hgiven i p Hp Hi). unfold given. rewrite <- Hpre. apply list_elem_of_bind. exists q.
    assert (Hk : k ∈ (Provides q).*1) by (apply list_elem_of_fmap; by exists (k, got)).
    split; [done|]. apply inlines_elem. split; [by apply Hinline|done]. }
  destruct Hkey as [v Hv]. pose proof (Htyped k T' v HT' Hv) as Hv'.
  assert (TypeName T' = TypeName want) as Hty by (rewrite Heq; destruct Hr as [[?|[?|?]] _]; congruence).
  rewrite Hty in Hv'. destruct (Hassert v Hv') as [x Hx]. exists x. unfold MustGet, ctx_Get. by rewrite Hv, Hx.
Qed.
End Typing.

Module TypesWitnesses.
Import Sample.

(** A phase that sums what it gathers, and one that needs the sum. *)
Definition summing := phase_of "intake" "INTAKE" "TALLY" ["offer"]%string []
  [("sum", key_type "[]byte" false [])]%string
  accumulate (QuorumReached "bucket" 1) (modify_ctx (ctx_Set "sum" (ABytes (of_string "s")))).
Definition tally_key : string * ContextKeyType := ("sum", key_type "[]byte" true [])%string.
Definition tally := phase_of "tally" "TALLY" StateNone ["ack"]%string [tally_key] [] accumulate (fun _ => true) idle.
Definition typed_runner : SessionRunner InMemory.InMemoryStore := pipeline_runner [summing; tally].
Definition offer_sent : RunnerState InMemory.InMemoryStore :=
  (HandleMessage typed_runner "s" "offer" "alice" (of_string "o")
     (BeginSession typed_runner "s" "" (initial_state env0)).2).2.

Lemma typed_runner_built : built typed_runner.
Proof.
  apply (Compose_built [summing; tally]). destruct (Compose [summing; tally]) as [r|e|w] eqn:E; [|discriminate E|discriminate E].
  by apply Compose_run in E as [_ ->].
Qed.
Lemma typed_runner_acyclic : acyclic typed_runner.
Proof.
  intros p [= <-]. cbn. intros H. repeat (apply elem_of_cons in H as [H|H]; [discriminate H|]). by apply elem_of_nil in H.
Qed.
Lemma accumulate_keeps ty from payload : keeps (provided_by (phases typed_runner)) (accumulate ty from payload).
Proof. eapply keeps_set; [intros c; reflexivity|]. intros c T HT. cbn in HT. discriminate HT. Qed.
Lemma typed_runner_typed q : q ∈ phases typed_runner -> phase_typed (provided_by (phases typed_runner)) q.
Proof.
  intros Hq. apply elem_of_cons in Hq as [->|Hq]; [|apply list_elem_of_singleton in Hq as ->].
  - constructor; [apply keeps_schema_ret|apply accumulate_keeps| | |].
    + eapply keeps_set; [intros c; reflexivity|]. intros c T HT. cbn in HT. injection HT as <-. reflexivity.
    + intros hs hs' _ [= <-] k Hk. apply list_elem_of_singleton in Hk as ->. cbn. rewrite lookup_insert_eq. by eexists.
    + intros k T Hk. apply list_elem_of_singleton in Hk as [= -> ->]. split; [discriminate|]. by eexists.
  - constructor; [apply keeps_schema_ret|apply accumulate_keeps|apply keeps_schema_ret| |].
    + intros hs hs' _ _ k Hk. by apply elem_of_nil in Hk.
    + intros k T Hk. by apply elem_of_nil in Hk.
Qed.
Lemma offer_sent_reachable : reachable_typed typed_runner env0 offer_sent.
Proof.
  eapply rtc_l; [exists (OBegin "s" ""); by split|]. apply rtc_once. by exists (OMessage "s" "offer" "alice" (of_string "o")).
Qed.

Lemma required_keys_typed_witness :
  exists t, sessions offer_sent !! "s"%string = Some t /\ exists x, MustGet asBytes "sum" (tr_ctx t) = Ok x.
Proof.
  assert (Hs : tr_current <$> sessions offer_sent !! "s"%string = Some (Some tally)) by reflexivity.
  apply fmap_Some_1 in Hs as (t & Ht & Hcur). exists t. split; [exact Ht|].
  apply (required_keys_typed typed_runner env0 offer_sent "s" t tally "sum" (key_type "[]byte" true []) asBytes
    typed_runner_built typed_runner_acyclic typed_runner_typed).
  - intros q Hq _. apply elem_of_cons in Hq as [->|Hq]; [reflexivity|]. by apply list_elem_of_singleton in Hq as ->.
  - exact offer_sent_reachable.
  - exact Ht.
  - by symmetry.
  - by apply list_elem_of_singleton.
  - reflexivity.
  - discriminate.
  - exact asBytes_asserts.
Defined.
End TypesWitnesses.
