(* ===== verification/RunnerFrame.v ===== *)
(** * Invariants of a session's context

    A property of the context that every hook of a runner's phases keeps is kept
    by every operation on its sessions, whatever the outcome; and what the hooks
    keep that only write keys of a given set. *)
From Stdlib Require Import ZArith NArith Lia String Ascii Strings.Byte.
From stdpp Require Import base gmap list strings.
From S2P Require Import Bytes.
From S2P Require Import GoFmt.
From S2P Require Import Sign.
From S2P Require Import Lineage.
From S2P Require Import Context.
From S2P Require Import Pipeline.
From S2P Require Import Runner.
From S2P Require Import RunnerSpec.
From S2P Require Import RunnerTypes.
From S2P Require Import Prelude.

Section Frame.
Context {S : Type} `{Store S} (I : SessionContext -> Prop).
Implicit Types (p : Phase S) (st : RunnerState S).

Definition hook_keeps (h : M (HookState S) unit) : Prop := keeps (fun hs => I hs.1) h.
Record phase_keeps p : Prop := {
  Enter_keeps : hook_keeps (Enter p);
  OnMessage_keeps ty from payload : hook_keeps (OnMessage p ty from payload);
  Exit_keeps : hook_keeps (Exit p)
}.

Context (r : SessionRunner S) (Hr : forall s p, byEntryState r !! s = Some p -> phase_keeps p).

(** The context of a tracker, at a phase that keeps it. *)
Definition kept (ts : TState S) : Prop := I (tr_ctx ts.1) /\ forall p, tr_current ts.1 = Some p -> phase_keeps p.

Lemma run_hook_kept h : hook_keeps h -> keeps kept (run_hook h).
Proof.
  intros Hh ts [Hi Hp]. unfold run_hook. specialize (Hh (tr_ctx ts.1, ts.2) Hi). destruct (h (tr_ctx ts.1, ts.2)) as [o [c e]]. by split.
Qed.
Lemma commit_kept p : keeps kept (run_hook (commitPhaseOutputsIfEnabled r p)).
Proof. apply run_hook_kept. intros hs Hi. change (I (commitPhaseOutputsIfEnabled r p hs).2.1). by rewrite commit_context. Qed.
Lemma set_position_kept s p b : phase_keeps p -> keeps kept (set_position s (Some p) b).
Proof. intros Hp ts [Hi _]. split; [exact Hi|]. by intros q [= <-]. Qed.
Lemma set_end_kept b : keeps kept (set_position (S := S) StateNone None b).
Proof. intros ts [Hi _]. by split. Qed.
Lemma set_entered_kept : keeps kept (set_entered (S := S)).
Proof. intros ts [Hi Hp]. by split. Qed.
Lemma get_kept {A} (k : TState S -> M (TState S) A) : (forall ts, kept ts -> keeps kept (k ts)) -> keeps kept (bind get k).
Proof. intros Hk ts Hts. by apply (Hk ts). Qed.
Lemma panic_kept {A} w : keeps kept (panic w : M (TState S) A).
Proof. by intros ts. Qed.

Hint Resolve commit_kept set_position_kept set_end_kept set_entered_kept panic_kept : ares.
Local Ltac frame := repeat first
  [apply keeps_bind; [|intros ?]|apply keeps_wrap|apply keeps_ret|apply keeps_throw|apply keeps_get|apply panic_kept|apply set_entered_kept|apply set_end_kept
  |apply commit_kept|by apply set_position_kept|apply run_hook_kept; by apply Exit_keeps|apply run_hook_kept; by apply Enter_keeps
  |apply run_hook_kept; by apply OnMessage_keeps|apply keeps_if].

Lemma advance_step_kept : keeps kept (advance_step r).
Proof.
  apply get_kept. intros ts [_ Hp]. destruct (tr_current ts.1) as [p|]; [|by apply panic_kept]. specialize (Hp p eq_refl).
  frame. destruct (byEntryState r !! ExitState p) as [q|] eqn:Eq; [|apply keeps_throw]. apply Hr in Eq.
  frame.
Qed.
Lemma advance_loop_kept n : keeps kept (advance_loop r n).
Proof. induction n as [|n IH]; cbn; [apply keeps_throw|]. apply keeps_bind; [apply advance_step_kept|]. intros [b|]; [apply keeps_ret|done]. Qed.
Lemma deliver_kept ty from payload : keeps kept (deliver (S := S) ty from payload).
Proof.
  apply get_kept. intros ts [_ Hp]. destruct (tr_current ts.1) as [p|]; [|by apply panic_kept]. specialize (Hp p eq_refl).
  frame.
Qed.
Lemma handle_kept ty from payload : keeps kept (handle r ty from payload).
Proof. apply keeps_bind; [apply deliver_kept|]. intros b. apply keeps_if; [apply keeps_ret|apply advance_loop_kept]. Qed.
Lemma walk_step_kept sid target : keeps kept (walk_step r sid target).
Proof.
  apply get_kept. intros ts [_ Hp]. destruct (tr_current ts.1) as [p|]; [|apply keeps_throw]. specialize (Hp p eq_refl).
  frame. destruct (byEntryState r !! ExitState p) as [q|] eqn:Eq; [|apply keeps_throw]. apply Hr in Eq. frame.
Qed.
Lemma walk_loop_kept sid target n : keeps kept (walk_loop r sid target n).
Proof.
  induction n as [|n IH]; cbn; [apply keeps_throw|]. apply get_kept. intros ts _.
  apply keeps_if; [apply keeps_ret|]. apply keeps_bind; [apply walk_step_kept|done].
Qed.
Lemma advance_to_kept sid target : keeps kept (advance_to r sid target).
Proof. apply get_kept. intros ts _. apply keeps_if; [apply keeps_ret|]. apply keeps_if; [apply keeps_ret|apply walk_loop_kept]. Qed.

(** Every session of the runner. *)
Definition all_kept (sids : string -> Prop) st : Prop :=
  forall sid t, sids sid -> sessions st !! sid = Some t -> I (tr_ctx t) /\ forall p, tr_current t = Some p -> phase_keeps p.
Lemma with_tracker_kept {A} sids sid missing (m : M (TState S) A) : keeps kept m -> keeps (all_kept sids) (with_tracker sid missing m).
Proof.
  intros Hm st Hst. unfold with_tracker. destruct (sessions st !! sid) as [t|] eqn:Et; [|done].
  specialize (Hm (t, rs_env st)). destruct (m (t, rs_env st)) as [o [t' e]]. intros sid' t2 Hsid Ht2. cbn in Ht2.
  destruct (decide (sid = sid')) as [->|Hne]; [|rewrite lookup_insert_ne in Ht2 by done; by eapply Hst].
  rewrite lookup_insert_eq in Ht2. injection Ht2 as <-. apply Hm. by apply (Hst sid').
Qed.
Lemma HandleMessage_kept sids sid ty from payload : keeps (all_kept sids) (HandleMessage r sid ty from payload).
Proof. apply with_tracker_kept, handle_kept. Qed.
Lemma AdvanceToState_kept sids sid target : keeps (all_kept sids) (AdvanceToState r sid target).
Proof. apply with_tracker_kept, advance_to_kept. Qed.
Lemma HandleLineageMessage_kept sids sid ty from payload node : keeps (all_kept sids) (HandleLineageMessage r sid ty from payload node).
Proof.
  unfold HandleLineageMessage. destruct (runner_lineage r) as [cfg|]; [|apply HandleMessage_kept].
  destruct node as [node|]; [|apply keeps_throw]. intros st Hst.
  destruct (verify_inbound _ _ _ _) as [[]|er|w]; [|by intros sid' t Hsid Ht; cbn in Ht; rewrite fireFailureHook_sessions in Ht; apply (Hst sid')|done].
  destruct (append_idempotent _ _ _) as [[u|er|w] e]; [|done..]. by apply HandleMessage_kept.
Qed.

(** What goes on in a session once it is seeded. *)
Inductive session_op := SMessage (ty from : string) (payload : bytes)
  | SLineage (ty from : string) (payload : bytes) (node : option DAGNode) | SAdvance (target : SessionState).
Definition run_session_op (sid : string) (op : session_op) st : RunnerState S :=
  match op with
  | SMessage ty from payload => (HandleMessage r sid ty from payload st).2
  | SLineage ty from payload node => (HandleLineageMessage r sid ty from payload node st).2
  | SAdvance target => (AdvanceToState r sid target st).2
  end.
Lemma run_session_kept sids sid ops st : all_kept sids st -> all_kept sids (foldl (fun st op => run_session_op sid op st) st ops).
Proof.
  revert st. induction ops as [|op ops IH]; intros st Hst; [done|]. apply IH.
  destruct op; [by apply HandleMessage_kept|by apply HandleLineageMessage_kept|by apply AdvanceToState_kept].
Qed.
End Frame.

(** ** Hooks that leave keys alone *)

Section Keys.
Context {S : Type} `{Store S} (key : string) (v : option Any).
Notation keeps_key := (hook_keeps (S := S) (fun c => ctx_Get key c = v)).

Lemma key_set k x c : k <> key -> ctx_Get key (ctx_Set k x c) = ctx_Get key c.
Proof. intros Hk. unfold ctx_Get, ctx_Set, with_values. cbn [values]. by rewrite lookup_insert_ne. Qed.
Lemma key_set_same x c : ctx_Get key (ctx_Set key x c) = Some x.
Proof. unfold ctx_Get, ctx_Set, with_values. cbn [values]. by rewrite lookup_insert_eq. Qed.
Lemma key_accumulate bucket from payload c : bucket <> key -> ctx_Get key (AccumulateMessage bucket from payload c) = ctx_Get key c.
Proof. intros Hk. unfold ctx_Get, AccumulateMessage, ctx_Update, with_values. cbn [values]. by rewrite lookup_insert_ne. Qed.
Lemma modify_keeps_key f : (forall c, ctx_Get key (f c) = ctx_Get key c) -> keeps_key (modify_ctx f).
Proof. intros Hf hs Hi. cbn. by rewrite Hf. Qed.
Lemma get_ctx_keeps_key {A} (k : SessionContext -> M (HookState S) A) :
  (forall c, ctx_Get key c = v -> keeps (fun hs => ctx_Get key hs.1 = v) (k c)) -> keeps (fun hs => ctx_Get key hs.1 = v) (bind get_ctx k).
Proof. intros Hk hs Hi. by apply (Hk hs.1). Qed.
Lemma lift_keeps_key {A} (o : Outcome A) : keeps (fun hs : HookState S => ctx_Get key hs.1 = v) (lift_outcome o).
Proof. by intros hs. Qed.
End Keys.
