(* ===== verification/RunnerLineage.v ===== *)
(** * Correctness of the runner's lineage

    What the store holds after the runner's operations: every node's parents
    are in the store, what the auto-commit adds verifies, and an inbound frame
    that does not verify reaches no phase. *)
From Stdlib Require Import ZArith NArith Lia String Ascii Strings.Byte.
From stdpp Require Import base gmap list strings pretty relations.
From S2P Require Import Prelude Bytes.
From S2P Require Import GoFmt.
From S2P Require Import Sign.
From S2P Require Import Lineage.
From S2P Require Import Context.
From S2P Require Import Pipeline.
From S2P Require Import Runner.
From S2P Require Import RunnerSpec.

(** ** Growing a store *)

Section Growth.
Context {S : Type} `{StoreLaws S}.
Implicit Types (s : S) (e : Env S) (n m : DAGNode).

Definition held s (h : NodeRef) : Prop := exists m, Get h s = Ok m.

(** [s'] holds all [s] holds, and every other node it holds satisfies [P]. *)
Definition grows (P : DAGNode -> Prop) s s' : Prop :=
  store_inv s' /\
  (forall h n, Get h s = Ok n -> Get h s' = Ok n) /\
  (forall h n, Get h s' = Ok n -> Get h s = Ok n \/ P n).

Lemma grows_refl P s : store_inv s -> grows P s s.
Proof. unfold grows. auto. Qed.

Lemma grows_trans P s1 s2 s3 : grows P s1 s2 -> grows P s2 s3 -> grows P s1 s3.
Proof.
  unfold grows. intros (_ & Hk1 & Hn1) (Hi & Hk2 & Hn2). split_and!; [done|auto|].
  intros h n Hg. apply Hn2 in Hg as [Hg|?]; [|by right]. by apply Hn1.
Qed.

Lemma grows_mono (P Q : DAGNode -> Prop) s s' :
  (forall n, P n -> Q n) -> grows P s s' -> grows Q s s'.
Proof.
  unfold grows. intros HPQ (Hi & Hk & Hn). split_and!; [done|done|]. intros h n Hg. destruct (Hn h n Hg); auto.
Qed.

Lemma grows_held P s s' h : grows P s s' -> held s h -> held s' h.
Proof. intros (_ & Hk & _) [m Hm]. exists m. by apply Hk. Qed.

(** [Append] tolerating [ErrNodeExists] always succeeds. *)
Lemma append_idempotent_spec f n e :
  store_inv (env_store e) ->
  exists e', append_idempotent f n e = (Ok tt, e') /\
    grows (eq n) (env_store e) (env_store e') /\ held (env_store e') (Hash n).
Proof.
  intros Hi. unfold append_idempotent, on_store.
  destruct (Get (Hash n) (env_store e)) as [m|er|w] eqn:Eg.
  { rewrite (append_dup n m) by done. simpl. eexists. split; [reflexivity|]. simpl.
    split; [by apply grows_refl|by exists m]. }
  all: destruct (append_new n (env_store e) Hi) as [Ho Hg]; [congruence|];
    destruct (Append n (env_store e)) as [o s'] eqn:Ea; simpl in *; subst o;
    eexists; (split; [reflexivity|]); simpl; (split; [|by exists n]);
    pose proof (append_inv n (env_store e) Hi) as Hi'; rewrite Ea in Hi';
    assert (Hf : forall h, h <> Hash n -> Get h s' = Get h (env_store e))
      by (intros h Hh; pose proof (append_frame n (env_store e) h Hi Hh) as Hf; by rewrite Ea in Hf);
    (unfold grows; split_and!; [done| |]);
    [ intros h k Hk; destruct (decide (h = Hash n)) as [->|Hne]; [congruence|by rewrite Hf]
    | intros h k Hk; destruct (decide (h = Hash n)) as [->|Hne];
      [right; congruence|left; by rewrite <- Hf] ].
Qed.

(** *** Auto-commit *)

Lemma commit_now_Ok sid ph role payload parents sg e n e' :
  commit_now sid ph role payload parents (Some sg) e = (Ok n, e') ->
  env_store e' = env_store e /\ exists now, Commit now sid ph role payload parents (Some sg) = Ok n.
Proof.
  unfold commit_now. destruct (Commit _ _ _ _ _ _ _) as [k|er|w] eqn:E; [|done..].
  intros [= <- <-]. split; [done|]. eexists. exact E.
Qed.

Lemma commit_now_store sid ph role payload parents sg e :
  env_store (commit_now sid ph role payload parents sg e).2 = env_store e.
Proof. unfold commit_now. by destruct (Commit _ _ _ _ _ _ _). Qed.

Section Outputs.
Context (cfg : LineageConfig) (p : Phase S) (c : SessionContext) (parents : list DAGNode).

(** [n] is the signed node of one of the phase's outputs. *)
Definition output_node n : Prop :=
  exists now key kt payload, (key, kt) ∈ Provides p /\ NoLineage kt = false /\
    ctx_Get key c = Some (ABytes payload) /\
    Commit now (ctxSessionID c) (Name p) key payload parents (Some (cfgSigner cfg)) = Ok n.

(** The store holds a node at the canonical hash of every output. *)
Definition output_held s (kt : string * ContextKeyType) : Prop :=
  NoLineage kt.2 = false -> forall payload, ctx_Get kt.1 c = Some (ABytes payload) ->
  exists refs, refs ≡ₚ Hash <$> parents /\
    held s (DeriveNodeHash (ctxSessionID c) (Name p) kt.1 payload refs).

Lemma commit_output_spec kt e :
  kt ∈ Provides p -> store_inv (env_store e) ->
  grows output_node (env_store e) (env_store (commit_output cfg p c parents kt e).2) /\
  ((commit_output cfg p c parents kt e).1 = Ok tt ->
   output_held (env_store (commit_output cfg p c parents kt e).2) kt).
Proof.
  destruct kt as [key t]. intros Hin Hi. unfold commit_output, output_held. simpl.
  destruct (NoLineage t) eqn:En; [split; [by apply grows_refl|done]|].
  destruct (ctx_Get key c) as [v|] eqn:Ev; simpl; [|split; [by apply grows_refl|done]].
  destruct (asBytes v) as [payload|] eqn:Eb;
    [|split; [by apply grows_refl|intros _ _ pl [= ->]; done]].
  destruct v; try discriminate Eb. injection Eb as ->.
  unfold bind, wrap_err.
  destruct (commit_now _ _ _ _ _ _ e) as [o e1] eqn:Ec.
  pose proof (commit_now_store (ctxSessionID c) (Name p) key payload parents (Some (cfgSigner cfg)) e) as Hst.
  rewrite Ec in Hst. simpl in Hst.
  destruct o as [n|er|w]; simpl; [|rewrite Hst; split; [by apply grows_refl|done]..].
  apply commit_now_Ok in Ec as [_ [now Hc]].
  match goal with |- context [append_idempotent ?f n e1] =>
    destruct (append_idempotent_spec f n e1) as (e2 & -> & Hg & Hh); [by rewrite Hst|]
  end.
  simpl. rewrite Hst in Hg. split.
  - eapply grows_mono; [|exact Hg]. intros k <-. by exists now, key, t, payload.
  - intros _ _ pl [= <-]. apply Commit_Ok in Hc as (_ & _ & _ & _ & _ & _ & Hhash & Hpar & _).
    exists (Parents n). by rewrite <- Hhash.
Qed.

Lemma output_held_grows P s s' kt : grows P s s' -> output_held s kt -> output_held s' kt.
Proof.
  intros Hg Ho Hn pl Hc. destruct (Ho Hn pl Hc) as (refs & Hr & Hh).
  exists refs. split; [done|by eapply grows_held].
Qed.

Lemma commit_outputs_spec l e :
  l ⊆ Provides p -> store_inv (env_store e) ->
  let res := for_each l (commit_output cfg p c parents) e in
  grows output_node (env_store e) (env_store res.2) /\
  (res.1 = Ok tt -> forall kt, kt ∈ l -> output_held (env_store res.2) kt).
Proof.
  revert e. induction l as [|kt l IH]; intros e Hsub Hi; simpl.
  { split; [by apply grows_refl|]. intros _ kt Hkt. by apply elem_of_nil in Hkt. }
  assert (Hin : kt ∈ Provides p) by (apply Hsub; by left).
  destruct (commit_output_spec kt e Hin Hi) as [Hg Hh].
  unfold bind. destruct (commit_output cfg p c parents kt e) as [o e1]. simpl in *.
  destruct o as [[]|er|w]; [|by split..].
  destruct (IH e1) as [Hg' Hh']; [intros x Hx; apply Hsub; by right|by destruct Hg|].
  split; [by eapply grows_trans|]. intros Hok kt' [->|Hin']%elem_of_cons; [|by apply Hh'].
  eapply output_held_grows; [exact Hg'|by apply Hh].
Qed.
End Outputs.

(** The parents an auto-commit uses are nodes of the session the store
    holds, each with the payload of one of the phase's inputs. *)
Lemma find_payload_Ok hash l n : find_payload hash l = Ok (Some n) -> Ok n ∈ l /\ PayloadHash n = hash.
Proof.
  induction l as [|[m|er|w] l IH]; simpl; [done| |done..].
  destruct (decide (PayloadHash m = hash)) as [Hh|Hh].
  - intros [= <-]. split; [by left|done].
  - intros [? ?]%IH. split; [by right|done].
Qed.

Lemma resolve_keys_held keys c s ps :
  store_inv s -> resolve_keys keys c s = Ok ps -> forall n, n ∈ ps -> held s (Hash n).
Proof.
  intros Hi. revert ps. induction keys as [|key keys IH]; intros ps; simpl.
  { intros [= <-] n Hn. by apply elem_of_nil in Hn. }
  destruct (ctx_Get key c ≫= asBytes) as [payload|]; [|apply IH].
  destruct (find_payload _ _) as [found|er|w] eqn:Ef; [|done..].
  destruct (resolve_keys keys c s) as [ps'|er|w]; [|done..].
  intros [= <-]. destruct found as [n0|]; [|by apply IH].
  intros n [->|Hn]%elem_of_cons; [|by eapply IH].
  apply find_payload_Ok in Ef as [Hin _]. apply walk_sound in Hin as [_ Hg]; [|done].
  by exists n0.
Qed.
End Growth.

(** ** An invariant of the store that every hook keeps *)

Section StoreInvariant.
Context {S : Type} `{Store S}.
Context (r : SessionRunner S) (I : S -> Prop).

Definition hook_keeps (h : M (HookState S) unit) : Prop :=
  keeps (fun hs => I (env_store hs.2)) h.

Record phase_keeps (p : Phase S) : Prop := {
  enter_keeps : hook_keeps (Enter p);
  message_keeps ty from pl : hook_keeps (OnMessage p ty from pl);
  exit_keeps : hook_keeps (Exit p)
}.

Context (Hb : built r) (Hphases : forall p, p ∈ inlines (phases r) -> phase_keeps p).
Context (Hcommit : forall p, hook_keeps (commitPhaseOutputsIfEnabled r p)).

Local Abbreviation J := (fun ts : TState S => I (env_store ts.2)).

Lemma run_hook_keeps h : hook_keeps h -> keeps J (run_hook h).
Proof.
  intros Hh ts Hts. unfold run_hook. pose proof (Hh (tr_ctx ts.1, ts.2) Hts) as Hk.
  destruct (h (tr_ctx ts.1, ts.2)) as [o [c e]]. exact Hk.
Qed.
Lemma set_position_keeps s p b : keeps J (set_position s p b).
Proof. by intros ts Hts. Qed.
Lemma set_entered_keeps : keeps J set_entered.
Proof. by intros ts Hts. Qed.
Hint Resolve run_hook_keeps set_position_keeps set_entered_keeps : ares.

Lemma entry_keeps s p : byEntryState r !! s = Some p -> phase_keeps p.
Proof. intros [Hin _]%(built_lookup r Hb). by apply Hphases. Qed.

Lemma current_keeps t p : tracker_ok r t -> tr_current t = Some p -> phase_keeps p.
Proof. unfold tracker_ok. intros Hok Hc. rewrite Hc in Hok. destruct Hok as [Hin _]. by apply Hphases. Qed.

Lemma advance_step_keeps ts : tracker_ok r ts.1 -> J ts -> J (advance_step r ts).2.
Proof.
  intros Hok. unfold advance_step. rewrite (bind_Ok get _ ts ts ts eq_refl).
  destruct (tr_current ts.1) as [p|] eqn:Ec; [|exact (fun HJ => HJ)].
  destruct (current_keeps _ _ Hok Ec) as [_ _ Hx]. revert ts Hok Ec. intros ts _ _.
  generalize (tr_entered ts.1). intros b. revert ts.
  refine (_ : keeps J _).
  apply keeps_bind; [by eauto with ares|intros _]. apply keeps_bind; [by eauto with ares|intros _].
  apply keeps_if; [by eauto with ares|].
  destruct (byEntryState r !! ExitState p) as [q|] eqn:Eq; [|by eauto with ares].
  apply entry_keeps in Eq as [He _ _]. eauto 12 with ares.
Qed.

Lemma walk_step_keeps sid target ts : tracker_ok r ts.1 -> J ts -> J (walk_step r sid target ts).2.
Proof.
  intros Hok. unfold walk_step. rewrite (bind_Ok get _ ts ts ts eq_refl).
  destruct (tr_current ts.1) as [p|] eqn:Ec; [|exact (fun HJ => HJ)].
  destruct (current_keeps _ _ Hok Ec) as [_ _ Hx]. clear Hok Ec. revert ts.
  refine (_ : keeps J _).
  apply keeps_bind; [by eauto with ares|intros _]. apply keeps_bind; [by eauto with ares|intros _].
  apply keeps_if; [by eauto with ares|].
  destruct (byEntryState r !! ExitState p) as [q|] eqn:Eq; [|by eauto with ares].
  apply entry_keeps in Eq as [He _ _]. eauto 12 with ares.
Qed.

Lemma advance_loop_keeps n ts : tracker_ok r ts.1 -> J ts -> J (advance_loop r n ts).2.
Proof.
  revert ts. induction n as [|n IH]; intros ts Hok HJ; simpl; [done|].
  pose proof (advance_step_keeps ts Hok HJ) as HJ'. pose proof (advance_step_result r ts) as Hs.
  unfold bind. destruct (advance_step r ts) as [o ts'].
  apply (hop_progress r Hb) in Hs as [Hok' _]; [|done].
  destruct o as [[b|]|e|w]; try exact HJ'. by apply IH.
Qed.

Lemma walk_loop_keeps sid target n ts :
  tracker_ok r ts.1 -> J ts -> J (walk_loop r sid target n ts).2.
Proof.
  revert ts. induction n as [|n IH]; intros ts Hok HJ; simpl; [done|].
  rewrite (bind_Ok get _ ts ts ts eq_refl). destruct (String.eqb _ _); [done|].
  pose proof (walk_step_keeps sid target ts Hok HJ) as HJ'.
  pose proof (walk_step_result r sid target ts) as Hs.
  unfold bind. destruct (walk_step r sid target ts) as [o ts'].
  apply (walk_progress r Hb) in Hs as [Hok' _]; [|done].
  destruct o as [[]|e|w]; try exact HJ'. by apply IH.
Qed.

Lemma handle_keeps ty from pl ts : tracker_ok r ts.1 -> J ts -> J (handle r ty from pl ts).2.
Proof.
  intros Hok HJ. unfold handle.
  assert (HJ' : J (deliver ty from pl ts).2).
  { unfold deliver. rewrite (bind_Ok get _ ts ts ts eq_refl).
    destruct (tr_current ts.1) as [p|] eqn:Ec; [|done].
    destruct (current_keeps _ _ Hok Ec) as [_ Hm _]. destruct (negb _); [done|].
    apply (keeps_bind J); [by eauto with ares|by eauto with ares|done]. }
  pose proof (deliver_frame ty from pl ts) as Hd. unfold bind.
  destruct (deliver ty from pl ts) as [[[]|e|w] ts']; simpl in *; try done.
  apply advance_loop_keeps; [|done]. by eapply progress_refl.
Qed.

Lemma advance_to_keeps sid target ts :
  tracker_ok r ts.1 -> J ts -> J (advance_to r sid target ts).2.
Proof.
  intros Hok HJ. unfold advance_to. rewrite (bind_Ok get _ ts ts ts eq_refl).
  destruct (String.eqb _ _); [done|].
  match goal with |- context [if ?b then _ else _] => destruct b end; [done|].
  by apply walk_loop_keeps.
Qed.

(** *** The operations *)

Local Abbreviation K := (fun st : RunnerState S => I (env_store (rs_env st))).

Lemma with_tracker_keeps {A} sid missing (m : M (TState S) A) st :
  (forall ts, tracker_ok r ts.1 -> J ts -> J (m ts).2) ->
  all_ok r st -> K st -> K (with_tracker sid missing m st).2.
Proof.
  intros Hm Hall HK. unfold with_tracker. destruct (sessions st !! sid) as [t|] eqn:E; [|done].
  pose proof (Hm (t, rs_env st) (Hall _ _ E) HK) as HJ.
  by destruct (m (t, rs_env st)) as [o [t' e]].
Qed.

Lemma BeginSession_keeps sid cid st : K st -> K (BeginSession r sid cid st).2.
Proof.
  intros HK. unfold BeginSession. destruct (String.eqb _ _); [done|].
  destruct (sessions st !! sid); [done|].
  destruct (byEntryState r !! initialState r) as [p|] eqn:E; [|done].
  destruct (entry_keeps _ _ E) as [He _ _].
  match goal with |- context [run_hook (Enter p) ?ts] =>
    pose proof (run_hook_keeps _ He ts HK) as HJ; destruct (run_hook (Enter p) ts) as [[?|?|?] [t e]]
  end; done.
Qed.

(** Inbound nodes are appended after the parent check. *)
Context (Hinbound : forall cfg node payload f (e : Env S),
  runner_lineage r = Some cfg -> I (env_store e) ->
  verify_inbound cfg node payload (env_store e) = Ok tt ->
  I (env_store (append_idempotent f node e).2)).

Lemma HandleLineageMessage_keeps sid ty from pl node st :
  all_ok r st -> K st -> K (HandleLineageMessage r sid ty from pl node st).2.
Proof.
  intros Hall HK. unfold HandleLineageMessage.
  destruct (runner_lineage r) as [cfg|] eqn:Er.
  2: { apply with_tracker_keeps; [intros; by apply handle_keeps|done|done]. }
  destruct node as [node|]; [|done].
  destruct (verify_inbound cfg node pl (env_store (rs_env st))) as [[]|e|w] eqn:Ev; [| |done].
  - match goal with |- context [append_idempotent ?f node (rs_env st)] =>
      pose proof (Hinbound cfg node pl f (rs_env st) eq_refl HK Ev) as HK';
      destruct (append_idempotent f node (rs_env st)) as [[[]|e|w] env]
    end; [|done..].
    apply with_tracker_keeps; [intros; by apply handle_keeps|exact Hall|exact HK'].
  - unfold fireFailureHook. by destruct (_ ≫= _).
Qed.

Lemma run_op_keeps op st : all_ok r st -> K st -> K (run_op r op st).
Proof.
  intros Hall HK. destruct op; simpl.
  - by apply BeginSession_keeps.
  - apply with_tracker_keeps; [intros; by apply handle_keeps|done|done].
  - by apply HandleLineageMessage_keeps.
  - apply with_tracker_keeps; [intros; by apply advance_to_keeps|done|done].
  - unfold seed. by destruct (sessions st !! sid).
  - done.
Qed.

Lemma reachable_keeps e st : I (env_store e) -> reachable r e st -> K st.
Proof.
  intros Hi Hr. enough (all_ok r st /\ K st) by tauto. revert Hr. unfold reachable.
  apply rtc_ind_r with (P := fun st => all_ok r st /\ K st).
  - split; [|done]. intros sid t. simpl. by rewrite lookup_empty.
  - intros st1 st2 _ [op ->] [Hall HK]. split; [by apply run_op_ok|by apply run_op_keeps].
Qed.
End StoreInvariant.

(** ** Properties *)

Section LineageProperties.
Context {S : Type} `{StoreLaws S}.
Implicit Types (s : S) (n m : DAGNode) (st : RunnerState S).

(** Every parent of a node of the store is in the store. *)
Definition closed s : Prop :=
  forall h n, Get h s = Ok n -> forall par, par ∈ Parents n -> held s par.
Definition store_ok s : Prop := store_inv s /\ closed s.

Lemma grows_closed P s s' :
  (forall n, P n -> forall par, par ∈ Parents n -> held s' par) ->
  store_ok s -> grows P s s' -> store_ok s'.
Proof.
  intros HP [Hi Hc] Hg. split; [by destruct Hg|]. intros h n Hn par Hpar.
  pose proof Hg as (_ & _ & Hnew). destruct (Hnew h n Hn) as [Hold|HPn]; [|by eapply HP].
  eapply grows_held; [exact Hg|]. by eapply Hc.
Qed.

Lemma append_idempotent_ok f n e :
  store_ok (env_store e) -> (forall par, par ∈ Parents n -> held (env_store e) par) ->
  store_ok (env_store (append_idempotent f n e).2).
Proof.
  intros Hok Hpar. destruct (append_idempotent_spec f n e) as (e' & -> & Hg & _); [by destruct Hok|].
  eapply grows_closed; [|done|exact Hg]. intros ? <- par Hp. eapply grows_held; [exact Hg|auto].
Qed.

Lemma missing_parent_Ok i l h s : missing_parent i l h s = Ok tt <-> forall par, par ∈ l -> held s par.
Proof.
  revert i. induction l as [|par l IH]; intros i; simpl.
  - split; [|done]. intros _ par Hp. by apply elem_of_nil in Hp.
  - unfold held in *. setoid_rewrite elem_of_cons. destruct (Get par s) as [m|e|w] eqn:E.
    + rewrite IH. split; [|by auto]. intros Hl p [->|Hp]; [by exists m|by apply Hl].
    + split; [done|]. intros Hl. destruct (Hl par (or_introl eq_refl)) as [m Hm]. congruence.
    + split; [done|]. intros Hl. destruct (Hl par (or_introl eq_refl)) as [m Hm]. congruence.
Qed.

Lemma verify_inbound_Ok cfg node payload s :
  verify_inbound cfg node payload s = Ok tt <->
  Verify node payload (cfgVerifiers cfg) = None /\ forall par, par ∈ Parents node -> held s par.
Proof.
  unfold verify_inbound. destruct (Verify _ _ _); [naive_solver|].
  rewrite missing_parent_Ok. naive_solver.
Qed.

Lemma commit_hook_ok r p : hook_keeps store_ok (commitPhaseOutputsIfEnabled r p).
Proof.
  intros hs Hok. unfold commitPhaseOutputsIfEnabled. destruct (runner_lineage r) as [cfg|]; [|done].
  destruct (resolveParents p hs.1 (env_store hs.2)) as [parents|e|w] eqn:Er; [|done..].
  unfold resolveParents in Er. destruct Hok as [Hi Hc].
  destruct (commit_outputs_spec cfg p hs.1 parents (Provides p) hs.2) as [Hg _]; [done|done|].
  unfold on_env. destruct (for_each _ _ hs.2) as [o e]. simpl in *.
  eapply grows_closed; [|by split|exact Hg].
  intros n (now & key & kt & pl & _ & _ & _ & Hcm) par Hpar.
  apply Commit_Ok in Hcm as (_ & _ & _ & _ & _ & _ & _ & Hperm & _).
  rewrite Hperm in Hpar. apply list_elem_of_fmap in Hpar as (m & -> & Hm).
  eapply grows_held; [exact Hg|]. by eapply resolve_keys_held.
Qed.

(** A hook that commits through [CommitArtifact] with parents of the store
    keeps it closed. *)
Lemma CommitArtifact_ok ph role payload parents hs :
  store_ok (env_store hs.2) -> (forall n, n ∈ parents -> held (env_store hs.2) (Hash n)) ->
  store_ok (env_store (CommitArtifact ph role payload parents hs).2.2).
Proof.
  intros Hok Hp. unfold CommitArtifact, bind at 1, get_ctx.
  destruct (ctxHasStore hs.1); [|done]. destruct (lineageSigner hs.1) as [sg|]; [|done].
  unfold bind at 1, wrap_err, on_env at 1.
  destruct (commit_now _ _ _ _ _ _ hs.2) as [o e] eqn:Ec.
  pose proof (commit_now_store (ctxSessionID hs.1) ph role payload parents (Some sg) hs.2) as Hst.
  rewrite Ec in Hst. simpl in Hst.
  destruct o as [n|er|w]; simpl; [|by rewrite Hst..].
  apply commit_now_Ok in Ec as [_ [now Hc]].
  apply Commit_Ok in Hc as (_ & _ & _ & _ & _ & _ & _ & Hperm & _).
  unfold bind, on_env. simpl.
  match goal with |- context [append_idempotent ?f n e] =>
    pose proof (append_idempotent_ok f n e) as Ha; destruct (append_idempotent f n e) as [[?|?|?] e2]
  end; simpl in *; rewrite Hst in Ha; (apply Ha; [done|]); intros par Hpar;
    rewrite Hperm in Hpar; apply list_elem_of_fmap in Hpar as (m & -> & Hm); auto.
Qed.

(** C6. In every reachable state of a runner over a lawful store, the store
    is a closed DAG: each parent reference of each node it holds, whether
    auto-committed or received from a peer, is the hash of a node it holds
    too.  (The phases' own hooks must keep it so; those that only touch the
    context or use [CommitArtifact] with stored parents do.) *)
Theorem store_closed_invariant r e st h n par :
  built r -> (forall p, p ∈ inlines (phases r) -> phase_keeps store_ok p) ->
  store_ok (env_store e) -> reachable r e st ->
  Get h (env_store (rs_env st)) = Ok n -> par ∈ Parents n ->
  exists m, Get par (env_store (rs_env st)) = Ok m /\ Hash m = par.
Proof.
  intros Hb Hp He Hr Hg Hpar.
  assert (Hok : store_ok (env_store (rs_env st))).
  { eapply reachable_keeps; eauto using commit_hook_ok. intros cfg node pl f e' Hcfg Hok Hv.
    apply verify_inbound_Ok in Hv as [_ Hv]. by apply append_idempotent_ok. }
  destruct Hok as [Hi Hc]. destruct (Hc h n Hg par Hpar) as [m Hm]. exists m.
  split; [done|]. by eapply get_hash.
Qed.

(** C5. A message to a lineage runner is dispatched only if its node
    verifies against the payload under the runner's verifiers and all its
    parents are stored; the node is then in the store before the phase runs.
    Otherwise no phase runs, no session and no stored node changes: the call
    returns an error (app-attributable when a node was given) and at most
    fires the failure hook. *)
Theorem HandleLineageMessage_gate r cfg sid ty from payload node st :
  runner_lineage r = Some cfg -> store_inv (env_store (rs_env st)) ->
  (exists n st1, node = Some n /\ Verify n payload (cfgVerifiers cfg) = None /\
     (forall par, par ∈ Parents n -> exists m, Get par (env_store (rs_env st)) = Ok m) /\
     sessions st1 = sessions st /\ (exists m, Get (Hash n) (env_store (rs_env st1)) = Ok m) /\
     HandleLineageMessage r sid ty from payload node st = HandleMessage r sid ty from payload st1) \/
  (exists o st', HandleLineageMessage r sid ty from payload node st = (o, st') /\
     sessions st' = sessions st /\ rs_env st' = rs_env st /\ (forall b, o <> Ok b) /\
     (forall e, o = Err e -> errors_Is e
        (match node with None => ErrPermanent_msg | Some _ => ErrAppAttributable_msg end) = true)).
Proof.
  intros Hcfg Hi. unfold HandleLineageMessage. rewrite Hcfg. destruct node as [n|].
  2: { right. eexists _, st. split; [reflexivity|]. naive_solver. }
  destruct (verify_inbound cfg n payload (env_store (rs_env st))) as [[]|e|w] eqn:Ev.
  - left. apply verify_inbound_Ok in Ev as [Hv Hp].
    match goal with |- context [append_idempotent ?f n ?e] =>
      destruct (append_idempotent_spec f n e Hi) as (e' & -> & _ & Hh)
    end.
    exists n, (set_env st e'). split_and!; try done.
  - right. eexists _, _. split; [reflexivity|].
    split; [apply fireFailureHook_sessions|]. split; [|naive_solver].
    unfold fireFailureHook. by destruct (_ ≫= _).
  - right. eexists _, st. split; [reflexivity|]. naive_solver.
Qed.

(** C7. When the auto-commit after a phase's exit succeeds, the context is
    untouched; every byte-valued output not opted out has a node at its
    canonical hash in the store, over stored parents; and every node the
    commit added verifies under the runner's own verifiers. *)
Theorem auto_commit_spec r cfg p hs hs' `{!SignerLaws (cfgSigner cfg)} :
  runner_lineage r = Some cfg ->
  cfgVerifiers cfg !! Algorithm (cfgSigner cfg) = Some (cfgSigner cfg) ->
  store_inv (env_store hs.2) ->
  commitPhaseOutputsIfEnabled r p hs = (Ok tt, hs') ->
  hs'.1 = hs.1 /\
  (exists parents, resolveParents p hs.1 (env_store hs.2) = Ok parents /\
    (forall n, n ∈ parents -> exists m, Get (Hash n) (env_store hs.2) = Ok m) /\
    forall key kt payload, (key, kt) ∈ Provides p -> NoLineage kt = false ->
      ctx_Get key hs.1 = Some (ABytes payload) ->
      exists refs m, refs ≡ₚ Hash <$> parents /\
        Get (DeriveNodeHash (ctxSessionID hs.1) (Name p) key payload refs) (env_store hs'.2) = Ok m) /\
  (forall h n, Get h (env_store hs'.2) = Ok n ->
     Get h (env_store hs.2) = Ok n \/
     exists key payload, ctx_Get key hs.1 = Some (ABytes payload) /\ Role n = key /\
       PhaseID n = Name p /\ SessionID n = ctxSessionID hs.1 /\
       Verify n payload (cfgVerifiers cfg) = None).
Proof.
  intros Hcfg Hv Hi. unfold commitPhaseOutputsIfEnabled. rewrite Hcfg.
  destruct (resolveParents p hs.1 (env_store hs.2)) as [parents|e|w] eqn:Er; [|done..].
  destruct (commit_outputs_spec cfg p hs.1 parents (Provides p) hs.2) as [Hg Hh]; [done|done|].
  unfold on_env. destruct (for_each _ _ hs.2) as [o e]. simpl in *. intros [= -> <-]. simpl.
  split; [done|]. split.
  - exists parents. split; [done|]. split; [by eapply resolve_keys_held|].
    intros key kt payload Hin Hn Hc. destruct (Hh eq_refl _ Hin Hn payload Hc) as (refs & Hr & m & Hm).
    by exists refs, m.
  - intros h n Hn. destruct Hg as (_ & _ & Hnew).
    destruct (Hnew h n Hn) as [?|(now & key & kt & pl & _ & _ & Hc & Hcm)]; [by left|right].
    pose proof (Commit_verifies _ _ _ _ _ _ _ _ _ Hcm Hv) as Hver.
    apply Commit_Ok in Hcm as (_ & _ & Hs & Hp & Hro & _). by exists key, pl.
Qed.
End LineageProperties.

(** ** Witnesses *)

Module Witnesses.
Import Sample RunnerSpec.Witnesses.

Lemma keeps_ctx (f : SessionContext -> SessionContext) :
  hook_keeps (S := InMemory.InMemoryStore) store_ok (modify_ctx f).
Proof. by intros hs Hs. Qed.
Lemma keeps_nothing : hook_keeps (S := InMemory.InMemoryStore) store_ok (ret tt).
Proof. by intros hs Hs. Qed.

Lemma phases_keep p : p ∈ inlines (phases runner) -> phase_keeps store_ok p.
Proof.
  intros Hp. repeat (apply elem_of_cons in Hp as [->|Hp];
    [split; intros; first [apply keeps_ctx | apply keeps_nothing]|]).
  by apply elem_of_nil in Hp.
Qed.

Lemma empty_inv : store_inv (env_store env0).
Proof.
  split; simpl.
  - intros h n Hn. by rewrite lookup_empty in Hn.
  - intros sid ref Hr. unfold InMemory.session_refs in Hr. simpl in Hr.
    rewrite lookup_empty in Hr. simpl in Hr. by apply elem_of_nil in Hr.
  - intros sid. unfold InMemory.session_refs. simpl. rewrite lookup_empty. constructor.
Qed.

Lemma empty_ok : store_ok (env_store env0).
Proof.
  split; [exact empty_inv|]. intros h n Hn. simpl in Hn. unfold InMemory.Get in Hn.
  simpl in Hn. by rewrite lookup_empty in Hn.
Qed.

Lemma offered_reachable : reachable runner env0 offered.
Proof.
  eapply rtc_r; [exact begun_reachable|]. by exists (OMessage "s" "offer" "alice" (of_string "o")).
Qed.

(** The two nodes the auto-commit left: the intake's sum and, over it, the
    computed output. *)
Definition nodes : list DAGNode := until_error (WalkSession "s" (env_store (rs_env offered))).
Definition dummy : DAGNode := NewDAGNode 0 "" "" "" [] [] [] [] [] "".
Definition sum_node : DAGNode := default dummy (nodes !! 0).
Definition out_node : DAGNode := default dummy (nodes !! 1).

Lemma store_closed_invariant_witness :
  Hash sum_node ∈ Parents out_node /\
  exists m, Get (Hash sum_node) (env_store (rs_env offered)) = Ok m /\ Hash m = Hash sum_node.
Proof.
  assert (Hpar : Hash sum_node ∈ Parents out_node).
  { apply list_elem_of_lookup. exists 0. vm_compute. reflexivity. }
  split; [exact Hpar|].
  refine (store_closed_invariant runner env0 offered (Hash out_node) out_node (Hash sum_node)
            runner_built phases_keep empty_ok offered_reachable _ Hpar).
  vm_compute. reflexivity.
Defined.

(** A peer's signed node, and the same node with another payload. *)
Definition peer_node : DAGNode :=
  match Commit 5 "s" "intake" "bid" [x01] [] (Some ToyScheme.toy_signer) with
  | Ok n => n
  | _ => dummy
  end.

Lemma HandleLineageMessage_gate_witness :
  (exists n st1, Some peer_node = Some n /\ Verify n [x01] (cfgVerifiers config) = None /\
     (forall par, par ∈ Parents n -> exists m, Get par (env_store (rs_env begun)) = Ok m) /\
     sessions st1 = sessions begun /\ (exists m, Get (Hash n) (env_store (rs_env st1)) = Ok m) /\
     HandleLineageMessage runner "s" "offer" "bob" [x01] (Some peer_node) begun =
     HandleMessage runner "s" "offer" "bob" [x01] st1) \/
  (exists o st', HandleLineageMessage runner "s" "offer" "bob" [x01] (Some peer_node) begun = (o, st') /\
     sessions st' = sessions begun /\ rs_env st' = rs_env begun /\ (forall b, o <> Ok b) /\
     (forall e, o = Err e -> errors_Is e ErrAppAttributable_msg = true)).
Proof.
  exact (HandleLineageMessage_gate runner config "s" "offer" "bob" [x01] (Some peer_node) begun
           eq_refl empty_inv).
Defined.

(** The verified frame is dispatched and the tampered one is not. *)
Example gate_both_ways :
  (HandleLineageMessage runner "s" "offer" "bob" [x01] (Some peer_node) begun).1 = Ok true /\
  fired (HandleLineageMessage runner "s" "offer" "bob" [x02] (Some peer_node) begun).2 =
    [failure_event "mismatch-confirmed" "s" peer_node].
Proof. vm_compute. split; reflexivity. Qed.

(** The verification binds neither the session nor the phase of the node to
    those of the message: a node committed for one session is accepted in
    another. *)
Example replay_across_sessions :
  let st := (BeginSession runner "t" "" begun).2 in
  (HandleLineageMessage runner "t" "offer" "bob" [x01] (Some peer_node) st).1 = Ok true.
Proof. vm_compute. reflexivity. Qed.

Definition exited : HookState InMemory.InMemoryStore :=
  (ctx_Set "sum" (ABytes (of_string "s")) (tr_ctx begun_tracker), env0).

Lemma auto_commit_spec_witness :
  (commitPhaseOutputsIfEnabled runner intake exited).2.1 = exited.1.
Proof.
  refine (proj1 (auto_commit_spec runner config intake exited _ eq_refl _ empty_inv (outcome_of _ _ _))).
  - reflexivity.
  - vm_compute. reflexivity.
Defined.
End Witnesses.
