(* ===== verification/BoundCheck.v ===== *)
(** * The bound-check phase (pkg/ares/phase/boundcheck: bound.go, circuits.go, phase.go)

    The classification of a decrypted check value, the two circuits of the
    package and the lifecycle hooks of the phase.  The homomorphic backend (a
    [ContextHandle]), the fusion of partial decryptions and the JSON codec are
    parameters; so is the order in which Go ranges over a map. *)
From Stdlib Require Import ZArith NArith Lia String Ascii Strings.Byte Floats.SpecFloat.
From stdpp Require Import base gmap list strings pretty.
From S2P Require Import Prelude Bytes.
From S2P Require Import GoFloat.
From S2P Require Import GoFmt.
From S2P Require Import Sign.
From S2P Require Import Lineage.
From S2P Require Import Context.
From S2P Require Import Pipeline.
From S2P Require Import Defaults.
From S2P Require Import Runner.
From S2P Require Import RunnerSpec.

(** ** Classification (bound.go) *)

Record Bound := { Lo : float64; Hi : float64 }.

Inductive Severity := SeverityOK | SeveritySoft | SeverityHard.
#[export] Instance Severity_eq_dec : EqDecision Severity.
Proof. solve_decision. Defined.

Record Params := { EpsNorm : float64; NuHard : float64 }.
Definition DefaultParams : Params := {| EpsNorm := of_ratio 1 100; NuHard := of_ratio 125 100 |}.

Definition classify (value : float64) (b : Bound) (p : Params) : float64 * Severity :=
  let nu := fmax f0 (fmax (fsub (Lo b) value) (fsub value (Hi b))) in
  if fleb nu (EpsNorm p) then (nu, SeverityOK)
  else if fleb nu (NuHard p) then (nu, SeveritySoft)
  else (nu, SeverityHard).

Definition CtxEncryptedInputs : string := "boundcheck.encrypted_inputs".
Definition CtxInputDim : string := "boundcheck.input_dim".
Definition CtxEvalKeyBundle : string := "boundcheck.eval_key_bundle".
Definition CtxJointPublicKey : string := "boundcheck.joint_public_key".
Definition CtxBoundCheckCiphers : string := "boundcheck.check_ciphertexts".
Definition CtxBoundCheckCommitments : string := "boundcheck.check_commitments".
Definition CtxBoundCheckHandle : string := "boundcheck.handle".
Definition CtxBoundCheckFuse : string := "boundcheck.fuse".
Definition MsgBoundPartial : string := "bound_check.partial".
Definition bucketPartials : string := "boundcheck.bucket.partials".

(** ** Circuits (circuits.go) *)

(** The homomorphic operations of fhecalib.ContextHandle the circuits use. *)
Record ContextHandle := {
  EvalMult : bytes -> bytes -> Outcome bytes;
  EvalSubConst : bytes -> list float64 -> Outcome bytes;
  EvalProductSum : bytes -> bytes -> Z -> Outcome bytes
}.

Record BoundCircuit := {
  circuitName : string;
  Inputs : Outcome (list (list float64));
  Expected : list (list float64) -> Outcome (list float64);
  Eval : ContextHandle -> list bytes -> Outcome bytes;
  circuitBound : Bound;
  Dim : Z
}.

(** [in[0]], which panics on an empty slice. *)
Definition first_of {A B} (l : list A) (k : A -> Outcome B) : Outcome B :=
  match l with [] => Panic "index out of range [0] with length 0" | x :: _ => k x end.

Definition sumOfSquares (v : list float64) : float64 := foldl (fun s x => fadd s (fmul x x)) f0 v.

Definition NormCircuit (eps : float64) (ndim : Z) : BoundCircuit := {|
  circuitName := "norm";
  Inputs :=
    if (ndim <? 0)%Z then Panic "makeslice: len out of range"
    else Ok [repeat (fdiv f1 (fsqrt (of_Z ndim))) (Z.to_nat ndim)];
  Expected := fun inp => first_of inp (fun v => Ok [sumOfSquares v]);
  Eval := fun h enc => first_of enc (fun x => EvalProductSum h x x ndim);
  circuitBound := {| Lo := fsub f1 eps; Hi := fadd f1 eps |};
  Dim := ndim
|}.

Fixpoint squared_distance (v center : list float64) (s : float64) : Outcome float64 :=
  match v, center with
  | [], _ => Ok s
  | _, [] => Panic "index out of range"
  | x :: v', c :: center' => let d := fsub x c in squared_distance v' center' (fadd s (fmul d d))
  end.

Definition DistanceBoundCircuit (center : list float64) (lo hi : float64) : BoundCircuit := {|
  circuitName := "distance";
  Inputs := Ok [center];
  Expected := fun inp => first_of inp (fun v =>
    match squared_distance v center f0 with
    | Ok s => Ok [s] | Err e => Err e | Panic w => Panic w
    end);
  Eval := fun h enc => first_of enc (fun x =>
    match EvalSubConst h x center with
    | Ok shifted => EvalProductSum h shifted shifted (Z.of_nat (length center))
    | o => o
    end);
  circuitBound := {| Lo := lo; Hi := hi |};
  Dim := Z.of_nat (length center)
|}.

(** ** The phase (phase.go) *)

Definition Fuse := list bytes -> Z -> Outcome (list float64).

Record violation := { vParty : string; vNu : float64; vSev : Severity }.

Definition defaultJitter : Z := 20 * 1000000.

Section Phase.
Context {S : Type} `{Store S}.

(** [OnViolation] may change the context; its error is discarded. *)
Definition ViolationHandler := string -> float64 -> Severity -> M (HookState S) unit.

Record BoundPhase := {
  circuit : BoundCircuit;
  handler : option ViolationHandler;
  params : Params;
  entryState : SessionState;
  exitState : SessionState;
  jitter : Z;
  handle : option ContextHandle;
  fuse : option Fuse
}.

Definition NewPhase (c : BoundCircuit) (h : option ViolationHandler) (p : Params)
    (entry exit : SessionState) : BoundPhase :=
  {| circuit := c; handler := h; params := p; entryState := entry; exitState := exit;
     jitter := defaultJitter; handle := None; fuse := None |}.

Definition NewPhaseWithCrypto (c : BoundCircuit) (h : option ViolationHandler) (p : Params)
    (entry exit : SessionState) (hd : option ContextHandle) (f : option Fuse) : BoundPhase :=
  {| circuit := c; handler := h; params := p; entryState := entry; exitState := exit;
     jitter := defaultJitter; handle := hd; fuse := f |}.

(** The assertions of a context value to a handle or a fusion function, the
    JSON decoding of a partial map, and the order of a range over a map. *)
Context (as_handle : TypeAssert ContextHandle) (as_fuse : TypeAssert Fuse).
Context (json_Unmarshal : bytes -> Outcome (gmap string bytes)).
Context (range : gmap string bytes -> list (string * bytes)) (range_set : gset string -> list string).

(** *** Enter *)

Definition check_commitment (encCheck encInput : bytes) (sessionID : string) : bytes :=
  sha256 (encCheck ++ sha256 encInput ++ of_string sessionID).

Fixpoint eval_inputs (c : BoundCircuit) (h : ContextHandle) (sessionID : string)
    (inputs : list (string * bytes)) (checks commitments : gmap string bytes)
  : Outcome (gmap string bytes * gmap string bytes) :=
  match inputs with
  | [] => Ok (checks, commitments)
  | (party, encInput) :: inputs' =>
      match Eval c h [encInput] with
      | Ok encCheck =>
          eval_inputs c h sessionID inputs' (<[party := encCheck]> checks)
            (<[party := check_commitment encCheck encInput sessionID]> commitments)
      | Err e => Err (Errorf [W ErrTransient; T ": boundcheck: eval circuit for party "; T party; T ": "; W e])
      | Panic w => Panic w
      end
  end.

Definition bound_Enter (p : BoundPhase) : M (HookState S) unit :=
  let! c := get_ctx in
  match TryGet asInt CtxInputDim c with
  | None => throw (Errorf [W ErrPermanent; T ": boundcheck: context key "; Q CtxInputDim; T " not set"])
  | Some dim =>
      if (dim <? 2)%Z then
        throw (Errorf [W ErrPermanent; T ": boundcheck: input dim "; T (pretty dim);
                 T " < 2; scalar bounds need a Class-2 comparison circuit"])
      else if negb (dim =? Dim (circuit p))%Z then
        throw (Errorf [W ErrPermanent; T ": boundcheck: CtxInputDim "; T (pretty dim);
                 T " != circuit dim "; T (pretty (Dim (circuit p)))])
      else
        match (match handle p with Some h => Some h | None => TryGet as_handle CtxBoundCheckHandle c end) with
        | None => ret tt
        | Some h =>
            match TryGet asMapBytes CtxEncryptedInputs c with
            | None => throw (Errorf [W ErrPermanent; T ": boundcheck: context key "; Q CtxEncryptedInputs; T " not set"])
            | Some encInputs =>
                let! res := lift_outcome (eval_inputs (circuit p) h (ctxSessionID c) (range encInputs) ∅ ∅) in
                modify_ctx (ctx_Set CtxBoundCheckCiphers (AMapBytes res.1)) ;;;
                modify_ctx (ctx_Set CtxBoundCheckCommitments (AMapBytes res.2))
            end
        end
  end.

(** *** Messages *)

Definition bound_OnMessage (_ from : string) (payload : bytes) : M (HookState S) unit :=
  modify_ctx (AccumulateMessage bucketPartials from payload).

Definition bound_CheckComplete (c : SessionContext) : bool :=
  match TryGet asStrings CtxParticipants c with
  | None => false
  | Some participants => QuorumReached bucketPartials (Z.of_nat (length participants)) c
  end.

(** *** Exit *)

Fixpoint decode_partials (raw : list (string * bytes)) (senderMaps : gmap string (gmap string bytes))
  : Outcome (gmap string (gmap string bytes)) :=
  match raw with
  | [] => Ok senderMaps
  | (sender, r) :: raw' =>
      match json_Unmarshal r with
      | Ok m => decode_partials raw' (<[sender := m]> senderMaps)
      | Err e => Err (Errorf [W ErrTransient; T ": boundcheck: decode partial map from "; T sender; T ": "; W e])
      | Panic w => Panic w
      end
  end.

(** [senderMaps[sender][checkedParty]]. *)
Definition partial_of (senderMaps : gmap string (gmap string bytes)) (checkedParty sender : string) : option bytes :=
  senderMaps !! sender ≫= fun m => m !! checkedParty.

(** The inner loop: the partials for one checked party in participants order,
    and the senders who withheld theirs. *)
Fixpoint collect (senderMaps : gmap string (gmap string bytes)) (checkedParty : string) (senders : list string)
  : list bytes * list string :=
  match senders with
  | [] => ([], [])
  | sender :: senders' =>
      let '(blobs, missing) := collect senderMaps checkedParty senders' in
      match partial_of senderMaps checkedParty sender with
      | None => (blobs, sender :: missing)
      | Some blob => (blob :: blobs, missing)
      end
  end.

(** The body for one checked party: a numeric violation, if any, and the
    senders to flag. *)
Definition check_party (p : BoundPhase) (f : Fuse) (senderMaps : gmap string (gmap string bytes))
    (participants : list string) (checkedParty : string) : Outcome (option violation * list string) :=
  let '(blobs, missing) := collect senderMaps checkedParty participants in
  match missing with
  | _ :: _ => Ok (None, missing)
  | [] =>
      match f blobs 1%Z with
      | Err e => Err (Errorf [W ErrTransient; T ": boundcheck: fuse partials for checked party "; T checkedParty; T ": "; W e])
      | Panic w => Panic w
      | Ok [] => Err (Errorf [W ErrTransient; T ": boundcheck: fuse returned no values for checked party "; T checkedParty])
      | Ok (value :: _) =>
          let '(nu, sev) := classify value (circuitBound (circuit p)) (params p) in
          Ok (if decide (sev = SeverityOK) then None
              else Some {| vParty := checkedParty; vNu := nu; vSev := sev |}, [])
      end
  end.

Fixpoint check_all (p : BoundPhase) (f : Fuse) (senderMaps : gmap string (gmap string bytes))
    (participants checked : list string) (violators : list violation) (withholding : gset string)
  : Outcome (list violation * gset string) :=
  match checked with
  | [] => Ok (violators, withholding)
  | c :: checked' =>
      match check_party p f senderMaps participants c with
      | Err e => Err e
      | Panic w => Panic w
      | Ok (v, missing) =>
          check_all p f senderMaps participants checked'
            (violators ++ match v with Some v => [v] | None => [] end)
            (withholding ∪ list_to_set missing)
      end
  end.

(** Every violation of the round, numeric ones first. *)
Definition all_violations (p : BoundPhase) (f : Fuse) (c : SessionContext) : Outcome (list violation) :=
  let participants := default [] (TryGet asStrings CtxParticipants c) in
  match decode_partials (range (AccumulatedMessages bucketPartials c)) ∅ with
  | Err e => Err e
  | Panic w => Panic w
  | Ok senderMaps =>
      match check_all p f senderMaps participants participants [] ∅ with
      | Err e => Err e
      | Panic w => Panic w
      | Ok (violators, withholding) =>
          let nuMissing := fadd (NuHard (params p)) f1 in
          Ok (violators ++ map (fun sender => {| vParty := sender; vNu := nuMissing; vSev := SeverityHard |})
                             (range_set withholding))
      end
  end.

(** [_ = p.handler.OnViolation(...)]. *)
Definition notify (p : BoundPhase) (v : violation) : M (HookState S) unit := fun h =>
  match handler p with
  | None => (Ok tt, h)
  | Some on =>
      match on (vParty v) (vNu v) (vSev v) h with
      | (Panic w, h') => (Panic w, h')
      | (_, h') => (Ok tt, h')
      end
  end.

Definition bound_violation : GoError := Errorf [W ErrAppAttributable; T ": bound violation"].

(** The jitter sleep before the abort changes no state. *)
Definition bound_Exit (p : BoundPhase) : M (HookState S) unit :=
  let! c := get_ctx in
  match (match fuse p with Some f => Some f | None => TryGet as_fuse CtxBoundCheckFuse c end) with
  | None => ret tt
  | Some f =>
      let! violators := lift_outcome (all_violations p f c) in
      match violators with
      | [] => ret tt
      | _ => for_each violators (notify p) ;;; throw bound_violation
      end
  end.

Definition bound_check_phase (p : BoundPhase) : Phase S := {|
  Name := "bound-check";
  Lifetime := LifetimePerSession; RunsAt := RunsAtInline;
  EntryState := entryState p; ExitState := exitState p; InternalStates := [];
  ConsumedMessageTypes := [MsgBoundPartial];
  Requires := [
    (CtxEncryptedInputs, key_type "map[string][]byte" true []);
    (CtxInputDim, key_type "int" true []);
    (CtxEvalKeyBundle, key_type "[]byte" true []);
    (CtxJointPublicKey, key_type "[]byte" true []);
    (CtxParticipants, key_type "[]string" true [])];
  Provides := [
    (CtxBoundCheckCiphers, key_type "map[string][]byte" false []);
    (CtxBoundCheckCommitments, key_type "map[string][]byte" false [])];
  Enter := bound_Enter p; OnMessage := bound_OnMessage;
  CheckComplete := bound_CheckComplete; Exit := bound_Exit p
|}.
End Phase.
Arguments BoundPhase S : clear implicits.
Arguments ViolationHandler S : clear implicits.

(** ** Properties *)

(** Classification is exact and fails closed: with a noise floor below
    +Inf a value is OK exactly when the floor is not negative and neither
    computed distance exceeds it, so a NaN is a hard violation; and no finite
    value inside the bound is ever flagged, rounding included. *)
Lemma classify_spec value b p :
  is_pos_inf (EpsNorm p) = false ->
  ((classify value b p).2 = SeverityOK <->
     fleb f0 (EpsNorm p) = true /\ fleb (fsub (Lo b) value) (EpsNorm p) = true /\
     fleb (fsub value (Hi b)) (EpsNorm p) = true) /\
  (is_nan value = true -> is_pos_inf (NuHard p) = false -> (classify value b p).2 = SeverityHard) /\
  (valid value -> valid (Lo b) -> valid (Hi b) -> is_finite value = true ->
   fleb (Lo b) value = true -> fleb value (Hi b) = true -> fleb f0 (EpsNorm p) = true ->
   (classify value b p).2 = SeverityOK).
Proof.
  intros He. unfold classify. set (nu := fmax f0 _).
  assert (Hiff : fleb nu (EpsNorm p) = true <-> fleb f0 (EpsNorm p) = true /\
     fleb (fsub (Lo b) value) (EpsNorm p) = true /\ fleb (fsub value (Hi b)) (EpsNorm p) = true).
  { unfold nu. by rewrite !fleb_fmax. }
  assert (Hok : (if fleb nu (EpsNorm p) then (nu, SeverityOK)
     else if fleb nu (NuHard p) then (nu, SeveritySoft) else (nu, SeverityHard)).2 = SeverityOK
     <-> fleb nu (EpsNorm p) = true).
  { destruct (fleb nu (EpsNorm p)), (fleb nu (NuHard p)); naive_solver. }
  split; [by rewrite Hok|]. split.
  - intros Hn Hh. destruct value; try done.
    assert (Hnan : forall z, is_pos_inf z = false -> fleb nu z = false).
    { intros z Hz. apply not_true_iff_false. unfold nu. rewrite !fleb_fmax by done. intros (_ & Hl & _).
      destruct (Lo b) as [|[]| |[]]; simpl in Hl; by rewrite fleb_nan_l in Hl. }
    by rewrite !Hnan.
  - intros Hv Hl Hh Hf Hlo Hhi H0. rewrite Hok, Hiff. split; [done|].
    assert (Hn1 : is_nan (Lo b) = false) by (destruct (Lo b); [done..|by rewrite fleb_nan_l in Hlo|done]).
    assert (Hn2 : is_nan (Hi b) = false) by (destruct (Hi b); [done..|by rewrite fleb_nan_r in Hhi|done]).
    assert (Hn3 : is_nan value = false) by by destruct value.
    split; apply fleb_nonpos; try done.
    + apply fsub_nonpos; [done..|by rewrite Hf, orb_true_r|done].
    + apply fsub_not_nan; [by rewrite Hf, orb_true_r|done|done].
    + apply fsub_nonpos; [done..|by rewrite Hf|done].
    + apply fsub_not_nan; [by rewrite Hf|done|done].
Qed.

Section Properties.
Context {S : Type} `{Store S}.
Context (as_handle : TypeAssert ContextHandle) (as_fuse : TypeAssert Fuse).
Context (json_Unmarshal : bytes -> Outcome (gmap string bytes)).
Context (range : gmap string bytes -> list (string * bytes)) (range_set : gset string -> list string).
Context (range_perm : forall m, range m ≡ₚ map_to_list m).
Context (range_set_perm : forall s, range_set s ≡ₚ elements s).
Implicit Types (p : BoundPhase S) (c : SessionContext).

Lemma range_lookup m k v : (k, v) ∈ range m <-> m !! k = Some v.
Proof. rewrite range_perm. apply elem_of_map_to_list. Qed.
Lemma range_NoDup m : NoDup (range m).*1.
Proof. rewrite range_perm. apply NoDup_fst_map_to_list. Qed.

(** *** Enter *)

Lemma eval_inputs_Ok bc h sid inputs checks commits res :
  NoDup inputs.*1 ->
  eval_inputs bc h sid inputs checks commits = Ok res ->
  (forall party x, (party, x) ∈ inputs -> exists ec, Eval bc h [x] = Ok ec /\
     res.1 !! party = Some ec /\ res.2 !! party = Some (check_commitment ec x sid)) /\
  (forall party, party ∉ inputs.*1 -> res.1 !! party = checks !! party /\ res.2 !! party = commits !! party).
Proof.
  revert checks commits. induction inputs as [|[q x] inputs IH]; intros checks commits Hnd; simpl.
  { intros [= <-]. split; [|done]. intros party x Hin. by apply elem_of_nil in Hin. }
  apply NoDup_cons in Hnd as [Hq Hnd].
  destruct (Eval bc h [x]) as [ec|e|w] eqn:Ee; [|done..]. intros [Hin Hout]%IH; [|done]. split.
  - intros party y [[= -> ->]|Hy]%elem_of_cons; [|by apply Hin].
    exists ec. destruct (Hout q Hq) as [-> ->]. by rewrite !lookup_insert_eq.
  - intros party [Hne Hni]%not_elem_of_cons. simpl in Hne. destruct (Hout party Hni) as [-> ->].
    by rewrite !lookup_insert_ne by congruence.
Qed.

(** The handle [Enter] computes with: the one fixed at construction, else the
    session's. *)
Definition effective_handle p c : option ContextHandle :=
  match handle p with Some h => Some h | None => TryGet as_handle CtxBoundCheckHandle c end.

(** Entering the round: nothing is written unless the dimension matches
    the circuit's and is at least 2 and every input evaluates; then, for every
    party and whatever the iteration order, the two published maps hold the
    circuit's value of that party's input and its commitment, and no party
    without an input has an entry. *)
Lemma bound_Enter_spec p hs o hs' :
  bound_Enter as_handle range p hs = (o, hs') ->
  match o with
  | Ok _ =>
      (exists dim, TryGet asInt CtxInputDim hs.1 = Some dim /\ dim = Dim (circuit p) /\ (2 <= dim)%Z) /\
      match effective_handle p hs.1 with
      | None => hs' = hs
      | Some h => exists inputs checks commits,
          TryGet asMapBytes CtxEncryptedInputs hs.1 = Some inputs /\
          hs' = (ctx_Set CtxBoundCheckCommitments (AMapBytes commits)
                   (ctx_Set CtxBoundCheckCiphers (AMapBytes checks) hs.1), hs.2) /\
          forall party, match inputs !! party with
            | None => checks !! party = None /\ commits !! party = None
            | Some x => exists ec, Eval (circuit p) h [x] = Ok ec /\ checks !! party = Some ec /\
                commits !! party = Some (check_commitment ec x (ctxSessionID hs.1))
            end
      end
  | _ => hs' = hs
  end.
Proof.
  unfold bound_Enter, effective_handle, bind at 1, get_ctx.
  destruct (TryGet asInt CtxInputDim hs.1) as [dim|] eqn:Ed; [|by intros [= <- <-]].
  destruct (Z.ltb_spec dim 2); [by intros [= <- <-]|].
  destruct (Z.eqb_spec dim (Dim (circuit p))) as [Hd|]; [|by intros [= <- <-]]. simpl.
  destruct (match handle p with Some h => Some h | None => _ end) as [h|];
    [|intros [= <- <-]; split; [by exists dim|done]].
  destruct (TryGet asMapBytes CtxEncryptedInputs hs.1) as [inputs|] eqn:Ei; [|by intros [= <- <-]].
  unfold bind, lift_outcome.
  destruct (eval_inputs _ _ _ _ _ _) as [[checks commits]|e|w] eqn:Ee; [|by intros [= <- <-]..].
  apply eval_inputs_Ok in Ee as [Hin Hout]; [|apply range_NoDup].
  intros [= <- <-]. split; [by exists dim|]. exists inputs, checks, commits. split; [done|]. split; [done|].
  intros party. destruct (inputs !! party) as [x|] eqn:Ex.
  - apply Hin. by apply range_lookup.
  - specialize (Hout party). simpl in Hout. rewrite !lookup_empty in Hout. apply Hout.
    intros ([k x] & -> & Hx%range_lookup)%list_elem_of_fmap. simpl in Ex. congruence.
Qed.

(** *** Exit *)

(** What a sender's last message says about a checked party's ciphertext. *)
Definition sent c (checked sender : string) : option bytes :=
  AccumulatedMessages bucketPartials c !! sender ≫= fun r =>
    match json_Unmarshal r with Ok m => m !! checked | _ => None end.

Definition decodes c : Prop :=
  forall sender r, AccumulatedMessages bucketPartials c !! sender = Some r -> exists m, json_Unmarshal r = Ok m.

Lemma decode_partials_Ok raw sm res :
  NoDup raw.*1 -> decode_partials json_Unmarshal raw sm = Ok res ->
  (forall s r, (s, r) ∈ raw -> exists m, json_Unmarshal r = Ok m /\ res !! s = Some m) /\
  (forall s, s ∉ raw.*1 -> res !! s = sm !! s).
Proof.
  revert sm. induction raw as [|[q r] raw IH]; intros sm Hnd; simpl.
  { intros [= <-]. split; [|done]. intros s r Hin. by apply elem_of_nil in Hin. }
  apply NoDup_cons in Hnd as [Hq Hnd].
  destruct (json_Unmarshal r) as [m|e|w] eqn:Er; [|done..]. intros [Hin Hout]%IH; [|done]. split.
  - intros s y [[= -> ->]|Hy]%elem_of_cons; [|by apply Hin].
    exists m. by rewrite (Hout q Hq), lookup_insert_eq.
  - intros s [Hne Hni]%not_elem_of_cons. simpl in Hne. rewrite (Hout s Hni).
    by rewrite lookup_insert_ne by congruence.
Qed.

Lemma decode_partials_total raw sm :
  (forall s r, (s, r) ∈ raw -> exists m, json_Unmarshal r = Ok m) ->
  exists res, decode_partials json_Unmarshal raw sm = Ok res.
Proof.
  revert sm. induction raw as [|[q r] raw IH]; intros sm Hd; simpl; [by eexists|].
  destruct (Hd q r) as [m ->]; [by left|]. apply IH. intros s y Hy. apply (Hd s). by right.
Qed.

Lemma decode_partials_sent c sm :
  decode_partials json_Unmarshal (range (AccumulatedMessages bucketPartials c)) ∅ = Ok sm ->
  decodes c /\ forall checked sender, partial_of sm checked sender = sent c checked sender.
Proof.
  intros [Hin Hout]%decode_partials_Ok; [|apply range_NoDup]. split.
  - intros s r (m & Hm & _)%range_lookup%Hin. by exists m.
  - intros checked sender. unfold partial_of, sent.
    destruct (AccumulatedMessages bucketPartials c !! sender) as [r|] eqn:Er; simpl.
    + apply range_lookup in Er as (m & -> & ->)%Hin. done.
    + rewrite Hout, lookup_empty; [done|].
      intros ([k r] & -> & Hx%range_lookup)%list_elem_of_fmap. simpl in Er. congruence.
Qed.

Lemma collect_spec sm checked senders :
  collect sm checked senders =
  (omap (partial_of sm checked) senders, filter (fun s => partial_of sm checked s = None) senders).
Proof.
  induction senders as [|s l IH]; [done|]. cbn [collect]. rewrite IH, filter_cons. simpl.
  by destruct (partial_of sm checked s).
Qed.

(** A checked party's ciphertext is numerically in violation: every
    participant sent a partial and the fused value is classified so. *)
Definition numeric p (f : Fuse) (get : string -> string -> option bytes) (participants : list string)
    (v : violation) : Prop :=
  exists blobs value vs,
    Forall2 (fun s b => get (vParty v) s = Some b) participants blobs /\
    f blobs 1%Z = Ok (value :: vs) /\
    (vNu v, vSev v) = classify value (circuitBound (circuit p)) (params p) /\ vSev v <> SeverityOK.

Lemma omap_all {A B} (g : A -> option B) l :
  filter (fun s => g s = None) l = [] <-> Forall2 (fun s b => g s = Some b) l (omap g l).
Proof.
  induction l as [|x l IH]; simpl; [done|]. rewrite filter_cons.
  destruct (g x) as [b|] eqn:E; simpl.
  - rewrite IH. split; [by constructor|].
    intros Hf. by apply Forall2_cons in Hf as [_ ?].
  - split; [done|]. intros Hf. apply Forall2_cons_inv_l in Hf.
    destruct Hf as (y & k & Hy & _ & _). congruence.
Qed.

Lemma check_party_Ok p f sm parts cp v missing :
  check_party p f sm parts cp = Ok (v, missing) ->
  missing = filter (fun s => partial_of sm cp s = None) parts /\
  (forall x, v = Some x <-> vParty x = cp /\ numeric p f (partial_of sm) parts x) /\
  (missing = [] -> exists value vs, f (omap (partial_of sm cp) parts) 1%Z = Ok (value :: vs)).
Proof.
  unfold check_party. rewrite collect_spec.
  destruct (filter _ parts) as [|m ms] eqn:Em.
  - pose proof (proj1 (omap_all _ _) Em) as Hall.
    destruct (f _ 1%Z) as [[|value vs]|e|w] eqn:Ef; [done| |done..].
    destruct (classify value _ _) as [nu sev] eqn:Ec. intros [= <- <-]. split; [done|].
    split; [|by exists value, vs]. intros x. split.
    + destruct (decide (sev = SeverityOK)); [done|]. intros [= <-]. split; [done|].
      by exists (omap (partial_of sm cp) parts), value, vs.
    + intros (Hp & blobs & value' & vs' & Hb & Hf & Hx & Hne). rewrite Hp in Hb.
      apply omap_Forall2 in Hb as <-. rewrite Ef in Hf. injection Hf as <- <-.
      rewrite Ec in Hx. injection Hx as Hnu Hsev. rewrite decide_False by congruence.
      f_equal. destruct x; simpl in *. congruence.
  - intros [= <- <-]. split; [done|]. split; [|done]. intros x. split; [done|].
    intros (Hp & blobs & value & vs & Hb & _). rewrite Hp in Hb. pose proof (omap_Forall2 _ _ _ Hb) as Ho.
    rewrite <- Ho in Hb. apply omap_all in Hb. congruence.
Qed.

Lemma check_all_Ok p f sm parts checked vs0 w0 vs w :
  check_all p f sm parts checked vs0 w0 = Ok (vs, w) ->
  (forall x, x ∈ vs <-> x ∈ vs0 \/ (vParty x ∈ checked /\ numeric p f (partial_of sm) parts x)) /\
  (forall s, s ∈ w <-> s ∈ w0 \/ (s ∈ parts /\ exists cp, cp ∈ checked /\ partial_of sm cp s = None)).
Proof.
  revert vs0 w0. induction checked as [|cp checked IH]; intros vs0 w0; cbn [check_all].
  { intros [= <- <-]. split; [intros x|intros s]; set_solver. }
  destruct (check_party _ _ _ _ _) as [[v missing]|e|w'] eqn:Ep; [|done..].
  apply check_party_Ok in Ep as (Hm & Hv & _). intros [Hvs Hw]%IH. split.
  - intros x. rewrite Hvs, elem_of_app, elem_of_cons.
    assert (Hx : x ∈ match v with Some v => [v] | None => [] end <-> v = Some x).
    { destruct v; [rewrite list_elem_of_singleton|rewrite elem_of_nil]; naive_solver. }
    rewrite Hx, Hv. naive_solver.
  - intros s. rewrite Hw, elem_of_union, elem_of_list_to_set, Hm, list_elem_of_filter. set_solver.
Qed.

Lemma check_all_total p f sm parts checked vs0 w0 :
  (forall cp, cp ∈ checked -> exists v missing, check_party p f sm parts cp = Ok (v, missing)) ->
  exists vs w, check_all p f sm parts checked vs0 w0 = Ok (vs, w).
Proof.
  revert vs0 w0. induction checked as [|cp checked IH]; intros vs0 w0 Hd; cbn [check_all]; [by eexists _, _|].
  destruct (Hd cp) as (v & missing & ->); [by left|]. apply IH. intros cp' Hcp. apply Hd. by right.
Qed.

Lemma check_all_step p f sm parts checked vs0 w0 r :
  check_all p f sm parts checked vs0 w0 = Ok r ->
  forall cp, cp ∈ checked -> exists v missing, check_party p f sm parts cp = Ok (v, missing).
Proof.
  revert vs0 w0. induction checked as [|c checked IH]; intros vs0 w0; cbn [check_all]; [set_solver|].
  destruct (check_party _ _ _ _ c) as [[v missing]|e|w'] eqn:Ep; [|done..]. intros Hr cp [->|Hcp]%elem_of_cons.
  - by exists v, missing.
  - by eapply IH.
Qed.

Definition participants_of c : list string := default [] (TryGet asStrings CtxParticipants c).

(** A participant who withheld at least one partial. *)
Definition withheld p c (v : violation) : Prop :=
  vNu v = fadd (NuHard (params p)) f1 /\ vSev v = SeverityHard /\ vParty v ∈ participants_of c /\
  exists cp, cp ∈ participants_of c /\ sent c cp (vParty v) = None.

Definition in_violation p (f : Fuse) c (v : violation) : Prop :=
  (vParty v ∈ participants_of c /\ numeric p f (sent c) (participants_of c) v) \/ withheld p c v.

Lemma numeric_ext p f g g' parts v :
  (forall x y, g x y = g' x y) -> numeric p f g parts v -> numeric p f g' parts v.
Proof.
  intros Hg (blobs & value & vs & Hb & Hr). exists blobs, value, vs. split; [|done].
  eapply Forall2_impl; [exact Hb|]. simpl. intros s b. by rewrite Hg.
Qed.

Lemma all_violations_Ok p f c vs :
  all_violations json_Unmarshal range range_set p f c = Ok vs ->
  decodes c /\ (forall v, v ∈ vs <-> in_violation p f c v).
Proof.
  unfold all_violations. fold (participants_of c).
  destruct (decode_partials _ _ _) as [sm|e|w] eqn:Ed; [|done..].
  apply decode_partials_sent in Ed as [Hd Hs].
  destruct (check_all _ _ _ _ _ _ _) as [[violators withholding]|e|w] eqn:Ec; [|done..].
  apply check_all_Ok in Ec as [Hv Hw]. intros [= <-]. split; [done|]. intros v.
  rewrite elem_of_app, Hv, elem_of_nil. unfold in_violation, withheld.
  assert (Hn : numeric p f (partial_of sm) (participants_of c) v <-> numeric p f (sent c) (participants_of c) v).
  { split; apply numeric_ext; intros; by rewrite Hs. }
  rewrite Hn. enough (Hm : v ∈ map (fun sender => {| vParty := sender; vNu := fadd (NuHard (params p)) f1; vSev := SeverityHard |})
      (range_set withholding) <-> vNu v = fadd (NuHard (params p)) f1 /\ vSev v = SeverityHard /\ vParty v ∈ withholding).
  { rewrite Hm, Hw, elem_of_empty. setoid_rewrite Hs. naive_solver. }
  rewrite list_elem_of_fmap. setoid_rewrite range_set_perm. setoid_rewrite elem_of_elements. split.
  - intros (s & -> & Hin). done.
  - intros (? & ? & ?). exists (vParty v). split; [|done]. destruct v; simpl in *. by subst.
Qed.

Lemma in_violation_none p f c :
  decodes c ->
  (forall cp, cp ∈ participants_of c -> exists blobs value vs,
     Forall2 (fun s b => sent c cp s = Some b) (participants_of c) blobs /\
     f blobs 1%Z = Ok (value :: vs) /\ (classify value (circuitBound (circuit p)) (params p)).2 = SeverityOK) ->
  all_violations json_Unmarshal range range_set p f c = Ok [].
Proof.
  intros Hd Hall. destruct (decode_partials_total (range (AccumulatedMessages bucketPartials c)) ∅) as [sm Esm].
  { intros s r Hin%range_lookup. by eapply Hd. }
  pose proof (decode_partials_sent _ _ Esm) as [_ Hs].
  assert (Hstep : forall cp, cp ∈ participants_of c -> check_party p f sm (participants_of c) cp = Ok (None, [])).
  { intros cp Hcp. destruct (Hall cp Hcp) as (blobs & value & vs & Hb & Hf & Hc).
    unfold check_party. rewrite collect_spec.
    assert (Hb' : Forall2 (fun s b => partial_of sm cp s = Some b) (participants_of c) blobs).
    { eapply Forall2_impl; [exact Hb|]. simpl. intros s b. by rewrite Hs. }
    pose proof (omap_Forall2 _ _ _ Hb') as Ho. rewrite <- Ho in Hb'. apply omap_all in Hb'.
    rewrite Hb', Ho, Hf. destruct (classify value _ _) as [nu sev]. simpl in Hc. subst sev. by rewrite decide_True. }
  destruct (check_all_total p f sm (participants_of c) (participants_of c) [] ∅) as (vs & w & Ec).
  { intros cp Hcp. exists None, []. by apply Hstep. }
  assert (Hnil : all_violations json_Unmarshal range range_set p f c = Ok
    (vs ++ map (fun sender => {| vParty := sender; vNu := fadd (NuHard (params p)) f1; vSev := SeverityHard |}) (range_set w))).
  { unfold all_violations. fold (participants_of c). by rewrite Esm, Ec. }
  rewrite Hnil. f_equal. apply list_empty_elem. intros v Hv.
  apply all_violations_Ok in Hnil as [_ Hiff]. apply Hiff in Hv as [[Hp (b' & x' & vs' & Hb' & Hf' & Hc' & Hne)]|(_ & _ & Hp & cp & Hcp & Hno)].
  - destruct (Hall _ Hp) as (blobs & value & vs0 & Hb & Hf & Hc).
    apply omap_Forall2 in Hb as <-. apply omap_Forall2 in Hb' as <-. rewrite Hf in Hf'. injection Hf' as <- _.
    apply Hne. rewrite <- Hc, <- Hc'. done.
  - destruct (Hall _ Hcp) as (blobs & _ & _ & Hb & _). apply list_elem_of_lookup in Hp as [i Hi].
    destruct (Forall2_lookup_l _ _ _ _ _ Hb Hi) as (b & _ & He). congruence.
Qed.

Definition effective_fuse p c : option Fuse :=
  match fuse p with Some f => Some f | None => TryGet as_fuse CtxBoundCheckFuse c end.

(** Every participant sent a partial for every participant's ciphertext, and
    every fused value lies in the bound. *)
Definition cleared p (f : Fuse) c : Prop :=
  decodes c /\
  forall cp, cp ∈ participants_of c -> exists blobs value vs,
    Forall2 (fun s b => sent c cp s = Some b) (participants_of c) blobs /\
    f blobs 1%Z = Ok (value :: vs) /\
    (classify value (circuitBound (circuit p)) (params p)).2 = SeverityOK.

Lemma cleared_iff p f c :
  cleared p f c <-> all_violations json_Unmarshal range range_set p f c = Ok [].
Proof.
  split; [intros [Hd Hall]; by apply in_violation_none|].
  intros Hok. pose proof (all_violations_Ok _ _ _ _ Hok) as [Hd Hiff]. split; [done|].
  unfold all_violations in Hok. fold (participants_of c) in Hok.
  destruct (decode_partials _ _ _) as [sm|e|w] eqn:Ed; [|done..].
  apply decode_partials_sent in Ed as [_ Hs].
  destruct (check_all _ _ _ _ _ _ _) as [[violators withholding]|e|w] eqn:Ec; [|done..].
  intros cp Hcp. pose proof (check_all_step _ _ _ _ _ _ _ _ Ec cp Hcp) as (v & missing & Hp).
  apply check_party_Ok in Hp as (-> & _ & Hf).
  destruct (filter _ _) as [|m ms] eqn:Em.
  - apply omap_all in Em. destruct Hf as (value & vs & Hf); [done|].
    assert (Hb : Forall2 (fun s b => sent c cp s = Some b) (participants_of c) (omap (partial_of sm cp) (participants_of c))).
    { eapply Forall2_impl; [exact Em|]. simpl. intros s b. by rewrite Hs. }
    exists (omap (partial_of sm cp) (participants_of c)), value, vs. split_and!; [done..|].
    destruct (decide ((classify value (circuitBound (circuit p)) (params p)).2 = SeverityOK)) as [|Hne]; [done|].
    destruct (classify value (circuitBound (circuit p)) (params p)) as [nu sev] eqn:Ecl.
    exfalso. apply (not_elem_of_nil {| vParty := cp; vNu := nu; vSev := sev |}), Hiff. left. split; [done|].
    by exists (omap (partial_of sm cp) (participants_of c)), value, vs.
  - exfalso. assert (Hm : m ∈ m :: ms) by left. rewrite <- Em in Hm. apply list_elem_of_filter in Hm as [Hno Hm].
    apply (not_elem_of_nil {| vParty := m; vNu := fadd (NuHard (params p)) f1; vSev := SeverityHard |}), Hiff.
    right. split_and!; [done..|]. exists cp. simpl. by rewrite <- Hs.
Qed.

Lemma for_each_notify_not_Ok p l hs h' :
  (for_each l (notify p) ;;; throw (A := unit) bound_violation) hs <> (Ok tt, h').
Proof. intros He. apply bind_Ok_inv in He as (? & ? & _ & He). done. Qed.

(** C15. Leaving the round: with a fusion function the phase is left, and then
    with nothing changed, exactly when every participant's message decodes,
    holds a partial for every participant's ciphertext, and every ciphertext
    fuses to a value classified OK; without one it is always left. *)
Theorem bound_Exit_Ok_iff p hs hs' :
  bound_Exit as_fuse json_Unmarshal range range_set p hs = (Ok tt, hs') <->
  hs' = hs /\ match effective_fuse p hs.1 with None => True | Some f => cleared p f hs.1 end.
Proof.
  unfold bound_Exit, effective_fuse, bind at 1, get_ctx.
  destruct (match fuse p with Some f => Some f | None => _ end) as [f|]; [|split; [by intros [= <-]|by intros [-> _]]].
  rewrite cleared_iff. unfold bind at 1, lift_outcome.
  destruct (all_violations _ _ _ _ _ _) as [[|v vs]|e|w].
  - split; [by intros [= <-]|by intros [-> _]].
  - split; [|by intros [_ ?]]. intros He. by apply for_each_notify_not_Ok in He.
  - split; [done|by intros [_ ?]].
  - split; [done|by intros [_ ?]].
Qed.

(** C16. Violations: when the round's violations can be computed and there are
    some, the violators are exactly the participants whose ciphertext fuses
    out of bound, with their distance and severity, and those who withheld a
    partial, as hard violations; the handler is told of each of them once per
    entry, and the error returned is the same whoever they are and wraps
    [ErrAppAttributable]. *)
Theorem bound_Exit_violation p f hs vs :
  effective_fuse p hs.1 = Some f ->
  all_violations json_Unmarshal range range_set p f hs.1 = Ok vs -> vs <> [] ->
  (forall v h, v ∈ vs -> (notify p v h).1 = Ok tt) ->
  (forall v, v ∈ vs <-> in_violation p f hs.1 v) /\
  bound_Exit as_fuse json_Unmarshal range range_set p hs =
    (Err bound_violation, foldl (fun h v => (notify p v h).2) hs vs) /\
  errors_Is bound_violation ErrAppAttributable_msg = true.
Proof.
  intros Hf Hv Hne Hn. split; [exact (proj2 (all_violations_Ok _ _ _ _ Hv))|]. split; [|done].
  unfold bound_Exit. unfold bind at 1, get_ctx. fold (effective_fuse p hs.1). rewrite Hf.
  unfold bind at 1, lift_outcome. rewrite Hv.
  assert (Hrun : forall l, (forall v h, v ∈ l -> (notify p v h).1 = Ok tt) -> forall hs,
    for_each l (notify p) hs = (Ok tt, foldl (fun h v => (notify p v h).2) hs l)).
  { induction l as [|v l IH]; intros Hl hs'; [done|]. simpl. unfold bind.
    rewrite (outcome_of _ _ (Hl v hs' (list_elem_of_here v l))). apply IH. intros; apply Hl; by right. }
  specialize (Hrun vs Hn hs). destruct vs as [|v0 vs0]; [done|]. unfold bind. by rewrite Hrun.
Qed.
End Properties.

(** ** A round with two participants *)

Module Witnesses.
Import InMemory.

(** A codec of partial maps: pairs of a one-byte party name and a one-byte
    partial; the fused value is the leading party's byte. *)
Fixpoint decode_pairs (b : bytes) : gmap string bytes :=
  match b with
  | k :: v :: b' => <[to_string [k] := [v]]> (decode_pairs b')
  | _ => ∅
  end.
Definition codec (b : bytes) : Outcome (gmap string bytes) :=
  if Nat.even (length b) then Ok (decode_pairs b) else Err (ErrorsNew "unexpected end of JSON input").
Definition lead_byte (blobs : list bytes) (_ : Z) : Outcome (list float64) :=
  match blobs with (b :: _) :: _ => Ok [of_Z (Z.of_N (Byte.to_N b))] | _ => Err (ErrorsNew "no partials") end.
Definition no_handle : TypeAssert ContextHandle := fun _ => None.
Definition no_fuse : TypeAssert Fuse := fun _ => None.
Definition no_backend : ContextHandle := {|
  EvalMult := fun a b => Ok (a ++ b); EvalSubConst := fun a _ => Ok a;
  EvalProductSum := fun a b _ => Ok (a ++ b) |}.

(** The application records the violators it is told of. *)
Definition record (party : string) (_ : float64) (_ : Severity) : M (HookState InMemoryStore) unit :=
  modify_ctx (ctx_Update "violators" (fun v => AStrings (default [] (asStrings v) ++ [party]))).

Definition round : BoundPhase InMemoryStore :=
  NewPhaseWithCrypto (NormCircuit f0 2) (Some record) DefaultParams StateScoring "DONE"
    (Some no_backend) (Some lead_byte).

Definition participants (l : list string) (c : SessionContext) : SessionContext :=
  ctx_Set CtxParticipants (AStrings l) (ctx_Set CtxInputDim (AInt 2)
    (ctx_Set CtxEncryptedInputs (AMapBytes {["a"%string := [x01]]}) c)).
Definition partials (a b : byte) : bytes := of_string "a" ++ [a] ++ of_string "b" ++ [b].
Definition ctx_after (msgs : list (string * bytes)) : SessionContext :=
  accumulate_all bucketPartials msgs (participants ["a"; "b"]%string (NewSessionContext "s")).

Definition Exit_of (c : SessionContext) : Outcome unit * HookState InMemoryStore :=
  bound_Exit no_fuse codec map_to_list elements round (c, Sample.env0).
Definition told (c : SessionContext) : list string :=
  default [] (asStrings (default ANil (ctx_Get "violators" (Exit_of c).2.1))).

Lemma map_to_list_perm (m : gmap string bytes) : map_to_list m ≡ₚ map_to_list m.
Proof. done. Qed.
Lemma elements_perm (s : gset string) : elements s ≡ₚ elements s.
Proof. done. Qed.

(** The norm bound is [1, 1]: two honest rounds of value 1 pass. *)
Definition honest : list (string * bytes) :=
  [("a"%string, partials x01 x01); ("b"%string, partials x01 x01)].
Definition cheating : list (string * bytes) :=
  [("a"%string, partials x01 x09); ("b"%string, partials x01 x01)].

Lemma bound_Exit_Ok_iff_witness : cleared codec round lead_byte (ctx_after honest).
Proof.
  assert (He : Exit_of (ctx_after honest) = (Ok tt, (ctx_after honest, Sample.env0))) by (vm_compute; reflexivity).
  exact (proj2 (proj1 (bound_Exit_Ok_iff no_fuse codec map_to_list elements map_to_list_perm elements_perm
    round (ctx_after honest, Sample.env0) _) He)).
Defined.

Lemma bound_Exit_violation_witness :
  (Exit_of (ctx_after cheating)).1 = Err bound_violation /\ told (ctx_after cheating) = ["b"%string].
Proof.
  assert (Hf : effective_fuse no_fuse round (ctx_after cheating) = Some lead_byte) by reflexivity.
  destruct (all_violations codec map_to_list elements round lead_byte (ctx_after cheating)) as [vs|e|w] eqn:Hv;
    [|vm_compute in Hv; discriminate Hv..].
  assert (Hne : vs <> []) by (intros ->; vm_compute in Hv; discriminate Hv).
  pose proof (bound_Exit_violation no_fuse codec map_to_list elements map_to_list_perm elements_perm
    round lead_byte (ctx_after cheating, Sample.env0) vs Hf Hv Hne (fun v h _ => eq_refl)) as (_ & He & _).
  split; [exact (f_equal fst He)|]. vm_compute. reflexivity.
Defined.

Lemma bound_Enter_spec_witness :
  exists checks, ctx_Get CtxBoundCheckCiphers
    (bound_Enter no_handle map_to_list round (ctx_after [], Sample.env0)).2.1 = Some (AMapBytes checks) /\
    checks !! "a"%string = Some [x01; x01].
Proof.
  pose proof (bound_Enter_spec no_handle map_to_list map_to_list_perm round (ctx_after [], Sample.env0)
    (Ok tt) _ (outcome_of _ _ eq_refl)) as [_ (inputs & checks & commits & _ & Hs & _)].
  rewrite Hs. exists checks. split; [reflexivity|].
  assert (Hc : ctx_Get CtxBoundCheckCiphers
    (bound_Enter no_handle map_to_list round (ctx_after [], Sample.env0)).2.1 = Some (AMapBytes checks))
    by (rewrite Hs; reflexivity).
  vm_compute in Hc. injection Hc as <-. reflexivity.
Defined.

Lemma classify_spec_witness :
  (classify (of_ratio 1 2) {| Lo := f0; Hi := f1 |} DefaultParams).2 = SeverityOK /\
  (classify S754_nan {| Lo := f0; Hi := f1 |} DefaultParams).2 = SeverityHard.
Proof.
  destruct (classify_spec (of_ratio 1 2) {| Lo := f0; Hi := f1 |} DefaultParams eq_refl) as (_ & _ & Hin).
  destruct (classify_spec S754_nan {| Lo := f0; Hi := f1 |} DefaultParams eq_refl) as (_ & Hnan & _).
  split; [apply Hin; reflexivity|apply Hnan; reflexivity].
Defined.

(** The quorum counts senders, whoever they are: a message from outside the
    session completes the round, and the honest participant who had not yet
    answered is reported as withholding. *)
Definition outsider : list (string * bytes) :=
  [("a"%string, partials x01 x01); ("mallory"%string, [])].
Example outsider_completes_quorum :
  bound_CheckComplete (ctx_after outsider) = true /\
  (Exit_of (ctx_after outsider)).1 = Err bound_violation /\ told (ctx_after outsider) = ["b"%string].
Proof. vm_compute. split_and!; reflexivity. Qed.

(** The violation does not end the session: it stays in the round, and the
    violator, told of the abort, sends an in-bound partial and passes. *)
Definition submit : Phase InMemoryStore :=
  Sample.phase_of "submit" "SUBMIT" StateScoring [] []
    [(CtxEncryptedInputs, key_type "map[string][]byte" false []); (CtxInputDim, key_type "int" false []);
     (CtxEvalKeyBundle, key_type "[]byte" false []); (CtxJointPublicKey, key_type "[]byte" false []);
     (CtxParticipants, key_type "[]string" false [])]
    (fun _ _ _ => ret tt) (fun _ => true) (modify_ctx (participants ["a"; "b"]%string)).
Definition done_phase : Phase InMemoryStore :=
  Sample.phase_of "done" "DONE" StateNone ["ack"%string] [] [] (fun _ _ _ => ret tt) (fun _ => false) (ret tt).
Definition bound_runner : SessionRunner InMemoryStore :=
  pipeline_runner [submit; bound_check_phase no_handle no_fuse codec map_to_list elements round; done_phase].
Definition scoring : RunnerState InMemoryStore :=
  (AdvanceToState bound_runner "s" StateScoring
     (BeginSession bound_runner "s" "" (initial_state Sample.env0)).2).2.
Definition reply (from : string) (payload : bytes) st :=
  HandleMessage bound_runner "s" MsgBoundPartial from payload st.

Example violation_does_not_end_the_session :
  let st1 := (reply "b" (partials x01 x01) (reply "a" (partials x01 x09) scoring).2) in
  let st2 := reply "a" (partials x01 x01) st1.2 in
  (match Compose [submit; bound_check_phase no_handle no_fuse codec map_to_list elements round; done_phase] with
   | Ok _ => true | _ => false end = true) /\
  (match st1.1 with Err e => errors_Is e ErrAppAttributable_msg | _ => false end = true) /\
  CurrentState "s" st1.2 = (StateScoring, true) /\
  (match st2.1 with Ok _ => true | _ => false end = true) /\ CurrentState "s" st2.2 = ("DONE"%string, true).
Proof. vm_compute. split_and!; reflexivity. Qed.
End Witnesses.
