(* ===== verification/Onion.v ===== *)
(** * Onions and slot permutations (pkg/ares/onion: permutation.go, ecies.go, onion.go)

    The deterministic slot permutation with its rejection-sampled stream, the
    ECIES envelope, and the layered onion with its batch peeling.  X25519,
    HKDF, AES-GCM and the random source are parameters with their documented
    laws; SHA-256 is the one of [Bytes]. *)
From Stdlib Require Import ZArith NArith Lia String Ascii Strings.Byte.
From stdpp Require Import base gmap list strings pretty.
From S2P Require Import Prelude Bytes.

(** ** The seed stream (permutation.go) *)

Record seedStream := { seed : bytes; counter : N; buf : bytes; off : nat }.

(** The counter is a uint64. *)
Definition next (s : seedStream) : byte * seedStream :=
  let s := if (length (buf s) <=? off s)%nat
           then {| seed := seed s; counter := ((counter s + 1) mod 2 ^ 64)%N;
                   buf := sha256 (seed s ++ be64 (counter s)); off := 0 |}
           else s in
  (nth (off s) (buf s) x00, {| seed := seed s; counter := counter s; buf := buf s; off := off s + 1 |}).

(** Four bytes, big end first. *)
Definition draw (s : seedStream) : Z * seedStream :=
  let '(b1, s) := next s in
  let '(b2, s) := next s in
  let '(b3, s) := next s in
  let '(b4, s) := next s in
  (Z.of_N (be_decode [b1; b2; b3; b4]), s).

(** The greatest multiple of [m] that is at most 2^32 - 1. *)
Definition intn_limit (m : Z) : Z := (2 ^ 32 - 1) / m * m.

(** The loop of [intn], with fuel for the draws it may take. *)
Fixpoint reject (fuel : nat) (m : Z) (s : seedStream) : option (Z * seedStream) :=
  match fuel with
  | O => None
  | S fuel' =>
      let '(v, s') := draw s in
      if (v <? intn_limit m)%Z then Some (v mod m, s')%Z else reject fuel' m s'
  end.

(** [uint32(m)] is a divisor: it panics when it is zero. *)
Definition intn (fuel : nat) (m : Z) (s : seedStream) : Outcome (option (Z * seedStream)) :=
  if (m <=? 1)%Z then Ok (Some (0%Z, s))
  else if (m mod 2 ^ 32 =? 0)%Z then Panic "integer divide by zero"
  else Ok (reject fuel (m mod 2 ^ 32) s).

(** [perm[i], perm[j] = perm[j], perm[i]]. *)
Definition swap (i j : nat) (perm : list Z) : list Z :=
  match perm !! i, perm !! j with
  | Some x, Some y => <[j := x]> (<[i := y]> perm)
  | _, _ => perm
  end.

(** The loop for [i] down to 1. *)
Fixpoint fisher_yates (fuel i : nat) (s : seedStream) (perm : list Z) : Outcome (option (list Z)) :=
  match i with
  | O => Ok (Some perm)
  | S i' =>
      match intn fuel (Z.of_nat i + 1) s with
      | Ok (Some (j, s')) => fisher_yates fuel i' s' (swap i (Z.to_nat j) perm)
      | Ok None => Ok None
      | Err e => Err e
      | Panic w => Panic w
      end
  end.

Definition SlotPermutation (fuel : nat) (sd : bytes) (n : Z) : Outcome (option (list Z)) :=
  if (n <? 0)%Z then Panic "makeslice: len out of range"
  else fisher_yates fuel (Z.to_nat n - 1) {| seed := sd; counter := 0; buf := []; off := 0 |}
         (Z.of_nat <$> seq 0 (Z.to_nat n)).

(** ** ECIES (ecies.go) *)

Definition x25519KeyLen : nat := 32.
Definition gcmNonceLen : nat := 12.
Definition hkdfInfo : string := "ares_onion_v1".

(** The cryptographic library: a key is its raw bytes; [R] is the state of
    the random source. *)
Record Crypto (R : Type) := {
  NewPublicKey : bytes -> Outcome bytes;
  NewPrivateKey : bytes -> Outcome bytes;
  PublicKey : bytes -> bytes;
  GenerateKey : M R bytes;
  ECDH : bytes -> bytes -> Outcome bytes;
  hkdf : bytes -> bytes -> nat -> Outcome bytes;
  NewCipher : bytes -> Outcome bytes;
  NewGCM : bytes -> Outcome bytes;
  Seal : bytes -> bytes -> bytes -> bytes;
  Open : bytes -> bytes -> bytes -> Outcome bytes;
  ReadRand : nat -> M R bytes
}.
Arguments NewPublicKey {R} _ _.
Arguments NewPrivateKey {R} _ _.
Arguments PublicKey {R} _ _.
Arguments GenerateKey {R} _ _.
Arguments ECDH {R} _ _ _.
Arguments hkdf {R} _ _ _ _.
Arguments NewCipher {R} _ _.
Arguments NewGCM {R} _ _.
Arguments Seal {R} _ _ _ _.
Arguments Open {R} _ _ _ _.
Arguments ReadRand {R} _ _ _.

(** What the code relies on: a generated key is a key pair, its public key is
    32 bytes long, both sides of a Diffie-Hellman exchange agree, a nonce has
    the length asked for, and AES-GCM opens what it seals. *)
Class CryptoLaws {R : Type} (C : Crypto R) := {
  generated_private : forall r k r', GenerateKey C r = (Ok k, r') -> NewPrivateKey C k = Ok k;
  generated_public : forall k, NewPrivateKey C k = Ok k ->
    NewPublicKey C (PublicKey C k) = Ok (PublicKey C k) /\ length (PublicKey C k) = x25519KeyLen;
  ECDH_agree : forall a b, NewPrivateKey C a = Ok a -> NewPrivateKey C b = Ok b ->
    ECDH C a (PublicKey C b) = ECDH C b (PublicKey C a);
  ReadRand_length : forall n r b r', ReadRand C n r = (Ok b, r') -> length b = n;
  Open_Seal : forall k n p, length n = gcmNonceLen -> Open C k n (Seal C k n p) = Ok p
}.

Section Onion.
Context {R : Type} (C : Crypto R).

Definition lift {A} (f : GoError -> GoError) (o : Outcome A) : M R A := fun r =>
  match o with Ok a => (Ok a, r) | Err e => (Err (f e), r) | Panic w => (Panic w, r) end.

(** [fmt.Errorf("onion: ...: %w", err)]. *)
Definition wrapped (what : string) (e : GoError) : GoError := Errorf [T ("onion: " +:+ what +:+ ": "); W e].

Definition GenerateSlotKey : M R (bytes * bytes) :=
  let! k := wrap_err (wrapped "x25519 keygen") (GenerateKey C) in ret (k, PublicKey C k).

Definition deriveKey (shared : bytes) : M R bytes :=
  lift (wrapped "hkdf") (hkdf C shared (of_string hkdfInfo) 32).

Definition newGCM (key : bytes) : M R bytes :=
  let! block := lift (wrapped "aes") (NewCipher C key) in lift (wrapped "gcm") (NewGCM C block).

Definition ECIESEncrypt (recipientPub plaintext : bytes) : M R bytes :=
  let! rpub := lift (wrapped "bad recipient pubkey") (NewPublicKey C recipientPub) in
  let! eph := wrap_err (wrapped "ephemeral keygen") (GenerateKey C) in
  let! shared := lift (wrapped "ecdh") (ECDH C eph rpub) in
  let! key := deriveKey shared in
  let! gcm := newGCM key in
  let! nonce := wrap_err (wrapped "nonce") (ReadRand C gcmNonceLen) in
  ret (PublicKey C eph ++ nonce ++ Seal C gcm nonce plaintext).

Definition ECIESDecrypt (recipientPriv envelope : bytes) : M R bytes :=
  if (length envelope <? x25519KeyLen + gcmNonceLen)%nat then throw (ErrorsNew "onion: envelope too short")
  else
    let! rpriv := lift (wrapped "bad recipient privkey") (NewPrivateKey C recipientPriv) in
    let! ephPub := lift (wrapped "bad ephemeral pubkey") (NewPublicKey C (take x25519KeyLen envelope)) in
    let nonce := take gcmNonceLen (drop x25519KeyLen envelope) in
    let ct := drop (x25519KeyLen + gcmNonceLen) envelope in
    let! shared := lift (wrapped "ecdh") (ECDH C rpriv ephPub) in
    let! key := deriveKey shared in
    let! gcm := newGCM key in
    lift (wrapped "aead open") (Open C gcm nonce ct).

(** ** Onions (onion.go) *)

(** The layers from the last one to layer [i]; [memo] is the builder's. *)
Fixpoint wrap_layers (i : nat) (pubs : list bytes) (selfIndex : Z) (data : bytes)
  : M R (bytes * option bytes) :=
  match pubs with
  | [] => ret (data, None)
  | pub :: pubs' =>
      let! dm := wrap_layers (S i) pubs' selfIndex data in
      let! enc := wrap_err (wrapped ("wrap layer " +:+ pretty i)) (ECIESEncrypt pub dm.1) in
      ret (enc, if (Z.of_nat i =? selfIndex)%Z then Some enc else dm.2)
  end.

Definition BuildOnion (payload : bytes) (peelOrderPubs : list bytes) (selfIndex : Z)
  : M R (bytes * option bytes) :=
  if (selfIndex <? 0)%Z || (Z.of_nat (length peelOrderPubs) <=? selfIndex)%Z then
    throw (Errorf [T "onion: selfIndex "; T (pretty selfIndex); T " out of range [0,";
             T (pretty (length peelOrderPubs)); T ")"])
  else wrap_layers 0 peelOrderPubs selfIndex payload.

(** The loop over the batch; a later match replaces an earlier one. *)
Fixpoint peel_items (i : nat) (myPriv : bytes) (selfMemo : option bytes) (onions : list bytes) (own : Z)
  : M R (list bytes * Z) :=
  match onions with
  | [] => ret ([], own)
  | o :: onions' =>
      let own := if decide (selfMemo = Some o) then Z.of_nat i else own in
      let! inner := wrap_err (fun e => Errorf [T "onion: peel item "; T (pretty i); T ": "; W e])
        (ECIESDecrypt myPriv o) in
      let! rest := peel_items (S i) myPriv selfMemo onions' own in
      ret (inner :: rest.1, rest.2)
  end.

Definition PeelBatch (myPriv : bytes) (selfMemo : option bytes) (onions : list bytes) : M R (list bytes * Z) :=
  let! res := peel_items 0 myPriv selfMemo onions (-1) in
  match selfMemo with
  | Some _ => if (res.2 <? 0)%Z then throw (ErrorsNew "onion: selfMemo did not match any item in batch") else ret res
  | None => ret res
  end.

(** *** The gossip round

    Each peeler in turn removes its layer from the batch and forwards it in an
    order of its own. *)
Fixpoint gossip (reorder : nat -> list bytes -> list bytes) (i : nat) (peelers : list (bytes * option bytes))
    (batch : list bytes) : M R (list bytes) :=
  match peelers with
  | [] => ret batch
  | (priv, memo) :: peelers' =>
      let! res := PeelBatch priv memo batch in
      gossip reorder (S i) peelers' (reorder i res.1)
  end.
End Onion.

(** ** Properties of the permutation *)

#[global] Opaque next draw.
#[global] Arguments intn_limit : simpl never.

Section Permutations.
Local Open Scope Z_scope.

Lemma swap_Permutation i j perm : swap i j perm ≡ₚ perm.
Proof.
  unfold swap. destruct (perm !! i) as [x|] eqn:Ei; [|done]. destruct (perm !! j) as [y|] eqn:Ej; [|done].
  destruct (decide (i = j)) as [->|Hne].
  - rewrite list_insert_insert_eq. rewrite list_insert_id; [done|congruence].
  - by apply Permutation_insert_swap.
Qed.

Lemma reject_range fuel m s v s' : 0 < m -> reject fuel m s = Some (v, s') -> 0 <= v < m.
Proof.
  intros Hm. revert s. induction fuel as [|fuel IH]; intros s; cbn [reject]; [done|].
  destruct (draw s) as [x s1]. destruct (Z.ltb_spec x (intn_limit m)); [|apply IH].
  intros [= <- <-]. by apply Z.mod_pos_bound.
Qed.

(** The stream after [k] draws, and its [k]-th draw. *)
Definition stream_at (s : seedStream) (k : nat) : seedStream := Nat.iter k (fun s => (draw s).2) s.
Definition draw_at (s : seedStream) (k : nat) : Z := (draw (stream_at s k)).1.

Lemma stream_at_S s k : stream_at s (S k) = stream_at (draw s).2 k.
Proof.
  unfold stream_at. induction k as [|k IH]; [done|].
  change (Nat.iter (S (S k)) (fun s => (draw s).2) s) with ((draw (Nat.iter (S k) (fun s => (draw s).2) s)).2).
  by rewrite IH.
Qed.

Lemma stream_at_add s a b : stream_at (stream_at s a) b = stream_at s (a + b).
Proof.
  revert s. induction a as [|a IH]; intros s; [done|].
  change (S a + b)%nat with (S (a + b)). by rewrite !stream_at_S, IH.
Qed.

(** The loop returns as soon as one of its draws is accepted. *)
Lemma reject_returns fuel m s i :
  (i < fuel)%nat -> draw_at s i < intn_limit m ->
  exists v k, (k <= fuel)%nat /\ reject fuel m s = Some (v, stream_at s k).
Proof.
  revert s i. induction fuel as [|fuel IH]; intros s i Hi Hd; [lia|]. cbn [reject].
  destruct (draw s) as [x s1] eqn:Es. destruct (Z.ltb_spec x (intn_limit m)) as [Hx|Hx].
  - exists (x mod m), 1%nat. split; [lia|]. rewrite stream_at_S, Es. reflexivity.
  - destruct i as [|i].
    { unfold draw_at in Hd. change (stream_at s 0) with s in Hd. rewrite Es in Hd. cbn [fst] in Hd. lia. }
    assert (Hs1 : s1 = (draw s).2) by (by rewrite Es).
    destruct (IH s1 i) as (v & k & Hk & Hr); [lia|unfold draw_at in *; by rewrite Hs1, <- stream_at_S|].
    exists v, (S k). split; [lia|]. by rewrite stream_at_S, <- Hs1.
Qed.

Lemma intn_limit_half m : 2 <= m < 2 ^ 31 -> 2 ^ 31 <= intn_limit m.
Proof.
  intros Hm. unfold intn_limit. pose proof (Z.div_mod (2 ^ 32 - 1) m). pose proof (Z.mod_pos_bound (2 ^ 32 - 1) m). nia.
Qed.

(** *** The choices of a shuffle *)

Fixpoint shuffle (i : nat) (js : list nat) (perm : list Z) : list Z :=
  match i, js with
  | S i', j :: js' => shuffle i' js' (swap i j perm)
  | _, _ => perm
  end.

(** One choice [j <= i] for every [i] from the top down to 1. *)
Fixpoint choices (i : nat) (js : list nat) : Prop :=
  match i, js with
  | O, [] => True
  | S i', j :: js' => (j <= i)%nat /\ choices i' js'
  | _, _ => False
  end.

Lemma fisher_yates_shuffle fuel i s perm p :
  Z.of_nat i < 2 ^ 31 -> fisher_yates fuel i s perm = Ok (Some p) ->
  exists js, choices i js /\ p = shuffle i js perm.
Proof.
  revert s perm. induction i as [|i IH]; intros s perm Hi; cbn [fisher_yates].
  { intros [= <-]. by exists []. }
  unfold intn. destruct (Z.leb_spec (Z.of_nat (S i) + 1) 1); [lia|].
  rewrite !Z.mod_small by lia. destruct (Z.eqb_spec (Z.of_nat (S i) + 1) 0); [lia|].
  destruct (reject _ _ _) as [[j s']|] eqn:Er; [|done].
  apply reject_range in Er; [|lia]. intros Hp. apply IH in Hp as (js & Hjs & ->); [|lia].
  exists (Z.to_nat j :: js). split; [|done]. split; [lia|done].
Qed.

Lemma shuffle_Permutation i js perm : shuffle i js perm ≡ₚ perm.
Proof.
  revert js perm. induction i as [|i IH]; intros [|j js] perm; simpl; [done..|].
  by rewrite IH, swap_Permutation.
Qed.

Lemma fisher_yates_returns fuel i s perm :
  Z.of_nat i + 1 < 2 ^ 31 ->
  (forall k, (k <= i * fuel)%nat -> exists d, (d < fuel)%nat /\ draw_at s (k + d) < 2 ^ 31) ->
  exists p, fisher_yates fuel i s perm = Ok (Some p).
Proof.
  revert s perm. induction i as [|i IH]; intros s perm Hi Hd; cbn [fisher_yates]; [by eexists|].
  unfold intn. destruct (Z.leb_spec (Z.of_nat (S i) + 1) 1); [lia|].
  rewrite !Z.mod_small by lia. destruct (Z.eqb_spec (Z.of_nat (S i) + 1) 0); [lia|].
  destruct (Hd 0%nat) as (d & Hlt & Hacc); [lia|].
  destruct (reject_returns fuel (Z.of_nat (S i) + 1) s d Hlt) as (v & k & Hk & ->).
  { pose proof (intn_limit_half (Z.of_nat (S i) + 1)). change (0 + d)%nat with d in Hacc. lia. }
  apply IH; [lia|]. intros k' Hk'. destruct (Hd (k + k')%nat) as (d' & Hd' & Ha'); [lia|].
  exists d'. split; [done|]. unfold draw_at in *. rewrite stream_at_add. by replace (k + (k' + d'))%nat with (k + k' + d')%nat by lia.
Qed.

Lemma swap_above i j k perm : (j <= i)%nat -> (i < k)%nat -> swap i j perm !! k = perm !! k.
Proof.
  intros Hj Hk. unfold swap. destruct (perm !! i), (perm !! j); try done.
  by rewrite !list_lookup_insert_ne by lia.
Qed.

Lemma shuffle_above i js k perm : choices i js -> (i < k)%nat -> shuffle i js perm !! k = perm !! k.
Proof.
  revert js perm. induction i as [|i IH]; intros [|j js] perm Hc Hk; simpl in *; try done.
  destruct Hc as [Hj Hc]. rewrite IH by (done || lia). apply swap_above; lia.
Qed.

Lemma swap_at i j perm : (j <= i)%nat -> (i < length perm)%nat -> swap i j perm !! i = perm !! j.
Proof.
  intros Hj Hi. unfold swap.
  destruct (lookup_lt_is_Some_2 perm i) as [x Hx]; [lia|].
  destruct (lookup_lt_is_Some_2 perm j) as [y Hy]; [lia|]. rewrite Hx, Hy.
  destruct (decide (i = j)) as [->|Hne].
  - rewrite list_insert_insert_eq, list_lookup_insert_eq by done.
    congruence.
  - rewrite list_lookup_insert_ne by done. by rewrite list_lookup_insert_eq by done.
Qed.

Lemma shuffle_inj i js js' perm :
  NoDup perm -> (i < length perm)%nat -> choices i js -> choices i js' ->
  shuffle i js perm = shuffle i js' perm -> js = js'.
Proof.
  revert js js' perm. induction i as [|i IH]; intros [|j js] [|j' js'] perm Hnd Hi Hc Hc' He; simpl in *; try done.
  destruct Hc as [Hj Hc], Hc' as [Hj' Hc'].
  assert (Hjj : perm !! j = perm !! j').
  { apply (f_equal (lookup (S i))) in He. rewrite !shuffle_above in He by (done || lia).
    by rewrite !swap_at in He by lia. }
  assert (j = j') as <-.
  { destruct (lookup_lt_is_Some_2 perm j) as [x Hx]; [lia|].
    eapply NoDup_lookup; [done|exact Hx|congruence]. }
  f_equal. eapply IH; [| |done|done|exact He].
  - by rewrite swap_Permutation.
  - rewrite (Permutation_length (swap_Permutation (S i) j perm)). lia.
Qed.

(** The draws below [q * m] with residue [r]. *)
Lemma residue_count m r q :
  0 <= r < m -> length (filter (fun v => v mod m = r) (seqZ 0 (Z.of_nat q * m))) = q.
Proof.
  intros Hr. induction q as [|q IH]; [done|].
  replace (Z.of_nat (S q) * m) with (Z.of_nat q * m + m) by lia.
  rewrite seqZ_app by nia. rewrite filter_app, length_app, IH, Z.add_0_l.
  enough (Hone : length (filter (fun v => v mod m = r) (seqZ (Z.of_nat q * m) m)) = 1%nat) by lia.
  replace (seqZ (Z.of_nat q * m) m) with (seqZ (Z.of_nat q * m) (r + (1 + (m - r - 1)))) by (f_equal; lia).
  rewrite !seqZ_app by lia.
  rewrite !filter_app, !length_app.
  assert (Hnone : forall a n, (forall v, a <= v < a + n -> v mod m <> r) ->
    length (filter (fun v => v mod m = r) (seqZ a n)) = 0%nat).
  { intros a n Hno. destruct (filter (fun v => v mod m = r) (seqZ a n)) as [|v l] eqn:E; [reflexivity|].
    assert (Hv : v ∈ v :: l) by left. rewrite <- E in Hv.
    apply list_elem_of_filter in Hv as [Hm Hv%elem_of_seqZ]. destruct (Hno v Hv Hm). }
  assert (Hmod : forall v, 0 <= v < m -> (Z.of_nat q * m + v) mod m = v).
  { intros v Hv. rewrite Z.add_comm, Z.mod_add by lia. by apply Z.mod_small. }
  rewrite (Hnone (Z.of_nat q * m) r), (Hnone _ (m - r - 1)).
  - rewrite seqZ_cons by lia. rewrite filter_cons_True by (apply Hmod; lia).
    reflexivity.
  - intros v Hv. replace v with (Z.of_nat q * m + (v - Z.of_nat q * m)) by lia. rewrite Hmod by lia. lia.
  - intros v Hv. replace v with (Z.of_nat q * m + (v - Z.of_nat q * m)) by lia. rewrite Hmod by lia. lia.
Qed.

Lemma seq_seqZ n : Z.of_nat <$> seq 0 (Z.to_nat n) = seqZ 0 n.
Proof. unfold seqZ. apply list_fmap_ext. intros i x _. lia. Qed.

Lemma SlotPermutation_perm fuel sd n p :
  0 <= n < 2 ^ 31 -> SlotPermutation fuel sd n = Ok (Some p) -> p ≡ₚ seqZ 0 n.
Proof.
  intros Hn. unfold SlotPermutation. destruct (Z.ltb_spec n 0); [lia|]. rewrite seq_seqZ.
  intros (js & _ & ->)%fisher_yates_shuffle; [|lia]. apply shuffle_Permutation.
Qed.

(** Slot assignment: every party that holds the seed computes, from the
    same stream, the same permutation of [0, n); the computation returns as
    soon as none of its steps meets [fuel] draws of 2^31 or more in a row, and
    no accepted draw makes it panic. *)
Lemma SlotPermutation_spec fuel sd n :
  let s0 := {| seed := sd; counter := 0; buf := []; off := 0 |} in
  0 <= n < 2 ^ 31 ->
  (forall p, SlotPermutation fuel sd n = Ok (Some p) -> p ≡ₚ seqZ 0 n) /\
  ((forall k, (k <= (Z.to_nat n - 1) * fuel)%nat -> exists d, (d < fuel)%nat /\ draw_at s0 (k + d) < 2 ^ 31) ->
   exists p, SlotPermutation fuel sd n = Ok (Some p) /\ p ≡ₚ seqZ 0 n).
Proof.
  intros s0 Hn. split; [intros p; by apply SlotPermutation_perm|]. intros Hd.
  destruct (fisher_yates_returns fuel (Z.to_nat n - 1) s0 (seqZ 0 n)) as [p Hp]; [lia|exact Hd|].
  assert (Hs : SlotPermutation fuel sd n = Ok (Some p)).
  { unfold SlotPermutation. destruct (Z.ltb_spec n 0); [lia|]. by rewrite seq_seqZ. }
  exists p. split; [exact Hs|by eapply SlotPermutation_perm].
Qed.

(** The loop returns the residue of its first accepted draw. *)
Lemma reject_first fuel m s v s' :
  reject fuel m s = Some (v, s') ->
  exists k, draw_at s k < intn_limit m /\ v = draw_at s k mod m /\ s' = stream_at s (S k) /\
    forall i, (i < k)%nat -> intn_limit m <= draw_at s i.
Proof.
  revert s. induction fuel as [|fuel IH]; intros s; cbn [reject]; [done|].
  destruct (draw s) as [x s1] eqn:Es. assert (Hs1 : s1 = (draw s).2) by by rewrite Es.
  assert (Hx : draw_at s 0 = x) by (unfold draw_at; change (stream_at s 0) with s; by rewrite Es).
  destruct (Z.ltb_spec x (intn_limit m)) as [Hlt|Hge].
  - intros [= <- <-]. exists 0%nat. rewrite Hx. split; [done|]. split; [done|]. split; [|intros i Hi; lia].
    rewrite stream_at_S, <- Hs1. reflexivity.
  - intros (k & Hk & Hv & Hs' & Hmin)%IH. exists (S k). unfold draw_at in *. rewrite stream_at_S, <- Hs1.
    split; [done|]. split; [done|]. split; [by rewrite (stream_at_S s (S k)), <- Hs1|].
    intros [|i] Hi; [by rewrite Hx|]. rewrite stream_at_S, <- Hs1. apply Hmin. lia.
Qed.

(** No slot order is favoured: a step of the shuffle uses the residue of
    the first draw it does not reject; the accepted draws hold every residue
    equally often, and fewer than [m] of the 2^32 values are rejected; every
    order computed is the shuffle of one choice per step, and different choices
    give different orders. *)
Lemma slot_order_unbiased m r :
  2 <= m < 2 ^ 32 -> 0 <= r < m ->
  (forall fuel s v s', reject fuel m s = Some (v, s') ->
     exists k, draw_at s k < intn_limit m /\ v = draw_at s k mod m /\
       forall i, (i < k)%nat -> intn_limit m <= draw_at s i) /\
  length (filter (fun v => v mod m = r) (seqZ 0 (intn_limit m))) = Z.to_nat ((2 ^ 32 - 1) / m) /\
  2 ^ 32 - m <= intn_limit m < 2 ^ 32 /\
  (forall fuel sd n p, (0 < n)%nat -> Z.of_nat n < 2 ^ 31 -> SlotPermutation fuel sd (Z.of_nat n) = Ok (Some p) ->
     exists js, choices (n - 1) js /\ p = shuffle (n - 1) js (seqZ 0 (Z.of_nat n)) /\
       forall js', choices (n - 1) js' -> shuffle (n - 1) js' (seqZ 0 (Z.of_nat n)) = p -> js' = js).
Proof.
  intros Hm Hr. split; [|split; [|split]].
  - intros fuel s v s' (k & ? & ? & _ & ?)%reject_first. by exists k.
  - unfold intn_limit. rewrite <- (Z2Nat.id ((2 ^ 32 - 1) / m)) at 1 by (apply Z.div_pos; lia).
    by rewrite residue_count.
  - unfold intn_limit. pose proof (Z.div_mod (2 ^ 32 - 1) m). pose proof (Z.mod_pos_bound (2 ^ 32 - 1) m). nia.
  - intros fuel sd n p Hn Hb Hp. unfold SlotPermutation in Hp. destruct (Z.ltb_spec (Z.of_nat n) 0); [lia|].
    rewrite seq_seqZ, Nat2Z.id in Hp. apply fisher_yates_shuffle in Hp as (js & Hc & ->); [|lia].
    exists js. split; [done|]. split; [done|]. intros js' Hc' He.
    apply (shuffle_inj (n - 1) js' js (seqZ 0 (Z.of_nat n))); [apply NoDup_seqZ|rewrite length_seqZ; lia|done..].
Qed.
End Permutations.

(** ** Properties of the envelope and the onion *)

Section OnionProperties.
Context {R : Type} (C : Crypto R) `{!CryptoLaws C}.
Implicit Types (r : R) (priv payload : bytes).

Lemma lift_Ok_inv {A} f (o : Outcome A) r a r' : lift f o r = (Ok a, r') -> o = Ok a /\ r' = r.
Proof. destruct o; simpl; by intros [= <- <-]. Qed.

Definition is_key priv : Prop := NewPrivateKey C priv = Ok priv.

(** What an envelope is made of. *)
Lemma ECIESEncrypt_Ok pub pt r env r' :
  ECIESEncrypt C pub pt r = (Ok env, r') ->
  exists rpub eph shared key block gcm nonce,
    NewPublicKey C pub = Ok rpub /\ is_key eph /\ ECDH C eph rpub = Ok shared /\
    hkdf C shared (of_string hkdfInfo) 32 = Ok key /\ NewCipher C key = Ok block /\ NewGCM C block = Ok gcm /\
    length nonce = gcmNonceLen /\ env = PublicKey C eph ++ nonce ++ Seal C gcm nonce pt.
Proof.
  unfold ECIESEncrypt, deriveKey, newGCM. intros Hb.
  apply bind_Ok_inv in Hb as (rpub & r1 & [H1 ->]%lift_Ok_inv & Hb).
  apply bind_Ok_inv in Hb as (eph & r2 & H2%wrap_err_Ok_inv & Hb).
  apply bind_Ok_inv in Hb as (shared & r3 & [H3 ->]%lift_Ok_inv & Hb).
  apply bind_Ok_inv in Hb as (key & r4 & [H4 ->]%lift_Ok_inv & Hb).
  apply bind_Ok_inv in Hb as (gcm & r5 & Hg & Hb).
  apply bind_Ok_inv in Hg as (block & r6 & [H5 ->]%lift_Ok_inv & [H6 ->]%lift_Ok_inv).
  apply bind_Ok_inv in Hb as (nonce & r7 & H7%wrap_err_Ok_inv & Hb). injection Hb as <- _.
  exists rpub, eph, shared, key, block, gcm, nonce. split_and!; try done.
  - by eapply generated_private.
  - by eapply ReadRand_length.
Qed.

Lemma ECIES_open priv pt r env r' :
  is_key priv -> ECIESEncrypt C (PublicKey C priv) pt r = (Ok env, r') ->
  forall q, ECIESDecrypt C priv env q = (Ok pt, q).
Proof.
  intros Hk He q. destruct (ECIESEncrypt_Ok _ _ _ _ _ He)
    as (rpub & eph & shared & key & block & gcm & nonce & H1 & H2 & H3 & H4 & H5 & H6 & H7 & ->).
  destruct (generated_public priv Hk) as [Hp _]. destruct (generated_public eph H2) as [Hep Hel].
  rewrite Hp in H1. injection H1 as <-.
  unfold ECIESDecrypt, deriveKey, newGCM.
  rewrite (proj2 (Nat.ltb_ge _ _)) by (rewrite !length_app; lia).
  rewrite (app_assoc (PublicKey C eph) nonce), (drop_app_length' _ _ (x25519KeyLen + gcmNonceLen)) by (rewrite length_app; lia).
  rewrite <- (app_assoc (PublicKey C eph) nonce), (take_app_length' _ _ x25519KeyLen) by lia.
  rewrite (drop_app_length' _ _ x25519KeyLen) by lia. rewrite (take_app_length' nonce _ gcmNonceLen) by lia.
  unfold bind, lift. rewrite Hk, Hep, (ECDH_agree priv eph) by done. rewrite H3, H4, H5, H6.
  by rewrite Open_Seal.
Qed.

(** An envelope opens to its plaintext with the recipient's private key,
    and nothing shorter than a public key and a nonce opens at all. *)
Lemma ECIES_roundtrip priv pt r env r' :
  is_key priv -> ECIESEncrypt C (PublicKey C priv) pt r = (Ok env, r') ->
  (forall q, ECIESDecrypt C priv env q = (Ok pt, q)) /\
  (x25519KeyLen + gcmNonceLen <= length env)%nat /\
  (forall short q, (length short < x25519KeyLen + gcmNonceLen)%nat ->
     exists e, ECIESDecrypt C priv short q = (Err e, q)).
Proof.
  intros Hk He. split; [by eapply ECIES_open|]. split.
  - destruct (ECIESEncrypt_Ok _ _ _ _ _ He) as (? & eph & ? & ? & ? & ? & nonce & _ & H2 & _ & _ & _ & _ & H7 & ->).
    destruct (generated_public eph H2) as [_ Hl]. rewrite !length_app. lia.
  - intros short q Hs. unfold ECIESDecrypt. rewrite (proj2 (Nat.ltb_lt _ _) Hs). by eexists.
Qed.

(** *** Layers *)

(** [layers] are the successive contents of an onion under the peelers' keys,
    the onion first and the payload last. *)
Inductive layered : list bytes -> list bytes -> Prop :=
| layered_payload payload : layered [] [payload]
| layered_wrap priv privs o inner layers :
    (forall q, ECIESDecrypt C priv o q = (Ok inner, q)) ->
    layered privs (inner :: layers) ->
    layered (priv :: privs) (o :: inner :: layers).

Lemma wrap_layers_Ok i privs self payload r data memo r' :
  Forall is_key privs ->
  wrap_layers C i (PublicKey C <$> privs) self payload r = (Ok (data, memo), r') ->
  exists layers, layered privs (data :: layers) /\ last (data :: layers) = Some payload /\
    memo = (if (Z.of_nat i <=? self)%Z && (self <? Z.of_nat (i + length privs))%Z
            then (data :: layers) !! Z.to_nat (self - Z.of_nat i) else None).
Proof.
  revert i r data memo r'. induction privs as [|priv privs IH]; intros i r data memo r' Hk Hw; simpl in Hw.
  - injection Hw as <- <- _. exists []. split; [constructor|]. split; [done|].
    destruct (Z.leb_spec (Z.of_nat i) self), (Z.ltb_spec self (Z.of_nat (i + length (@nil bytes))));
      simpl in *; (done || lia).
  - apply Forall_cons in Hk as [Hp Hk].
    apply bind_Ok_inv in Hw as ([inner m] & r1 & Hrest & Hw).
    apply bind_Ok_inv in Hw as (enc & r2 & Henc%wrap_err_Ok_inv & Hw). simpl in *. injection Hw as <- <- _.
    apply IH in Hrest as (layers & Hl & Hlast & ->); [|done].
    exists (inner :: layers). split; [|split; [done|]].
    + constructor; [by eapply ECIES_open|done].
    + destruct (Z.eqb_spec (Z.of_nat i) self) as [<-|Hne].
      * rewrite Z.leb_refl, (proj2 (Z.ltb_lt _ _)) by lia. by rewrite Z.sub_diag.
      * replace (S i + length privs)%nat with (i + S (length privs))%nat by lia.
        destruct (Z.leb_spec (Z.of_nat (S i)) self), (Z.leb_spec (Z.of_nat i) self); simpl; try done; try lia.
        destruct (Z.ltb_spec self (Z.of_nat (i + S (length privs)))); [|done].
        replace (Z.to_nat (self - Z.of_nat i)) with (S (Z.to_nat (self - Z.of_nat (S i)))) by lia. done.
Qed.

Lemma layered_length privs layers : layered privs layers -> length layers = S (length privs).
Proof. induction 1; simpl in *; lia. Qed.

Lemma layered_step privs layers i priv o :
  layered privs layers -> privs !! i = Some priv -> layers !! i = Some o ->
  exists inner, layers !! S i = Some inner /\ forall q, ECIESDecrypt C priv o q = (Ok inner, q).
Proof.
  intros Hl. revert i. induction Hl as [payload|p ps o' inner layers Hd _ IH]; intros [|i] Hp Ho; simpl in *; try done.
  - injection Hp as <-. injection Ho as <-. by exists inner.
  - by apply IH.
Qed.

(** *** Peeling a batch *)

Definition opened priv (o : bytes) r : bytes :=
  match (ECIESDecrypt C priv o r).1 with Ok inner => inner | _ => [] end.
Definition opens priv (o : bytes) : Prop := exists inner, forall q, ECIESDecrypt C priv o q = (Ok inner, q).

Lemma opens_opened priv o r : opens priv o -> ECIESDecrypt C priv o r = (Ok (opened priv o r), r).
Proof. intros [inner Hd]. unfold opened. by rewrite Hd. Qed.

Lemma peel_items_Ok i priv memo onions own r :
  (forall o, o ∈ onions -> opens priv o) ->
  exists own', peel_items C i priv memo onions own r = (Ok ((fun o => opened priv o r) <$> onions, own'), r) /\
    (own' = own \/ exists k, own' = Z.of_nat (i + k) /\ memo = onions !! k /\ is_Some memo) /\
    (forall m, memo = Some m -> m ∈ onions -> (Z.of_nat i <= own')%Z).
Proof.
  revert i own. induction onions as [|o onions IH]; intros i own Ho.
  - exists own. split; [done|]. split; [by left|]. intros m _ Hm. by apply elem_of_nil in Hm.
  - simpl. set (own1 := if decide (memo = Some o) then Z.of_nat i else own).
    destruct (IH (S i) own1) as (own' & He & Hc & Hm); [intros; apply Ho; by right|]. exists own'.
    unfold bind, wrap_err. rewrite (opens_opened priv o r) by (apply Ho; by left). rewrite He.
    split; [done|]. split.
    + destruct Hc as [->|(k & -> & Hk & Hs)].
      * unfold own1. destruct (decide (memo = Some o)) as [->|]; [right|by left]. exists 0. split; [lia|]. by split.
      * right. exists (S k). split; [lia|]. by split.
    + intros m Hme Hin. destruct Hc as [->|(k & -> & _)]; [|lia]. unfold own1.
      destruct (decide (memo = Some o)) as [|Hne]; [lia|].
      apply elem_of_cons in Hin as [->|Hin]; [congruence|]. specialize (Hm m Hme Hin).
      unfold own1 in Hm. lia.
Qed.

Lemma PeelBatch_Ok priv m onions r :
  (forall o, o ∈ onions -> opens priv o) -> m ∈ onions ->
  exists k, onions !! k = Some m /\
    PeelBatch C priv (Some m) onions r = (Ok ((fun o => opened priv o r) <$> onions, Z.of_nat k), r).
Proof.
  intros Ho Hm. destruct (peel_items_Ok 0 priv (Some m) onions (-1) r Ho) as (own & He & Hc & Hle).
  specialize (Hle m eq_refl Hm). destruct Hc as [->|(k & -> & Hk & _)]; [lia|].
  exists k. split; [done|]. unfold PeelBatch, bind. rewrite He. cbn [fst snd].
  rewrite (proj2 (Z.ltb_ge _ _)) by lia. done.
Qed.

Definition column (i : nat) (Ls : list (list bytes)) : list bytes := omap (fun L => L !! i) Ls.

Lemma column_step privs Ls i priv r :
  Forall (layered privs) Ls -> privs !! i = Some priv ->
  column (S i) Ls = (fun o => opened priv o r) <$> column i Ls /\ (forall o, o ∈ column i Ls -> opens priv o).
Proof.
  intros HL Hp. induction HL as [|L Ls Hl _ [IH1 IH2]]; [split; [done|]; intros o Ho; by apply elem_of_nil in Ho|].
  assert (Hi : i < length L) by (rewrite (layered_length _ _ Hl); apply lookup_lt_Some in Hp; lia).
  apply lookup_lt_is_Some_2 in Hi as [o Ho]. destruct (layered_step _ _ _ _ _ Hl Hp Ho) as (inner & Hn & Hd).
  unfold column in *. cbn [omap list_omap]. rewrite Ho, Hn. split.
  - simpl. f_equal; [by unfold opened; rewrite Hd|exact IH1].
  - intros o' [->|Hin]%elem_of_cons; [by exists inner|by apply IH2].
Qed.

Lemma gossip_Ok reorder privs Ls i peelers batch r :
  (forall k l, reorder k l ≡ₚ l) ->
  Forall (layered privs) Ls -> i + length peelers = length privs ->
  (forall k priv memo, peelers !! k = Some (priv, memo) ->
     privs !! (i + k) = Some priv /\ exists L m, Ls !! (i + k) = Some L /\ L !! (i + k) = Some m /\ memo = Some m) ->
  batch ≡ₚ column i Ls ->
  exists out, gossip C reorder i peelers batch r = (Ok out, r) /\ out ≡ₚ column (length privs) Ls.
Proof.
  intros Hre HL. revert i batch. induction peelers as [|[priv memo] peelers IH]; intros i batch Hlen Hpe Hb; simpl in *.
  - exists batch. split; [done|]. by replace (length privs) with i by lia.
  - destruct (Hpe 0 priv memo eq_refl) as (Hp & L & m & HLi & Hm & ->). rewrite Nat.add_0_r in *.
    destruct (column_step privs Ls i priv r HL Hp) as [Hcol Hop].
    assert (Hin : m ∈ batch).
    { rewrite Hb. apply list_elem_of_omap. exists L. split; [by apply list_elem_of_lookup_2 with i|done]. }
    destruct (PeelBatch_Ok priv m batch r) as (k & _ & He); [|done|].
    { intros o Ho. apply Hop. by rewrite <- Hb. }
    unfold bind. rewrite He. cbn [fst]. apply (IH (S i)); [lia| |].
    + intros j priv' memo' Hj. specialize (Hpe (S j) priv' memo' Hj).
      by replace (S i + j) with (i + S j) by lia.
    + by rewrite Hre, Hcol, Hb.
Qed.


(** A participant's payload, its onion and its memo. *)
Record posting := { post_payload : bytes; post_onion : bytes; post_memo : option bytes }.

Definition posted privs (j : nat) (b : posting) : Prop :=
  exists r r', BuildOnion C (post_payload b) (PublicKey C <$> privs) (Z.of_nat j) r =
    (Ok (post_onion b, post_memo b), r').

Definition layers_of privs (j : nat) (b : posting) (L : list bytes) : Prop :=
  layered privs L /\ last L = Some (post_payload b) /\ L !! 0 = Some (post_onion b) /\
  exists m, L !! j = Some m /\ post_memo b = Some m.

Lemma posted_layers privs j b : Forall is_key privs -> posted privs j b -> exists L, layers_of privs j b L.
Proof.
  intros Hk (r & r' & He). unfold BuildOnion in He. rewrite length_fmap in He.
  destruct (Z.ltb_spec (Z.of_nat j) 0), (Z.leb_spec (Z.of_nat (length privs)) (Z.of_nat j)); try done. simpl in He.
  apply wrap_layers_Ok in He as (layers & Hl & Hla & Hm); [|done].
  rewrite (proj2 (Z.leb_le _ _)), (proj2 (Z.ltb_lt _ _)) in Hm by lia. simpl in Hm. rewrite Z.sub_0_r, Nat2Z.id in Hm.
  exists (post_onion b :: layers). split_and!; try done.
  destruct (lookup_lt_is_Some_2 (post_onion b :: layers) j) as [m Hj].
  { rewrite (layered_length _ _ Hl). lia. }
  exists m. split; [done|]. by rewrite Hm.
Qed.

Lemma posted_all privs i bs :
  Forall is_key privs -> (forall j b, bs !! j = Some b -> posted privs (i + j) b) ->
  exists Ls, length Ls = length bs /\ forall j b, bs !! j = Some b -> exists L, Ls !! j = Some L /\ layers_of privs (i + j) b L.
Proof.
  intros Hk. revert i. induction bs as [|b bs IH]; intros i Hb; [by exists []|].
  destruct (IH (S i)) as (Ls & Hl & HLs).
  { intros j b' Hj. replace (S i + j) with (i + S j) by lia. by apply Hb. }
  destruct (posted_layers privs i b Hk) as [L HL].
  { specialize (Hb 0 b eq_refl). by rewrite Nat.add_0_r in Hb. }
  exists (L :: Ls). split; [simpl; lia|]. intros [|j] b' Hj; simpl in *.
  - injection Hj as <-. exists L. by rewrite Nat.add_0_r.
  - destruct (HLs j b' Hj) as (L' & ? & ?). exists L'. by replace (i + S j) with (S i + j) by lia.
Qed.

(** C12. The anonymous delivery round is total and lossless: when every
    participant wraps its payload for the whole peel order and each, in turn,
    peels the batch and forwards it in any order, no round fails, each
    participant finds the item it recognises as its own in its round, and
    what comes out is the payloads, in some order. *)
Theorem gossip_delivers reorder privs bs r :
  (forall k l, reorder k l ≡ₚ l) -> Forall is_key privs -> length bs = length privs ->
  (forall j b, bs !! j = Some b -> posted privs j b) ->
  exists out, gossip C reorder 0 (zip privs (post_memo <$> bs)) (post_onion <$> bs) r = (Ok out, r) /\
    out ≡ₚ post_payload <$> bs.
Proof.
  intros Hre Hk Hlen Hb. destruct (posted_all privs 0 bs Hk Hb) as (Ls & Hl & HLs).
  assert (HF : forall L, L ∈ Ls -> exists j b, bs !! j = Some b /\ Ls !! j = Some L /\ layers_of privs j b L).
  { intros L [j Hj]%list_elem_of_lookup. destruct (lookup_lt_is_Some_2 bs j) as [b Hbj].
    { rewrite <- Hl. by eapply lookup_lt_Some. }
    exists j, b. destruct (HLs j b Hbj) as (L' & HL' & Hlay). split; [done|]. split; [done|].
    rewrite Hj in HL'. injection HL' as <-. exact Hlay. }
  assert (Hlay : Forall (layered privs) Ls).
  { apply Forall_forall. intros L (j & b & _ & _ & Hy & _)%HF. done. }
  assert (Hcol : forall i (g : posting -> bytes), (forall j b L, layers_of privs j b L -> L !! i = Some (g b)) ->
    column i Ls = g <$> bs).
  { intros i g Hg. apply omap_Forall2, Forall2_same_length_lookup. rewrite length_fmap. split; [done|].
    intros j L x HL Hx. rewrite list_lookup_fmap in Hx. destruct (bs !! j) as [b|] eqn:Hj; [|done].
    injection Hx as <-. destruct (HLs j b Hj) as (L' & HL' & Hy). rewrite HL in HL'. injection HL' as <-. by eapply Hg. }
  destruct (gossip_Ok reorder privs Ls 0 (zip privs (post_memo <$> bs)) (post_onion <$> bs) r) as (out & He & Ho); [done|done| | | |].
  - rewrite length_zip_with, length_fmap. simpl. lia.
  - intros k priv memo Hz. simpl. apply lookup_zip_with_Some in Hz as (p & m & [= <- <-] & Hp & Hm).
    split; [done|]. rewrite list_lookup_fmap in Hm. destruct (bs !! k) as [b|] eqn:Hj; [|done]. injection Hm as <-.
    destruct (HLs k b Hj) as (L & HL & _ & _ & _ & m & HLm & Hmm). by exists L, m.
  - rewrite (Hcol 0 post_onion); [done|]. by intros j b L (_ & _ & ? & _).
  - exists out. split; [done|]. rewrite Ho, (Hcol (length privs) post_payload); [done|].
    intros j b L (Hy & Hla & _). by rewrite last_lookup, (layered_length _ _ Hy) in Hla.
Qed.
End OnionProperties.

(** ** A toy library and a three-party round *)

Module Witnesses.
Definition xor_bytes (a b : bytes) : bytes :=
  zip_with (fun x y => byte_of_N (N.lxor (Byte.to_N x) (Byte.to_N y))) a b.
Definition key32 (k : bytes) : Outcome bytes :=
  if decide (length k = 32) then Ok k else Err (ErrorsNew "crypto/ecdh: invalid key size").
Definition toy_open (k _ c : bytes) : Outcome bytes :=
  if decide (take (length k) c = k) then Ok (drop (length k) c)
  else Err (ErrorsNew "cipher: message authentication failed").

(** The random source is a counter. *)
Definition toy : Crypto N := {|
  NewPublicKey := key32; NewPrivateKey := key32; PublicKey := fun k => k;
  GenerateKey := fun r => (Ok (be_bytes 32 r), (r + 1)%N);
  ECDH := fun a b => Ok (xor_bytes a b);
  hkdf := fun s _ _ => Ok s; NewCipher := Ok; NewGCM := Ok;
  Seal := fun k _ p => k ++ p; Open := toy_open;
  ReadRand := fun n r => (Ok (be_bytes n r), (r + 1)%N) |}.

Lemma xor_bytes_comm a b : xor_bytes a b = xor_bytes b a.
Proof.
  revert b. induction a as [|x a IH]; intros [|y b]; try done. unfold xor_bytes in *. simpl.
  by rewrite IH, N.lxor_comm.
Qed.

#[export] Instance toy_laws : CryptoLaws toy.
Proof.
  split; simpl.
  - intros r k r' [= <- _]. unfold key32. by rewrite be_bytes_length.
  - intros k Hk. unfold key32 in *. by destruct (decide (length k = 32)).
  - intros a b _ _. by rewrite xor_bytes_comm.
  - intros n r b r' [= <- _]. apply be_bytes_length.
  - intros k n p _. unfold toy_open. rewrite take_app_length, drop_app_length. by rewrite decide_True.
Qed.

Definition privs : list bytes := [be_bytes 32 11; be_bytes 32 12; be_bytes 32 13].
Definition payloads : list bytes := [of_string "p0"; of_string "p1"; of_string "p2"].
Definition post (j : nat) (p : bytes) : posting :=
  match (BuildOnion toy p (PublicKey toy <$> privs) (Z.of_nat j) (N.of_nat j * 100)%N).1 with
  | Ok (o, m) => {| post_payload := p; post_onion := o; post_memo := m |}
  | _ => {| post_payload := p; post_onion := []; post_memo := None |}
  end.
Definition postings : list posting := imap post payloads.

Lemma privs_are_keys : Forall (is_key toy) privs.
Proof. repeat constructor. Qed.

Lemma postings_posted j b : postings !! j = Some b -> posted toy privs j b.
Proof.
  intros Hj. exists (N.of_nat j * 100)%N.
  destruct j as [|[|[|j]]]; [..|by apply lookup_lt_Some in Hj; simpl in Hj; lia];
    injection Hj as <-; eexists; apply outcome_of; vm_compute; reflexivity.
Qed.

(** Each peeler forwards the batch reversed. *)
Lemma gossip_delivers_witness :
  exists out, gossip toy (fun _ l => reverse l) 0 (zip privs (post_memo <$> postings)) (post_onion <$> postings) 0%N
    = (Ok out, 0%N) /\ out ≡ₚ payloads.
Proof.
  exact (gossip_delivers toy (fun _ l => reverse l) privs postings 0%N
    (fun _ l => reverse_Permutation l) privs_are_keys eq_refl postings_posted).
Defined.

Definition envelope : bytes :=
  match (ECIESEncrypt toy (be_bytes 32 11) (of_string "p0") 0%N).1 with Ok e => e | _ => [] end.
Lemma ECIES_roundtrip_witness : ECIESDecrypt toy (be_bytes 32 11) envelope 7%N = (Ok (of_string "p0"), 7%N).
Proof.
  assert (Hk : is_key toy (be_bytes 32 11)) by reflexivity.
  assert (He : ECIESEncrypt toy (PublicKey toy (be_bytes 32 11)) (of_string "p0") 0%N = (Ok envelope, 2%N))
    by (vm_compute; reflexivity).
  exact (proj1 (ECIES_roundtrip toy (be_bytes 32 11) (of_string "p0") 0%N envelope 2%N Hk He) 7%N).
Defined.

Definition s0 : seedStream := {| seed := of_string "seed"; counter := 0; buf := []; off := 0 |}.
Definition small_draw_within (fuel k : nat) : bool :=
  existsb (fun d => (draw_at s0 (k + d) <? 2 ^ 31)%Z) (seq 0 fuel).
Lemma small_draws : forallb (small_draw_within 3) (seq 0 7) = true.
Proof. vm_compute. reflexivity. Qed.

Lemma SlotPermutation_spec_witness :
  exists p, SlotPermutation 3 (of_string "seed") 3 = Ok (Some p) /\ p ≡ₚ seqZ 0 3.
Proof.
  assert (Hn : (0 <= 3 < 2 ^ 31)%Z) by lia.
  apply (proj2 (SlotPermutation_spec 3 (of_string "seed") 3 Hn)). intros k Hk.
  pose proof (proj1 (forallb_forall _ _) small_draws k) as Hs.
  assert (Hin : In k (seq 0 7)) by (apply in_seq; change ((Z.to_nat 3 - 1) * 3)%nat with 6 in Hk; lia).
  apply Hs, existsb_exists in Hin as (d & Hd & Hlt). exists d. apply in_seq in Hd. split; [lia|].
  by apply Z.ltb_lt.
Defined.

Example slot_order_of_seed : SlotPermutation 3 (of_string "seed") 4 = Ok (Some [3; 1; 2; 0]%Z).
Proof. vm_compute. reflexivity. Qed.

Lemma slot_order_unbiased_witness :
  length (filter (fun v => (v mod 6)%Z = 2%Z) (seqZ 0 (intn_limit 6))) = Z.to_nat ((2 ^ 32 - 1) / 6).
Proof.
  assert (Hm : (2 <= 6 < 2 ^ 32)%Z) by lia. assert (Hr : (0 <= 2 < 6)%Z) by lia.
  exact (proj1 (proj2 (slot_order_unbiased 6 2 Hm Hr))).
Defined.
End Witnesses.
