(* ===== verification/Anon.v ===== *)
(** * Anonymous slot assignment (pkg/ares/phase/anon)

    The participant's side of the onion shuffle, and the two phases that
    sequence it: [PhaseGShuffle] counts the peel rounds, [PhaseGVerify]
    assembles the ordered slot list and binds it to the signed submissions.
    The JSON codec, the signature key generator and the order of a range over a
    map are parameters. *)
From Stdlib Require Import ZArith NArith Lia String Ascii Strings.Byte.
From stdpp Require Import base gmap list strings pretty sorting.
From S2P Require Import Prelude Bytes.
From S2P Require Import GoFmt.
From S2P Require Import Sign.
From S2P Require Import Lineage.
From S2P Require Import Context.
From S2P Require Import Pipeline.
From S2P Require Import Runner.
From S2P Require Import Defaults.
From S2P Require Import RunnerSpec.
From S2P Require Import RunnerLineage.
From S2P Require Import Onion.

(** ** States and keys (states.go) *)

(** The participant list of these phases has a key of its own. *)
Definition anon_CtxParticipants : string := "anon.participants".
Definition CtxPeelRounds : string := "anon.peel_rounds".
Definition CtxAssembledSlotList : string := "anon.assembled_slot_list".
Definition RoleSlotSubmission : string := "slot-submission".
Definition MsgOnionBatch : string := "onion.batch".
Definition MsgPeelForward : string := "onion.peel_forward".
Definition MsgSlotSubmit : string := "slot.submit".
Definition bucketOnions : string := "anon.bucket.onions".
Definition bucketPeels : string := "anon.bucket.peels".
Definition bucketSlots : string := "anon.bucket.slots".

Definition AccumulatedOnions (c : SessionContext) : gmap string bytes := AccumulatedMessages bucketOnions c.

Record SlotEntry := { SlotIndex : Z; SlotDKPubHex : string }.

Definition anon_quorum (bucket : string) (c : SessionContext) : bool :=
  match TryGet asStrings anon_CtxParticipants c with
  | None => false
  | Some participants => QuorumReached bucket (Z.of_nat (length participants)) c
  end.

Section Phases.
Context {S : Type} `{Store S}.

(** ** The shuffle phase (shuffle.go) *)

Definition shuffle_OnMessage (msgType from : string) (payload : bytes) : M (HookState S) unit :=
  if String.eqb msgType MsgOnionBatch then modify_ctx (AccumulateMessage bucketOnions from payload)
  else if String.eqb msgType MsgPeelForward then modify_ctx (AccumulateMessage bucketPeels from payload)
  else ret tt.

Definition shuffle_Exit : M (HookState S) unit :=
  modify_ctx (fun c => ctx_Set CtxPeelRounds (AInt (Z.of_nat (size (AccumulatedMessages bucketPeels c)))) c).

Definition PhaseGShuffle : Phase S := {|
  Name := "anon-g-shuffle";
  Lifetime := LifetimePerSession; RunsAt := RunsAtInline;
  EntryState := StateGossip; ExitState := StateVerifying; InternalStates := [];
  ConsumedMessageTypes := [MsgOnionBatch; MsgPeelForward];
  Requires := [(anon_CtxParticipants, key_type "[]string" true [])];
  Provides := [(CtxPeelRounds, key_type "int" false [])];
  Enter := no_hook; OnMessage := shuffle_OnMessage;
  CheckComplete := anon_quorum bucketPeels; Exit := shuffle_Exit
|}.

(** ** The verification phase (verify.go) *)

Context (json_Unmarshal : bytes -> Outcome SlotEntry) (json_Marshal : list SlotEntry -> Outcome bytes).
Context (range : gmap string bytes -> list (string * bytes)).

Fixpoint gather (raw : list (string * bytes)) (seen : gset Z) : Outcome (list SlotEntry) :=
  match raw with
  | [] => Ok []
  | (sender, payload) :: raw' =>
      match json_Unmarshal payload with
      | Err e => Err (Errorf [T "anon: decode slot submission from "; T sender; T ": "; W e])
      | Panic w => Panic w
      | Ok e =>
          if decide (SlotIndex e ∈ seen) then
            Err (Errorf [T "anon: duplicate slot index "; T (pretty (SlotIndex e))])
          else match gather raw' ({[SlotIndex e]} ∪ seen) with
               | Ok entries => Ok (e :: entries)
               | o => o
               end
      end
  end.

Definition slot_le (a b : SlotEntry) : Prop := (SlotIndex a <= SlotIndex b)%Z.
#[export] Instance slot_le_dec : RelDecision slot_le.
Proof. intros a b. unfold slot_le. apply _. Defined.

(** The parent edges to the slot-submission nodes; a runner without lineage
    keeps the list without a node. *)
Definition commit_slot_list (encoded : bytes) : M (HookState S) unit := fun hs =>
  let parents := filter (fun n => Role n = RoleSlotSubmission) (LineageDAG hs) in
  match CommitArtifact "anon-g-verify" CtxAssembledSlotList encoded parents hs with
  | (Ok _, hs') => (Ok tt, hs')
  | (Err e, hs') =>
      if errors_Is e ErrPermanent_msg then (Ok tt, hs')
      else (Err (Errorf [T "anon: commit assembled slot list: "; W e]), hs')
  | (Panic w, hs') => (Panic w, hs')
  end.

Definition verify_Exit : M (HookState S) unit :=
  let! c := get_ctx in
  let! entries := lift_outcome (gather (range (AccumulatedMessages bucketSlots c)) ∅) in
  let! encoded := wrap_err (fun e => Errorf [T "anon: encode assembled slot list: "; W e])
    (lift_outcome (json_Marshal (merge_sort slot_le entries))) in
  modify_ctx (ctx_Set CtxAssembledSlotList (ABytes encoded)) ;;;
  commit_slot_list encoded.

Definition PhaseGVerify (exitState : SessionState) : Phase S := {|
  Name := "anon-g-verify";
  Lifetime := LifetimePerSession; RunsAt := RunsAtInline;
  EntryState := StateVerifying; ExitState := exitState; InternalStates := [];
  ConsumedMessageTypes := [MsgSlotSubmit];
  Requires := [(anon_CtxParticipants, key_type "[]string" true [])];
  Provides := [(CtxAssembledSlotList,
    {| TypeName := "[]byte"; Required := false; Constraints := []; NoLineage := true |})];
  Enter := no_hook;
  OnMessage := fun _ from payload => modify_ctx (AccumulateMessage bucketSlots from payload);
  CheckComplete := anon_quorum bucketSlots; Exit := verify_Exit
|}.
End Phases.

(** ** The participant (participant.go) *)

Section Participant.
Context {R : Type} (C : Crypto R) (NewEd25519Signer : M R Signer) (marshal_entry : SlotEntry -> Outcome bytes).

Record Participant := {
  p_SlotIndex : Z;
  SlotPub : bytes;
  slotPriv : bytes;
  sigSigner : Signer
}.

(** [perm[selfIndex]] panics out of range.  [None]: the permutation ran out
    of fuel. *)
Definition NewParticipant (fuel : nat) (sd : bytes) (n selfIndex : Z) : M R (option Participant) :=
  let! key := wrap_err (fun e => Errorf [T "anon: slot keygen: "; W e]) (GenerateSlotKey C) in
  let! sig := wrap_err (fun e => Errorf [T "anon: ephemeral signer: "; W e]) NewEd25519Signer in
  let! perm := lift_outcome (SlotPermutation fuel sd n) in
  match perm with
  | None => ret None
  | Some perm =>
      if (selfIndex <? 0)%Z then panic "index out of range"
      else match perm !! Z.to_nat selfIndex with
      | None => panic "index out of range"
      | Some slot => ret (Some {| p_SlotIndex := slot; SlotPub := key.2; slotPriv := key.1; sigSigner := sig |})
      end
  end.

Definition slot_entry (p : Participant) : SlotEntry :=
  {| SlotIndex := p_SlotIndex p; SlotDKPubHex := hex_encode (SlotPub p) |}.

Definition participant_BuildOnion (p : Participant) (peelOrderPubs : list bytes) (selfPeelIndex : Z)
  : M R (bytes * option bytes) :=
  let! payload := wrap_err (fun e => Errorf [T "anon: marshal slot payload: "; W e])
    (lift_outcome (marshal_entry (slot_entry p))) in
  BuildOnion C payload peelOrderPubs selfPeelIndex.

Definition Peel (p : Participant) (selfMemo : option bytes) (onions : list bytes) : M R (list bytes * Z) :=
  PeelBatch C (slotPriv p) selfMemo onions.

(** [now] is the clock reading [lineage.Commit] takes. *)
Definition SlotSubmission (p : Participant) (sessionID : string) (now : Z) : Outcome (bytes * DAGNode) :=
  match marshal_entry (slot_entry p) with
  | Err e => Err (Errorf [T "anon: marshal submission: "; W e])
  | Panic w => Panic w
  | Ok payload =>
      match Commit now sessionID "anon-g-verify" RoleSlotSubmission payload [] (Some (sigSigner p)) with
      | Err e => Err (Errorf [T "anon: sign submission: "; W e])
      | Panic w => Panic w
      | Ok node => Ok (payload, node)
      end
  end.
End Participant.

(** ** Properties *)

Section Assembly.
Context (json_Unmarshal : bytes -> Outcome SlotEntry).
Implicit Types (raw : list (string * bytes)) (es : list SlotEntry).

Definition decoded (kv : string * bytes) (e : SlotEntry) : Prop := json_Unmarshal kv.2 = Ok e.

Lemma gather_sound raw seen es :
  gather json_Unmarshal raw seen = Ok es ->
  Forall2 decoded raw es /\ NoDup (SlotIndex <$> es) /\ (forall e, e ∈ es -> SlotIndex e ∉ seen).
Proof.
  revert seen es. induction raw as [|[sender payload] raw IH]; intros seen es; simpl.
  - intros [= <-]. split; [constructor|]. split; [constructor|]. intros e He. by apply elem_of_nil in He.
  - destruct (json_Unmarshal payload) as [e|er|w] eqn:Ej; [|done..].
    destruct (decide (SlotIndex e ∈ seen)) as [Hin|Hni]; [done|].
    destruct (gather json_Unmarshal raw _) as [es0|er|w] eqn:Eg; [|done..]. intros [= <-].
    apply IH in Eg as (HF & Hnd & Hs). split; [by constructor|]. rewrite fmap_cons, NoDup_cons. split; [split; [|done]|].
    + intros (e' & He & Hin)%list_elem_of_fmap. specialize (Hs e' Hin). set_solver.
    + intros e' [->|Hin]%elem_of_cons; [done|]. specialize (Hs e' Hin). set_solver.
Qed.

Lemma gather_complete raw seen es :
  Forall2 decoded raw es -> NoDup (SlotIndex <$> es) -> (forall e, e ∈ es -> SlotIndex e ∉ seen) ->
  gather json_Unmarshal raw seen = Ok es.
Proof.
  intros HF. revert seen. induction HF as [|[sender payload] e raw es Hd _ IH]; intros seen Hnd Hs; [done|].
  rewrite fmap_cons, NoDup_cons in Hnd. destruct Hnd as [Hn Hnd]. unfold decoded in Hd. simpl in *. rewrite Hd.
  rewrite decide_False by (apply Hs; left). rewrite IH; [done|done|].
  intros e' Hin [Heq%elem_of_singleton|Hseen]%elem_of_union.
  - apply Hn. rewrite <- Heq. by apply list_elem_of_fmap_2.
  - apply (Hs e'); [by right|done].
Qed.

(** *** The sorted list *)

Definition slot_lt (a b : SlotEntry) : Prop := (SlotIndex a < SlotIndex b)%Z.

#[local] Instance slot_le_total : Total slot_le.
Proof. intros a b. unfold slot_le. lia. Qed.
#[local] Instance slot_le_trans : Transitive slot_le.
Proof. intros a b c. unfold slot_le. lia. Qed.

Lemma slot_sort_strict es : NoDup (SlotIndex <$> es) -> StronglySorted slot_lt (merge_sort slot_le es).
Proof.
  intros Hnd. pose proof (StronglySorted_merge_sort slot_le es) as Hs.
  assert (Hnd' : NoDup (SlotIndex <$> merge_sort slot_le es)) by by rewrite merge_sort_Permutation.
  revert Hs Hnd'. generalize (merge_sort slot_le es). intros l Hs. induction Hs as [|e l Hs IH Hall]; intros Hnd'; [constructor|].
  rewrite fmap_cons, NoDup_cons in Hnd'. destruct Hnd' as [Hn Hnd']. constructor; [by apply IH|].
  apply Forall_forall. intros e' He'. pose proof (proj1 (Forall_forall _ _) Hall e' He') as Hle. unfold slot_le, slot_lt in *.
  enough (SlotIndex e <> SlotIndex e') by lia. intros Heq. apply Hn. rewrite Heq. by apply list_elem_of_fmap_2.
Qed.

(** A list of slots in strict order is determined by its elements. *)
Lemma slot_sorted_unique l1 l2 :
  StronglySorted slot_lt l1 -> StronglySorted slot_lt l2 -> l1 ≡ₚ l2 -> l1 = l2.
Proof.
  intros H1 H2. apply (StronglySorted_unique_strong slot_lt); [|done|done].
  intros x y _ _. unfold slot_lt. lia.
Qed.
End Assembly.

Section VerifyExit.
Context {S : Type} `{StoreLaws S}.
Context (json_Unmarshal : bytes -> Outcome SlotEntry) (json_Marshal : list SlotEntry -> Outcome bytes).
Implicit Types (hs : HookState S) (range : gmap string bytes -> list (string * bytes)).

Lemma CommitArtifact_ctx ph role payload parents hs : (CommitArtifact ph role payload parents hs).2.1 = hs.1.
Proof.
  unfold CommitArtifact, get_ctx, bind at 1.
  destruct (ctxHasStore hs.1), (lineageSigner hs.1) as [sg|]; try done.
  unfold bind, wrap_err, on_env, append_idempotent, on_store.
  destruct (commit_now _ _ _ _ _ _ hs.2) as [[n|e|w] e1]; [|done..]. simpl.
  destruct (Append n (env_store e1)) as [[u|e|w] s']; [done| |done]. by destruct (errors_Is e ErrNodeExists_msg).
Qed.

Lemma commit_slot_list_ctx encoded hs : (commit_slot_list encoded hs).2.1 = hs.1.
Proof.
  unfold commit_slot_list.
  pose proof (CommitArtifact_ctx "anon-g-verify" CtxAssembledSlotList encoded
    (filter (fun n => Role n = RoleSlotSubmission) (LineageDAG hs)) hs) as Hc.
  destruct (CommitArtifact _ _ _ _ hs) as [[n|e|w] hs']; [done| |done]. by destruct (errors_Is e _).
Qed.

(** The submissions of a context, decoded, in some order. *)
Definition submissions hs (es : list SlotEntry) : Prop :=
  exists raw, raw ≡ₚ map_to_list (AccumulatedMessages bucketSlots hs.1) /\ Forall2 (decoded json_Unmarshal) raw es.

Lemma gather_range range hs es :
  (forall m, range m ≡ₚ map_to_list m) ->
  gather json_Unmarshal (range (AccumulatedMessages bucketSlots hs.1)) ∅ = Ok es ->
  submissions hs es /\ NoDup (SlotIndex <$> es).
Proof.
  intros Hr (HF & Hnd & _)%gather_sound. split; [|done]. by exists (range (AccumulatedMessages bucketSlots hs.1)).
Qed.

(** Any order of the range gives the same list. *)
Lemma gather_any_range range hs es :
  (forall m, range m ≡ₚ map_to_list m) -> submissions hs es -> NoDup (SlotIndex <$> es) ->
  exists es', gather json_Unmarshal (range (AccumulatedMessages bucketSlots hs.1)) ∅ = Ok es' /\ es' ≡ₚ es.
Proof.
  intros Hr (raw & Hp & HF) Hnd.
  destruct (Permutation_Forall2 (P := decoded json_Unmarshal) (l1' := range (AccumulatedMessages bucketSlots hs.1)) (l1 := raw) (l2 := es))
    as (es' & Hes & HF'); [by rewrite Hp, Hr|done|].
  exists es'. split; [|by symmetry]. apply gather_complete; [done|by rewrite <- Hes|]. intros e _. apply not_elem_of_empty.
Qed.

Lemma verify_Exit_run range hs hs' :
  verify_Exit json_Unmarshal json_Marshal range hs = (Ok tt, hs') <->
  exists es encoded, gather json_Unmarshal (range (AccumulatedMessages bucketSlots hs.1)) ∅ = Ok es /\
    json_Marshal (merge_sort slot_le es) = Ok encoded /\
    commit_slot_list encoded (ctx_Set CtxAssembledSlotList (ABytes encoded) hs.1, hs.2) = (Ok tt, hs').
Proof.
  unfold verify_Exit, bind at 1, get_ctx. unfold bind at 1, lift_outcome at 1.
  destruct (gather _ _ _) as [es|e|w] eqn:Eg; [|split; [done|intros (? & ? & ? & _); congruence]..].
  unfold bind at 1, wrap_err, lift_outcome.
  destruct (json_Marshal _) as [encoded|e|w] eqn:Em;
    [|split; [done|intros (es' & enc & Hes & Henc & _); injection Hes as <-; congruence]..].
  unfold bind, modify_ctx. simpl. split.
  - intros Hc. by exists es, encoded.
  - intros (es' & enc & Hes & Henc & Hc). injection Hes as <-. rewrite Em in Henc. by injection Henc as <-.
Qed.

(** The slot list: [PhaseGVerify] assembles, under its key and whatever
    the order its map is ranged in, the one list of the submitted entries in
    strictly increasing slot order; it refuses a submission that does not
    decode and two submissions for one slot. *)
Lemma assembled_list range range' hs hs' :
  (forall m, range m ≡ₚ map_to_list m) -> (forall m, range' m ≡ₚ map_to_list m) ->
  verify_Exit json_Unmarshal json_Marshal range hs = (Ok tt, hs') ->
  (exists es encoded, submissions hs es /\ StronglySorted slot_lt es /\ json_Marshal es = Ok encoded /\
     hs'.1 = ctx_Set CtxAssembledSlotList (ABytes encoded) hs.1) /\
  verify_Exit json_Unmarshal json_Marshal range' hs = (Ok tt, hs').
Proof.
  intros Hr Hr' (es & encoded & Hg & Hm & Hc)%verify_Exit_run.
  apply gather_range in Hg as [Hs Hnd]; [|done]. split.
  - exists (merge_sort slot_le es), encoded. split_and!; [|by apply slot_sort_strict|done|].
    + destruct Hs as (raw & Hp & HF). destruct (Permutation_Forall2 (P := fun e kv => decoded json_Unmarshal kv e) (l1 := es) (l1' := merge_sort slot_le es) (l2 := raw)) as (raw' & Hp' & HF').
      * by rewrite merge_sort_Permutation.
      * by apply Forall2_flip.
      * exists raw'. split; [by rewrite <- Hp'|by apply Forall2_flip].
    + pose proof (commit_slot_list_ctx encoded (ctx_Set CtxAssembledSlotList (ABytes encoded) hs.1, hs.2)) as Hctx.
      by rewrite Hc in Hctx.
  - destruct (gather_any_range range' hs es Hr' Hs Hnd) as (es' & Hg' & Hp). apply verify_Exit_run.
    exists es', encoded. split_and!; [done| |done].
    rewrite <- Hm. f_equal. apply slot_sorted_unique; [apply slot_sort_strict; by rewrite Hp|by apply slot_sort_strict|].
    by rewrite !merge_sort_Permutation.
Qed.

(** Provenance: with lineage on, a lawful store and a signer whose errors
    are not permanent ones, a successful exit leaves in the store a node for
    the assembled list whose parents are exactly the session's slot-submission
    nodes, and the store has only grown; with lineage off the store is
    untouched. *)
Lemma assembled_list_committed range hs hs' :
  store_inv (env_store hs.2) ->
  verify_Exit json_Unmarshal json_Marshal range hs = (Ok tt, hs') ->
  match (if ctxHasStore hs.1 then lineageSigner hs.1 else None) with
  | None => hs'.2 = hs.2
  | Some sg =>
      (forall m e, Sign sg m = Err e -> errors_Is e ErrPermanent_msg = false) ->
      exists encoded refs,
        ctx_Get CtxAssembledSlotList hs'.1 = Some (ABytes encoded) /\
        refs ≡ₚ Hash <$> filter (fun n => Role n = RoleSlotSubmission) (LineageDAG hs) /\
        held (env_store hs'.2)
          (DeriveNodeHash (ctxSessionID hs.1) "anon-g-verify" CtxAssembledSlotList encoded refs) /\
        (forall h n, Get h (env_store hs.2) = Ok n -> Get h (env_store hs'.2) = Ok n)
  end.
Proof.
  intros Hi (es & encoded & _ & _ & Hc)%verify_Exit_run. set (hs1 := (ctx_Set _ _ hs.1, hs.2)) in Hc.
  pose proof (commit_slot_list_ctx encoded hs1) as Hctx. rewrite Hc in Hctx. simpl in Hctx.
  unfold commit_slot_list, CommitArtifact, get_ctx, bind at 1 in Hc.
  change (ctxHasStore hs1.1) with (ctxHasStore hs.1) in Hc. change (lineageSigner hs1.1) with (lineageSigner hs.1) in Hc.
  change (ctxSessionID hs1.1) with (ctxSessionID hs.1) in Hc. change (LineageDAG hs1) with (LineageDAG hs) in Hc.
  destruct (ctxHasStore hs.1); [|by injection Hc as <-]. destruct (lineageSigner hs.1) as [sg|]; [|by injection Hc as <-].
  intros Hsg. unfold bind at 1, wrap_err, on_env at 1 in Hc.
  pose proof (commit_now_store (ctxSessionID hs.1) "anon-g-verify" CtxAssembledSlotList encoded
    (filter (fun n => Role n = RoleSlotSubmission) (LineageDAG hs)) (Some sg) hs1.2) as Hst.
  destruct (commit_now _ _ _ _ _ _ hs1.2) as [[n|e|w] e1] eqn:Ec; [| |done].
  - apply commit_now_Ok in Ec as [_ [now Hn]]. apply Commit_Ok in Hn as (_ & _ & _ & _ & _ & _ & Hh & Hp & _).
    unfold bind, on_env in Hc. simpl in Hst, Hc.
    match type of Hc with context [append_idempotent ?f n e1] =>
      destruct (append_idempotent_spec f n e1) as (e2 & Ha & (_ & Hk & _) & Hheld); [by rewrite Hst|] end.
    rewrite Ha in Hc. injection Hc as <-. exists encoded, (Parents n).
    split_and!; [by rewrite Hctx; unfold ctx_Get; simpl; rewrite lookup_insert_eq|done|by rewrite <- Hh|].
    intros h m Hg. apply Hk. by rewrite Hst.
  - exfalso. assert (He : errors_Is e ErrPermanent_msg = false).
    { unfold commit_now, Commit in Ec. destruct (sortParents _ _) as [refs roles].
      destruct (Sign sg _) as [sig|e'|w'] eqn:Es; [by destruct (time_Now _)| |done].
      injection Ec as <- _. by eapply Hsg. }
    simpl in Hc. by rewrite He in Hc.
Qed.

(** *** Honest participants *)

Lemma insert_all_list {A} (l : list (string * A)) : NoDup l.*1 -> map_to_list (insert_all l ∅) ≡ₚ l.
Proof.
  intros Hnd. apply NoDup_Permutation; [apply NoDup_map_to_list|by eapply NoDup_fmap_1|].
  intros [k v]. rewrite elem_of_map_to_list. split.
  - intros [Hin|He]%insert_all_Some_inv; [done|]. by rewrite lookup_empty in He.
  - by apply insert_all_NoDup.
Qed.

Definition entries (perm : list Z) (keys : list string) : list SlotEntry :=
  zip_with (fun slot key => {| SlotIndex := slot; SlotDKPubHex := key |}) perm keys.

Lemma entries_slots perm keys : length perm = length keys -> SlotIndex <$> entries perm keys = perm.
Proof.
  unfold entries. revert keys. induction perm as [|slot perm IH]; intros [|key keys] Hl; simpl in *; try done.
  f_equal. apply IH. lia.
Qed.

Lemma strict_slots l n : StronglySorted slot_lt l -> SlotIndex <$> l ≡ₚ seqZ 0 n -> SlotIndex <$> l = seqZ 0 n.
Proof.
  intros Hs Hp. apply (StronglySorted_unique_strong Z.lt); [lia| | |done].
  - clear Hp. induction Hs as [|e l _ IH Hall]; [constructor|]. simpl. constructor; [done|].
    apply Forall_fmap. eapply Forall_impl; [exact Hall|]. done.
  - clear. unfold seqZ. generalize (Z.to_nat n) as m. generalize 0%Z as a. intros a m. revert a.
    enough (Hgen : forall i a, StronglySorted Z.lt ((fun k => (Z.of_nat k + a)%Z) <$> seq i m)) by (intros a; apply Hgen).
    induction m as [|m IH]; intros i a; [constructor|]. simpl. constructor; [apply IH|].
    apply Forall_fmap, Forall_forall. intros k Hk%elem_of_seq. simpl. lia.
Qed.

(** C17. Anonymous slots end to end: when n participants, under distinct
    names, each submit the slot the shared permutation gives them with a key of
    their own, the list assembled is [0, ..., n-1] in order, and each slot
    holds the key of the participant the permutation put there. *)
Theorem honest_slots_assemble range marshal_entry fuel sd perm names keys payloads hs :
  (forall m, range m ≡ₚ map_to_list m) ->
  (forall e p, marshal_entry e = Ok p -> json_Unmarshal p = Ok e) ->
  (Z.of_nat (length keys) < 2 ^ 31)%Z ->
  SlotPermutation fuel sd (Z.of_nat (length keys)) = Ok (Some perm) ->
  NoDup names -> length names = length keys ->
  Forall2 (fun e p => marshal_entry e = Ok p) (entries perm keys) payloads ->
  AccumulatedMessages bucketSlots hs.1 = insert_all (zip names payloads) ∅ ->
  exists slots,
    SlotIndex <$> slots = seqZ 0 (Z.of_nat (length keys)) /\
    (forall j slot key, perm !! j = Some slot -> keys !! j = Some key ->
       slots !! Z.to_nat slot = Some {| SlotIndex := slot; SlotDKPubHex := key |}) /\
    (forall encoded, json_Marshal slots = Ok encoded ->
       verify_Exit json_Unmarshal json_Marshal range hs =
       commit_slot_list encoded (ctx_Set CtxAssembledSlotList (ABytes encoded) hs.1, hs.2)).
Proof.
  intros Hr Hcodec Hn Hperm Hnd Hlen HF Hraw.
  assert (Hp : perm ≡ₚ seqZ 0 (Z.of_nat (length keys))).
  { eapply SlotPermutation_perm; [|exact Hperm]. lia. }
  assert (Hlp : length perm = length keys) by (rewrite Hp, length_seqZ; lia).
  assert (Hlpay : length payloads = length keys).
  { apply Forall2_length in HF as <-. unfold entries. rewrite length_zip_with. lia. }
  assert (Hslots : SlotIndex <$> entries perm keys = perm) by by apply entries_slots.
  assert (Hsub : submissions hs (entries perm keys)).
  { exists (zip names payloads). split.
    - rewrite Hraw. symmetry. apply insert_all_list. by rewrite fst_zip by lia.
    - apply Forall2_same_length_lookup. split; [rewrite length_zip_with; apply Forall2_length in HF; lia|].
      intros j [name p] e Hz He. apply lookup_zip_with_Some in Hz as (name' & p' & [= <- <-] & _ & Hpj).
      apply Hcodec. exact (Forall2_lookup_lr _ _ _ _ _ _ HF He Hpj). }
  destruct (gather_any_range range hs (entries perm keys) Hr Hsub) as (es & Hg & Hes).
  { rewrite Hslots, Hp. apply NoDup_seqZ. }
  assert (Hnes : NoDup (SlotIndex <$> es)) by (rewrite Hes, Hslots, Hp; apply NoDup_seqZ).
  exists (merge_sort slot_le es).
  assert (Hidx : SlotIndex <$> merge_sort slot_le es = seqZ 0 (Z.of_nat (length keys))).
  { apply strict_slots; [by apply slot_sort_strict|]. by rewrite merge_sort_Permutation, Hes, Hslots. }
  split; [exact Hidx|]. split.
  - intros j slot key Hj Hkey.
    assert (Hin : {| SlotIndex := slot; SlotDKPubHex := key |} ∈ merge_sort slot_le es).
    { rewrite merge_sort_Permutation, Hes. apply list_elem_of_lookup. exists j. unfold entries.
      apply lookup_zip_with_Some. by exists slot, key. }
    apply list_elem_of_lookup in Hin as [i Hi].
    assert (Hsi : seqZ 0 (Z.of_nat (length keys)) !! i = Some slot) by by rewrite <- Hidx, list_lookup_fmap, Hi.
    apply lookup_seqZ in Hsi as [Heq _]. by replace (Z.to_nat slot) with i by lia.
  - intros encoded Hm. unfold verify_Exit, bind, get_ctx, wrap_err, lift_outcome. by rewrite Hg, Hm.
Qed.
End VerifyExit.

(** ** Three participants *)

Module Witnesses.
Import InMemory.

(** A codec of slot entries: the slot as one byte, then the key's text. *)
Definition enc_entry (e : SlotEntry) : Outcome bytes :=
  if (0 <=? SlotIndex e)%Z && (SlotIndex e <? 256)%Z then
    Ok (byte_of_N (Z.to_N (SlotIndex e)) :: of_string (SlotDKPubHex e))
  else Err (ErrorsNew "out of range").
Definition dec_entry (b : bytes) : Outcome SlotEntry :=
  match b with
  | x :: k => Ok {| SlotIndex := Z.of_N (Byte.to_N x); SlotDKPubHex := to_string k |}
  | [] => Err (ErrorsNew "unexpected end of JSON input")
  end.
Definition or_nil (o : Outcome bytes) : bytes := match o with Ok b => b | _ => [] end.
Definition enc_list (l : list SlotEntry) : Outcome bytes :=
  Ok (concat (map (fun e => or_nil (enc_entry e)) l)).

Lemma enc_dec e p : enc_entry e = Ok p -> dec_entry p = Ok e.
Proof.
  unfold enc_entry. destruct (Z.leb_spec 0 (SlotIndex e)), (Z.ltb_spec (SlotIndex e) 256); try done. simpl.
  intros [= <-]. simpl. rewrite byte_of_N_to_N, to_of_string, N.mod_small by lia.
  rewrite Z2N.id by lia. by destruct e.
Qed.

Definition names : list string := ["alice"; "bob"; "carol"]%string.
Definition keys : list string := ["ka"; "kb"; "kc"]%string.
Definition perm : list Z := default [] (match SlotPermutation 3 (of_string "seed") 3 with Ok p => p | _ => None end).
Definition payloads : list bytes := map (fun e => or_nil (enc_entry e)) (entries perm keys).

Definition store_of (nodes : list DAGNode) : InMemoryStore :=
  foldl (fun s n => (InMemory.Append n s).2) NewInMemoryStore nodes.
Definition hook_state (lineage_on : bool) (msgs : list (string * bytes)) (nodes : list DAGNode) : HookState InMemoryStore :=
  let c := accumulate_all bucketSlots msgs (NewSessionContext "s") in
  ({| ctxSessionID := "s"; ctxCohortID := EmptyString; values := values c; ctxHasStore := lineage_on;
      lineageSigner := if lineage_on then Some ToyScheme.toy_signer else None |},
   {| env_store := store_of nodes; env_clock := Z.of_nat; env_ticks := 0 |}).
Definition submitted : HookState InMemoryStore := hook_state false (zip names payloads) [].

Lemma range_ok (m : gmap string bytes) : map_to_list m ≡ₚ map_to_list m.
Proof. done. Qed.
Lemma reverse_ok (m : gmap string bytes) : reverse (map_to_list m) ≡ₚ map_to_list m.
Proof. apply reverse_Permutation. Qed.

Lemma perm_computed : SlotPermutation 3 (of_string "seed") 3 = Ok (Some perm).
Proof. vm_compute. reflexivity. Qed.

Lemma payloads_encode : Forall2 (fun e p => enc_entry e = Ok p) (entries perm keys) payloads.
Proof. vm_compute. repeat constructor. Qed.

Lemma honest_slots_assemble_witness :
  exists slots, SlotIndex <$> slots = seqZ 0 3 /\
    verify_Exit dec_entry enc_list map_to_list submitted =
    commit_slot_list (or_nil (enc_list slots))
      (ctx_Set CtxAssembledSlotList (ABytes (or_nil (enc_list slots))) submitted.1, submitted.2).
Proof.
  assert (Hn : (Z.of_nat (length keys) < 2 ^ 31)%Z) by (simpl; lia).
  assert (Hnd : NoDup names) by (apply (bool_decide_unpack _); vm_compute; exact I).
  destruct (honest_slots_assemble dec_entry enc_list map_to_list enc_entry 3 (of_string "seed") perm names keys
    payloads submitted range_ok enc_dec Hn perm_computed Hnd eq_refl payloads_encode eq_refl)
    as (slots & Hs & _ & Hx).
  exists slots. split; [exact Hs|]. apply Hx. reflexivity.
Defined.

Lemma assembled_list_witness :
  verify_Exit dec_entry enc_list (fun m => reverse (map_to_list m)) submitted =
  (Ok tt, (verify_Exit dec_entry enc_list map_to_list submitted).2).
Proof.
  refine (proj2 (assembled_list dec_entry enc_list map_to_list (fun m => reverse (map_to_list m)) submitted _
    range_ok reverse_ok (outcome_of _ _ _))).
  vm_compute. reflexivity.
Defined.

(** *** With lineage *)

Definition submission (slot : Z) (key : string) : bytes :=
  or_nil (enc_entry {| SlotIndex := slot; SlotDKPubHex := key |}).
Definition submission_node (payload : bytes) : DAGNode :=
  match Commit 0 "s" "anon-g-verify" RoleSlotSubmission payload [] (Some ToyScheme.toy_signer) with
  | Ok n => n
  | _ => RunnerLineage.Witnesses.dummy
  end.

(** Alice submits slot 1, then slot 0 instead; both messages were verified
    and stored before they reached the phase. *)
Definition resubmitted : HookState InMemoryStore :=
  hook_state true [("alice"%string, submission 1 "ka"); ("alice"%string, submission 0 "ka")]
    [submission_node (submission 1 "ka"); submission_node (submission 0 "ka")].

Lemma store_of_inv nodes : store_inv (store_of nodes).
Proof.
  unfold store_of. assert (Hi : store_inv NewInMemoryStore) by exact RunnerLineage.Witnesses.empty_inv.
  revert Hi. generalize NewInMemoryStore. induction nodes as [|n l IH]; intros s Hi; [done|].
  apply IH. exact (append_inv n s Hi).
Qed.

Lemma assembled_list_committed_witness :
  exists encoded refs,
    ctx_Get CtxAssembledSlotList (verify_Exit dec_entry enc_list map_to_list resubmitted).2.1 = Some (ABytes encoded) /\
    refs ≡ₚ Hash <$> filter (fun n => Role n = RoleSlotSubmission) (LineageDAG resubmitted) /\
    held (env_store (verify_Exit dec_entry enc_list map_to_list resubmitted).2.2)
      (DeriveNodeHash "s" "anon-g-verify" CtxAssembledSlotList encoded refs).
Proof.
  assert (He : (verify_Exit dec_entry enc_list map_to_list resubmitted).1 = Ok tt) by (vm_compute; reflexivity).
  destruct (assembled_list_committed dec_entry enc_list map_to_list resubmitted _ (store_of_inv _) (outcome_of _ _ He))
    as (encoded & refs & Hc & Hr & Hh & _).
  { intros m e Hs. discriminate Hs. }
  exists encoded, refs. split; [exact Hc|]. split; [exact Hr|exact Hh].
Defined.

(** The list then has one entry, and its node two parents: the superseded
    submission is among "the nodes that produced it". *)
Example superseded_submission_is_a_parent :
  match gather dec_entry (map_to_list (AccumulatedMessages bucketSlots resubmitted.1)) ∅ with
  | Ok es => length es = 1
  | _ => False
  end /\
  length (filter (fun n => Role n = RoleSlotSubmission) (LineageDAG resubmitted)) = 2.
Proof. vm_compute. split; reflexivity. Qed.

(** No slot is checked against the number of participants. *)
Example out_of_range_slot_is_assembled :
  (verify_Exit dec_entry enc_list map_to_list (hook_state false [("mallory"%string, submission 200 "km")] [])).1 = Ok tt.
Proof. vm_compute. reflexivity. Qed.
End Witnesses.
