(* ===== verification/Hub.v ===== *)
(** * WebSocket hub (pkg/ares/transport: hub.go, auth.go, validate.go, rate_limit.go)

    Connection tokens, frame validation, the per-connection token bucket, the
    replay filter and the client registry with its bounded outbound queues.
    The pumps of several connections interleave between the steps of an inbound
    frame.  Times are nanoseconds; encoding/json, the time formatter and the
    sockets are parameters. *)
From Stdlib Require Import ZArith NArith Lia String Ascii Strings.Byte Floats.SpecFloat Sorted.
From stdpp Require Import base gmap list strings pretty.
From S2P Require Import Prelude Bytes.
From S2P Require Import GoFloat.
From S2P Require Import Sign.
From S2P Require Import Lineage.

(** ** Connection tokens (auth.go) *)

Record AuthMiddleware := { Secret : bytes; AllowDevBypass : bool }.

Definition GenerateToken (m : AuthMiddleware) (pseudonym : string) : string :=
  hex_encode (hmac_sha256 (Secret m) (of_string pseudonym)).

Definition ValidateToken (m : AuthMiddleware) (pseudonym token : string) : bool :=
  if Nat.eqb (length (Secret m)) 0 then AllowDevBypass m
  else
    let expected := hex_encode (hmac_sha256 (Secret m) (of_string pseudonym)) in
    hmac_equal (of_string expected) (of_string token).

(** ** Frames *)

Definition WireProtocolVersion : string := "1".
Definition WireProtocolVersionLineage : string := "2".

(** [Payload] is the raw JSON text of the body. *)
Record WSMessage := {
  Version : string;
  Type_ : string;
  msgSessionID : string;
  Seq : Z;
  Payload : bytes;
  Timestamp : string;
  msgLineage : option DAGNode
}.

Definition ValidateInboundMessage (msg : WSMessage) : option GoError :=
  let v := if String.eqb (Version msg) EmptyString then WireProtocolVersion else Version msg in
  if String.eqb v WireProtocolVersion then None
  else if String.eqb v WireProtocolVersionLineage then
    match msgLineage msg with
    | None => Some (Errorf [T "transport: v"; T v; T " frame requires non-nil Lineage field"])
    | Some _ => None
    end
  else Some (Errorf [T "transport: unknown protocol version "; Q v]).

(** ** Token bucket (rate_limit.go) *)

Record rateLimiter := {
  capacity : float64;
  refillRate : float64;
  tokens : float64;
  lastTick : Z
}.

(** [None] is the nil limiter, which admits everything. *)
Definition newRateLimiter (rate burst : float64) (now : Z) : option rateLimiter :=
  if fleb rate f0 || fleb burst f0 then None
  else Some {| capacity := burst; refillRate := rate; tokens := burst; lastTick := now |}.

(** [time.Duration.Seconds] of [t.Sub(u)], which saturates at 64 bits. *)
Definition Sub (t u : Z) : Z := Z.max (- 2 ^ 63) (Z.min (2 ^ 63 - 1) (t - u)).
Definition Seconds (d : Z) : float64 :=
  fadd (of_Z (Z.quot d 1000000000)) (fdiv (of_Z (Z.rem d 1000000000)) (of_Z 1000000000)).

Definition refill (now : Z) (rl : rateLimiter) : rateLimiter :=
  let elapsed := Seconds (Sub now (lastTick rl)) in
  if fgtb elapsed f0 then
    let t := fadd (tokens rl) (fmul elapsed (refillRate rl)) in
    {| capacity := capacity rl; refillRate := refillRate rl;
       tokens := if fgtb t (capacity rl) then capacity rl else t; lastTick := now |}
  else rl.

Definition Allow (now : Z) (rl : option rateLimiter) : bool * option rateLimiter :=
  match rl with
  | None => (true, None)
  | Some rl =>
      let rl := refill now rl in
      if fgeb (tokens rl) f1 then
        (true, Some {| capacity := capacity rl; refillRate := refillRate rl;
                       tokens := fsub (tokens rl) f1; lastTick := lastTick rl |})
      else (false, Some rl)
  end.

(** ** The hub *)

Definition SendBufferSize : nat := 256.
Definition DefaultMaxMessageSize : Z := Z.shiftl 32 20.

Record HubOptions := {
  AllowedOrigins : list string;
  AllowAnyOrigin : bool;
  MaxMessageSize : Z;
  InboundRate : float64;
  InboundBurst : float64
}.

(** A connected participant; clients are shared by pointer, so the hub's
    registry maps a pseudonym to the identity of the client object. *)
Record Client := {
  Pseudonym : string;
  Send : list bytes;
  limiter : option rateLimiter
}.

Record Hub := {
  clients : gmap string nat;
  objects : gmap nat Client;
  auth : AuthMiddleware;
  origins : list string * bool;
  maxMessageSize : Z;
  inboundRate : float64;
  inboundBurst : float64;
  seqHigh : gmap string Z
}.

Definition NewHubWithOptions (a : AuthMiddleware) (opts : HubOptions) : Hub :=
  {| clients := ∅; objects := ∅; auth := a;
     origins := (AllowedOrigins opts, AllowAnyOrigin opts);
     maxMessageSize := if (MaxMessageSize opts <=? 0)%Z then DefaultMaxMessageSize
                       else MaxMessageSize opts;
     inboundRate := InboundRate opts; inboundBurst := InboundBurst opts; seqHigh := ∅ |}.

Definition NewHub (a : AuthMiddleware) : Hub :=
  NewHubWithOptions a {| AllowedOrigins := []; AllowAnyOrigin := true; MaxMessageSize := 0;
                         InboundRate := f0; InboundBurst := f0 |}.

(** The upgrader's [CheckOrigin] on the Origin header, empty when absent. *)
Definition CheckOrigin (h : Hub) (origin : string) : bool :=
  let '(allowed, allowAny) := origins h in
  if String.eqb origin EmptyString then true
  else if allowAny && Nat.eqb (length allowed) 0 then true
  else existsb (fun a => String.eqb a origin) allowed.

Definition set_clients (h : Hub) c o : Hub :=
  {| clients := c; objects := o; auth := auth h; origins := origins h;
     maxMessageSize := maxMessageSize h; inboundRate := inboundRate h;
     inboundBurst := inboundBurst h; seqHigh := seqHigh h |}.
Definition set_seqHigh (h : Hub) m : Hub :=
  {| clients := clients h; objects := objects h; auth := auth h; origins := origins h;
     maxMessageSize := maxMessageSize h; inboundRate := inboundRate h;
     inboundBurst := inboundBurst h; seqHigh := m |}.

(** *** Replay filter *)

Definition seq_key (pseudonym : string) (msg : WSMessage) : string :=
  (msgSessionID msg +:+ "|" +:+ pseudonym +:+ "|" +:+ Type_ msg)%string.

Definition checkAndRecordSeq (pseudonym : string) (msg : WSMessage) (h : Hub) : bool * Hub :=
  if (Seq msg =? 0)%Z then (true, h)
  else
    let key := seq_key pseudonym msg in
    let accept := (true, set_seqHigh h (<[key := Seq msg]> (seqHigh h))) in
    match seqHigh h !! key with
    | Some last => if (Seq msg <=? last)%Z then (false, h) else accept
    | None => accept
    end.

(** *** Connections *)

(** How [HandleWS] ends.  [Upgrade] is gorilla's handshake, given the answer of
    [CheckOrigin]. *)
Inductive WSResult := BadRequest | Unauthorized | UpgradeError | Upgraded.

(** On success the new client object [id] replaces whatever the pseudonym
    pointed to. *)
Definition HandleWS (Upgrade : bool -> bool) (pseudonym token origin : string) (id : nat) (now : Z)
    (h : Hub) : WSResult * Hub :=
  if String.eqb pseudonym EmptyString then (BadRequest, h)
  else if negb (ValidateToken (auth h) pseudonym token) then (Unauthorized, h)
  else if negb (Upgrade (CheckOrigin h origin)) then (UpgradeError, h)
  else (Upgraded, set_clients h (<[pseudonym := id]> (clients h))
         (<[id := {| Pseudonym := pseudonym; Send := [];
                     limiter := newRateLimiter (inboundRate h) (inboundBurst h) now |}]> (objects h))).

(** The deferred cleanup of [readPump]: the entry of the pseudonym is deleted,
    whichever client it holds now. *)
Definition readPump_exit (id : nat) (h : Hub) : Hub :=
  match objects h !! id with
  | None => h
  | Some c => set_clients h (delete (Pseudonym c) (clients h)) (objects h)
  end.

Definition with_limiter (c : Client) l : Client :=
  {| Pseudonym := Pseudonym c; Send := Send c; limiter := l |}.
Definition with_send (c : Client) q : Client :=
  {| Pseudonym := Pseudonym c; Send := q; limiter := limiter c |}.

Section Wire.
Context (json_Unmarshal : bytes -> option WSMessage).
Context (json_Marshal : WSMessage -> option bytes).
Context (format_time : Z -> string).

(** One iteration of [readPump] on a frame, in the steps between which other
    pumps run: decode, validate and check against the filter, whose lock ends
    with the check; then the connection's limiter; then the handler. *)
Definition checkFrame (id : nat) (data : bytes) (h : Hub) : option (string * WSMessage) * Hub :=
  match objects h !! id, json_Unmarshal data with
  | Some c, Some msg =>
      match ValidateInboundMessage msg with
      | Some _ => (None, h)
      | None =>
          match checkAndRecordSeq (Pseudonym c) msg h with
          | (false, h1) => (None, h1)
          | (true, h1) => (Some (Pseudonym c, msg), h1)
          end
      end
  | _, _ => (None, h)
  end.
Definition limitFrame (id : nat) (now : Z) (h : Hub) : bool * Hub :=
  match objects h !! id with
  | None => (false, h)
  | Some c =>
      let '(allowed, l) := Allow now (limiter c) in
      (allowed, set_clients h (clients h) (<[id := with_limiter c l]> (objects h)))
  end.
(** The whole iteration, undisturbed: the message handed to the handler, or
    nothing when the frame is dropped. *)
Definition receive (id : nat) (data : bytes) (now : Z) (h : Hub) : option WSMessage * Hub :=
  match checkFrame id data h with
  | (None, h1) => (None, h1)
  | (Some (_, msg), h1) => let '(allowed, h2) := limitFrame id now h1 in (if allowed then Some msg else None, h2)
  end.

(** [select { case client.Send <- data: default: }]. *)
Definition enqueue (data : bytes) (c : Client) : Client :=
  if (length (Send c) <? SendBufferSize)%nat then with_send c (Send c ++ [data]) else c.

Definition push (pseudonym : string) (data : bytes) (h : Hub) : Hub :=
  match clients h !! pseudonym ≫= fun id => pair id <$> objects h !! id with
  | None => h
  | Some (id, c) => set_clients h (clients h) (<[id := enqueue data c]> (objects h))
  end.

Definition stamp (now : Z) (msg : WSMessage) : WSMessage :=
  {| Version := Version msg; Type_ := Type_ msg; msgSessionID := msgSessionID msg; Seq := Seq msg;
     Payload := Payload msg; Timestamp := format_time now; msgLineage := msgLineage msg |}.
Definition with_session (sid : string) (msg : WSMessage) : WSMessage :=
  {| Version := Version msg; Type_ := Type_ msg; msgSessionID := sid; Seq := Seq msg;
     Payload := Payload msg; Timestamp := Timestamp msg; msgLineage := msgLineage msg |}.

Definition SendTo (pseudonym : string) (msg : WSMessage) (now : Z) (h : Hub) : option GoError * Hub :=
  match json_Marshal (stamp now msg) with
  | None => (Some (ErrorsNew "json"), h)
  | Some data => (None, push pseudonym data h)
  end.

(** [data, _ := json.Marshal(msg)]: a failed encoding is sent as the empty
    frame. *)
Definition Broadcast (msg : WSMessage) (now : Z) (h : Hub) : Hub :=
  let data := default [] (json_Marshal (stamp now msg)) in
  foldl (fun h p => push p data h) h (map_to_list (clients h)).*1.

Definition BroadcastToSession (sessionID : string) (pseudonyms : list string) (msg : WSMessage)
    (now : Z) (h : Hub) : Hub :=
  let data := default [] (json_Marshal (with_session sessionID (stamp now msg))) in
  foldl (fun h p => push p data h) h pseudonyms.
End Wire.

(** [writePump] takes the next frame of a client's queue. *)
Definition drain (id : nat) (h : Hub) : option bytes * Hub :=
  match objects h !! id with
  | Some c =>
      match Send c with
      | [] => (None, h)
      | d :: q => (Some d, set_clients h (clients h) (<[id := with_send c q]> (objects h)))
      end
  | None => (None, h)
  end.

(** [writeWithRetry]: up to three attempts; [write] is the socket's answer to
    the n-th one. *)
Fixpoint write_attempts (write : nat -> option GoError) (attempt tries : nat) (lastErr : option GoError)
  : option GoError :=
  match tries with
  | O => lastErr
  | S tries' =>
      match write attempt with
      | Some e => write_attempts write (S attempt) tries' (Some e)
      | None => None
      end
  end.
Definition writeWithRetry (write : nat -> option GoError) : option GoError :=
  write_attempts write 0 3 None.

Definition IsConnected (pseudonym : string) (h : Hub) : bool :=
  bool_decide (is_Some (clients h !! pseudonym)).
Definition ConnectedCount (h : Hub) : nat := size (clients h).

Definition shortID (s : string) : string :=
  if (12 <? String.length s)%nat then substring 0 12 s else s.

(** ** Properties *)

Lemma ValidateToken_run m pseudonym token :
  ValidateToken m pseudonym token = true <->
  match Secret m with
  | [] => AllowDevBypass m = true
  | _ => token = GenerateToken m pseudonym
  end.
Proof.
  unfold ValidateToken, GenerateToken, hmac_equal. destruct (Secret m) as [|k ks] eqn:E; [done|].
  simpl. rewrite bool_decide_eq_true. split; [|by intros ->].
  intros H%of_string_inj. done.
Qed.

(** With a secret configured, a connection token is accepted exactly when
    it is the one [GenerateToken] issues for that pseudonym; without one, the
    development bypass decides alone. *)
Lemma ValidateToken_iff m pseudonym token :
  ValidateToken m pseudonym token = true <->
  match Secret m with
  | [] => AllowDevBypass m = true
  | _ => token = GenerateToken m pseudonym
  end.
Proof. apply ValidateToken_run. Qed.

Lemma NewHub_auth a opts : auth (NewHubWithOptions a opts) = a.
Proof. done. Qed.

(** The iteration as one case analysis. *)
Lemma checkAndRecordSeq_objects p msg h : objects (checkAndRecordSeq p msg h).2 = objects h.
Proof.
  unfold checkAndRecordSeq. destruct (Seq msg =? 0)%Z; [done|]. destruct (seqHigh h !! _) as [l|]; [|done]. by destruct (_ <=? l)%Z.
Qed.
Lemma receive_steps json_Unmarshal id data now h :
  receive json_Unmarshal id data now h =
  match objects h !! id, json_Unmarshal data with
  | Some c, Some msg =>
      match ValidateInboundMessage msg with
      | Some _ => (None, h)
      | None =>
          match checkAndRecordSeq (Pseudonym c) msg h with
          | (false, h1) => (None, h1)
          | (true, h1) =>
              let '(allowed, l) := Allow now (limiter c) in
              let h2 := set_clients h1 (clients h1) (<[id := with_limiter c l]> (objects h1)) in
              if allowed then (Some msg, h2) else (None, h2)
          end
      end
  | _, _ => (None, h)
  end.
Proof.
  unfold receive, checkFrame. destruct (objects h !! id) as [c|] eqn:Ec; [|done]. destruct (json_Unmarshal data) as [msg|]; [|done].
  destruct (ValidateInboundMessage msg); [done|]. pose proof (checkAndRecordSeq_objects (Pseudonym c) msg h) as Ho.
  destruct (checkAndRecordSeq (Pseudonym c) msg h) as [[] h1]; [|done]. simpl in Ho.
  unfold limitFrame. rewrite Ho, Ec. by destruct (Allow now (limiter c)) as [[] l].
Qed.

(** *** The operations on a hub *)

Section Traces.
Context (json_Unmarshal : bytes -> option WSMessage).
Context (Upgrade : bool -> bool).

(** A connection's pump takes one frame at a time: its checked message is in
    flight until the limiter has let it through or not. *)
Inductive hub_op :=
| HConnect (pseudonym token origin : string) (id : nat) (now : Z)
| HFrame (id : nat) (data : bytes) (now : Z)
| HCheck (id : nat) (data : bytes)
| HDispatch (id : nat) (now : Z)
| HExit (id : nat)
| HPush (pseudonym : string) (data : bytes)
| HDrain (id : nat).

Notation event := (nat * (string * WSMessage))%type.
Notation pumps := (Hub * gmap nat (string * WSMessage))%type.

(** The next state, with the message accepted by the filter and the one
    dispatched, if any, and their connection and sender. *)
Definition run_hub_op (op : hub_op) (s : pumps) : option event * option event * pumps :=
  let '(h, flight) := s in
  match op with
  | HConnect p t o id now => (None, None, ((HandleWS Upgrade p t o id now h).2, flight))
  | HFrame id data now =>
      match flight !! id with
      | Some _ => (None, None, s)
      | None =>
          match checkFrame json_Unmarshal id data h with
          | (None, h1) => (None, None, (h1, flight))
          | (Some x, h1) =>
              let '(allowed, h2) := limitFrame id now h1 in
              (Some (id, x), if allowed then Some (id, x) else None, (h2, flight))
          end
      end
  | HCheck id data =>
      match flight !! id with
      | Some _ => (None, None, s)
      | None =>
          match checkFrame json_Unmarshal id data h with
          | (None, h1) => (None, None, (h1, flight))
          | (Some x, h1) => (Some (id, x), None, (h1, <[id := x]> flight))
          end
      end
  | HDispatch id now =>
      match flight !! id with
      | None => (None, None, s)
      | Some x =>
          let '(allowed, h1) := limitFrame id now h in
          (None, if allowed then Some (id, x) else None, (h1, delete id flight))
      end
  | HExit id => match flight !! id with Some _ => (None, None, s) | None => (None, None, (readPump_exit id h, flight)) end
  | HPush p data => (None, None, (push p data h, flight))
  | HDrain id => (None, None, ((drain id h).2, flight))
  end.

Definition emit {A} (o : option A) (l : list A) : list A := match o with Some x => x :: l | None => l end.
(** The messages accepted, those dispatched, and the last state. *)
Fixpoint run_pumps (ops : list hub_op) (s : pumps) : list event * list event * pumps :=
  match ops with
  | [] => ([], [], s)
  | op :: ops' =>
      let '(a, d, s1) := run_hub_op op s in
      let '(la, ld, s2) := run_pumps ops' s1 in
      (emit a la, emit d ld, s2)
  end.
Definition run_hub (ops : list hub_op) (h : Hub) : list event * list event * pumps := run_pumps ops (h, ∅).

Definition above (h : Hub) (x : string * WSMessage) : Prop :=
  Seq x.2 <> 0%Z -> forall last, seqHigh h !! seq_key x.1 x.2 = Some last -> (last < Seq x.2)%Z.

Definition recorded (h : Hub) (x : string * WSMessage) : Prop :=
  Seq x.2 <> 0%Z -> exists last, seqHigh h !! seq_key x.1 x.2 = Some last /\ (Seq x.2 <= last)%Z.

Definition seq_grows (h h' : Hub) : Prop :=
  forall k v, seqHigh h !! k = Some v -> exists v', seqHigh h' !! k = Some v' /\ (v <= v')%Z.

Lemma seq_grows_same h h' : seqHigh h' = seqHigh h -> seq_grows h h'.
Proof. intros E k v Hk. exists v. rewrite E. split; [done|lia]. Qed.

Lemma check_spec p msg h :
  let '(ok, h') := checkAndRecordSeq p msg h in
  seq_grows h h' /\ (ok = true -> above h (p, msg) /\ recorded h' (p, msg)).
Proof.
  unfold checkAndRecordSeq, above, recorded. simpl.
  destruct (Z.eqb_spec (Seq msg) 0) as [E|E]; [split; [by apply seq_grows_same|done]|].
  assert (Hacc : (forall v, seqHigh h !! seq_key p msg = Some v -> (v < Seq msg)%Z) ->
      seq_grows h (set_seqHigh h (<[seq_key p msg := Seq msg]> (seqHigh h)))).
  { intros Hlt k v Hk. simpl. destruct (decide (k = seq_key p msg)) as [->|Hne].
    - exists (Seq msg). rewrite lookup_insert_eq. split; [done|]. specialize (Hlt v Hk). lia.
    - exists v. rewrite lookup_insert_ne by done. split; [done|lia]. }
  assert (Hrec : exists last, seqHigh (set_seqHigh h (<[seq_key p msg := Seq msg]> (seqHigh h)))
      !! seq_key p msg = Some last /\ (Seq msg <= last)%Z).
  { exists (Seq msg). simpl. rewrite lookup_insert_eq. split; [done|lia]. }
  destruct (seqHigh h !! seq_key p msg) as [last|] eqn:El.
  - destruct (Z.leb_spec (Seq msg) last) as [Hle|Hlt]; [split; [by apply seq_grows_same|done]|].
    split; [apply Hacc; intros v [= <-]; done|]. intros _. split; [intros _ v [= <-]; done|done].
  - split; [by apply Hacc|]. by intros _.
Qed.

Lemma limitFrame_seq id now h : seqHigh (limitFrame id now h).2 = seqHigh h.
Proof. unfold limitFrame. destruct (objects h !! id) as [c|]; [|done]. by destruct (Allow now (limiter c)). Qed.

Lemma checkFrame_spec id data h :
  let '(o, h') := checkFrame json_Unmarshal id data h in
  seq_grows h h' /\ (forall x, o = Some x -> above h x /\ recorded h' x).
Proof.
  unfold checkFrame. destruct (objects h !! id) as [c|]; [|by split; [apply seq_grows_same|]].
  destruct (json_Unmarshal data) as [msg|]; [|by split; [apply seq_grows_same|]].
  destruct (ValidateInboundMessage msg); [by split; [apply seq_grows_same|]|].
  pose proof (check_spec (Pseudonym c) msg h) as Hc.
  destruct (checkAndRecordSeq (Pseudonym c) msg h) as [[] h1]; destruct Hc as [Hg Hr]; [|by split].
  split; [exact Hg|]. intros x [= <-]. by apply Hr.
Qed.

Lemma run_hub_op_spec op s :
  let '(a, _, s') := run_hub_op op s in
  seq_grows s.1 s'.1 /\ (forall x, a = Some x -> above s.1 x.2 /\ recorded s'.1 x.2).
Proof.
  destruct s as [h flight], op as [p t o id now|id data now|id data|id now|id|p data|id]; simpl.
  - unfold HandleWS. destruct (String.eqb _ _); [by split; [apply seq_grows_same|]|].
    destruct (negb _); [by split; [apply seq_grows_same|]|].
    destruct (negb _); by split; [apply seq_grows_same|].
  - destruct (flight !! id); [by split; [apply seq_grows_same|]|].
    pose proof (checkFrame_spec id data h) as Hc. destruct (checkFrame _ id data h) as [[x|] h1]; destruct Hc as [Hg Hx]; [|by split].
    pose proof (limitFrame_seq id now h1) as Hl. destruct (limitFrame id now h1) as [ok h2]. simpl in *.
    unfold recorded, seq_grows in *. rewrite Hl. split; [done|]. intros y [= <-]. by apply Hx.
  - destruct (flight !! id); [by split; [apply seq_grows_same|]|].
    pose proof (checkFrame_spec id data h) as Hc. destruct (checkFrame _ id data h) as [[x|] h1]; destruct Hc as [Hg Hx]; [|by split].
    split; [done|]. intros y [= <-]. by apply Hx.
  - destruct (flight !! id) as [x|]; [|by split; [apply seq_grows_same|]].
    pose proof (limitFrame_seq id now h) as Hl. destruct (limitFrame id now h) as [ok h1]. by split; [apply seq_grows_same|].
  - destruct (flight !! id); [by split; [apply seq_grows_same|]|].
    unfold readPump_exit. destruct (objects h !! id); by split; [apply seq_grows_same|].
  - unfold push. destruct (clients h !! p ≫= _) as [[id c]|]; by split; [apply seq_grows_same|].
  - unfold drain. destruct (objects h !! id) as [c|]; [|by split; [apply seq_grows_same|]].
    destruct (Send c); by split; [apply seq_grows_same|].
Qed.

(** [before x y]: in one stream, [x] has the smaller number. *)
Definition before (x y : string * WSMessage) : Prop :=
  seq_key x.1 x.2 = seq_key y.1 y.2 -> Seq x.2 <> 0%Z -> Seq y.2 <> 0%Z -> (Seq x.2 < Seq y.2)%Z.
Definition in_order (l : list (string * WSMessage)) : Prop := StronglySorted before l.

Lemma accepted_above ops s : Forall (fun x => above s.1 x.2) (run_pumps ops s).1.1.
Proof.
  revert s. induction ops as [|op ops IH]; intros s; simpl; [constructor|].
  pose proof (run_hub_op_spec op s) as Hs. destruct (run_hub_op op s) as [[a d] s1].
  destruct Hs as [Hg Ha]. specialize (IH s1). destruct (run_pumps ops s1) as [[la ld] s2]. simpl in *.
  assert (Forall (fun x => above s.1 x.2) la) as Hl.
  { eapply Forall_impl; [exact IH|]. intros x Hx Hz last Hk. apply Hg in Hk as (v' & Hk & Hle).
    specialize (Hx Hz v' Hk). lia. }
  destruct a as [y|]; [|exact Hl]. constructor; [by apply Ha|exact Hl].
Qed.

Lemma accepted_in_order ops s : in_order (run_pumps ops s).1.1.*2.
Proof.
  revert s. induction ops as [|op ops IH]; intros s; simpl; [constructor|].
  pose proof (run_hub_op_spec op s) as Hs. destruct (run_hub_op op s) as [[a d] s1].
  destruct Hs as [_ Ha]. specialize (IH s1). pose proof (accepted_above ops s1) as Hab.
  destruct (run_pumps ops s1) as [[la ld] s2]. simpl in *. destruct a as [x|]; [|exact IH]. simpl.
  constructor; [exact IH|]. apply Forall_fmap. eapply Forall_impl; [exact Hab|].
  intros y Hy Hkey Hx Hz. destruct (Ha x eq_refl) as [_ Hr]. destruct (Hr Hx) as (last & Hk & Hle).
  rewrite Hkey in Hk. specialize (Hy Hz last Hk). lia.
Qed.

(** Every message dispatched was accepted and is taken once: those of one
    connection are taken in the order of their acceptance. *)
Definition on (id : nat) (l : list event) : list event := filter (fun e => e.1 = id) l.
Definition waiting (s : pumps) (id : nat) : list event := match s.2 !! id with Some x => [(id, x)] | None => [] end.

Lemma on_cons id e l : on id (e :: l) = if decide (e.1 = id) then e :: on id l else on id l.
Proof. unfold on. by rewrite filter_cons. Qed.

Lemma step_on op s id :
  let '(a, d, s') := run_hub_op op s in
  exists rest, waiting s id ++ on id (emit a []) = rest ++ waiting s' id /\ on id (emit d []) `sublist_of` rest.
Proof.
  assert (forall s' : pumps, s'.2 = s.2 -> exists rest, waiting s id ++ on id (emit None []) = rest ++ waiting s' id /\
    on id (emit None []) `sublist_of` rest) as Hsame.
  { intros s' E. exists []. unfold waiting. rewrite E. simpl. by rewrite app_nil_r. }
  destruct s as [h flight], op as [p t o id' now|id' data now|id' data|id' now|id'|p data|id']; simpl; try (by apply Hsame).
  - destruct (flight !! id') as [x|] eqn:E; [by apply Hsame|]. destruct (checkFrame _ id' data h) as [[x|] h1]; [|by apply Hsame].
    destruct (limitFrame id' now h1) as [ok h2]. cbn [emit]. unfold waiting. cbn [snd]. rewrite on_cons. cbn [fst].
    destruct (decide (id' = id)) as [->|Hne].
    + rewrite E. exists [(id, x)]. split; [done|]. destruct ok; cbn [emit]; [|by apply sublist_nil_l]. rewrite on_cons. by rewrite decide_True.
    + exists []. rewrite app_nil_r. split; [done|]. destruct ok; cbn [emit]; [|done]. rewrite on_cons. by rewrite decide_False.
  - destruct (flight !! id') as [x|] eqn:E; [by apply Hsame|]. destruct (checkFrame _ id' data h) as [[x|] h1]; [|by apply Hsame].
    cbn [emit]. unfold waiting. cbn [snd]. rewrite on_cons. cbn [fst]. exists []. split; [|done].
    destruct (decide (id' = id)) as [->|Hne]; [by rewrite E, lookup_insert_eq|]. by rewrite lookup_insert_ne, app_nil_r by done.
  - destruct (flight !! id') as [x|] eqn:E; [|by apply Hsame]. destruct (limitFrame id' now h) as [ok h1].
    unfold waiting. cbn [snd emit]. destruct (decide (id' = id)) as [->|Hne].
    + rewrite E, lookup_delete_eq. exists [(id, x)]. split; [done|]. destruct ok; cbn [emit]; [|by apply sublist_nil_l].
      rewrite on_cons. by rewrite decide_True.
    + rewrite lookup_delete_ne by done. exists []. rewrite app_nil_r. split; [done|]. destruct ok; cbn [emit]; [|done].
      rewrite on_cons. by rewrite decide_False.
  - destruct (flight !! id'); by apply Hsame.
Qed.

Lemma on_emit id a l : on id (emit a l) = on id (emit a []) ++ on id l.
Proof. destruct a as [e|]; [|done]. cbn [emit]. rewrite !on_cons. by destruct (decide _). Qed.

Lemma dispatched_on ops s id :
  on id (run_pumps ops s).1.2 `sublist_of` waiting s id ++ on id (run_pumps ops s).1.1.
Proof.
  revert s. induction ops as [|op ops IH]; intros s; simpl; [by apply sublist_nil_l|].
  pose proof (step_on op s id) as Hs. destruct (run_hub_op op s) as [[a d] s1]. destruct Hs as (rest & E & Hd).
  specialize (IH s1). destruct (run_pumps ops s1) as [[la ld] s2]. simpl in *.
  rewrite (on_emit id a), (on_emit id d), app_assoc, E, <- app_assoc. by apply sublist_app.
Qed.

(** Undisturbed iterations. *)
Definition undisturbed (op : hub_op) : Prop := match op with HCheck _ _ | HDispatch _ _ => False | _ => True end.

Lemma undisturbed_dispatched ops s :
  Forall undisturbed ops -> (run_pumps ops s).1.2 `sublist_of` (run_pumps ops s).1.1.
Proof.
  intros Ho. revert s. induction Ho as [|op ops Hop _ IH]; intros s; [done|]. simpl.
  assert (exists a (ok : bool) s1, run_hub_op op s = (a, if ok then a else None, s1)) as (a & ok & s1 & ->).
  { destruct s as [h flight], op as [p t o id now|id data now|id data|id now|id|p data|id]; try done; simpl; try (by exists None, true; eexists).
    - destruct (flight !! id); [by exists None, true; eexists|]. destruct (checkFrame _ id data h) as [[x|] h1]; [|by exists None, true; eexists].
      destruct (limitFrame id now h1) as [ok h2]. by exists (Some (id, x)), ok; eexists.
    - destruct (flight !! id); by exists None, true; eexists. }
  specialize (IH s1). destruct (run_pumps ops s1) as [[la ld] s2]. simpl in *.
  destruct a as [x|], ok; cbn [emit]; try done; [by apply sublist_skip|by apply sublist_cons].
Qed.

Lemma sublist_fmap {A B} (f : A -> B) l1 l2 : l1 `sublist_of` l2 -> f <$> l1 `sublist_of` f <$> l2.
Proof. induction 1; simpl; by constructor. Qed.
Lemma in_order_sublist l1 l2 : l1 `sublist_of` l2 -> in_order l2 -> in_order l1.
Proof.
  intros H. induction H as [|x l1 l2 Hs IH|x l1 l2 Hs IH]; intros Ho; [constructor| |].
  - apply StronglySorted_inv in Ho as [Ho Hf]. constructor; [by apply IH|]. rewrite Forall_forall in *. intros y Hy.
    apply Hf. by eapply elem_of_sublist.
  - apply StronglySorted_inv in Ho as [Ho _]. by apply IH.
Qed.

(** A numbered message, by its stream and number and its connection. *)
Lemma accepted_once (l : list event) i j x y :
  in_order l.*2 -> l !! i = Some x -> l !! j = Some y -> seq_key x.2.1 x.2.2 = seq_key y.2.1 y.2.2 ->
  Seq x.2.2 <> 0%Z -> Seq x.2.2 = Seq y.2.2 -> i = j.
Proof.
  intros Ho Hi Hj Hk Hx Hs.
  assert (forall a b u w, (a < b)%nat -> l !! a = Some u -> l !! b = Some w -> before u.2 w.2) as Hlt.
  { clear -Ho. revert Ho. induction l as [|e l IH]; intros Ho a b u w Hab Ha Hb; [done|]. simpl in Ho.
    apply StronglySorted_inv in Ho as [Ho Hf]. destruct a as [|a], b as [|b]; try lia; simpl in *.
    - injection Ha as ->. rewrite Forall_fmap in Hf. by eapply Forall_lookup_1 in Hf.
    - apply (IH Ho a b); [lia|done|done]. }
  destruct (Nat.lt_trichotomy i j) as [Hl|[?|Hl]]; [|done|].
  - pose proof (Hlt _ _ _ _ Hl Hi Hj Hk Hx ltac:(congruence)). lia.
  - pose proof (Hlt _ _ _ _ Hl Hj Hi (eq_sym Hk) ltac:(congruence) Hx). lia.
Qed.

(** No number twice in one stream. *)
Definition never_twice (l : list (string * WSMessage)) : Prop :=
  forall i j x y, l !! i = Some x -> l !! j = Some y -> i <> j ->
    seq_key x.1 x.2 = seq_key y.1 y.2 -> Seq x.2 <> 0%Z -> Seq x.2 <> Seq y.2.

Lemma dispatched_once (A D : list event) :
  in_order A.*2 -> (forall id, on id D `sublist_of` on id A) -> never_twice D.*2.
Proof.
  intros HA HD. assert (forall id, in_order (on id D).*2) as Hon.
  { intros id. eapply in_order_sublist; [|exact HA]. apply sublist_fmap. etrans; [apply HD|]. apply sublist_filter. }
  assert (forall x, x ∈ D -> x ∈ A) as Hin.
  { intros x Hx. assert (x ∈ on x.1 D) as Hx' by (apply list_elem_of_filter; done).
    eapply elem_of_sublist in Hx'; [|apply HD]. by apply list_elem_of_filter in Hx' as [_ ?]. }
  assert (forall i j (x y : event), D !! i = Some x -> D !! j = Some y -> (i < j)%nat ->
    seq_key x.2.1 x.2.2 = seq_key y.2.1 y.2.2 -> Seq x.2.2 <> 0%Z -> Seq x.2.2 <> Seq y.2.2) as Hlt.
  { intros i j x y Hi Hj Hij Hk Hz Hs. destruct (decide (x.1 = y.1)) as [He|He].
    - rewrite <- (take_drop_middle D i x Hi) in Hj. rewrite lookup_app_r in Hj by (rewrite length_take; lia).
      rewrite length_take, Nat.min_l in Hj by (apply lookup_lt_Some in Hi; lia).
      destruct (j - i)%nat as [|k] eqn:Ek; [lia|]. simpl in Hj. apply list_elem_of_lookup_2 in Hj.
      specialize (Hon x.1). rewrite <- (take_drop_middle D i x Hi) in Hon. unfold on in Hon.
      rewrite filter_app, filter_cons, decide_True, fmap_app in Hon by done. simpl in Hon.
      assert (StronglySorted before (x.2 :: (filter (fun e : event => e.1 = x.1) (drop (S i) D)).*2)) as Hss.
      { eapply in_order_sublist; [|exact Hon]. apply sublist_inserts_l. done. }
      apply StronglySorted_inv in Hss as [_ Hf]. rewrite Forall_fmap, Forall_forall in Hf.
      assert (before x.2 y.2) as Hb by (apply (Hf y), list_elem_of_filter; done).
      specialize (Hb Hk Hz ltac:(congruence)). lia.
    - apply list_elem_of_lookup_2, Hin, list_elem_of_lookup in Hi as [a Ha]. apply list_elem_of_lookup_2, Hin, list_elem_of_lookup in Hj as [b Hb].
      pose proof (accepted_once A a b x y HA Ha Hb Hk Hz Hs) as <-. congruence. }
  intros i j x y. rewrite !list_lookup_fmap. intros (x' & Hi & ->)%fmap_Some (y' & Hj & ->)%fmap_Some Hne Hk Hz Hs.
  destruct (Nat.lt_trichotomy i j) as [Hl|[?|Hl]]; [by eapply (Hlt i j)|done|].
  eapply (Hlt j i); try done; congruence.
Qed.

(** C25. Replay protection: whatever the connections, frames, exits and
    deliveries, and however the pumps of the connections interleave between the
    check of a frame and its dispatch: in one session, pseudonym and type the
    numbered frames are accepted with increasing numbers, no number is
    dispatched twice, and each connection's frames are dispatched in the order
    of their acceptance, so with increasing numbers.  Where no pump is disturbed
    between the check and the dispatch, all are dispatched with increasing
    numbers. *)
Theorem dispatched_seq_increasing ops h :
  let '(accepted, dispatched, _) := run_hub ops h in
  in_order accepted.*2 /\ never_twice dispatched.*2 /\
  (forall id, on id dispatched `sublist_of` on id accepted /\ in_order (on id dispatched).*2) /\
  (Forall undisturbed ops -> in_order dispatched.*2).
Proof.
  pose proof (accepted_in_order ops (h, ∅)) as HA. pose proof (dispatched_on ops (h, ∅)) as HD.
  pose proof (undisturbed_dispatched ops (h, ∅)) as Hu. unfold run_hub. destruct (run_pumps ops (h, ∅)) as [[A D] s]. simpl in *.
  unfold waiting in HD. setoid_rewrite lookup_empty in HD. cbn [app] in HD. split_and!.
  - done.
  - by eapply dispatched_once.
  - intros id. split; [apply HD|]. eapply in_order_sublist; [|exact HA]. apply sublist_fmap. etrans; [apply HD|]. apply sublist_filter.
  - intros Ho. eapply in_order_sublist; [|exact HA]. by apply sublist_fmap, Hu.
Qed.
End Traces.

(** *** Outbound queues *)

Section Queues.
Context (json_Unmarshal : bytes -> option WSMessage).
Context (Upgrade : bool -> bool).

Definition queues_ok (h : Hub) : Prop :=
  forall id c, objects h !! id = Some c -> length (Send c) <= SendBufferSize.

Lemma enqueue_length data c :
  length (Send c) <= SendBufferSize -> length (Send (enqueue data c)) <= SendBufferSize.
Proof.
  unfold enqueue. destruct (Nat.ltb_spec (length (Send c)) SendBufferSize); [|done].
  simpl. rewrite length_app. simpl. lia.
Qed.

Lemma push_ok p data h : queues_ok h -> queues_ok (push p data h).
Proof.
  intros Hok. unfold push. destruct (clients h !! p ≫= _) as [[id c]|] eqn:E; [|done].
  intros i c'. simpl. rewrite lookup_insert_Some. intros [[<- <-]|[_ Hi]]; [|by eapply Hok].
  apply enqueue_length. apply bind_Some in E as (j & _ & Hj).
  apply fmap_Some in Hj as (c0 & Hc & [= -> ->]). by eapply Hok.
Qed.

Lemma objects_insert_ok h cl id c :
  queues_ok h -> length (Send c) <= SendBufferSize ->
  queues_ok (set_clients h cl (<[id := c]> (objects h))).
Proof.
  intros Hok Hc i c'. simpl. rewrite lookup_insert_Some. intros [[<- <-]|[_ Hi]]; [done|by eapply Hok].
Qed.

Lemma checkFrame_queues id data h : queues_ok h -> queues_ok (checkFrame json_Unmarshal id data h).2.
Proof.
  intros Hok. unfold checkFrame. destruct (objects h !! id) as [c|] eqn:Ec; [|done]. destruct (json_Unmarshal data) as [msg|]; [|done].
  destruct (ValidateInboundMessage msg); [done|]. pose proof (checkAndRecordSeq_objects (Pseudonym c) msg h) as Ho.
  destruct (checkAndRecordSeq (Pseudonym c) msg h) as [[] h1]; simpl in *; unfold queues_ok; by rewrite Ho.
Qed.
Lemma limitFrame_queues id now h : queues_ok h -> queues_ok (limitFrame id now h).2.
Proof.
  intros Hok. unfold limitFrame. destruct (objects h !! id) as [c|] eqn:Ec; [|done].
  destruct (Allow now (limiter c)) as [ok l]. apply objects_insert_ok; [done|exact (Hok _ _ Ec)].
Qed.

Lemma run_hub_op_queues op s : queues_ok s.1 -> queues_ok (run_hub_op json_Unmarshal Upgrade op s).2.1.
Proof.
  destruct s as [h flight]. intros Hok. destruct op as [p t o id now|id data now|id data|id now|id|p data|id]; simpl in *.
  - unfold HandleWS. destruct (String.eqb _ _); [done|]. destruct (negb _); [done|].
    destruct (negb _); [done|]. apply objects_insert_ok; [done|]. simpl. unfold SendBufferSize. lia.
  - destruct (flight !! id); [done|]. pose proof (checkFrame_queues id data h Hok) as Hc.
    destruct (checkFrame _ id data h) as [[x|] h1]; [|done]. pose proof (limitFrame_queues id now h1 Hc) as Hl.
    by destruct (limitFrame id now h1).
  - destruct (flight !! id); [done|]. pose proof (checkFrame_queues id data h Hok) as Hc.
    by destruct (checkFrame _ id data h) as [[x|] h1].
  - destruct (flight !! id); [|done]. pose proof (limitFrame_queues id now h Hok) as Hl. by destruct (limitFrame id now h).
  - destruct (flight !! id); [done|]. unfold readPump_exit. by destruct (objects h !! id).
  - by apply push_ok.
  - unfold drain. destruct (objects h !! id) as [c|] eqn:Ec; [|done].
    destruct (Send c) as [|d q] eqn:Eq; [done|]. apply objects_insert_ok; [done|].
    pose proof (Hok _ _ Ec) as Hl. rewrite Eq in Hl. simpl in *. lia.
Qed.

(** No operation ever blocks or grows a queue beyond its bound: in every
    state reached from a new hub each client's outbound queue holds at most
    [SendBufferSize] frames. *)
Lemma queues_bounded ops a opts id c :
  objects (run_hub json_Unmarshal Upgrade ops (NewHubWithOptions a opts)).2.1 !! id = Some c ->
  length (Send c) <= SendBufferSize.
Proof.
  assert (Hall : forall s, queues_ok s.1 -> queues_ok (run_pumps json_Unmarshal Upgrade ops s).2.1).
  { induction ops as [|op ops IH]; intros s Hok; simpl; [done|].
    pose proof (run_hub_op_queues op s Hok) as Hop.
    destruct (run_hub_op json_Unmarshal Upgrade op s) as [[a' d] s1]. specialize (IH s1 Hop).
    by destruct (run_pumps json_Unmarshal Upgrade ops s1) as [[la ld] s2]. }
  apply Hall. intros i c'. simpl. by rewrite lookup_empty.
Qed.
End Queues.

(** [SendTo] reaches one client only: it appends the encoded frame to that
    client's queue when there is room, drops it when the queue is full, does
    nothing for an unknown pseudonym, and touches no other queue, connection or
    sequence record. *)
Lemma SendTo_spec json_Marshal format_time p msg now h data :
  json_Marshal (stamp format_time now msg) = Some data ->
  let '(err, h') := SendTo json_Marshal format_time p msg now h in
  err = None /\ clients h' = clients h /\ seqHigh h' = seqHigh h /\
  match clients h !! p ≫= fun id => pair id <$> objects h !! id with
  | None => h' = h
  | Some (id, c) =>
      objects h' = <[id := if (length (Send c) <? SendBufferSize)%nat
                           then with_send c (Send c ++ [data]) else c]> (objects h)
  end.
Proof.
  intros Hm. unfold SendTo. rewrite Hm. unfold push, enqueue.
  by destruct (clients h !! p ≫= _) as [[id c]|].
Qed.

(** *** Frame admission *)

(** A frame reaches the handler exactly when it decodes, passes version
    validation (a version 2 frame needs a lineage node), is new to the replay
    filter, and its connection has a token left. *)
Lemma receive_iff json_Unmarshal id data now h msg :
  (receive json_Unmarshal id data now h).1 = Some msg <->
  exists c, objects h !! id = Some c /\ json_Unmarshal data = Some msg /\
    (Version msg = "" \/ Version msg = WireProtocolVersion \/
     Version msg = WireProtocolVersionLineage /\ msgLineage msg <> None) /\
    (checkAndRecordSeq (Pseudonym c) msg h).1 = true /\
    (Allow now (limiter c)).1 = true.
Proof.
  assert (Hval : forall m, ValidateInboundMessage m = None <->
    Version m = "" \/ Version m = WireProtocolVersion \/
    Version m = WireProtocolVersionLineage /\ msgLineage m <> None).
  { intros m. unfold ValidateInboundMessage, WireProtocolVersion, WireProtocolVersionLineage.
    destruct (String.eqb_spec (Version m) ""); [naive_solver|].
    destruct (String.eqb_spec (Version m) "1"); [naive_solver|].
    destruct (String.eqb_spec (Version m) "2"); [|naive_solver].
    destruct (msgLineage m); naive_solver. }
  rewrite receive_steps. destruct (objects h !! id) as [c|]; [|naive_solver].
  destruct (json_Unmarshal data) as [m|]; [|naive_solver].
  destruct (ValidateInboundMessage m) as [e|] eqn:Ev.
  { split; [done|]. intros (? & _ & [= <-] & Hv & _). apply Hval in Hv. congruence. }
  apply Hval in Ev. destruct (checkAndRecordSeq (Pseudonym c) m h) as [ok h1] eqn:Ec.
  destruct ok.
  - destruct (Allow now (limiter c)) as [[] l] eqn:Ea; simpl; split.
    + intros [= <-]. exists c. by rewrite Ec, Ea.
    + by intros (? & [= <-] & [= <-] & _).
    + done.
    + intros (? & [= <-] & _ & _ & _ & H). by rewrite Ea in H.
  - split; [done|]. intros (? & [= <-] & [= <-] & _ & H & _). by rewrite Ec in H.
Qed.

(** *** Token bucket *)

Lemma Seconds_nonpos d : (d <= 0)%Z -> fltb f0 (Seconds d) = false.
Proof.
  intros Hd. apply nonpos_not_positive. unfold Seconds. apply fadd_nonpos.
  - apply of_Z_nonpos. rewrite <- (Z.opp_involutive d), Z.quot_opp_l by done.
    pose proof (Z.quot_pos (- d) 1000000000). lia.
  - apply fdiv_nonpos, of_Z_nonpos. rewrite <- (Z.opp_involutive d), Z.rem_opp_l by done.
    pose proof (Z.rem_bound_pos (- d) 1000000000). lia.
Qed.

(** The token bucket: a refill never exceeds the capacity; a frame is
    admitted exactly when the refilled bucket holds at least one token, which
    it then loses; a clock that does not advance refills nothing; the nil
    limiter (a rate or burst that is not positive) admits everything. *)
Lemma Allow_spec now rl :
  is_nan (tokens (refill now rl)) = false -> is_nan (capacity rl) = false ->
  fleb (tokens rl) (capacity rl) = true ->
  fleb (tokens (refill now rl)) (capacity rl) = true /\
  ((Allow now (Some rl)).1 = true <-> fleb f1 (tokens (refill now rl)) = true) /\
  (forall rl', Allow now (Some rl) = (true, Some rl') ->
     tokens rl' = fsub (tokens (refill now rl)) f1) /\
  ((now <= lastTick rl)%Z -> refill now rl = rl) /\
  (forall rate burst, fleb rate f0 = true -> Allow now (newRateLimiter rate burst now) = (true, None)).
Proof.
  intros Ht Hc Hle. split_and!.
  - revert Ht. unfold refill. destruct (fgtb _ f0); [|done]. simpl.
    destruct (fgtb _ (capacity rl)) eqn:Eg; intros Ht; [by apply fleb_refl|].
    by apply fltb_false_fleb.
  - unfold Allow, fgeb. change SFleb with fleb. by destruct (fleb f1 _).
  - intros rl'. unfold Allow. destruct (fgeb _ f1); [|done]. by intros [= <-].
  - intros Hnow. unfold refill, fgtb. change SFltb with fltb. rewrite Seconds_nonpos; [done|].
    unfold Sub. lia.
  - intros rate burst Hr. unfold newRateLimiter. by rewrite Hr.
Qed.

Module Witnesses.
(** A one-byte frame: the sequence number of a fixed session and type. *)
Definition decode (data : bytes) : option WSMessage :=
  match data with
  | [b] => Some {| Version := "1"; Type_ := "t"; msgSessionID := "s"; Seq := Z.of_N (Byte.to_N b);
                   Payload := []; Timestamp := ""; msgLineage := None |}
  | _ => None
  end.
Definition dev : AuthMiddleware := {| Secret := []; AllowDevBypass := true |}.
Definition upgrade (origin_ok : bool) : bool := origin_ok.

(** Two frames pass, the replay of the first is dropped. *)
Definition ops : list hub_op :=
  [HConnect "p" "" "" 0 0; HFrame 0 [x03] 1; HFrame 0 [x05] 2; HFrame 0 [x03] 3].
Definition frame (n : Z) : WSMessage :=
  {| Version := "1"; Type_ := "t"; msgSessionID := "s"; Seq := n; Payload := []; Timestamp := "";
     msgLineage := None |}.

Lemma dispatched_seq_increasing_witness :
  (run_hub decode upgrade ops (NewHub dev)).1.2 = [(0, ("p", frame 3)); (0, ("p", frame 5))]%string /\
  in_order (run_hub decode upgrade ops (NewHub dev)).1.2.*2.
Proof.
  split; [vm_compute; reflexivity|]. pose proof (dispatched_seq_increasing decode upgrade ops (NewHub dev)) as H.
  destruct (run_hub decode upgrade ops (NewHub dev)) as [[A D] s]. destruct H as (_ & _ & _ & H). apply H.
  repeat constructor.
Defined.

(** Two connections of one participant: both frames are accepted in order, and
    the pump of the second is the first to reach the handler. *)
Example two_connections_overtake :
  (run_hub decode upgrade [HConnect "p" "" "" 0 0; HConnect "p" "" "" 1 0; HCheck 0 [x03]; HCheck 1 [x05];
                           HDispatch 1 1; HDispatch 0 1] (NewHub dev)).1 =
  ([(0, ("p", frame 3)); (1, ("p", frame 5))], [(1, ("p", frame 5)); (0, ("p", frame 3))])%string.
Proof. vm_compute. reflexivity. Qed.

Lemma queues_bounded_witness :
  exists c, objects (run_hub decode upgrade ops (NewHub dev)).2.1 !! 0 = Some c /\
    length (Send c) <= SendBufferSize.
Proof.
  eexists. split; [vm_compute; reflexivity|].
  apply (queues_bounded decode upgrade ops dev
           {| AllowedOrigins := []; AllowAnyOrigin := true; MaxMessageSize := 0;
              InboundRate := f0; InboundBurst := f0 |} 0).
  vm_compute. reflexivity.
Defined.

Lemma SendTo_spec_witness :
  let h := (run_hub decode upgrade [HConnect "p" "" "" 0 0] (NewHub dev)).2.1 in
  (SendTo (fun _ => Some [x07]) (fun _ => ""%string) "p" (frame 1) 0 h).1 = None.
Proof.
  intros h.
  pose proof (SendTo_spec (fun _ => Some [x07]) (fun _ => ""%string) "p" (frame 1) 0 h [x07] eq_refl) as H.
  destruct (SendTo _ _ _ _ _ _) as [e h']. exact (proj1 H).
Defined.

Lemma Allow_spec_witness :
  let rl := {| capacity := of_Z 2; refillRate := f1; tokens := f0; lastTick := 0 |} in
  fleb (tokens (refill 5000000000 rl)) (capacity rl) = true /\ (Allow 5000000000 (Some rl)).1 = true.
Proof.
  intros rl. destruct (Allow_spec 5000000000 rl eq_refl eq_refl eq_refl) as (H1 & H2 & _).
  split; [exact H1|]. apply H2. vm_compute. reflexivity.
Defined.

(** A client that reconnects is lost from the registry when the pump of its
    previous connection ends. *)
Example reconnect_then_old_pump_exits :
  IsConnected "p" (run_hub decode upgrade [HConnect "p" "" "" 0 0; HConnect "p" "" "" 1 5; HExit 0] (NewHub dev)).2.1
  = false.
Proof. vm_compute. reflexivity. Qed.

(** The filter records a frame before the limiter drops it, so the retry of a
    rate-limited frame is refused as a replay. *)
Definition limited : Hub :=
  NewHubWithOptions dev {| AllowedOrigins := []; AllowAnyOrigin := true; MaxMessageSize := 0;
                           InboundRate := f1; InboundBurst := f1 |}.
Example limited_retry_is_a_replay :
  (run_hub decode upgrade [HConnect "p" "" "" 0 0; HFrame 0 [x01] 0; HFrame 0 [x02] 0;
                           HFrame 0 [x02] 5000000000] limited).1.2 = [(0, ("p", frame 1))]%string.
Proof. vm_compute. reflexivity. Qed.

(** The key of the filter does not separate its parts: two frames of different
    sessions and pseudonyms share it. *)
Example seq_key_ambiguous :
  seq_key "b" {| Version := ""; Type_ := "t"; msgSessionID := "s|a"; Seq := 1; Payload := [];
                 Timestamp := ""; msgLineage := None |} =
  seq_key "a|b" {| Version := ""; Type_ := "t"; msgSessionID := "s"; Seq := 1; Payload := [];
                   Timestamp := ""; msgLineage := None |}.
Proof. reflexivity. Qed.
End Witnesses.
