(* ===== verification/Stores.v ===== *)
(** * Transport stores (pkg/ares/transport: artifacts.go, events.go, log_stream.go)

    The artifact store with its expiry and content addressing, the per-session
    event ring and the log ring, each against what it should remember.  Times
    are nanoseconds, read by the caller. *)
From Stdlib Require Import ZArith NArith Lia String Ascii Strings.Byte.
From stdpp Require Import base gmap list strings.
From S2P Require Import Prelude Bytes.
From S2P Require Import Lineage.

(** ** Artifacts *)

Record artifactEntry := { data : bytes; expires : Z }.
Record ArtifactStore := { entries : gmap string artifactEntry; ttl : Z }.

Definition minute : Z := 60 * 1000000000.
Definition NewArtifactStoreWithTTL (ttl : Z) : ArtifactStore := {| entries := ∅; ttl := ttl |}.
Definition NewArtifactStore : ArtifactStore := NewArtifactStoreWithTTL (30 * minute).

Definition Put (key : string) (d : bytes) (now : Z) (s : ArtifactStore) : ArtifactStore :=
  {| entries := <[key := {| data := d; expires := now + ttl s |}]> (entries s); ttl := ttl s |}.

Definition artifact_Get (key : string) (now : Z) (s : ArtifactStore) : option bytes :=
  match entries s !! key with
  | None => None
  | Some e => if (expires e <? now)%Z then None else Some (data e)
  end.

Definition Delete (key : string) (s : ArtifactStore) : ArtifactStore :=
  {| entries := delete key (entries s); ttl := ttl s |}.

(** The store after the sweep and the number of entries purged. *)
Definition Sweep (now : Z) (s : ArtifactStore) : nat * ArtifactStore :=
  let kept := filter (fun kv => (expires kv.2 <? now)%Z = false) (entries s) in
  (size (entries s) - size kept, {| entries := kept; ttl := ttl s |}).

Definition Resolve (key : string) (now : Z) (s : ArtifactStore) : Outcome bytes :=
  match artifact_Get key now s with
  | Some d => Ok d
  | None => Err (Errorf [T "artifact "; Q key; T " not found"])
  end.

Definition ErrCorrupted : GoError := ErrorsNew "artifact: content hash mismatch".

(** A handle is a 32-byte array, like a node reference. *)
Definition ContentKey (handle : NodeRef) : string := ("content:" +:+ hex_encode (ref_bytes handle))%string.

Definition PutContent (d : bytes) (now : Z) (s : ArtifactStore) : NodeRef * ArtifactStore :=
  let handle := sum256 d in (handle, Put (ContentKey handle) d now s).

Definition GetContent (handle : NodeRef) (now : Z) (s : ArtifactStore) : Outcome bytes :=
  match artifact_Get (ContentKey handle) now s with
  | None => Err (Errorf [T "artifact: handle "; T (hex_encode (ref_bytes handle)); T " not found"])
  | Some d => if decide (sum256 d <> handle) then Err ErrCorrupted else Ok d
  end.

Lemma artifact_Get_Put key d now now' s :
  artifact_Get key now' (Put key d now s) = if (now + ttl s <? now')%Z then None else Some d.
Proof. unfold artifact_Get, Put. simpl. by rewrite lookup_insert_eq. Qed.

Lemma artifact_Get_Put_ne key key' d now now' s :
  key <> key' -> artifact_Get key now' (Put key' d now s) = artifact_Get key now' s.
Proof. intros Hne. unfold artifact_Get, Put. simpl. by rewrite lookup_insert_ne by congruence. Qed.

(** Content addressing: what [GetContent] returns always hashes to the
    requested handle, whatever was stored or overwritten under its key; and
    content put is returned, unchanged, until its time to live has passed. *)
Lemma content_integrity :
  (forall handle now s d, GetContent handle now s = Ok d -> sum256 d = handle) /\
  (forall d now now' s, (now' <= now + ttl s)%Z ->
     let '(handle, s') := PutContent d now s in GetContent handle now' s' = Ok d) /\
  (forall d1 d2 now s, (PutContent d1 now s).1 = (PutContent d2 now s).1 <-> sha256 d1 = sha256 d2).
Proof.
  split_and!.
  - intros handle now s d. unfold GetContent. destruct (artifact_Get _ _ _) as [d'|]; [|done].
    destruct (decide (sum256 d' <> handle)) as [|Hn]; [done|]. intros [= <-].
    destruct (decide (sum256 d' = handle)); [done|]. by destruct Hn.
  - intros d now now' s Ht. simpl. unfold GetContent. rewrite artifact_Get_Put.
    destruct (Z.ltb_spec (now + ttl s) now'); [lia|].
    by destruct (decide (sum256 d <> sum256 d)).
  - intros d1 d2 now s. simpl. apply sum256_eq.
Qed.

(** A sweep is unobservable: at the time of the sweep and at any later one
    every key reads as before, and exactly the entries that read as absent are
    gone. *)
Lemma Sweep_unobservable now s :
  (forall key now', (now <= now')%Z -> artifact_Get key now' (Sweep now s).2 = artifact_Get key now' s) /\
  (forall key, is_Some (entries (Sweep now s).2 !! key) <-> is_Some (artifact_Get key now s)) /\
  (Sweep now s).1 + size (entries (Sweep now s).2) = size (entries s).
Proof.
  unfold Sweep. cbn [fst snd]. split_and!.
  - intros key now' Hn. unfold artifact_Get. cbn [entries].
    destruct (entries s !! key) as [e|] eqn:E.
    + destruct (expires e <? now)%Z eqn:Ee.
      * assert (filter (fun kv : string * artifactEntry => (expires kv.2 <? now)%Z = false) (entries s) !! key = None) as ->.
        { apply map_lookup_filter_None. right. intros e' He'. simpl. congruence. }
        apply Z.ltb_lt in Ee. destruct (Z.ltb_spec (expires e) now'); [done|lia].
      * assert (filter (fun kv : string * artifactEntry => (expires kv.2 <? now)%Z = false) (entries s) !! key = Some e) as ->.
        { by apply map_lookup_filter_Some. }
        done.
    + assert (filter (fun kv : string * artifactEntry => (expires kv.2 <? now)%Z = false) (entries s) !! key = None) as ->.
      { apply map_lookup_filter_None. by left. }
      done.
  - intros key. cbn [entries]. unfold artifact_Get. split.
    + intros [e [He Hx]%map_lookup_filter_Some]. simpl in Hx. rewrite He, Hx. eauto.
    + destruct (entries s !! key) as [e|] eqn:E; [|by intros [? ?]].
      destruct (expires e <? now)%Z eqn:Ee; [by intros [? ?]|]. intros _. exists e.
      by apply map_lookup_filter_Some.
  - cbn [entries]. pose proof (map_size_filter (fun kv : string * artifactEntry => (expires kv.2 <? now)%Z = false) (entries s)). lia.
Qed.

(** ** The session event ring *)

Record SessionEvent := { evTime : Z; evSession : string; evType : string; evFrom : string; evError : string }.
Record SessionEventRing := { cap : Z; ring : gmap string (list SessionEvent) }.

Definition NewSessionEventRing (c : Z) : SessionEventRing :=
  {| cap := if (c <=? 0)%Z then 128 else c; ring := ∅ |}.

(** The nil ring ignores everything. *)
Definition Record_ (sessionID msgType from errStr : string) (now : Z) (r : option SessionEventRing)
  : option SessionEventRing :=
  r' ← r;
  let ev := {| evTime := now; evSession := sessionID; evType := msgType; evFrom := from; evError := errStr |} in
  let events := default [] (ring r' !! sessionID) in
  let events := if (cap r' <=? Z.of_nat (length events))%Z && (0 <? cap r')%Z then tail events else events in
  Some {| cap := cap r'; ring := <[sessionID := events ++ [ev]]> (ring r') |}.

Definition Events (sessionID : string) (r : option SessionEventRing) : option (list SessionEvent) :=
  r' ← r; ring r' !! sessionID.

Definition Prune (active : gset string) (r : option SessionEventRing) : option SessionEventRing :=
  r' ← r; Some {| cap := cap r'; ring := filter (fun kv => kv.1 ∈ active) (ring r') |}.

(** *** Its specification: the last [n] entries of a log *)

Definition lastn {A} (n : nat) (l : list A) : list A := drop (length l - n) l.

Lemma lastn_snoc {A} n (l : list A) x :
  lastn (S n) (l ++ [x]) = (if (S n <=? length (lastn (S n) l))%nat then tail (lastn (S n) l) else lastn (S n) l) ++ [x].
Proof.
  unfold lastn. rewrite length_drop, length_app. change (length [x]) with 1.
  destruct (Nat.leb_spec (S n) (length l - (length l - S n))) as [Hl|Hl].
  - rewrite drop_app_le by lia. f_equal.
    replace (length l + 1 - S n) with (S (length l - S n)) by lia.
    rewrite <- (Nat.add_1_r (length l - S n)), <- drop_drop. by destruct (drop _ l).
  - rewrite drop_app_le by lia. f_equal. f_equal. lia.
Qed.

Record ring_op := { op_session : string; op_type : string; op_from : string; op_err : string; op_now : Z }.
Definition op_event (o : ring_op) : SessionEvent :=
  {| evTime := op_now o; evSession := op_session o; evType := op_type o; evFrom := op_from o; evError := op_err o |}.
Definition record_all (ops : list ring_op) (r : option SessionEventRing) : option SessionEventRing :=
  foldl (fun r o => Record_ (op_session o) (op_type o) (op_from o) (op_err o) (op_now o) r) r ops.

Definition session_log (sid : string) (ops : list ring_op) : list SessionEvent :=
  op_event <$> filter (fun o => op_session o = sid) ops.

(** The event ring remembers, for each session, exactly the last [cap] of
    the events recorded for it, in order; other sessions do not push them out.
    A capacity that is not positive means 128. *)
Lemma ring_refines_log c ops sid :
  let r := NewSessionEventRing c in
  default [] (Events sid (record_all ops (Some r))) = lastn (Z.to_nat (cap r)) (session_log sid ops).
Proof.
  cbv zeta. set (r := NewSessionEventRing c).
  assert (Hcap : (0 < cap r)%Z).
  { unfold r, NewSessionEventRing. simpl. destruct (Z.leb_spec c 0); lia. }
  enough (Hall : exists r', record_all ops (Some r) = Some r' /\ cap r' = cap r /\
    forall sid, default [] (ring r' !! sid) = lastn (Z.to_nat (cap r)) (session_log sid ops)).
  { destruct Hall as (r' & -> & _ & H). exact (H sid). }
  clear sid. induction ops as [|o ops IH] using rev_ind.
  { exists r. split; [done|]. split; [done|]. intros sid. simpl. by rewrite lookup_empty. }
  destruct IH as (r' & Hr & Hc & IH). unfold record_all in *. rewrite foldl_app, Hr. simpl.
  eexists. split; [reflexivity|]. split; [done|]. intros sid. simpl. unfold session_log.
  rewrite filter_app, fmap_app. destruct (decide (sid = op_session o)) as [->|Hne].
  - rewrite lookup_insert_eq. rewrite (filter_cons_True (fun o0 => op_session o0 = op_session o)) by done.
    simpl. fold (session_log (op_session o) ops). rewrite IH, Hc.
    change (if (c <=? 0)%Z then 128%Z else c) with (cap r).
    destruct (Z.to_nat (cap r)) as [|n] eqn:En; [lia|]. rewrite lastn_snoc. f_equal.
    destruct (Z.ltb_spec 0 (cap r)); [|lia]. rewrite andb_true_r.
    destruct (Z.leb_spec (cap r) (Z.of_nat (length (lastn (S n) (session_log (op_session o) ops)))));
      destruct (Nat.leb_spec (S n) (length (lastn (S n) (session_log (op_session o) ops))));
      try done; lia.
  - rewrite lookup_insert_ne by congruence.
    rewrite (filter_cons_False (fun o0 => op_session o0 = sid)) by congruence.
    simpl. rewrite app_nil_r. apply IH.
Qed.

(** ** The log ring *)

Section LogRing.
(** [logRingSize]. *)
Context (size_ : nat).

Record LogStream := { lines : list string; pos : nat; full : bool }.

Definition NewLogStream : LogStream :=
  {| lines := repeat EmptyString size_; pos := 0; full := false |}.

(** [strings.TrimRight(s, "\n")]. *)
Fixpoint TrimRight (c : ascii) (s : string) : string :=
  match s with
  | EmptyString => EmptyString
  | String a s' =>
      match TrimRight c s' with
      | EmptyString => if Ascii.eqb a c then EmptyString else String a EmptyString
      | t => String a t
      end
  end.
Definition newline : ascii := ascii_of_nat 10.
Definition carriage_return : ascii := ascii_of_nat 13.

Definition Write (p : string) (ls : LogStream) : LogStream :=
  let pos' := (pos ls + 1) mod size_ in
  {| lines := <[pos ls := TrimRight newline p]> (lines ls); pos := pos';
     full := if Nat.eqb pos' 0 then true else full ls |}.

Definition nonempty (s : string) : bool := negb (String.eqb s EmptyString).

Definition buffered (ls : LogStream) : list string :=
  (if full ls then List.filter nonempty (drop (pos ls) (lines ls)) else []) ++
  List.filter nonempty (take (pos ls) (lines ls)).

Definition write_all (ps : list string) (ls : LogStream) : LogStream :=
  foldl (fun ls p => Write p ls) ls ps.

(** The lines the ring holds, oldest first. *)
Definition contents (ls : LogStream) : list string :=
  (if full ls then drop (pos ls) (lines ls) else []) ++ take (pos ls) (lines ls).

Record log_state (l : list string) (ls : LogStream) : Prop := {
  log_length : length (lines ls) = size_;
  log_pos : pos ls < size_;
  log_partial : full ls = false -> length l = pos ls;
  log_contents : contents ls = lastn size_ l
}.

Lemma take_insert_S (l : list string) i x :
  i < length l -> take (S i) (<[i := x]> l) = take i l ++ [x].
Proof.
  intros Hi. rewrite (take_S_r _ _ x) by (by apply list_lookup_insert_eq).
  by rewrite take_insert_ge by lia.
Qed.

Lemma contents_length ls : length (lines ls) = size_ -> pos ls < size_ ->
  full ls = true -> length (contents ls) = size_.
Proof.
  intros Hl Hp Hf. unfold contents. rewrite Hf, length_app, length_drop, length_take. lia.
Qed.

Lemma Write_contents p ls :
  length (lines ls) = size_ -> pos ls < size_ ->
  contents (Write p ls) = (if full ls then tail (contents ls) else contents ls) ++ [TrimRight newline p].
Proof.
  intros Hl Hp. unfold contents, Write. cbn [lines pos full]. set (x := TrimRight newline p).
  destruct (lookup_lt_is_Some_2 (lines ls) (pos ls)) as [y Hy]; [lia|].
  rewrite (drop_S _ _ _ Hy).
  destruct (decide (pos ls + 1 = size_)) as [He|Hne].
  - rewrite He, Nat.Div0.mod_same. simpl. rewrite drop_0, app_nil_r.
    rewrite <- (take_ge (<[pos ls := x]> (lines ls)) (S (pos ls))) by (rewrite length_insert; lia).
    rewrite take_insert_S by lia. rewrite (drop_ge _ (S (pos ls))) by lia. by destruct (full ls).
  - rewrite Nat.mod_small by lia. destruct (Nat.eqb_spec (pos ls + 1) 0); [lia|].
    rewrite Nat.add_1_r, take_insert_S, drop_insert_lt by lia.
    destruct (full ls); simpl; [by rewrite app_assoc|done].
Qed.

Lemma Write_state p l ls :
  log_state l ls -> log_state (l ++ [TrimRight newline p]) (Write p ls).
Proof.
  intros [Hl Hp Hpart Hc]. split.
  - unfold Write. simpl. by rewrite length_insert.
  - unfold Write. simpl. apply Nat.mod_upper_bound. lia.
  - unfold Write. simpl. destruct (Nat.eqb_spec ((pos ls + 1) mod size_) 0) as [|Hne]; [done|].
    intros Hf. rewrite length_app, (Hpart Hf). simpl.
    destruct (decide (pos ls + 1 = size_)) as [He|?]; [|by rewrite Nat.mod_small by lia].
    destruct Hne. rewrite He. apply Nat.Div0.mod_same.
  - rewrite Write_contents by done. destruct size_ as [|n] eqn:En; [lia|].
    rewrite lastn_snoc, <- Hc. f_equal. destruct (full ls) eqn:Ef.
    + pose proof (contents_length ls) as Hlen. rewrite En in Hlen. rewrite Hlen by done.
      by rewrite Nat.leb_refl.
    + destruct (Nat.leb_spec (S n) (length (contents ls))) as [Hle|]; [|done].
      exfalso. rewrite Hc in Hle. unfold lastn in Hle. rewrite length_drop, (Hpart eq_refl) in Hle. lia.
Qed.

Lemma New_state : 0 < size_ -> log_state [] NewLogStream.
Proof.
  intros Hs. split; simpl; [apply repeat_length|done|done|].
  done.
Qed.

Lemma write_all_state ps : 0 < size_ -> log_state (TrimRight newline <$> ps) (write_all ps NewLogStream).
Proof.
  intros Hs. induction ps as [|p ps IH] using rev_ind; [by apply New_state|].
  unfold write_all in *. rewrite foldl_app, fmap_app. by apply Write_state.
Qed.
End LogRing.

Definition logRingSize : nat := 4000.

(** Whatever was logged, a new subscriber is replayed exactly the last
    4000 lines, oldest first and without the empty ones: the circular buffer
    neither loses, repeats nor reorders a line when it wraps. *)
Lemma buffered_spec (ps : list string) :
  buffered (write_all logRingSize ps (NewLogStream logRingSize)) =
  List.filter nonempty (lastn logRingSize (TrimRight newline <$> ps)).
Proof.
  assert (Hs : 0 < logRingSize) by (unfold logRingSize; lia).
  destruct (write_all_state logRingSize ps Hs) as [_ _ _ Hc]. rewrite <- Hc.
  unfold buffered, contents. rewrite List.filter_app. f_equal. by destruct (full _).
Qed.

(** ** Server-sent events *)

(** [strings.Split(s, c)] for a one-byte separator. *)
Fixpoint Split (c : ascii) (s : string) : list string :=
  match s with
  | EmptyString => [EmptyString]
  | String a s' =>
      if Ascii.eqb a c then EmptyString :: Split c s'
      else match Split c s' with
           | p :: ps => String a p :: ps
           | [] => [String a EmptyString]
           end
  end.

Definition sse_line (part : string) : string := ("data: " +:+ TrimRight carriage_return part)%string.

Definition writeSSE (line : string) : string :=
  (String.concat "" (map (fun part => sse_line part +:+ String newline EmptyString) (Split newline line))
   +:+ String newline EmptyString)%string.

Fixpoint has (c : ascii) (s : string) : bool :=
  match s with
  | EmptyString => false
  | String a s' => Ascii.eqb a c || has c s'
  end.

Lemma has_app c a b : has c (a +:+ b)%string = has c a || has c b.
Proof. induction a as [|x a IH]; [done|]. simpl. by rewrite IH, orb_assoc. Qed.

Lemma Split_parts c s p : p ∈ Split c s -> has c p = false.
Proof.
  revert p. induction s as [|a s IH]; intros p; simpl.
  - by intros ->%list_elem_of_singleton.
  - destruct (Ascii.eqb a c) eqn:Ea.
    + intros [->|Hp]%elem_of_cons; [done|by apply IH].
    + destruct (Split c s) as [|q qs]; [intros ->%list_elem_of_singleton; simpl; by rewrite Ea|].
      intros [->|Hp]%elem_of_cons; [|by apply IH; right]. simpl. rewrite Ea. apply IH. by left.
Qed.

Lemma has_TrimRight c d s : has c s = false -> has c (TrimRight d s) = false.
Proof.
  induction s as [|a s IH]; [done|]. simpl. intros [Ha Hs]%orb_false_iff. specialize (IH Hs).
  destruct (TrimRight d s) as [|b t] eqn:E.
  - destruct (Ascii.eqb a d); [done|]. simpl. by rewrite Ha.
  - change (Ascii.eqb a c || has c (String b t) = false). by rewrite Ha, IH.
Qed.

Lemma Split_app c a b : has c a = false -> Split c (a +:+ String c b)%string = a :: Split c b.
Proof.
  induction a as [|x a IH]; simpl.
  - intros _. by rewrite Ascii.eqb_refl.
  - intros [Hx Ha]%orb_false_iff. rewrite Hx. by rewrite IH.
Qed.

Lemma string_app_assoc (a b c : string) : ((a +:+ b) +:+ c = a +:+ (b +:+ c))%string.
Proof.
  induction a as [|x a IH]; [done|].
  change (String x ((a +:+ b) +:+ c) = String x (a +:+ (b +:+ c)))%string. by rewrite IH.
Qed.

Lemma concat_cons (x : string) l : String.concat "" (x :: l) = (x +:+ String.concat "" l)%string.
Proof.
  destruct l; [|done]. change (x = x +:+ "")%string.
  induction x as [|a x IH]; [done|]. change (String a x = String a (x +:+ ""))%string. by rewrite <- IH.
Qed.

(** One call of [writeSSE] emits exactly one event, whatever the logged
    text: read line by line it is one [data:] line per line of the text and
    then the single blank line that ends the event, so embedded newlines
    cannot start another one. *)
Lemma writeSSE_single_event line :
  Split newline (writeSSE line) = map sse_line (Split newline line) ++ [""; ""]%string /\
  forall l, l ∈ map sse_line (Split newline line) -> l <> EmptyString.
Proof.
  split.
  - unfold writeSSE. pose proof (Split_parts newline line) as Hp.
    induction (Split newline line) as [|p ps IH]; [done|].
    cbn [map]. rewrite concat_cons, !string_app_assoc.
    change (String newline EmptyString +:+ ?x)%string with (String newline x).
    rewrite Split_app.
    + cbn [app]. f_equal. apply IH. intros q Hq. apply Hp. by right.
    + unfold sse_line. rewrite has_app. simpl. apply has_TrimRight, Hp. by left.
  - intros l (p & <- & _)%list_elem_of_In%in_map_iff. done.
Qed.
