(* ===== verification/LogFan.v ===== *)
(** * Live subscribers of the log (pkg/ares/transport/log_stream.go)

    Every line written to the log goes into the ring and is offered to the
    channels of the subscribers; the handler of a request subscribes, replays the
    ring and then forwards its channel.  Writers and handlers interleave: the
    steps of the handlers are those between two uses of the lock or a channel. *)
From Stdlib Require Import Arith Lia String Ascii List.
From stdpp Require Import base gmap list strings.
From S2P Require Import Prelude Stores.

(** ** State and operations *)

(** What a handler writes to its response. *)
Inductive event := Line (l : string) | Heartbeat.
Definition event_text (e : event) : string :=
  match e with
  | Line l => writeSSE l
  | Heartbeat => (": heartbeat" +:+ String newline (String newline EmptyString))%string
  end.
Definition line_of (e : event) : option string := match e with Line l => Some l | Heartbeat => None end.

Inductive stage := Replaying | Streaming | Ended.
Record Handler := { stage_of : stage; sent : list event }.

(** Channels and handlers by the identity of the channel. *)
Record Fan := { log : LogStream; subs : gmap nat (list string); handlers : gmap nat Handler }.
Definition NewFan : Fan := {| log := NewLogStream logRingSize; subs := ∅; handlers := ∅ |}.

Definition channel_size : nat := 512.
(** [select { case ch <- line: default: }]. *)
Definition offer (line : string) (ch : list string) : list string :=
  if length ch <? channel_size then ch ++ [line] else ch.
Definition fan_Write (p : string) (s : Fan) : Fan :=
  {| log := Write logRingSize p (log s); subs := offer (TrimRight newline p) <$> subs s; handlers := handlers s |}.

Definition subscribe (i : nat) (s : Fan) : Fan :=
  {| log := log s; subs := <[i := []]> (subs s); handlers := handlers s |}.
Definition unsubscribe (i : nat) (s : Fan) : Fan :=
  {| log := log s; subs := delete i (subs s); handlers := handlers s |}.
Definition set_subs (i : nat) (ch : list string) (s : Fan) : Fan :=
  {| log := log s; subs := <[i := ch]> (subs s); handlers := handlers s |}.
Definition set_handler (i : nat) (h : Handler) (s : Fan) : Fan :=
  {| log := log s; subs := subs s; handlers := <[i := h]> (handlers s) |}.

(** What the route answers before it streams. *)
Definition route_status (check : option bool) (flusher : bool) : option nat :=
  match check with
  | Some false => Some 401
  | _ => if flusher then None else Some 500
  end.

(** ** Steps *)

Inductive label := Write_ (p : string) | Start_ (i : nat) | Replay_ (i : nat) | Forward_ (i : nat) | Beat_ (i : nat) | Done_ (i : nat).

(** The loop of [handleStream] chooses among the cases that are ready. *)
Inductive fan_step (s : Fan) : label -> Fan -> Prop :=
| step_Write p : fan_step s (Write_ p) (fan_Write p s)
| step_Start i : handlers s !! i = None ->
    fan_step s (Start_ i) (set_handler i {| stage_of := Replaying; sent := [] |} (subscribe i s))
| step_Replay i h : handlers s !! i = Some h -> stage_of h = Replaying ->
    fan_step s (Replay_ i) (set_handler i {| stage_of := Streaming; sent := sent h ++ (Line <$> buffered (log s)) |} s)
| step_Forward i h line ch : handlers s !! i = Some h -> stage_of h = Streaming -> subs s !! i = Some (line :: ch) ->
    fan_step s (Forward_ i) (set_handler i {| stage_of := Streaming; sent := sent h ++ [Line line] |} (set_subs i ch s))
| step_Beat i h : handlers s !! i = Some h -> stage_of h = Streaming ->
    fan_step s (Beat_ i) (set_handler i {| stage_of := Streaming; sent := sent h ++ [Heartbeat] |} s)
| step_Done i h : handlers s !! i = Some h -> stage_of h = Streaming ->
    fan_step s (Done_ i) (set_handler i {| stage_of := Ended; sent := sent h |} (unsubscribe i s)).

Inductive fan_runs : list label -> Fan -> Prop :=
| runs_nil : fan_runs [] NewFan
| runs_snoc ls l s s' : fan_runs ls s -> fan_step s l s' -> fan_runs (ls ++ [l]) s'.

(** The lines logged in a run. *)
Definition written (ls : list label) : list string :=
  omap (fun l => match l with Write_ p => Some (TrimRight newline p) | _ => None end) ls.
Definition replay_of (history : list string) : list string := List.filter nonempty (lastn logRingSize history).

(** ** What a subscriber is sent *)

(** What its channel has taken of the lines logged since it subscribed. *)
Definition taken (since got ch : list string) : Prop :=
  length ch <= channel_size /\ got ++ ch `sublist_of` since /\ (length since <= channel_size -> got ++ ch = since).

(** A handler after the lines [ls] were logged. *)
Definition follows (ls : list string) (ch : option (list string)) (h : Handler) : Prop :=
  match stage_of h with
  | Replaying => sent h = [] /\ exists before since q, ls = before ++ since /\ ch = Some q /\ taken since [] q
  | Streaming => exists before between after got q,
      ls = before ++ between ++ after /\ ch = Some q /\
      omap line_of (sent h) = replay_of (before ++ between) ++ got /\ taken (between ++ after) got q
  | Ended => exists before between after rest got q,
      ls = before ++ between ++ after ++ rest /\ ch = None /\
      omap line_of (sent h) = replay_of (before ++ between) ++ got /\ taken (between ++ after) got q
  end.

(** Offering a line to a channel. *)
Lemma taken_offer since got ch line : taken since got ch -> taken (since ++ [line]) got (offer line ch).
Proof.
  intros (Hc & Hs & Hall). unfold taken, offer. rewrite length_app. simpl. destruct (Nat.ltb_spec (length ch) channel_size) as [Hlt|Hge].
  - split; [rewrite length_app; simpl; lia|]. rewrite app_assoc. split; [by apply sublist_app|]. intros Hl. rewrite Hall by lia. done.
  - split; [done|]. split; [by apply sublist_inserts_r|]. intros Hl. rewrite <- Hall in Hl by lia. rewrite length_app in Hl. lia.
Qed.

(** Forwarding a line. *)
Lemma taken_forward since got line ch : taken since got (line :: ch) -> taken since (got ++ [line]) ch.
Proof. intros (Hc & Hs & Hall). unfold taken. simpl in Hc. rewrite <- app_assoc. split_and!; [lia|done|done]. Qed.

Lemma follows_Write ls ch h line : follows ls ch h -> follows (ls ++ [line]) (offer line <$> ch) h.
Proof.
  unfold follows. destruct (stage_of h).
  - intros (Hs & before & since & q & -> & -> & Ht). split; [done|]. exists before, (since ++ [line]), (offer line q).
    split; [by rewrite app_assoc|]. split; [done|]. by apply taken_offer.
  - intros (before & between & after & got & q & -> & -> & Hl & Ht). exists before, between, (after ++ [line]), got, (offer line q).
    split; [by rewrite !app_assoc|]. split; [done|]. split; [done|]. rewrite app_assoc. by apply taken_offer.
  - intros (before & between & after & rest & got & q & -> & -> & Hl & Ht).
    exists before, between, after, (rest ++ [line]), got, q. by rewrite <- !app_assoc.
Qed.

Lemma buffered_contents (ls : LogStream) : buffered ls = List.filter nonempty (contents ls).
Proof. unfold buffered, contents. rewrite List.filter_app. f_equal. by destruct (full ls). Qed.

Lemma lines_of_replay (ls : list string) : omap line_of (Line <$> ls) = ls.
Proof. induction ls as [|l ls IH]; [done|]. rewrite <- IH at 2. done. Qed.

(** The ring holds the log, every handler follows it, and only a handler has a
    channel. *)
Record fan_inv (ls : list string) (s : Fan) : Prop := {
  inv_ring : log_state logRingSize ls (log s);
  inv_handlers : forall i h, handlers s !! i = Some h -> follows ls (subs s !! i) h;
  inv_channels : forall i, handlers s !! i = None -> subs s !! i = None
}.

(** Only handler [i] and its channel change. *)
Lemma inv_update ls s s' i h :
  fan_inv ls s -> log s' = log s -> handlers s' = <[i := h]> (handlers s) ->
  (forall j, j <> i -> subs s' !! j = subs s !! j) -> follows ls (subs s' !! i) h -> fan_inv ls s'.
Proof.
  intros [Hr Hh Hc] Hl Hs Hne Hf. split; [by rewrite Hl|..]; intros j; rewrite Hs; destruct (decide (j = i)) as [->|Hji].
  - intros h'. rewrite lookup_insert_eq. by intros [= <-].
  - intros h'. rewrite lookup_insert_ne by done. rewrite Hne by done. apply Hh.
  - by rewrite lookup_insert_eq.
  - rewrite lookup_insert_ne by done. rewrite Hne by done. apply Hc.
Qed.

Lemma step_inv ls s l s' : fan_inv (written ls) s -> fan_step s l s' -> fan_inv (written (ls ++ [l])) s'.
Proof.
  intros HI H. unfold written in *. rewrite omap_app. set (hist := omap _ ls) in *.
  destruct H as [p|i Hi|i h Hi Hst|i h line ch Hi Hst Hch|i h Hi Hst|i h Hi Hst]; cbn [omap list_omap]; rewrite ?app_nil_r.
  - destruct HI as [Hr Hh Hc]. split; simpl; [by apply Write_state| |].
    + intros i h Hi. rewrite lookup_fmap. by apply follows_Write, Hh.
    + intros i Hi. by rewrite lookup_fmap, Hc.
  - eapply inv_update; [done..| |]; simpl; [intros j Hj; by apply lookup_insert_ne|].
    rewrite lookup_insert_eq. split; [done|]. exists hist, [], []. rewrite app_nil_r. split_and!; [done..|].
    split; [simpl; lia|done].
  - eapply inv_update; [done..|]. simpl. pose proof (inv_handlers _ _ HI i h Hi) as Hf. unfold follows in Hf. rewrite Hst in Hf.
    destruct Hf as (Hs & before & since & q & Hhist & Hq & Ht). exists before, since, [], [], q. rewrite app_nil_r.
    split_and!; [done..| |done]. cbn [sent]. rewrite Hs, app_nil_r. cbn [app]. rewrite lines_of_replay, buffered_contents, <- Hhist.
    by rewrite (log_contents _ _ _ (inv_ring _ _ HI)).
  - eapply inv_update; [done..| |]; simpl; [intros j Hj; by apply lookup_insert_ne|].
    pose proof (inv_handlers _ _ HI i h Hi) as Hf. unfold follows in Hf. rewrite Hst, Hch in Hf.
    destruct Hf as (before & between & after & got & q & Hhist & [= <-] & Hl & Ht).
    exists before, between, after, (got ++ [line]), ch. rewrite lookup_insert_eq.
    split_and!; [done..| |by apply taken_forward]. cbn [sent]. by rewrite omap_app, Hl, app_assoc.
  - eapply inv_update; [done..|]. simpl. pose proof (inv_handlers _ _ HI i h Hi) as Hf. unfold follows in *. rewrite Hst in Hf.
    destruct Hf as (before & between & after & got & q & Hhist & Hq & Hl & Ht).
    exists before, between, after, got, q. split_and!; [done..| |done]. cbn [sent]. rewrite omap_app, Hl. cbn. by rewrite app_nil_r.
  - eapply inv_update; [done..| |]; simpl; [intros j Hj; by apply lookup_delete_ne|].
    pose proof (inv_handlers _ _ HI i h Hi) as Hf. unfold follows in *. rewrite Hst in Hf.
    destruct Hf as (before & between & after & got & q & Hhist & Hq & Hl & Ht).
    exists before, between, after, [], got, q. rewrite lookup_delete_eq, app_nil_r. split_and!; done.
Qed.

Lemma runs_inv ls s : fan_runs ls s -> fan_inv (written ls) s.
Proof.
  induction 1 as [|ls l s s' _ IH Hs]; [|by eapply step_inv]. split; [|done|done].
  apply New_state. unfold logRingSize. lia.
Qed.

(** C38. However writers and subscribers interleave, a subscriber is sent what
    the ring held when it was replayed, then in their order lines logged since it
    subscribed, of which at most 512 wait; none is lost while no more than 512
    were logged since.  Lines logged between its subscription and its replay
    belong to both. *)
Theorem subscriber_follows_log ls s i h :
  fan_runs ls s -> handlers s !! i = Some h ->
  follows (written ls) (subs s !! i) h /\
  (stage_of h = Streaming -> subs s !! i = Some [] ->
   exists before between after, written ls = before ++ between ++ after /\
     (length (between ++ after) <= channel_size -> omap line_of (sent h) = replay_of (before ++ between) ++ between ++ after)).
Proof.
  intros Hr Hi. pose proof (inv_handlers _ _ (runs_inv ls s Hr) i h Hi) as Hf. split; [done|]. intros Hst Hq.
  unfold follows in Hf. rewrite Hst, Hq in Hf. destruct Hf as (before & between & after & got & q & Hw & [= <-] & Hl & _ & _ & Hall).
  exists before, between, after. split; [done|]. intros Hlen. rewrite Hl. specialize (Hall Hlen). rewrite app_nil_r in Hall. by rewrite Hall.
Qed.

Module FanWitnesses.
Local Open Scope string_scope.
Local Open Scope list_scope.

(** A line is logged before the subscription, one before the replay, one after. *)
Definition fan_trace : list label :=
  [Write_ "one"; Start_ 7; Write_ "two"; Replay_ 7; Write_ "three"; Forward_ 7; Beat_ 7; Forward_ 7].
Definition fan_step_fun (s : Fan) (l : label) : option Fan :=
  match l with
  | Write_ p => Some (fan_Write p s)
  | Start_ i =>
      match handlers s !! i with
      | None => Some (set_handler i {| stage_of := Replaying; sent := [] |} (subscribe i s))
      | Some _ => None
      end
  | Replay_ i | Forward_ i | Beat_ i | Done_ i =>
      match handlers s !! i with
      | None => None
      | Some h =>
          match l, stage_of h, subs s !! i with
          | Replay_ _, Replaying, _ =>
              Some (set_handler i {| stage_of := Streaming; sent := sent h ++ (Line <$> buffered (log s)) |} s)
          | Forward_ _, Streaming, Some (line :: ch) =>
              Some (set_handler i {| stage_of := Streaming; sent := sent h ++ [Line line] |} (set_subs i ch s))
          | Beat_ _, Streaming, _ => Some (set_handler i {| stage_of := Streaming; sent := sent h ++ [Heartbeat] |} s)
          | Done_ _, Streaming, _ => Some (set_handler i {| stage_of := Ended; sent := sent h |} (unsubscribe i s))
          | _, _, _ => None
          end
      end
  end.

Lemma fan_step_fun_step s l s' : fan_step_fun s l = Some s' -> fan_step s l s'.
Proof.
  destruct l as [p|i|i|i|i|i]; cbn [fan_step_fun].
  - intros [= <-]. constructor.
  - destruct (handlers s !! i) eqn:E; [done|]. intros [= <-]. by constructor.
  - destruct (handlers s !! i) as [h|] eqn:E; [|done]. destruct (stage_of h) eqn:Es; intros [= <-]. by constructor.
  - destruct (handlers s !! i) as [h|] eqn:E; [|done]. destruct (stage_of h) eqn:Es; try done.
    destruct (subs s !! i) as [[|line ch]|] eqn:Ec; try done. intros [= <-]. by apply step_Forward.
  - destruct (handlers s !! i) as [h|] eqn:E; [|done]. destruct (stage_of h) eqn:Es; intros [= <-]. by constructor.
  - destruct (handlers s !! i) as [h|] eqn:E; [|done]. destruct (stage_of h) eqn:Es; intros [= <-]. by constructor.
Qed.
Fixpoint run_fan (ls : list label) (s : Fan) : option Fan :=
  match ls with
  | [] => Some s
  | l :: ls' => match fan_step_fun s l with Some s' => run_fan ls' s' | None => None end
  end.
Lemma run_fan_runs done_ ls s s' : fan_runs done_ s -> run_fan ls s = Some s' -> fan_runs (done_ ++ ls) s'.
Proof.
  revert done_ s. induction ls as [|l ls IH]; intros done_ s Hr; simpl; [intros [= <-]; by rewrite app_nil_r|].
  destruct (fan_step_fun s l) as [s1|] eqn:E; [|done]. intros H. rewrite cons_middle, app_assoc.
  eapply IH; [|exact H]. eapply runs_snoc; [exact Hr|by apply fan_step_fun_step].
Qed.

Definition fan_end : Fan := default NewFan (run_fan fan_trace NewFan).
Definition fan_handler : Handler := default {| stage_of := Ended; sent := [] |} (handlers fan_end !! 7).

(** The line logged between the subscription and the replay is sent twice. *)
Lemma subscriber_follows_log_witness :
  (follows (written fan_trace) (subs fan_end !! 7) fan_handler /\
   (stage_of fan_handler = Streaming -> subs fan_end !! 7 = Some [] ->
    exists before between after, written fan_trace = before ++ between ++ after /\
      (length (between ++ after) <= channel_size ->
       omap line_of (sent fan_handler) = replay_of (before ++ between) ++ between ++ after))) /\
  omap line_of (sent fan_handler) = ["one"; "two"; "two"; "three"] /\ subs fan_end !! 7 = Some [].
Proof.
  split; [|split; vm_compute; reflexivity].
  apply (subscriber_follows_log fan_trace fan_end 7 fan_handler).
  - apply (run_fan_runs [] fan_trace NewFan); [constructor|vm_compute; reflexivity].
  - vm_compute. reflexivity.
Defined.

(** A blank line reaches a live subscriber, but not a later one. *)
Example blank_line_not_replayed :
  (fun s => omap line_of ∘ sent <$> handlers s !! 0) <$>
    run_fan [Start_ 0; Replay_ 0; Write_ ""; Forward_ 0] NewFan = Some (Some [""]) /\
  (fun s => omap line_of ∘ sent <$> handlers s !! 0) <$>
    run_fan [Write_ ""; Start_ 0; Replay_ 0] NewFan = Some (Some []).
Proof. split; vm_compute; reflexivity. Qed.
End FanWitnesses.
