(* ===== verification/Service.v ===== *)
(** * Service (pkg/ares/transport: service.go, trigger.go, admin.go)

    The wiring of a runner, a hub, an artifact store and an event ring: the
    configuration check, the dispatch of one inbound frame, the manual session
    trigger and the HTTP handlers.  HTTP parsing, JSON and the listening
    socket are parameters or left out. *)
From Stdlib Require Import ZArith NArith Lia String Ascii Strings.Byte.
From stdpp Require Import base gmap list strings.
From S2P Require Import Prelude Bytes.
From S2P Require Import GoFloat.
From S2P Require Import GoFmt.
From S2P Require Import Sign.
From S2P Require Import Lineage.
From S2P Require Import Context.
From S2P Require Import Pipeline.
From S2P Require Import Runner.
From S2P Require Import Hub.
From S2P Require Import Stores.
From S2P Require Import RunnerSpec.
From S2P Require Import RunnerLineage.

(** ** Configuration *)

Record Config (S : Type) := {
  Addr : string;
  ServiceName : string;
  cfgSecret : bytes;
  cfgAllowDevBypass : bool;
  cfgRunner : option (SessionRunner S);
  InviteType : string;
  cfgEventRing : option SessionEventRing;
  cfgAllowedOrigins : list string;
  MaxWSMessageSize : Z;
  MaxArtifactSize : Z;
  hasPostDispatchHook : bool
}.
Arguments Addr {S} _.
Arguments ServiceName {S} _.
Arguments cfgSecret {S} _.
Arguments cfgAllowDevBypass {S} _.
Arguments cfgRunner {S} _.
Arguments InviteType {S} _.
Arguments cfgEventRing {S} _.
Arguments cfgAllowedOrigins {S} _.
Arguments MaxWSMessageSize {S} _.
Arguments MaxArtifactSize {S} _.
Arguments hasPostDispatchHook {S} _.

(** What changes while a service runs.  [posted] lists the calls of the
    application's post-dispatch hook. *)
Record Service (S : Type) := {
  svc_cfg : Config S;
  svc_runner : SessionRunner S;
  svc_state : RunnerState S;
  svc_hub : Hub;
  svc_artifacts : ArtifactStore;
  svc_ring : option SessionEventRing;
  startedCount : Z;
  posted : list (string * WSMessage * option GoError)
}.
Arguments svc_cfg {S} _.
Arguments svc_runner {S} _.
Arguments svc_state {S} _.
Arguments svc_hub {S} _.
Arguments svc_artifacts {S} _.
Arguments svc_ring {S} _.
Arguments startedCount {S} _.
Arguments posted {S} _.

Section Service.
Context {S : Type} `{Store S}.
Implicit Types (svc : Service S).

(** [env] is the value of ARES_ENV; [st] the state of the runner handed in. *)
Definition NewService (env : string) (cfg : Config S) (st : RunnerState S) : Outcome (Service S) :=
  if String.eqb (Addr cfg) EmptyString then Err (ErrorsNew "transport: Config.Addr is required")
  else match cfgRunner cfg with
  | None => Err (ErrorsNew "transport: Config.Runner is required")
  | Some r =>
      if Nat.eqb (length (cfgSecret cfg)) 0 && negb (cfgAllowDevBypass cfg) then
        Err (ErrorsNew "transport: empty Secret requires AllowDevBypass=true")
      else if cfgAllowDevBypass cfg && String.eqb env "production" then
        Err (ErrorsNew "transport: AllowDevBypass=true refused when ARES_ENV=production")
      else
        let ring := match cfgEventRing cfg with
                    | None => Some (NewSessionEventRing 128)
                    | Some r => Some r
                    end in
        let auth := {| Secret := cfgSecret cfg; AllowDevBypass := cfgAllowDevBypass cfg |} in
        let hub := NewHubWithOptions auth {|
          AllowedOrigins := cfgAllowedOrigins cfg;
          AllowAnyOrigin := Nat.eqb (length (cfgAllowedOrigins cfg)) 0 && cfgAllowDevBypass cfg;
          MaxMessageSize := MaxWSMessageSize cfg; InboundRate := f0; InboundBurst := f0 |} in
        Ok {| svc_cfg := cfg; svc_runner := r; svc_state := st; svc_hub := hub;
              svc_artifacts := NewArtifactStore; svc_ring := ring; startedCount := 0; posted := [] |}
  end.

Definition set_state svc st : Service S :=
  {| svc_cfg := svc_cfg svc; svc_runner := svc_runner svc; svc_state := st; svc_hub := svc_hub svc;
     svc_artifacts := svc_artifacts svc; svc_ring := svc_ring svc; startedCount := startedCount svc;
     posted := posted svc |}.
Definition set_hub svc h : Service S :=
  {| svc_cfg := svc_cfg svc; svc_runner := svc_runner svc; svc_state := svc_state svc; svc_hub := h;
     svc_artifacts := svc_artifacts svc; svc_ring := svc_ring svc; startedCount := startedCount svc;
     posted := posted svc |}.
Definition set_artifacts svc a : Service S :=
  {| svc_cfg := svc_cfg svc; svc_runner := svc_runner svc; svc_state := svc_state svc;
     svc_hub := svc_hub svc; svc_artifacts := a; svc_ring := svc_ring svc;
     startedCount := startedCount svc; posted := posted svc |}.
Definition set_ring svc r : Service S :=
  {| svc_cfg := svc_cfg svc; svc_runner := svc_runner svc; svc_state := svc_state svc;
     svc_hub := svc_hub svc; svc_artifacts := svc_artifacts svc; svc_ring := r;
     startedCount := startedCount svc; posted := posted svc |}.
Definition set_started svc n : Service S :=
  {| svc_cfg := svc_cfg svc; svc_runner := svc_runner svc; svc_state := svc_state svc;
     svc_hub := svc_hub svc; svc_artifacts := svc_artifacts svc; svc_ring := svc_ring svc;
     startedCount := n; posted := posted svc |}.
Definition add_posted svc x : Service S :=
  {| svc_cfg := svc_cfg svc; svc_runner := svc_runner svc; svc_state := svc_state svc;
     svc_hub := svc_hub svc; svc_artifacts := svc_artifacts svc; svc_ring := svc_ring svc;
     startedCount := startedCount svc; posted := posted svc ++ [x] |}.

(** An operation of the runner, run in the service. *)
Definition on_runner {A} (m : M (RunnerState S) A) : M (Service S) A := fun svc =>
  let '(o, st) := m (svc_state svc) in (o, set_state svc st).

(** ** Dispatch of one frame *)

Definition route svc (from : string) (msg : WSMessage) : M (RunnerState S) bool :=
  match msgLineage msg with
  | Some node =>
      HandleLineageMessage (svc_runner svc) (msgSessionID msg) (Type_ msg) from (Payload msg) (Some node)
  | None => HandleMessage (svc_runner svc) (msgSessionID msg) (Type_ msg) from (Payload msg)
  end.

(** The hub's message handler.  A panic of a phase is not recovered. *)
Definition dispatch (from : string) (msg : WSMessage) (now : Z) : M (Service S) unit := fun svc =>
  if String.eqb (msgSessionID msg) EmptyString then (Ok tt, svc)
  else match route svc from msg (svc_state svc) with
  | (Panic w, st) => (Panic w, set_state svc st)
  | (o, st) =>
      let err := match o with Err e => Some e | _ => None end in
      let errStr := match err with Some e => Error e | None => EmptyString end in
      let svc := set_state svc st in
      let svc := set_ring svc (Record_ (msgSessionID msg) (Type_ msg) from errStr now (svc_ring svc)) in
      (Ok tt, if hasPostDispatchHook (svc_cfg svc) then add_posted svc (from, msg, err) else svc)
  end.

(** ** The manual trigger (trigger.go) *)

Section Trigger.
Context (json_Marshal : WSMessage -> option bytes).
Context (format_time : Z -> string).

Definition seed_ctx (sid : string) (attrs : list (string * Any)) (st : RunnerState S) : RunnerState S :=
  match sessions st !! sid with
  | None => st
  | Some t => set_sessions st (<[sid := with_ctx t
      (foldl (fun c kv => ctx_Set kv.1 kv.2 c) (tr_ctx t) attrs)]> (sessions st))
  end.

Definition invitation (ty : string) : WSMessage :=
  {| Version := EmptyString; Type_ := ty; msgSessionID := EmptyString; Seq := 0; Payload := [];
     Timestamp := EmptyString; msgLineage := None |}.

Definition Start (sessionID : string) (participants : list string) (attrs : list (string * Any)) (now : Z)
  : M (Service S) unit :=
  match participants with
  | [] => throw (Errorf [T "trigger: no participants supplied"])
  | _ =>
      modify (fun svc => set_started svc (startedCount svc + 1)) ;;;
      let! svc := get in
      let! c := wrap_err (fun e => Errorf [T "trigger: BeginSession("; Q sessionID; T "): "; W e])
        (on_runner (BeginSession (svc_runner svc) sessionID EmptyString)) in
      modify (fun svc => set_state svc (seed_ctx sessionID attrs (svc_state svc))) ;;;
      if String.eqb (InviteType (svc_cfg svc)) EmptyString then ret tt
      else modify (fun svc => set_hub svc
        (BroadcastToSession json_Marshal format_time sessionID participants
           (invitation (InviteType (svc_cfg svc))) now (svc_hub svc)))
  end.

Definition StartedCount svc : Z := startedCount svc.
End Trigger.

(** ** The admin surface (admin.go) *)

Inductive Body :=
| BText (s : string)
| BJson (fields : list (string * Any))
| BRaw (b : bytes)
| BEmpty.
Record Response := { status : Z; body : Body }.

Definition http_Error (code : Z) (msg : string) : Response := {| status := code; body := BText msg |}.
Definition writeJSON (code : Z) (fields : list (string * Any)) : Response :=
  {| status := code; body := BJson fields |}.

Definition handleHealth svc : Response :=
  writeJSON 200 [("status", AString "ok"); ("service", AString (ServiceName (svc_cfg svc)))]%string.

Definition handleStats svc : Response :=
  writeJSON 200 [("service", AString (ServiceName (svc_cfg svc)));
                 ("connected_clients", AInt (Z.of_nat (ConnectedCount (svc_hub svc))))]%string.

Record sessionStartRequest := { reqSessionID : string; reqParticipants : list string; reqAttrs : list (string * Any) }.

Definition session_response (sid : string) (state : SessionState) : list (string * Any) :=
  [("session_id", AString sid); ("state", AString state)]%string.

(** [Trigger] is nil or the trigger's [Start]; [decoded] is the request body
    as encoding/json decodes it. *)
Definition handleSessionStart
    (Trigger : option (string -> list string -> list (string * Any) -> M (Service S) unit))
    (decoded : Outcome sessionStartRequest) : Service S -> Outcome Response * Service S := fun svc =>
  match Trigger with
  | None => (Ok (http_Error 503 "no SessionTrigger configured"), svc)
  | Some start =>
      match decoded with
      | Err e => (Ok (http_Error 400 ("invalid json: " +:+ Error e)), svc)
      | Panic w => (Panic w, svc)
      | Ok req =>
          if String.eqb (reqSessionID req) EmptyString then
            (Ok (http_Error 400 "session_id is required"), svc)
          else match start (reqSessionID req) (reqParticipants req) (reqAttrs req) svc with
          | (Err e, svc') => (Ok (http_Error 409 (Error e)), svc')
          | (Panic w, svc') => (Panic w, svc')
          | (Ok _, svc') =>
              let '(state, _) := CurrentState (reqSessionID req) (svc_state svc') in
              (Ok (writeJSON 201 (session_response (reqSessionID req) state)), svc')
          end
      end
  end.

Definition handleSessionGet (id : string) svc : Response :=
  match CurrentState id (svc_state svc) with
  | (_, false) => http_Error 404 "session not found"
  | (state, true) => writeJSON 200 (session_response id state)
  end.

Definition comma : ascii := ascii_of_nat 44.

Definition handleSessionResults (json_Marshal : Any -> option string) (id keys : string) svc : Response :=
  match CurrentState id (svc_state svc) with
  | (_, false) => http_Error 404 "session not found"
  | (_, true) =>
      let ks := Split comma keys in
      if decide (ks = [EmptyString]) then
        http_Error 400 "?keys= is required (comma-separated context key names)"
      else
        let results := default ∅ (SessionContextKeys json_Marshal id ks (svc_state svc)) in
        writeJSON 200 [("session_id", AString id);
          ("results", AMap "map[string]string" (map (fun kv => (kv.1, AString kv.2)) (map_to_list results)))]%string
  end.

Definition event_any (e : SessionEvent) : Any :=
  AStruct "SessionEvent" [("time", AInt64 (evTime e)); ("session_id", AString (evSession e));
    ("type", AString (evType e)); ("from", AString (evFrom e)); ("error", AString (evError e))]%string.

Definition handleSessionEvents (id : string) svc : Response :=
  match CurrentState id (svc_state svc) with
  | (_, false) => http_Error 404 "session not found"
  | (_, true) =>
      writeJSON 200 [("session_id", AString id);
        ("events", ASlice "[]SessionEvent" (map event_any (default [] (Events id (svc_ring svc)))))]%string
  end.

Definition DefaultMaxArtifactSize : Z := Z.shiftl 64 20.

(** [body] is what the connection delivers: the whole body, or an error. *)
Definition handleArtifactPut (key : string) (body : Outcome bytes) (now : Z) svc : Response * Service S :=
  if String.eqb key EmptyString then (http_Error 400 "missing key", svc)
  else
    let limit := if (MaxArtifactSize (svc_cfg svc) =? 0)%Z then DefaultMaxArtifactSize
                 else MaxArtifactSize (svc_cfg svc) in
    match body with
    | Ok buf =>
        if (0 <? limit)%Z && (limit <? Z.of_nat (length buf))%Z then
          (http_Error 413 "artifact exceeds size limit", svc)
        else ({| status := 204; body := BEmpty |}, set_artifacts svc (Put key buf now (svc_artifacts svc)))
    | Err e => (http_Error 400 ("read body: " +:+ Error e), svc)
    | Panic w => (http_Error 400 ("read body: " +:+ w), svc)
    end.

Definition handleArtifactGet (key : string) (now : Z) svc : Response :=
  match artifact_Get key now (svc_artifacts svc) with
  | None => http_Error 404 "artifact not found"
  | Some d => {| status := 200; body := BRaw d |}
  end.

Definition isPhaseDoesNotConsume (err : option GoError) : bool :=
  match err with
  | None => false
  | Some e =>
      match String.index 0 "does not consume message type" (Error e) with
      | Some _ => true
      | None => false
      end
  end.
End Service.

(** ** Properties *)

Section Properties.
Context {S : Type} `{Store S}.
Implicit Types (svc : Service S).

(** A service is built exactly when an address and a runner are given, a
    secret or the development bypass is set, and the bypass is not asked for
    in production; it accepts any browser origin only in bypass mode without
    an origin list, and its hub checks tokens against the configured secret. *)
Lemma NewService_iff env (cfg : Config S) st svc :
  NewService env cfg st = Ok svc ->
  Addr cfg <> EmptyString /\ cfgRunner cfg = Some (svc_runner svc) /\
  (cfgSecret cfg <> [] \/ cfgAllowDevBypass cfg = true) /\
  (cfgAllowDevBypass cfg = true -> env <> "production"%string) /\
  svc_state svc = st /\
  (forall p t, ValidateToken (auth (svc_hub svc)) p t = true <->
     if cfgSecret cfg then cfgAllowDevBypass cfg = true
     else t = GenerateToken (auth (svc_hub svc)) p) /\
  (forall origin, CheckOrigin (svc_hub svc) origin = true <->
     origin = EmptyString \/ origin ∈ cfgAllowedOrigins cfg \/
     cfgAllowedOrigins cfg = [] /\ cfgAllowDevBypass cfg = true).
Proof.
  unfold NewService. destruct (String.eqb_spec (Addr cfg) EmptyString); [done|].
  destruct (cfgRunner cfg) as [r|]; [|done].
  destruct (Nat.eqb _ 0 && negb _) eqn:E1; [done|]. destruct (_ && String.eqb env _) eqn:E2; [done|].
  intros [= <-]. cbn [svc_runner svc_hub svc_state NewHubWithOptions auth].
  split_and!; try done.
  - apply andb_false_iff in E1 as [E1|E1].
    + left. intros He. by rewrite He in E1.
    + right. by apply negb_false_iff in E1.
  - intros Hb ->. rewrite Hb in E2. done.
  - intros p t. pose proof (ValidateToken_run {| Secret := cfgSecret cfg; AllowDevBypass := cfgAllowDevBypass cfg |} p t) as Hv.
    rewrite Hv. simpl. by destruct (cfgSecret cfg).
  - intros origin. unfold CheckOrigin. cbn [origins AllowedOrigins AllowAnyOrigin NewHubWithOptions].
    destruct (String.eqb_spec origin EmptyString); [naive_solver|].
    destruct (cfgAllowedOrigins cfg) as [|a l]; simpl.
    + destruct (cfgAllowDevBypass cfg); simpl; [naive_solver|]. split; [done|].
      intros [?|[Hin|[_ ?]]]; [done|by apply elem_of_nil in Hin|done].
    + split.
      * intros Hx. right. left. change (existsb (fun a => String.eqb a origin) (a :: l) = true) in Hx.
        apply existsb_exists in Hx as (x & Hx & <-%String.eqb_eq). by apply list_elem_of_In.
      * intros [?|[Hin|[? _]]]; [done| |done].
        change (existsb (fun a => String.eqb a origin) (a :: l) = true). apply existsb_exists.
        exists origin. split; [by apply list_elem_of_In|apply String.eqb_refl].
Qed.

(** Dispatch: a frame without a session is ignored; a frame with a lineage
    node goes through the runner's verification and any other straight to
    [HandleMessage]; the runner's state is the one that call leaves, exactly
    one event with the sender, type and error text is recorded for the
    session, and nothing else of the service changes. *)
Lemma dispatch_spec from msg now svc o svc' :
  dispatch from msg now svc = (o, svc') ->
  if decide (msgSessionID msg = EmptyString) then o = Ok tt /\ svc' = svc
  else
    let res := match msgLineage msg with
               | Some node => HandleLineageMessage (svc_runner svc) (msgSessionID msg) (Type_ msg) from
                                (Payload msg) (Some node) (svc_state svc)
               | None => HandleMessage (svc_runner svc) (msgSessionID msg) (Type_ msg) from
                           (Payload msg) (svc_state svc)
               end in
    svc_state svc' = res.2 /\ svc_hub svc' = svc_hub svc /\ svc_artifacts svc' = svc_artifacts svc /\
    match res.1 with
    | Panic w => o = Panic w /\ svc_ring svc' = svc_ring svc
    | Err e => o = Ok tt /\
        svc_ring svc' = Record_ (msgSessionID msg) (Type_ msg) from (Error e) now (svc_ring svc)
    | Ok _ => o = Ok tt /\
        svc_ring svc' = Record_ (msgSessionID msg) (Type_ msg) from EmptyString now (svc_ring svc)
    end.
Proof.
  unfold dispatch. destruct (String.eqb_spec (msgSessionID msg) EmptyString) as [He|He].
  - rewrite decide_True by done. by intros [= <- <-].
  - rewrite decide_False by done. unfold route. cbv zeta. destruct (msgLineage msg) as [node|];
      match goal with |- context [match ?r with _ => _ end = _] => destruct r as [[b|e|w] st] end;
      cbn [fst snd]; destruct (hasPostDispatchHook (svc_cfg svc)) eqn:Eh; cbn [svc_cfg set_state set_ring svc_ring]; rewrite ?Eh; intros [= <- <-]; repeat split.
Qed.

(** The trigger on success: the session is tracked, its context holds
    every seeded attribute, and no other session has changed; on failure the
    error is [BeginSession]'s, rewrapped, but the count of started sessions
    has gone up all the same. *)
Lemma Start_spec json_Marshal format_time sid p ps attrs now svc o svc' :
  NoDup attrs.*1 ->
  Start json_Marshal format_time sid (p :: ps) attrs now svc = (o, svc') ->
  startedCount svc' = (startedCount svc + 1)%Z /\
  match (BeginSession (svc_runner svc) sid EmptyString (svc_state svc)).1 with
  | Ok _ => o = Ok tt /\
      (forall t, sessions (BeginSession (svc_runner svc) sid EmptyString (svc_state svc)).2 !! sid = Some t ->
         exists t', sessions (svc_state svc') !! sid = Some t' /\ tr_current t' = tr_current t /\
         forall k v, (k, v) ∈ attrs -> ctx_Get k (tr_ctx t') = Some v)
  | Err e => o = Err (Errorf [T "trigger: BeginSession("; Q sid; T "): "; W e]) /\
      svc_hub svc' = svc_hub svc
  | Panic w => o = Panic w
  end.
Proof.
  intros Hnd. unfold Start, bind, modify, get, ret, wrap_err, on_runner. simpl.
  destruct (BeginSession (svc_runner svc) sid EmptyString (svc_state svc)) as [[c|e|w] st]; simpl;
    [|by intros [= <- <-]..].
  assert (Hseed : forall t, sessions st !! sid = Some t ->
    exists t', sessions (seed_ctx sid attrs st) !! sid = Some t' /\ tr_current t' = tr_current t /\
      forall k v, (k, v) ∈ attrs -> ctx_Get k (tr_ctx t') = Some v).
  { intros t Ht. unfold seed_ctx. rewrite Ht. simpl. rewrite lookup_insert_eq.
    eexists. split; [reflexivity|]. split; [done|]. intros k v Hin. simpl.
    enough (Hv : forall c, values (foldl (fun c kv => ctx_Set kv.1 kv.2 c) c attrs) = insert_all attrs (values c)).
    { unfold ctx_Get. rewrite Hv. by apply insert_all_NoDup. }
    clear. intros c. revert c. induction attrs as [|kv l IH]; intros c; [done|].
    simpl. by rewrite IH. }
  destruct (String.eqb _ EmptyString); intros [= <- <-]; by split_and!.
Qed.

(** Artifacts over HTTP: an upload within the size limit is answered with
    204 and its bytes are served, unchanged, until they expire; an oversize
    upload is refused with 413 and changes nothing. *)
Lemma artifact_upload_download key buf now svc :
  key <> EmptyString ->
  let limit := if (MaxArtifactSize (svc_cfg svc) =? 0)%Z then DefaultMaxArtifactSize
               else MaxArtifactSize (svc_cfg svc) in
  let '(resp, svc') := handleArtifactPut key (Ok buf) now svc in
  if (0 <? limit)%Z && (limit <? Z.of_nat (length buf))%Z
  then status resp = 413%Z /\ svc' = svc
  else status resp = 204%Z /\
    forall now', (now' <= now + ttl (svc_artifacts svc))%Z ->
      handleArtifactGet key now' svc' = {| status := 200; body := BRaw buf |}.
Proof.
  intros Hk. cbv zeta. unfold handleArtifactPut.
  destruct (String.eqb_spec key EmptyString); [done|].
  destruct ((0 <? _)%Z && (_ <? Z.of_nat (length buf))%Z); [done|].
  split; [done|]. intros now' Ht. unfold handleArtifactGet. cbn [svc_artifacts set_artifacts].
  rewrite artifact_Get_Put. destruct (Z.ltb_spec (now + ttl (svc_artifacts svc)) now'); [lia|done].
Qed.
End Properties.

(** ** The sample service *)

Module Witnesses.
Import RunnerSpec.Sample.

Definition cfg : Config InMemory.InMemoryStore :=
  {| Addr := ":8080"; ServiceName := "demo"; cfgSecret := of_string "k"; cfgAllowDevBypass := false;
     cfgRunner := Some runner; InviteType := "invite"; cfgEventRing := None;
     cfgAllowedOrigins := ["https://app"%string]; MaxWSMessageSize := 0; MaxArtifactSize := 2;
     hasPostDispatchHook := true |}.
Definition svc : Service InMemory.InMemoryStore :=
  {| svc_cfg := cfg; svc_runner := runner; svc_state := begun;
     svc_hub := NewHubWithOptions {| Secret := of_string "k"; AllowDevBypass := false |}
       {| AllowedOrigins := ["https://app"%string]; AllowAnyOrigin := false;
          MaxMessageSize := 0; InboundRate := f0; InboundBurst := f0 |};
     svc_artifacts := NewArtifactStore; svc_ring := Some (NewSessionEventRing 128);
     startedCount := 0; posted := [] |}.

Definition frame (lineage : option DAGNode) (payload : bytes) : WSMessage :=
  {| Version := "2"; Type_ := "offer"; msgSessionID := "s"; Seq := 1; Payload := payload;
     Timestamp := EmptyString; msgLineage := lineage |}.

Lemma NewService_iff_witness :
  (cfgSecret cfg <> [] \/ cfgAllowDevBypass cfg = true) /\ CheckOrigin (svc_hub svc) "https://app" = true.
Proof.
  pose proof (NewService_iff "production" cfg begun svc eq_refl) as (_ & _ & Hs & _ & _ & _ & Ho).
  split; [exact Hs|]. apply Ho. right. left. by apply list_elem_of_In, in_eq.
Defined.

(** A frame whose node does not match its payload is refused ... *)
Definition tampered := frame (Some RunnerLineage.Witnesses.peer_node) [x02].

Lemma dispatch_spec_witness :
  svc_hub (dispatch "bob" tampered 7 svc).2 = svc_hub svc.
Proof.
  pose proof (dispatch_spec "bob" tampered 7 svc _ _ (surjective_pairing _)) as Hd.
  destruct (decide _) as [He|_]; [discriminate He|]. exact (proj1 (proj2 Hd)).
Defined.

(** ... while the same payload without a node, a version-1 frame, is handed
    to the phase unverified, although the runner was composed with lineage. *)
Example v1_frame_skips_verification :
  runner_lineage runner = Some config /\
  (route svc "bob" tampered (svc_state svc)).1 <> Ok true /\
  (route svc "bob" (frame None [x02]) (svc_state svc)).1 = Ok true.
Proof. split; [reflexivity|]. split; vm_compute; [discriminate|reflexivity]. Qed.

Lemma Start_spec_witness :
  startedCount (Start (fun _ => Some []) (fun _ => EmptyString) "s2" ["ann"%string]
                  [("role"%string, AString "host")] 9 svc).2 = 1%Z.
Proof.
  pose proof (Start_spec (fun _ => Some []) (fun _ => EmptyString) "s2" "ann" []
                [("role"%string, AString "host")] 9 svc _ _ (NoDup_singleton _) (surjective_pairing _)) as Hs.
  exact (proj1 Hs).
Defined.

(** A second trigger for a live session fails, and still counts as started. *)
Example failed_start_is_counted :
  let res := Start (fun _ => Some []) (fun _ => EmptyString) "s" ["ann"%string] [] 9 svc in
  (match res.1 with Err _ => True | _ => False end) /\ StartedCount res.2 = 1%Z.
Proof. vm_compute. by split. Qed.

Lemma artifact_upload_download_witness :
  handleArtifactGet "blob" 5 (handleArtifactPut "blob" (Ok [x01; x02]) 5 svc).2 =
  {| status := 200; body := BRaw [x01; x02] |}.
Proof.
  assert (Hk : "blob"%string <> EmptyString) by discriminate.
  pose proof (artifact_upload_download "blob" [x01; x02] 5 svc Hk) as Ha.
  destruct Ha as [_ Ha]. apply Ha. discriminate.
Defined.

Example oversize_upload_is_refused :
  status (handleArtifactPut "blob" (Ok [x01; x02; x03]) 5 svc).1 = 413%Z.
Proof. reflexivity. Qed.
End Witnesses.
