(* ===== verification/Serve.v ===== *)
(** * A running service (pkg/ares/transport: service.go [Run], admin.go
    [RegisterRoutes], hub.go, log_stream.go)

    The routes of the multiplexer and the handler behind each, the frames of
    the connections, the writers of the queues and the timer of the sweeps: one
    event is one atomic step, and a run is the sequence of events the scheduler
    chose.  Also what a sweep can change of it, and whose frames it dispatches. *)
From Stdlib Require Import ZArith NArith Lia String Ascii Strings.Byte.
From stdpp Require Import base gmap list strings.
From S2P Require Import Prelude Bytes.
From S2P Require Import GoFloat.
From S2P Require Import GoFmt.
From S2P Require Import Lineage.
From S2P Require Import Context.
From S2P Require Import Pipeline.
From S2P Require Import Runner.
From S2P Require Import Hub.
From S2P Require Import Stores.
From S2P Require Import LogFan.
From S2P Require Import Service.

(** ** Routes *)

Inductive Segment := Lit (s : string) | Wild.
Inductive Route :=
| R_health | R_stats | R_sessionStart | R_sessionGet | R_sessionResults | R_sessionEvents
| R_artifactPut | R_artifactGet | R_debugLogs | R_ws.
(** A pattern of [http.ServeMux]; the empty method matches any. *)
Record Pattern := { p_method : string; p_path : list Segment; p_route : Route }.

Section Routes.
Local Open Scope string_scope.

(** [AdminHandlers.RegisterRoutes]. *)
Definition admin_routes : list Pattern := [
  {| p_method := "GET"; p_path := [Lit "admin"; Lit "health"]; p_route := R_health |};
  {| p_method := "GET"; p_path := [Lit "admin"; Lit "stats"]; p_route := R_stats |};
  {| p_method := "POST"; p_path := [Lit "admin"; Lit "sessions"]; p_route := R_sessionStart |};
  {| p_method := "GET"; p_path := [Lit "admin"; Lit "sessions"; Wild]; p_route := R_sessionGet |};
  {| p_method := "GET"; p_path := [Lit "admin"; Lit "sessions"; Wild; Lit "results"]; p_route := R_sessionResults |};
  {| p_method := "GET"; p_path := [Lit "admin"; Lit "sessions"; Wild; Lit "events"]; p_route := R_sessionEvents |};
  {| p_method := "PUT"; p_path := [Lit "v2"; Lit "artifacts"; Wild]; p_route := R_artifactPut |};
  {| p_method := "GET"; p_path := [Lit "v2"; Lit "artifacts"; Wild]; p_route := R_artifactGet |}].
(** [LogStream.RegisterRoutes]. *)
Definition log_routes : list Pattern :=
  [{| p_method := "GET"; p_path := [Lit "v2"; Lit "debug"; Lit "logs"]; p_route := R_debugLogs |}].
Definition ws_route : Pattern := {| p_method := ""; p_path := [Lit "v2"; Lit "ws"]; p_route := R_ws |}.
(** The multiplexer of [NewService]. *)
Definition routes (logStream : bool) : list Pattern := (admin_routes ++ (if logStream then log_routes else []) ++ [ws_route])%list.

(** A pattern for GET serves HEAD too. *)
Definition method_matches (pattern method : string) : bool :=
  String.eqb pattern "" || String.eqb pattern method || String.eqb pattern "GET" && String.eqb method "HEAD".
(** The wildcards' values. *)
Fixpoint match_path (segs : list Segment) (path : list string) : option (list string) :=
  match segs, path with
  | [], [] => Some []
  | Lit s :: segs', x :: path' => if String.eqb s x then match_path segs' path' else None
  | Wild :: segs', x :: path' => cons x <$> match_path segs' path'
  | _, _ => None
  end.

Inductive MuxResult := Matched (r : Route) (wild : list string) | MethodNotAllowed | NotFound.
Fixpoint mux_match (rs : list Pattern) (method : string) (path : list string) : MuxResult :=
  match rs with
  | [] => NotFound
  | p :: rs' =>
      match match_path (p_path p) path with
      | None => mux_match rs' method path
      | Some wild =>
          if method_matches (p_method p) method then Matched (p_route p) wild
          else match mux_match rs' method path with
               | NotFound => MethodNotAllowed
               | m => m
               end
      end
  end.

(** Two patterns that some request could match both. *)
Definition method_overlaps (m1 m2 : string) : bool :=
  method_matches m1 m2 || method_matches m2 m1.
Fixpoint path_overlaps (p q : list Segment) : bool :=
  match p, q with
  | [], [] => true
  | Lit s :: p', Lit t :: q' => String.eqb s t && path_overlaps p' q'
  | _ :: p', _ :: q' => path_overlaps p' q'
  | _, _ => false
  end.
End Routes.

#[export] Instance Segment_dec : EqDecision Segment.
Proof. solve_decision. Defined.
#[export] Instance Route_dec : EqDecision Route.
Proof. solve_decision. Defined.
#[export] Instance Pattern_dec : EqDecision Pattern.
Proof. solve_decision. Defined.

(** ** One request *)

(** A request: the segments of its cleaned path, the first value of a query
    parameter (empty when absent), the Origin header, the body. *)
Record HTTPRequest := {
  rq_method : string; rq_path : list string; rq_query : string -> string; rq_origin : string; rq_body : Outcome bytes
}.
(** What a handler does with its connection. *)
Inductive Answer := Answered (r : Response) | Upgraded_ (id : nat) | UpgradeFailed | Streaming.

Section Serve.
Context {S : Type} `{Store S}.
Notation SM := (M (Service S)).
Implicit Types (svc : Service S).
Local Open Scope string_scope.

(** The codecs of encoding/json; the handshake of gorilla. *)
Context (decode_start : Outcome bytes -> Outcome sessionStartRequest) (json_any : Any -> option string).
Context (json_Unmarshal : bytes -> option WSMessage) (Upgrade : bool -> bool).
(** The configuration: the trigger, the handler of the frames with its hook, the
    log stream with the check of its route, if any, and whether the connection
    can be flushed. *)
Context (trigger : string -> list string -> list (string * Any) -> Z -> SM unit).
Context (onMsg : string -> WSMessage -> Z -> SM unit).
Context (logStream : option (option (HTTPRequest -> bool))) (flusher : bool).

(** [HandleWS] over HTTP; [id] is the identity of the client object it makes. *)
Definition serve_ws (rq : HTTPRequest) (id : nat) (now : Z) : Service S -> Answer * Service S := fun svc =>
  let '(r, h) := HandleWS Upgrade (rq_query rq "pseudonym") (rq_query rq "auth") (rq_origin rq) id now (svc_hub svc) in
  (match r with
   | BadRequest => Answered (http_Error 400 "missing pseudonym")
   | Unauthorized => Answered (http_Error 401 "invalid auth")
   | UpgradeError => UpgradeFailed
   | Upgraded => Upgraded_ id
   end, set_hub svc h).

Definition serve_logs (rq : HTTPRequest) : Answer :=
  match route_status ((fun check => check rq) <$> (logStream ≫= id)) flusher with
  | Some 401 => Answered (http_Error 401 "unauthorized")
  | Some _ => Answered (http_Error 500 "streaming not supported")
  | None => Streaming
  end.

Definition serve_route (r : Route) (wild : list string) (rq : HTTPRequest) (id : nat) (now : Z) :
    Service S -> Outcome Answer * Service S := fun svc =>
  let key := hd "" wild in
  match r with
  | R_health => (Ok (Answered (handleHealth svc)), svc)
  | R_stats => (Ok (Answered (handleStats svc)), svc)
  | R_sessionStart =>
      let '(o, svc') := handleSessionStart (Some (fun sid ps attrs => trigger sid ps attrs now)) (decode_start (rq_body rq)) svc in
      (match o with Ok resp => Ok (Answered resp) | Err e => Err e | Panic w => Panic w end, svc')
  | R_sessionGet => (Ok (Answered (handleSessionGet key svc)), svc)
  | R_sessionResults => (Ok (Answered (handleSessionResults json_any key (rq_query rq "keys") svc)), svc)
  | R_sessionEvents => (Ok (Answered (handleSessionEvents key svc)), svc)
  | R_artifactPut => let '(resp, svc') := handleArtifactPut key (rq_body rq) now svc in (Ok (Answered resp), svc')
  | R_artifactGet => (Ok (Answered (handleArtifactGet key now svc)), svc)
  | R_debugLogs => (Ok (serve_logs rq), svc)
  | R_ws => let '(a, svc') := serve_ws rq id now svc in (Ok a, svc')
  end.

Definition ServeHTTP (rq : HTTPRequest) (id : nat) (now : Z) : Service S -> Outcome Answer * Service S := fun svc =>
  match mux_match (routes (bool_decide (is_Some logStream))) (rq_method rq) (rq_path rq) with
  | Matched r wild => serve_route r wild rq id now svc
  | MethodNotAllowed => (Ok (Answered (http_Error 405 "Method Not Allowed")), svc)
  | NotFound => (Ok (Answered (http_Error 404 "404 page not found")), svc)
  end.

(** ** A run *)

Inductive ServiceEvent :=
| EvHTTP (rq : HTTPRequest) (id : nat) (now : Z)      (* a request, answered *)
| EvFrame (id : nat) (data : bytes) (now : Z)         (* an iteration of [readPump] *)
| EvClosed (id : nat)                                 (* the end of [readPump] *)
| EvWrite (id : nat)                                  (* an iteration of [writePump] *)
| EvSweep (now : Z)                                   (* the timer of [Run] *)
| EvDone (shutdown : option GoError)                  (* the context ends; what [Shutdown] returns *)
| EvServe (e : GoError).                              (* [ListenAndServe] returns *)

(** What the other side sees. *)
Inductive Output := OAnswer (a : Answer) | OAborted | OSent (id : nat) (data : bytes).
(** How the process ends: [Run] returns, or a panic that nothing recovers. *)
Inductive Ending := Returned (r : option GoError) | Crashed (why : string).

Definition ErrServerClosed : string := "http: Server closed".

(** A frame of a client, handed to the message handler.  A panic in a handler
    of net/http is recovered there; a panic of [readPump] ends the process. *)
Definition serve_frame (client : nat) (data : bytes) (now : Z) : SM unit := fun svc =>
  match objects (svc_hub svc) !! client with
  | None => (Ok tt, svc)
  | Some c =>
      match receive json_Unmarshal client data now (svc_hub svc) with
      | (None, h) => (Ok tt, set_hub svc h)
      | (Some msg, h) => onMsg (Pseudonym c) msg now (set_hub svc h)
      end
  end.

Definition run_event (ev : ServiceEvent) (svc : Service S) : list Output * option Ending * Service S :=
  match ev with
  | EvHTTP rq client now =>
      match ServeHTTP rq client now svc with
      | (Ok a, svc') => ([OAnswer a], None, svc')
      | (_, svc') => ([OAborted], None, svc')
      end
  | EvFrame client data now =>
      match serve_frame client data now svc with
      | (Panic w, svc') => ([], Some (Crashed w), svc')
      | (_, svc') => ([], None, svc')
      end
  | EvClosed client => ([], None, set_hub svc (readPump_exit client (svc_hub svc)))
  | EvWrite client =>
      let '(d, h) := drain client (svc_hub svc) in
      (match d with Some data => [OSent client data] | None => [] end, None, set_hub svc h)
  | EvSweep now => ([], None, set_artifacts svc (Sweep now (svc_artifacts svc)).2)
  | EvDone shutdown => ([], Some (Returned shutdown), svc)
  | EvServe e => ([], Some (Returned (if errors_Is e ErrServerClosed then None else Some e)), svc)
  end.

(** [Run] over the events up to the one that ends it, if any. *)
Fixpoint Run (evs : list ServiceEvent) (svc : Service S) : list Output * option Ending * Service S :=
  match evs with
  | [] => ([], None, svc)
  | ev :: evs' =>
      match run_event ev svc with
      | (out, Some fin, svc') => (out, Some fin, svc')
      | (out, None, svc') => let '(outs, fin, svc'') := Run evs' svc' in ((out ++ outs)%list, fin, svc'')
      end
  end.
End Serve.

(** ** A request has one route *)

Lemma path_overlaps_complete p q path w1 w2 :
  match_path p path = Some w1 -> match_path q path = Some w2 -> path_overlaps p q = true.
Proof.
  revert q path w1 w2. induction p as [|sp p IH]; intros [|sq q] [|x path] w1 w2 H1 H2; try (destruct sp; discriminate H1);
    try (destruct sq; discriminate H2); try done.
  assert (exists v1, match_path p path = Some v1) as [v1 Hp].
  { destruct sp as [t|]; cbn in H1; [destruct (String.eqb t x); [eauto|done]|]. apply fmap_Some in H1 as (v & ? & _). eauto. }
  assert (exists v2, match_path q path = Some v2) as [v2 Hq].
  { destruct sq as [t|]; cbn in H2; [destruct (String.eqb t x); [eauto|done]|]. apply fmap_Some in H2 as (v & ? & _). eauto. }
  specialize (IH q path v1 v2 Hp Hq). destruct sp as [t|], sq as [u|]; cbn in H1, H2 |- *; try done.
  destruct (String.eqb_spec t x) as [->|]; [|done]. destruct (String.eqb_spec u x) as [->|]; [|done]. by rewrite String.eqb_refl.
Qed.

Lemma method_overlaps_complete m1 m2 method :
  m1 ∈ ["GET"; "POST"; "PUT"; ""]%string -> m2 ∈ ["GET"; "POST"; "PUT"; ""]%string ->
  method_matches m1 method = true -> method_matches m2 method = true -> method_overlaps m1 m2 = true.
Proof.
  intros H1 H2. repeat (apply elem_of_cons in H1 as [->|H1]; [|]); try by apply elem_of_nil in H1.
  all: repeat (apply elem_of_cons in H2 as [->|H2]; [|]); try by apply elem_of_nil in H2.
  all: unfold method_matches; repeat match goal with |- context [String.eqb ?a ?m] => is_var m;
    let E := fresh in destruct (String.eqb_spec a m) as [E|E]; [subst m; by vm_compute|apply String.eqb_neq in E] end; by vm_compute.
Qed.

(** No two patterns of the table overlap, so that [ServeMux] accepts it and the
    order of the registrations does not matter. *)
Lemma routes_disjoint b p q : p ∈ routes b -> q ∈ routes b -> p = q \/
  method_overlaps (p_method p) (p_method q) && path_overlaps (p_path p) (p_path q) = false.
Proof.
  assert (Hall : Forall (fun p => Forall (fun q => p = q \/
    method_overlaps (p_method p) (p_method q) && path_overlaps (p_path p) (p_path q) = false) (routes b)) (routes b)).
  { apply (bool_decide_unpack _). by destruct b; vm_compute. }
  intros Hp Hq. rewrite !Forall_forall in Hall. specialize (Hall p Hp). rewrite Forall_forall in Hall. by apply Hall.
Qed.
Lemma routes_methods b p : p ∈ routes b -> p_method p ∈ ["GET"; "POST"; "PUT"; ""]%string.
Proof.
  assert (Hall : Forall (fun p => p_method p ∈ ["GET"; "POST"; "PUT"; ""]%string) (routes b)).
  { apply (bool_decide_unpack _). by destruct b; vm_compute. }
  rewrite Forall_forall in Hall. apply Hall.
Qed.

Definition matches (p : Pattern) (method : string) (path wild : list string) : Prop :=
  method_matches (p_method p) method = true /\ match_path (p_path p) path = Some wild.

Lemma mux_match_some rs method path r wild :
  mux_match rs method path = Matched r wild -> exists p, p ∈ rs /\ p_route p = r /\ matches p method path wild.
Proof.
  induction rs as [|p rs IH]; simpl; [done|]. destruct (match_path (p_path p) path) as [w|] eqn:Hw.
  - destruct (method_matches (p_method p) method) eqn:Hm.
    + intros [= <- <-]. exists p. by split; [left|].
    + destruct (mux_match rs method path) eqn:E; try done. intros [= -> ->].
      destruct (IH eq_refl) as (q & Hq & ?). exists q. by split; [right|].
  - intros E. destruct (IH E) as (q & Hq & ?). exists q. by split; [right|].
Qed.
Lemma mux_match_complete rs p method path wild :
  p ∈ rs -> matches p method path wild -> exists r w, mux_match rs method path = Matched r w.
Proof.
  intros Hp [Hm Hw]. induction rs as [|q rs IH]; [by apply elem_of_nil in Hp|]. simpl.
  apply elem_of_cons in Hp as [<-|Hp]; [rewrite Hw, Hm; eauto|]. destruct (IH Hp) as (r & w & ->).
  destruct (match_path (p_path q) path) as [w0|]; [|by exists r, w]. destruct (method_matches (p_method q) method); [by eexists _, _|by exists r, w].
Qed.

(** The multiplexer finds the one pattern that matches, with its wildcards, and
    nothing exactly when none matches. *)
Lemma mux_match_iff b method path r wild :
  mux_match (routes b) method path = Matched r wild <->
  exists p, p ∈ routes b /\ p_route p = r /\ matches p method path wild.
Proof.
  split; [apply mux_match_some|]. intros (p & Hp & <- & Hm). destruct (mux_match_complete _ p _ _ _ Hp Hm) as (r & w & Hr).
  rewrite Hr. apply mux_match_some in Hr as (q & Hq & <- & Hmq). destruct Hm as [Hm Hw], Hmq as [Hmq Hwq].
  destruct (routes_disjoint b p q Hp Hq) as [<-|Hd]; [congruence|].
  rewrite (method_overlaps_complete _ _ method), (path_overlaps_complete _ _ path wild w) in Hd; eauto using routes_methods. done.
Qed.

(** ** The sweeps are not seen *)

(** Stores that read the same from time [t] on. *)
Definition same_reads (t : Z) (a b : ArtifactStore) : Prop :=
  ttl a = ttl b /\ forall key now, (t <= now)%Z -> artifact_Get key now a = artifact_Get key now b.

#[export] Instance same_reads_equiv t : Equivalence (same_reads t).
Proof.
  split.
  - by intros a.
  - intros a b [Ht Hr]. split; [done|]. intros key now Hn. by rewrite Hr.
  - intros a b c [Ht Hr] [Ht' Hr']. split; [congruence|]. intros key now Hn. by rewrite Hr, Hr'.
Qed.
Lemma same_reads_later t t' a b : (t <= t')%Z -> same_reads t a b -> same_reads t' a b.
Proof. intros Ht [? Hr]. split; [done|]. intros key now Hn. apply Hr. lia. Qed.
#[export] Instance Put_Proper t key d now : Proper (same_reads t ==> same_reads t) (Put key d now).
Proof.
  intros a b [Ht Hr]. split; [done|]. intros key' now' Hn. destruct (decide (key = key')) as [<-|Hne].
  - by rewrite !artifact_Get_Put, Ht.
  - rewrite !artifact_Get_Put_ne by done. by apply Hr.
Qed.
Lemma same_reads_Sweep now a : same_reads now (Sweep now a).2 a.
Proof. split; [done|]. intros key now' Hn. by apply Sweep_unobservable. Qed.

Section Blind.
Context {S : Type}.
Notation SM := (M (Service S)).
Implicit Types (svc : Service S).

(** A call that neither reads nor writes the artifacts. *)
Definition blind {A} (m : SM A) : Prop := forall svc a, m (set_artifacts svc a) = ((m svc).1, set_artifacts (m svc).2 a).

Lemma blind_artifacts {A} (m : SM A) svc : blind m -> svc_artifacts (m svc).2 = svc_artifacts svc.
Proof.
  intros Hm. specialize (Hm svc (svc_artifacts svc)). assert (Hs : set_artifacts svc (svc_artifacts svc) = svc) by by destruct svc.
  rewrite Hs in Hm. by rewrite Hm.
Qed.
Lemma blind_ret {A} (x : A) : blind (ret x). Proof. done. Qed.
Lemma blind_throw {A} e : blind (throw (A := A) e). Proof. done. Qed.
Lemma blind_panic {A} w : blind (panic (A := A) w). Proof. done. Qed.
Lemma blind_modify f : (forall svc a, f (set_artifacts svc a) = set_artifacts (f svc) a) -> blind (modify f).
Proof. intros Hf svc a. unfold modify. by rewrite Hf. Qed.
Lemma blind_bind {A B} (m : SM A) (k : A -> SM B) : blind m -> (forall x, blind (k x)) -> blind (bind m k).
Proof. intros Hm Hk svc a. unfold bind. rewrite Hm. destruct (m svc) as [[x|e|w] svc']; cbn [fst snd]; [apply Hk|done..]. Qed.
Lemma blind_get {B} (k : Service S -> SM B) :
  (forall svc a, k (set_artifacts svc a) = k svc) -> (forall svc, blind (k svc)) -> blind (bind get k).
Proof. intros Hk Hb svc a. unfold bind, get. rewrite Hk. apply Hb. Qed.
Lemma blind_wrap {A} f (m : SM A) : blind m -> blind (wrap_err f m).
Proof. intros Hm svc a. unfold wrap_err. rewrite Hm. by destruct (m svc) as [[x|e|w] svc']. Qed.
Lemma blind_on_runner {A} (m : M (RunnerState S) A) : blind (on_runner m).
Proof. intros svc a. unfold on_runner. cbn [svc_state set_artifacts]. by destruct (m (svc_state svc)) as [o st]. Qed.
Lemma blind_if {A} (b : bool) (m1 m2 : SM A) : blind m1 -> blind m2 -> blind (if b then m1 else m2).
Proof. by destruct b. Qed.
Lemma blind_for_each {A} (l : list A) (body : A -> SM unit) : (forall x, blind (body x)) -> blind (for_each l body).
Proof. intros Hb. induction l as [|x l IH]; [done|]. apply blind_bind; [apply Hb|done]. Qed.
End Blind.

Create HintDb blind.
#[export] Hint Resolve blind_ret blind_throw blind_panic blind_wrap blind_on_runner blind_for_each : blind.

Section Sweeps.
Context {S : Type} `{Store S}.
Implicit Types (svc : Service S).

Lemma blind_dispatch from msg now : blind (S := S) (dispatch from msg now).
Proof.
  intros svc a. unfold dispatch. destruct (String.eqb _ _); [done|]. cbn [svc_state set_artifacts].
  change (route (set_artifacts svc a)) with (route svc). destruct (route svc from msg (svc_state svc)) as [[b|e|w] st];
    cbv zeta; cbn [fst snd svc_cfg set_state set_ring set_artifacts svc_ring]; try done; by destruct (hasPostDispatchHook (svc_cfg svc)).
Qed.
Lemma blind_Start json_Marshal format_time sid ps attrs now : blind (S := S) (Start json_Marshal format_time sid ps attrs now).
Proof.
  unfold Start. destruct ps as [|p ps]; [apply blind_throw|]. apply blind_bind; [by apply blind_modify|]. intros _.
  apply blind_get; [done|]. intros svc. apply blind_bind; [auto with blind|]. intros _.
  apply blind_bind; [by apply blind_modify|]. intros _. apply blind_if; [auto with blind|]. by apply blind_modify.
Qed.

Context (decode_start : Outcome bytes -> Outcome sessionStartRequest) (json_any : Any -> option string).
Context (json_Unmarshal : bytes -> option WSMessage) (Upgrade : bool -> bool).
Context (trigger : string -> list string -> list (string * Any) -> Z -> M (Service S) unit).
Context (onMsg : string -> WSMessage -> Z -> M (Service S) unit).
Context (logStream : option (option (HTTPRequest -> bool))) (flusher : bool).
Context (Htrigger : forall sid ps attrs now, blind (trigger sid ps attrs now)) (HonMsg : forall from msg now, blind (onMsg from msg now)).
Notation http_step := (ServeHTTP decode_start json_any Upgrade trigger logStream flusher).
Notation frame_step := (serve_frame json_Unmarshal onMsg).
Notation event_step := (run_event decode_start json_any json_Unmarshal Upgrade trigger onMsg logStream flusher).
Notation run_all := (Run decode_start json_any json_Unmarshal Upgrade trigger onMsg logStream flusher).

Lemma ServeHTTP_sim rq client now t svc a : (t <= now)%Z -> same_reads t (svc_artifacts svc) a ->
  exists a', http_step rq client now (set_artifacts svc a) = ((http_step rq client now svc).1, set_artifacts (http_step rq client now svc).2 a') /\
    same_reads t (svc_artifacts (http_step rq client now svc).2) a'.
Proof.
  intros Ht Ha. unfold Serve.ServeHTTP. destruct (mux_match _ _ _) as [r wild| |]; [|by exists a..].
  destruct r; cbn [serve_route fst snd]; try by exists a.
  - unfold handleSessionStart. destruct (decode_start _) as [req|e|w]; cbn [fst snd]; [|by exists a..].
    destruct (String.eqb _ _); cbn [fst snd]; [by exists a|]. rewrite Htrigger.
    pose proof (blind_artifacts _ svc (Htrigger (reqSessionID req) (reqParticipants req) (reqAttrs req) now)) as Hart.
    destruct (trigger _ _ _ _ svc) as [o svc'] eqn:E. cbn [fst snd] in Hart |- *.
    exists a. destruct o as [[]|e|w]; cbn [fst snd svc_state set_artifacts]; try (destruct (CurrentState _ _)); cbn [fst snd]; by rewrite Hart.
  - unfold handleArtifactPut. cbn [svc_cfg set_artifacts svc_artifacts].
    destruct (String.eqb _ _); [by exists a|]. destruct (rq_body rq) as [buf|e|w]; [|by exists a..].
    destruct (_ && _); [by exists a|]. exists (Put (hd EmptyString wild) buf now a). split; [done|]. by apply Put_Proper.
  - unfold handleArtifactGet. cbn [svc_artifacts set_artifacts]. destruct Ha as [? Hr]. rewrite <- (Hr _ now Ht). by exists a.
  - unfold serve_ws. cbn [svc_hub set_artifacts]. destruct (HandleWS _ _ _ _ _ _ _) as [o h]. by exists a.
Qed.
Lemma serve_frame_blind client data now : blind (frame_step client data now).
Proof.
  intros svc a. unfold Serve.serve_frame. cbn [svc_hub set_artifacts]. destruct (objects _ !! client) as [c|]; [|done].
  destruct (receive _ _ _ _ _) as [[msg|] h]; [|done]. apply (HonMsg (Pseudonym c) msg now (set_hub svc h)).
Qed.

Definition event_time (ev : ServiceEvent) : option Z :=
  match ev with EvHTTP _ _ now | EvFrame _ _ now | EvSweep now => Some now | _ => None end.
Definition is_sweep (ev : ServiceEvent) : bool := match ev with EvSweep _ => true | _ => false end.
(** The clock does not run backwards. *)
Fixpoint clocked (t : Z) (evs : list ServiceEvent) : Prop :=
  match evs with
  | [] => True
  | ev :: evs' => (t <= default t (event_time ev))%Z /\ clocked (default t (event_time ev)) evs'
  end.
Fixpoint clock_end (t : Z) (evs : list ServiceEvent) : Z :=
  match evs with [] => t | ev :: evs' => clock_end (default t (event_time ev)) evs' end.

Lemma clock_end_le t evs : clocked t evs -> (t <= clock_end t evs)%Z.
Proof. revert t. induction evs as [|ev evs IH]; intros t; simpl; [lia|]. intros [Ht Hc]. specialize (IH _ Hc). lia. Qed.

Lemma run_event_sim ev t svc a : is_sweep ev = false -> (t <= default t (event_time ev))%Z -> same_reads t (svc_artifacts svc) a ->
  exists a', event_step ev (set_artifacts svc a) = ((event_step ev svc).1, set_artifacts (event_step ev svc).2 a') /\
    same_reads t (svc_artifacts (event_step ev svc).2) a'.
Proof.
  intros Hs Ht Ha. destruct ev as [rq client now|client data now|client|client|now|sh|e]; cbn [Serve.run_event]; try done.
  - destruct (ServeHTTP_sim rq client now t svc a Ht Ha) as (a' & He & Ha'). rewrite He.
    destruct (http_step rq client now svc) as [[ans|e|w] svc']; by exists a'.
  - rewrite (serve_frame_blind client data now svc a). pose proof (blind_artifacts _ svc (serve_frame_blind client data now)) as Hart.
    exists a. destruct (frame_step client data now svc) as [[[]|e|w] svc']; cbn [fst snd] in Hart |- *; by rewrite Hart.
  - by exists a.
  - cbn [svc_hub set_artifacts]. destruct (drain client (svc_hub svc)) as [d h]. by exists a.
  - by exists a.
  - by exists a.
Qed.

(** Sweeping is not seen.  Whatever requests, frames, disconnections and
    writes a service handles, and however it ends, with the sweeps of its timer or
    without them it gives the same answers, sends the same frames, ends the same way
    and is left in the same state, but for artifacts that have expired. *)
Lemma sweeps_unseen t evs svc : clocked t evs ->
  let without := run_all (List.filter (fun ev => negb (is_sweep ev)) evs) svc in
  exists a, run_all evs svc = (without.1, set_artifacts without.2 a) /\
    forall key now, (clock_end t evs <= now)%Z -> artifact_Get key now a = artifact_Get key now (svc_artifacts without.2).
Proof.
  intros Hc. cbv zeta. enough (Hsim : forall a, same_reads t (svc_artifacts svc) a ->
    let without := run_all (List.filter (fun ev => negb (is_sweep ev)) evs) svc in
    exists a', run_all evs (set_artifacts svc a) = (without.1, set_artifacts without.2 a') /\
      same_reads (clock_end t evs) (svc_artifacts without.2) a').
  { destruct (Hsim (svc_artifacts svc)) as (a' & Hr & _ & Hreads); [done|]. exists a'.
    assert (Hs : set_artifacts svc (svc_artifacts svc) = svc) by by destruct svc. rewrite Hs in Hr. split; [done|].
    intros key now Hn. by rewrite Hreads. }
  revert t svc Hc. induction evs as [|ev evs IH]; intros t svc Hc a Ha; [by exists a|]. destruct Hc as [Ht Hc]. cbv zeta.
  destruct (is_sweep ev) eqn:Hs.
  - destruct ev as [| | | |now| |]; try done. cbn [List.filter is_sweep negb Serve.Run Serve.run_event]. cbn in Ht, Hc.
    destruct (IH now svc Hc (Sweep now a).2) as (a' & Hr & Ha').
    { transitivity a; [by apply (same_reads_later t)|]. symmetry. apply same_reads_Sweep. }
    exists a'. change (set_artifacts (set_artifacts svc a) (Sweep now (svc_artifacts (set_artifacts svc a))).2)
      with (set_artifacts svc (Sweep now a).2). rewrite Hr. by destruct (run_all _ svc) as [[outs fin] svc'].
  - cbn [List.filter]. rewrite Hs. cbn [negb Serve.Run]. destruct (run_event_sim ev t svc a Hs Ht Ha) as (a1 & He & Ha1). rewrite He.
    destruct (event_step ev svc) as [[out fin] svc1]. cbn [fst snd] in He, Ha1 |- *. destruct fin as [fin|].
    + exists a1. split; [done|]. apply (same_reads_later t); [|done]. cbn [clock_end]. pose proof (clock_end_le _ _ Hc). lia.
    + destruct (IH _ svc1 Hc a1) as (a' & Hr & Ha'); [by apply (same_reads_later t)|]. exists a'. rewrite Hr.
      by destruct (run_all _ svc1) as [[outs fin] svc'].
Qed.
End Sweeps.

(** ** Whose frames are dispatched *)

(** No client has come, and the secret is the same. *)
Definition hub_quiet (h h' : Hub) : Prop :=
  auth h' = auth h /\ forall i c', objects h' !! i = Some c' -> exists c, objects h !! i = Some c /\ Pseudonym c = Pseudonym c'.

#[export] Instance hub_quiet_preorder : PreOrder hub_quiet.
Proof.
  split; [intros h; split; [done|eauto]|]. intros h1 h2 h3 [Ha Hq] [Ha' Hq']. split; [congruence|]. intros i c3 H3.
  destruct (Hq' i c3 H3) as (c2 & H2 & <-). by apply Hq.
Qed.
Lemma hub_quiet_set h cs i c c' : objects h !! i = Some c -> Pseudonym c = Pseudonym c' -> hub_quiet h (set_clients h cs (<[i := c']> (objects h))).
Proof.
  intros Hc Hp. split; [done|]. intros j c2. cbn [objects set_clients]. destruct (decide (i = j)) as [<-|Hne].
  - rewrite lookup_insert_eq. intros [= <-]. eauto.
  - rewrite lookup_insert_ne by done. eauto.
Qed.
Lemma push_quiet p d h : hub_quiet h (push p d h).
Proof.
  unfold push. destruct (clients h !! p) as [i|]; cbn [mbind option_bind fmap option_fmap option_map]; [|done].
  destruct (objects h !! i) as [c|] eqn:Hc; cbn; [|done]. apply (hub_quiet_set h _ i c); [done|]. unfold enqueue. by destruct (_ <? _)%nat.
Qed.
Lemma foldl_push_quiet data ps h : hub_quiet h (foldl (fun h p => push p data h) h ps).
Proof. revert h. induction ps as [|p ps IH]; intros h; [done|]. simpl. transitivity (push p data h); [apply push_quiet|apply IH]. Qed.
Lemma BroadcastToSession_quiet json_Marshal format_time sid ps msg now h : hub_quiet h (BroadcastToSession json_Marshal format_time sid ps msg now h).
Proof. apply foldl_push_quiet. Qed.
Lemma SendTo_quiet json_Marshal format_time p msg now h : hub_quiet h (SendTo json_Marshal format_time p msg now h).2.
Proof. unfold SendTo. destruct (json_Marshal _); [apply push_quiet|done]. Qed.
Lemma receive_quiet json_Unmarshal i data now h : hub_quiet h (receive json_Unmarshal i data now h).2.
Proof.
  rewrite receive_steps. destruct (objects h !! i) as [c|] eqn:Hc; [|done]. destruct (json_Unmarshal data) as [msg|]; [|done].
  destruct (ValidateInboundMessage msg); [done|]. unfold checkAndRecordSeq.
  assert (Hstep : forall m, hub_quiet h (let '(allowed, l) := Allow now (limiter c) in
    let h2 := set_clients (set_seqHigh h m) (clients (set_seqHigh h m)) (<[i := with_limiter c l]> (objects (set_seqHigh h m))) in
    if allowed : bool then (Some msg, h2) else (None, h2)).2).
  { intros m. destruct (Allow now (limiter c)) as [[] l]; cbn [snd]; (transitivity (set_seqHigh h m); [split; [done|eauto]|]);
      by apply (hub_quiet_set (set_seqHigh h m) _ i c). }
  destruct (Seq msg =? 0)%Z.
  - destruct (Allow now (limiter c)) as [[] l]; by apply (hub_quiet_set h _ i c).
  - destruct (seqHigh h !! _) as [l|]; [|apply Hstep]. destruct (_ <=? _)%Z; [done|apply Hstep].
Qed.
Lemma drain_quiet i h : hub_quiet h (drain i h).2.
Proof.
  unfold drain. destruct (objects h !! i) as [c|] eqn:Hc; [|done]. destruct (Send c) as [|d q]; [done|]. by apply (hub_quiet_set h _ i c).
Qed.
Lemma readPump_exit_quiet i h : hub_quiet h (readPump_exit i h).
Proof. unfold readPump_exit. destruct (objects h !! i); [|done]. split; [done|eauto]. Qed.

Section Authentic.
Context {S : Type} `{Store S}.
Implicit Types (svc : Service S).

(** Only frames from [from] have been recorded, and no client has come. *)
Definition events_of svc (sid : string) : list SessionEvent := default [] (Events sid (svc_ring svc)).
Definition speaks (from : option string) svc svc' : Prop :=
  hub_quiet (svc_hub svc) (svc_hub svc') /\
  forall sid e, e ∈ events_of svc' sid -> e ∈ events_of svc sid \/ from = Some (evFrom e).

#[export] Instance speaks_preorder from : PreOrder (speaks from).
Proof.
  split; [intros svc; split; [done|auto]|]. intros s1 s2 s3 [Hq He] [Hq' He']. split; [by transitivity (svc_hub s2)|].
  intros sid e Hin. destruct (He' sid e Hin); auto.
Qed.
(** A call of the application, on behalf of [from]. *)
Definition speaks_for (from : option string) {A} (m : M (Service S) A) : Prop := forall svc0, keeps (speaks from svc0) m.

Lemma speaks_for_quiet from f : (forall svc, hub_quiet (svc_hub svc) (svc_hub (f svc)) /\ svc_ring (f svc) = svc_ring svc) ->
  speaks_for from (modify f).
Proof.
  intros Hf svc0 svc Hs. transitivity svc; [done|]. destruct (Hf svc) as [Hq Hr]. split; [done|]. unfold events_of. cbn [snd modify].
  rewrite Hr. auto.
Qed.
Lemma speaks_for_runner from {A} (m : M (RunnerState S) A) : speaks_for from (on_runner m).
Proof. intros svc0 svc Hs. unfold on_runner. by destruct (m (svc_state svc)) as [o st]. Qed.
Lemma speaks_for_bind from {A B} (m : M (Service S) A) (k : A -> M (Service S) B) :
  speaks_for from m -> (forall a, speaks_for from (k a)) -> speaks_for from (bind m k).
Proof. intros Hm Hk svc0. apply keeps_bind; [apply Hm|]. intros a. apply Hk. Qed.
Lemma speaks_for_each from {A} (l : list A) (body : A -> M (Service S) unit) :
  (forall x, speaks_for from (body x)) -> speaks_for from (for_each l body).
Proof. intros Hb. induction l as [|x l IH]; [intros svc0; apply keeps_ret|]. by apply speaks_for_bind. Qed.

Lemma Record_events sid ty from er now r sid' e :
  e ∈ default [] (Events sid' (Record_ sid ty from er now r)) -> e ∈ default [] (Events sid' r) \/ evFrom e = from.
Proof.
  destruct r as [r|]; [|auto]. unfold Events, Record_. cbn [mbind option_bind ring].
  destruct (decide (sid = sid')) as [<-|Hne]; [|rewrite lookup_insert_ne by done; auto]. rewrite lookup_insert_eq. cbn [default].
  intros [Hin|Hin]%elem_of_app; [|apply list_elem_of_singleton in Hin as ->; auto]. left.
  destruct (_ && _); [|done]. destruct (default [] (ring r !! sid)); [done|]. by right.
Qed.
Lemma dispatch_speaks from msg now : speaks_for (Some from) (dispatch from msg now).
Proof.
  intros svc0 svc Hs. transitivity svc; [done|]. unfold dispatch. destruct (String.eqb _ _); [done|].
  assert (Hrec : forall er st, speaks (Some from) svc (set_ring (set_state svc st) (Record_ (msgSessionID msg) (Type_ msg) from er now (svc_ring svc)))).
  { intros er st. split; [done|]. intros sid e Hin. destruct (Record_events _ _ _ _ _ _ _ _ Hin) as [?| ->]; auto. }
  destruct (route svc from msg (svc_state svc)) as [[b|e|w] st]; cbv zeta; [| |by split; auto];
    (destruct (hasPostDispatchHook _); [|apply Hrec]); match goal with |- speaks _ _ (_, add_posted ?s _).2 => transitivity s; [apply Hrec|by split; auto] end.
Qed.
Lemma Start_speaks json_Marshal format_time sid ps attrs now : speaks_for None (Start (S := S) json_Marshal format_time sid ps attrs now).
Proof.
  unfold Start. destruct ps as [|p ps]; [intros svc0; apply keeps_throw|]. apply speaks_for_bind; [by apply speaks_for_quiet|]. intros _.
  apply speaks_for_bind; [intros svc0; apply keeps_get|]. intros svc.
  apply speaks_for_bind; [intros svc0; apply keeps_wrap, speaks_for_runner|]. intros _.
  apply speaks_for_bind; [by apply speaks_for_quiet|]. intros _ svc0. apply keeps_if; [apply keeps_ret|]. apply speaks_for_quiet.
  intros svc1. split; [apply BroadcastToSession_quiet|done].
Qed.

Context (decode_start : Outcome bytes -> Outcome sessionStartRequest) (json_any : Any -> option string).
Context (json_Unmarshal : bytes -> option WSMessage) (Upgrade : bool -> bool).
Context (trigger : string -> list string -> list (string * Any) -> Z -> M (Service S) unit).
Context (onMsg : string -> WSMessage -> Z -> M (Service S) unit).
Context (logStream : option (option (HTTPRequest -> bool))) (flusher : bool).
Context (Htrigger : forall sid ps attrs now, speaks_for None (trigger sid ps attrs now)).
Context (HonMsg : forall from msg now, speaks_for (Some from) (onMsg from msg now)).
Notation http_step := (ServeHTTP decode_start json_any Upgrade trigger logStream flusher).
Notation event_step := (run_event decode_start json_any json_Unmarshal Upgrade trigger onMsg logStream flusher).
Notation run_all := (Run decode_start json_any json_Unmarshal Upgrade trigger onMsg logStream flusher).

(** Among the events, a connection of [p] with a valid token. *)
Definition presented (a : AuthMiddleware) (evs : list ServiceEvent) (p : string) : Prop :=
  exists rq client now, EvHTTP rq client now ∈ evs /\ rq_path rq = ["v2"; "ws"]%string /\ rq_query rq "pseudonym" = p /\
    ValidateToken a p (rq_query rq "auth") = true.
(** Every client and every recorded sender is known. *)
Definition known (a : AuthMiddleware) (P : string -> Prop) svc : Prop :=
  auth (svc_hub svc) = a /\ (forall i c, objects (svc_hub svc) !! i = Some c -> P (Pseudonym c)) /\
  forall sid e, e ∈ events_of svc sid -> P (evFrom e).

Lemma known_speaks a P from svc svc' : known a P svc -> speaks from svc svc' -> (forall p, from = Some p -> P p) -> known a P svc'.
Proof.
  intros (Ha & Ho & He) [[Ha' Hq] Hs] Hf. split; [congruence|]. split.
  - intros i c Hc. destruct (Hq i c Hc) as (c0 & H0 & <-). eauto.
  - intros sid e Hin. destruct (Hs sid e Hin); eauto.
Qed.
Lemma known_hub a P svc h : known a P svc -> hub_quiet (svc_hub svc) h -> known a P (set_hub svc h).
Proof. intros Hk Hq. apply (known_speaks a P None svc); [done|by split; auto|done]. Qed.

Lemma mux_ws b method path wild : mux_match (routes b) method path = Matched R_ws wild -> path = ["v2"; "ws"]%string.
Proof.
  intros (p & Hp & Hr & _ & Hw)%mux_match_some.
  assert (p = ws_route) as ->.
  { assert (Hall : Forall (fun p => p_route p = R_ws -> p = ws_route) (routes b)).
    { apply (bool_decide_unpack _). by destruct b; vm_compute. }
    rewrite Forall_forall in Hall. by apply Hall. }
  destruct path as [|x [|y [|z path]]]; cbn [match_path p_path ws_route] in Hw; try done.
  all: repeat match type of Hw with context [String.eqb ?s ?t] => destruct (String.eqb_spec s t) as [<-|]; [|done] end; done.
Qed.

Lemma ServeHTTP_known a P rq client now svc : known a P svc ->
  (rq_path rq = ["v2"; "ws"]%string -> ValidateToken a (rq_query rq "pseudonym") (rq_query rq "auth") = true -> P (rq_query rq "pseudonym")) ->
  known a P (http_step rq client now svc).2.
Proof.
  intros Hk Hp. unfold Serve.ServeHTTP. destruct (mux_match _ _ _) as [r wild| |] eqn:Hmux; [|done..].
  destruct r; cbn [serve_route]; try done.
  - unfold handleSessionStart. destruct (decode_start _) as [req|e|w]; [|done..]. destruct (String.eqb _ _); [done|].
    assert (Hs : known a P (trigger (reqSessionID req) (reqParticipants req) (reqAttrs req) now svc).2).
    { apply (known_speaks a P None svc); [done|by apply Htrigger|done]. }
    destruct (trigger _ _ _ _ svc) as [[[]|e|w] svc']; try done. by destruct (CurrentState _ _).
  - unfold handleArtifactPut. destruct (String.eqb _ _); [done|]. destruct (rq_body rq); [|done..]. by destruct (_ && _).
  - unfold serve_ws, HandleWS. destruct (String.eqb _ _); [by apply known_hub|].
    destruct (ValidateToken (auth (svc_hub svc)) (rq_query rq "pseudonym") (rq_query rq "auth")) eqn:Hv; cbn [negb]; [|by apply known_hub].
    destruct (Upgrade _); cbn [negb]; [|by apply known_hub].
    destruct Hk as (Ha & Ho & He). split; [done|]. split; [|done]. intros i c. cbn [snd svc_hub set_hub objects set_clients].
    destruct (decide (client = i)) as [<-|Hne]; [|rewrite lookup_insert_ne by done; apply Ho].
    rewrite lookup_insert_eq. intros [= <-]. apply Hp; [by apply mux_ws in Hmux|by rewrite <- Ha].
Qed.

Lemma run_event_known a P ev svc : known a P svc -> (forall p, presented a [ev] p -> P p) -> known a P (event_step ev svc).2.
Proof.
  intros Hk Hp. destruct ev as [rq client now|client data now|client|client|now|sh|e]; cbn [Serve.run_event]; try done.
  - assert (Hk' : known a P (http_step rq client now svc).2).
    { apply ServeHTTP_known; [done|]. intros Hpath Hv. apply Hp. exists rq, client, now. split; [by left|done]. }
    by destruct (http_step rq client now svc) as [[ans|e|w] svc'].
  - assert (Hk' : known a P (serve_frame json_Unmarshal onMsg client data now svc).2).
    { unfold serve_frame. destruct (objects _ !! client) as [c|] eqn:Hc; [|done].
      pose proof (receive_quiet json_Unmarshal client data now (svc_hub svc)) as Hq.
      destruct (receive _ _ _ _ _) as [[msg|] h]; cbn [snd] in Hq |- *; [|by apply known_hub].
      apply (known_speaks a P (Some (Pseudonym c)) (set_hub svc h)); [by apply known_hub|by apply HonMsg|].
      intros p [= <-]. destruct Hk as (_ & Ho & _). eauto. }
    by destruct (serve_frame _ _ client data now svc) as [[[]|e|w] svc'].
  - apply known_hub; [done|apply readPump_exit_quiet].
  - pose proof (drain_quiet client (svc_hub svc)) as Hq. destruct (drain client (svc_hub svc)) as [d h]. by apply known_hub.
Qed.

Lemma Run_known a P evs svc : known a P svc -> (forall p, presented a evs p -> P p) -> known a P (run_all evs svc).2.
Proof.
  revert svc. induction evs as [|ev evs IH]; intros svc Hk Hsub; [done|].
  cbn [Serve.Run]. assert (Hk' : known a P (event_step ev svc).2).
  { apply run_event_known; [done|]. intros p (rq & client & now & Hrq & ?). apply Hsub. exists rq, client, now.
    apply list_elem_of_singleton in Hrq as <-. split; [by left|done]. }
  destruct (event_step ev svc) as [[out [fin|]] svc']; [done|]. specialize (IH svc' Hk').
  destruct (run_all evs svc') as [[outs fin] svc'']. apply IH. intros p (rq & client & now & Hrq & ?). apply Hsub. exists rq, client, now.
  split; [by right|done].
Qed.

(** Only those who hold a token are heard.  In whatever way the requests,
    frames, disconnections, writes and sweeps of a service interleave, every event
    it has recorded, hence every frame the runner was given, is of a pseudonym that
    connected to the WebSocket endpoint before with the token the secret of the
    service makes for it; without a secret, in the development bypass only. *)
Lemma run_authentic evs svc : objects (svc_hub svc) = ∅ -> (forall sid, events_of svc sid = []) ->
  let a := auth (svc_hub svc) in
  forall sid e, e ∈ events_of (run_all evs svc).2 sid ->
  exists rq client now, EvHTTP rq client now ∈ evs /\ rq_path rq = ["v2"; "ws"]%string /\ rq_query rq "pseudonym" = evFrom e /\
    match Secret a with
    | [] => AllowDevBypass a = true
    | _ => rq_query rq "auth" = GenerateToken a (evFrom e)
    end.
Proof.
  intros Hnone Hev a sid e Hin. enough (Hk : known a (presented a evs) (run_all evs svc).2).
  { destruct Hk as (_ & _ & He). destruct (He sid e Hin) as (rq & client & now & Hrq & Hpath & Hp & Hv).
    exists rq, client, now. split_and!; [done..|]. rewrite <- Hp in Hv |- *. by apply ValidateToken_iff in Hv. }
  apply Run_known; [|done]. split; [done|]. split; [intros i c Hc; by rewrite Hnone in Hc|].
  intros sid' e' Hin'. rewrite Hev in Hin'. by apply elem_of_nil in Hin'.
Qed.
End Authentic.
