(* ===== verification/Auth.v ===== *)
(** * Credentials (pkg/ares/authclient: credentials.go, service.go)

    The issuer of HMAC-signed credentials and the HTTP handlers that issue
    them, verify them and trade one for a connection token.  encoding/json is
    the class [CredentialCodec] with its laws; base64 and the test for valid
    UTF-8 are executable.  Times are nanoseconds since the epoch, read by the
    caller from the issuer's clock. *)
From Stdlib Require Import ZArith NArith Lia String Ascii Strings.Byte.
From stdpp Require Import base gmap list strings pretty.
From S2P Require Import Prelude Bytes Encoding.
From S2P Require Import GoFmt.
From S2P Require Import Lineage.
From S2P Require Import Hub.
From S2P Require Import Service.

(** ** Standard library *)

(** [sort.Strings]; the result is the only sorted permutation. *)
Fixpoint insert_string (x : string) (l : list string) : list string :=
  match l with
  | [] => [x]
  | y :: l' => if String.ltb y x then y :: insert_string x l' else x :: l
  end.
Definition sort_Strings (l : list string) : list string := foldr insert_string [] l.

(** ** Claims *)

Definition CredentialVersion : Z := 1.

Definition ErrCredentialExpired : GoError := ErrorsNew "credential expired".
Definition ErrCredentialSignature : GoError := ErrorsNew "credential signature mismatch".
Definition ErrMissingSigningKey : GoError := ErrorsNew "missing credential signing key".

Record Claims := {
  clVersion : Z; clIssuer : string; AccountID : string; SubjectHash : string; Provider : string;
  TokenHash : string; Nonce : string; IssuedAt : Z; ExpiresAt : Z
}.
Record Envelope := { envClaims : Claims; envSignature : string }.

(** The parts in the order the code lists them. *)
Definition claim_parts (c : Claims) : list string :=
  [ "account_id=" +:+ AccountID c;
    "expires_at=" +:+ fmt_int (ExpiresAt c);
    "issued_at=" +:+ fmt_int (IssuedAt c);
    "issuer=" +:+ clIssuer c;
    "nonce=" +:+ Nonce c;
    "provider=" +:+ Provider c;
    "subject_hash=" +:+ SubjectHash c;
    "token_hash=" +:+ TokenHash c;
    "version=" +:+ fmt_int (clVersion c) ]%string.
Definition canonical (c : Claims) : list string := sort_Strings (claim_parts c).

(** What [sign] writes into the MAC: each part and a zero byte. *)
Definition nul : byte := x00.
Definition mac_input (parts : list string) : bytes := parts ≫= (fun p => of_string p ++ [nul]).
Definition sign (key : bytes) (c : Claims) : string :=
  hex_encode (hmac_sha256 key (mac_input (canonical c))).

Definition hashString (value : string) : string := hex_encode (sha256 (of_string value)).

(** ** The issuer *)

Record Issuer := { issName : string; SigningKey : bytes; TTL : Z }.

Definition defaultTTL : Z := 30 * 24 * 3600 * 1000000000.
Definition NewIssuer (issuerName : string) (signingKey : bytes) : Issuer :=
  {| issName := issuerName; SigningKey := signingKey; TTL := defaultTTL |}.

(** [raw] is the environment variable, empty when unset; the empty key is
    Go's nil. *)
Definition SigningKeyFromEnv (raw : string) (production : bool) : bytes :=
  if negb (String.eqb raw EmptyString) then
    match hex_decode raw with
    | Some decoded => if (32 <=? length decoded)%nat then decoded else of_string raw
    | None => of_string raw
    end
  else if production then []
  else of_string "ares-dev-credential-signing-key-do-not-use".

Definition Unix (t : Z) : Z := (t / 1000000000)%Z.

(** encoding/json on envelopes, and [json.Valid]. *)
Class CredentialCodec := {
  Marshal_env : Envelope -> bytes;
  Unmarshal_env : bytes -> Outcome Envelope;
  json_Valid : bytes -> bool
}.

(** Integers are those of an int64. *)
Definition claims_ok (c : Claims) : bool :=
  json_text (clIssuer c) && json_text (AccountID c) && json_text (SubjectHash c) &&
  json_text (Provider c) && json_text (TokenHash c) && json_text (Nonce c) &&
  int64_ok (clVersion c) && int64_ok (IssuedAt c) && int64_ok (ExpiresAt c).
Definition envelope_ok (e : Envelope) : bool := claims_ok (envClaims e) && json_text (envSignature e).

Class CodecLaws (C : CredentialCodec) := {
  unmarshal_marshal : forall e, envelope_ok e = true -> Unmarshal_env (Marshal_env e) = Ok e;
  (** A struct is encoded as an object. *)
  marshal_object : forall e, head (Marshal_env e) = Some x7b
}.

Section Codec.
Context `{C : CredentialCodec}.

(** [rand] is what [rand.Read] fills the 16-byte buffer with, or its error. *)
Definition effectiveTTL (s : Issuer) : Z := if (TTL s <=? 0)%Z then defaultTTL else TTL s.

Definition issued_claims (s : Issuer) (accountID provider tokenHash nonce : string) (now : Z) : Claims :=
  {| clVersion := CredentialVersion; clIssuer := issName s; AccountID := accountID;
     SubjectHash := hashString (issName s +:+ "|" +:+ provider +:+ "|" +:+ accountID +:+ "|" +:+ nonce);
     Provider := provider; TokenHash := tokenHash; Nonce := nonce;
     IssuedAt := Unix now; ExpiresAt := Unix (now + effectiveTTL s) |}.

Definition IssueWithTokenHash (s : Issuer) (accountID provider tokenHash : string)
    (rand : Outcome bytes) (now : Z) : Outcome bytes :=
  if Nat.eqb (length (SigningKey s)) 0 then Err ErrMissingSigningKey
  else match rand with
  | Err e => Err e
  | Panic w => Panic w
  | Ok buf =>
      let claims := issued_claims s accountID provider tokenHash (hex_encode buf) now in
      Ok (Marshal_env {| envClaims := claims; envSignature := sign (SigningKey s) claims |})
  end.

Definition Issue (s : Issuer) (accountID provider : string) (rand : Outcome bytes) (now : Z) : Outcome bytes :=
  IssueWithTokenHash s accountID provider (hashString (accountID +:+ "|" +:+ provider)) rand now.

(** A credential may be presented as JSON or as base64 of JSON. *)
Definition decode_blob (blob : bytes) : bytes :=
  match base64_DecodeString blob with
  | Some maybe => if json_Valid maybe then maybe else blob
  | None => blob
  end.

Definition verify_envelope (s : Issuer) (env : Envelope) (now : Z) : Outcome Claims :=
  let c := envClaims env in
  if negb (hmac_equal (of_string (sign (SigningKey s) c)) (of_string (envSignature env))) then
    Err ErrCredentialSignature
  else if (ExpiresAt c <=? Unix now)%Z then Err ErrCredentialExpired
  else if negb (clVersion c =? CredentialVersion)%Z then
    Err (Errorf [T "unsupported credential version "; T (fmt_int (clVersion c))])
  else if negb (String.eqb (clIssuer c) (issName s)) then
    Err (Errorf [T "unexpected issuer "; Q (clIssuer c); T " (want "; Q (issName s); T ")"])
  else Ok c.

Definition Verify_blob (s : Issuer) (blob : bytes) (now : Z) : Outcome Claims :=
  if Nat.eqb (length (SigningKey s)) 0 then Err ErrMissingSigningKey
  else match Unmarshal_env (decode_blob blob) with
  | Err e => Err (Errorf [T "decode credential: "; W e])
  | Panic w => Panic w
  | Ok env => verify_envelope s env now
  end.

(** ** The HTTP handlers

    A request is what [json.NewDecoder(r.Body).Decode] makes of the body. *)

Record AuthService := { svcIssuer : Issuer; WSSecret : bytes }.

Definition NewAuthService (issuer : Issuer) (wsSecret : bytes) : AuthService :=
  {| svcIssuer := issuer; WSSecret := wsSecret |}.

Definition bad_json (e : GoError) : Response := http_Error 400 ("invalid json: " +:+ Error e).

Definition handleIssue (s : AuthService) (req : Outcome (string * string))
    (rand : Outcome bytes) (now : Z) : Outcome Response :=
  match req with
  | Err e => Ok (bad_json e)
  | Panic w => Panic w
  | Ok (accountID, provider) =>
      if String.eqb accountID EmptyString then Ok (http_Error 400 "account_id is required")
      else
        let provider := if String.eqb provider EmptyString then "anonymous"%string else provider in
        match Issue (svcIssuer s) accountID provider rand now with
        | Err e => Ok (http_Error 500 (Error e))
        | Panic w => Panic w
        | Ok blob => Ok (writeJSON 200 [("credential"%string, AString (to_string blob))])
        end
  end.

(** The claims as encoding/json writes them; an empty account is omitted. *)
Definition claims_json (c : Claims) : Any :=
  AStruct "Claims" (
    [("version"%string, AInt (clVersion c)); ("issuer"%string, AString (clIssuer c))] ++
    (if String.eqb (AccountID c) EmptyString then [] else [("account_id"%string, AString (AccountID c))]) ++
    [("subject_hash"%string, AString (SubjectHash c)); ("provider"%string, AString (Provider c));
     ("token_hash"%string, AString (TokenHash c)); ("nonce"%string, AString (Nonce c));
     ("issued_at"%string, AInt64 (IssuedAt c)); ("expires_at"%string, AInt64 (ExpiresAt c))]).

Definition handleVerify (s : AuthService) (req : Outcome string) (now : Z) : Outcome Response :=
  match req with
  | Err e => Ok (bad_json e)
  | Panic w => Panic w
  | Ok credential =>
      match Verify_blob (svcIssuer s) (of_string credential) now with
      | Err e => Ok (writeJSON 200 ([("valid"%string, ABool false)] ++
                   (if String.eqb (Error e) EmptyString then [] else [("error"%string, AString (Error e))])))
      | Panic w => Panic w
      | Ok c => Ok (writeJSON 200 [("valid", ABool true); ("claims", claims_json c)]%string)
      end
  end.

Definition wsTokenFor (secret : bytes) (pseudonym : string) : string :=
  hex_encode (hmac_sha256 secret (of_string pseudonym)).
Definition DeriveWSToken (wsSecret : bytes) (pseudonym : string) : string := wsTokenFor wsSecret pseudonym.

Definition handleWSToken (s : AuthService) (req : Outcome (string * string)) (now : Z) : Outcome Response :=
  match req with
  | Err e => Ok (bad_json e)
  | Panic w => Panic w
  | Ok (pseudonym, credential) =>
      if String.eqb pseudonym EmptyString then Ok (http_Error 400 "pseudonym is required")
      else match Verify_blob (svcIssuer s) (of_string credential) now with
      | Err e => Ok (http_Error 401 ("invalid credential: " +:+ Error e))
      | Panic w => Panic w
      | Ok _ => Ok (writeJSON 200 [("pseudonym", AString pseudonym);
                                   ("token", AString (wsTokenFor (WSSecret s) pseudonym))]%string)
      end
  end.

Definition auth_handleHealth : Response :=
  writeJSON 200 [("status", AString "ok"); ("service", AString "auth-service")]%string.
End Codec.

(** ** What a signature binds *)

(** The sort leaves the parts where they are: their names are in order. *)
Lemma canonical_parts c : canonical c = claim_parts c.
Proof. reflexivity. Qed.

Definition nul_free (s : string) : bool := forallb (fun b => negb (bool_decide (b = nul))) (of_string s).

Lemma nul_free_spec s : nul_free s = true <-> nul ∉ of_string s.
Proof.
  unfold nul_free. rewrite forallb_forall. setoid_rewrite negb_true_iff.
  setoid_rewrite bool_decide_eq_false. setoid_rewrite <- list_elem_of_In. naive_solver.
Qed.

Lemma of_string_append s t : of_string (s +:+ t) = of_string s ++ of_string t.
Proof. induction s as [|a s IH]; [done|]. exact (f_equal (cons (byte_of_ascii a)) IH). Qed.

Lemma nul_free_append s t : nul_free (s +:+ t) = nul_free s && nul_free t.
Proof. unfold nul_free. by rewrite of_string_append, forallb_app. Qed.

Lemma nul_free_digits x s : nul_free s = true -> nul_free (pretty_N_go x s) = true.
Proof.
  revert s. induction (N.lt_wf_0 x) as [x _ IH]; intros s Hs.
  assert (x = 0 \/ 0 < x)%N as [->|Hx] by lia; [done|].
  rewrite pretty_N_go_step by done. apply IH; [by apply N.div_lt|].
  change (String ?c s) with ((String c EmptyString) +:+ s). rewrite nul_free_append, Hs.
  by destruct (x `mod` 10)%N as [|[[[[]|[]|]|[[]|[]|]|]|[[[]|[]|]|[[]|[]|]|]|]].
Qed.

Lemma nul_free_fmt_int n : nul_free (fmt_int n) = true.
Proof.
  assert (HN : forall x, nul_free (pretty (A := N) x) = true).
  { intros x. unfold pretty, pretty_N. case_decide; [done|]. by apply nul_free_digits. }
  unfold fmt_int. destruct n as [|p|p]; [done|apply HN|].
  change (pretty (Z.neg p)) with ("-" +:+ pretty (N.pos p)). by rewrite nul_free_append, HN.
Qed.

Lemma nul_split a b x y :
  nul ∉ a -> nul ∉ b -> a ++ nul :: x = b ++ nul :: y -> a = b /\ x = y.
Proof.
  revert b. induction a as [|u a IH]; intros [|v b] Ha Hb; simpl; intros E.
  - by injection E.
  - injection E as <- _. set_solver.
  - injection E as -> _. set_solver.
  - injection E as <- E. apply IH in E as [-> ->]; set_solver.
Qed.

Lemma mac_input_cons p l : mac_input (p :: l) = of_string p ++ nul :: mac_input l.
Proof. exact (eq_sym (app_assoc (of_string p) [nul] (mac_input l))). Qed.

(** Parts without a zero byte are recovered from what is written. *)
Lemma mac_input_inj l1 l2 :
  Forall (fun p => nul_free p = true) l1 -> Forall (fun p => nul_free p = true) l2 ->
  mac_input l1 = mac_input l2 -> l1 = l2.
Proof.
  intros H1. revert l2. induction H1 as [|p l1 Hp H1 IH]; intros l2 H2 E.
  - destruct H2 as [|q l2 Hq H2]; [done|]. rewrite mac_input_cons in E. by destruct (of_string q).
  - destruct H2 as [|q l2 Hq H2]; rewrite !mac_input_cons in E; [by destruct (of_string p)|].
    apply nul_split in E as [E1%of_string_inj E2]; try by apply nul_free_spec.
    f_equal; [done|by apply IH].
Qed.

Definition claims_nul_free (c : Claims) : bool :=
  nul_free (clIssuer c) && nul_free (AccountID c) && nul_free (SubjectHash c) &&
  nul_free (Provider c) && nul_free (TokenHash c) && nul_free (Nonce c).

Lemma claim_parts_nul_free c : claims_nul_free c = true -> Forall (fun p => nul_free p = true) (claim_parts c).
Proof.
  intros H. unfold claims_nul_free in H. rewrite !andb_true_iff in H. destruct H as [[[[[? ?] ?] ?] ?] ?].
  unfold claim_parts. repeat constructor; by rewrite nul_free_append, ?nul_free_fmt_int; simpl.
Qed.

Lemma claim_parts_inj c1 c2 : claim_parts c1 = claim_parts c2 -> c1 = c2.
Proof.
  unfold claim_parts. destruct c1, c2. cbn -[fmt_int].
  intros [= E1 E2 E3 E4 E5 E6 E7 E8 E9].
  cbv [String.append] in *. apply (inj pretty) in E2, E3, E9. congruence.
Qed.

(** C24. A signature binds every claim: two claim sets without zero bytes
    that carry the same signature under a key are equal, or they exhibit two
    different messages with the same HMAC. *)
Theorem credential_binding key c1 c2 :
  claims_nul_free c1 = true -> claims_nul_free c2 = true ->
  sign key c1 = sign key c2 ->
  c1 = c2 \/
  (mac_input (canonical c1) <> mac_input (canonical c2) /\
   hmac_sha256 key (mac_input (canonical c1)) = hmac_sha256 key (mac_input (canonical c2))).
Proof.
  intros H1 H2 E%hex_encode_inj. rewrite !canonical_parts in *.
  destruct (decide (mac_input (claim_parts c1) = mac_input (claim_parts c2))) as [Em|]; [left|by right].
  apply claim_parts_inj, mac_input_inj; [by apply claim_parts_nul_free..|done].
Qed.

(** Claims smuggled through an account name: the name, the other parts of
    [f] up to its token hash, separated by zero bytes. *)
Definition nul_text : string := String (ascii_of_byte nul) EmptyString.
Definition other_parts (c : Claims) : list string := take 7 (tail (claim_parts c)).
Definition smuggle (f : Claims) : string := join nul_text (AccountID f :: other_parts f).
(** [f], with the parts of [c] that follow the account name as the end of its
    token hash. *)
Definition forge (f c : Claims) : Claims :=
  {| clVersion := clVersion c; clIssuer := clIssuer f; AccountID := AccountID f;
     SubjectHash := SubjectHash f; Provider := Provider f;
     TokenHash := join nul_text (TokenHash f :: other_parts c); Nonce := Nonce f;
     IssuedAt := IssuedAt f; ExpiresAt := ExpiresAt f |}.

Lemma smuggled_input f c :
  AccountID c = smuggle f -> mac_input (canonical c) = mac_input (canonical (forge f c)).
Proof.
  intros Ha. rewrite (canonical_parts c), (canonical_parts (forge f c)). unfold claim_parts. rewrite Ha.
  unfold smuggle, forge, other_parts, claim_parts. cbn [tail take join AccountID ExpiresAt IssuedAt clIssuer Nonce Provider SubjectHash TokenHash clVersion].
  unfold mac_input. cbn [mbind list_bind]. rewrite !of_string_append, <- !app_assoc. reflexivity.
Qed.

Lemma sign_smuggled key f c : AccountID c = smuggle f -> sign key c = sign key (forge f c).
Proof. intros Ha. unfold sign. by rewrite (smuggled_input f c Ha). Qed.

(** ** The issuer *)

Section Issuing.
Context `{C : CredentialCodec} `{L : !CodecLaws C}.

(** A JSON object is not base64. *)
Lemma decode_marshalled e : decode_blob (Marshal_env e) = Marshal_env e.
Proof.
  unfold decode_blob. pose proof (marshal_object e) as Hh.
  destruct (Marshal_env e) as [|b s]; [done|]. injection Hh as ->.
  unfold base64_DecodeString. rewrite filter_cons_True by done. simpl.
  by destruct (filter _ s) as [|? [|? [|? ?]]].
Qed.

Lemma verify_marshalled s e now :
  SigningKey s <> [] -> envelope_ok e = true ->
  Verify_blob s (Marshal_env e) now = verify_envelope s e now.
Proof.
  intros Hk He. unfold Verify_blob. rewrite decode_marshalled, unmarshal_marshal by done.
  by destruct (SigningKey s).
Qed.

Lemma verify_envelope_signed s c now :
  clVersion c = CredentialVersion -> clIssuer c = issName s ->
  verify_envelope s {| envClaims := c; envSignature := sign (SigningKey s) c |} now =
  if (ExpiresAt c <=? Unix now)%Z then Err ErrCredentialExpired else Ok c.
Proof.
  intros Hv Hi. unfold verify_envelope, hmac_equal. cbn [envClaims envSignature].
  rewrite bool_decide_eq_true_2 by done. cbn [negb]. rewrite Hv, Hi, String.eqb_refl. simpl.
  by destruct (_ <=? _)%Z.
Qed.

Lemma signed_inj key c c' :
  Ok {| envClaims := c; envSignature := sign key c |} = Ok {| envClaims := c'; envSignature := sign key c' |} <-> c = c'.
Proof.
  split; [|by intros ->]. intros E.
  exact (f_equal (fun o => match o with Ok e => envClaims e | _ => c end) E).
Qed.

(** [Verify] accepts a credential exactly when, JSON or base64 of JSON,
    it decodes to claims that carry their own signature under the issuer's
    key, have not expired, and name this version and this issuer; it returns
    those claims. *)
Lemma credential_Verify_iff s blob now c :
  Verify_blob s blob now = Ok c <->
  SigningKey s <> [] /\
  Unmarshal_env (decode_blob blob) = Ok {| envClaims := c; envSignature := sign (SigningKey s) c |} /\
  (Unix now < ExpiresAt c)%Z /\ clVersion c = CredentialVersion /\ clIssuer c = issName s.
Proof.
  unfold Verify_blob. destruct (SigningKey s) as [|k ks] eqn:Ek; [naive_solver|]. cbn [length Nat.eqb].
  destruct (Unmarshal_env _) as [env|e|w]; [|naive_solver..]. unfold verify_envelope, hmac_equal.
  rewrite Ek. destruct env as [c' sg]. cbn [envClaims envSignature].
  destruct (decide (of_string (sign (k :: ks) c') = of_string sg)) as [E%of_string_inj|Hn].
  - subst sg. rewrite signed_inj, bool_decide_eq_true_2 by done. cbn [negb].
    destruct (Z.leb_spec (ExpiresAt c') (Unix now)); [split; [done|]; intros (_ & -> & ? & _); lia|].
    destruct (Z.eqb_spec (clVersion c') CredentialVersion);
      [|split; [done|]; by intros (_ & -> & _ & ? & _)].
    destruct (String.eqb_spec (clIssuer c') (issName s)); cbn [negb].
    + split; [|by intros (_ & -> & _)]. by intros [= ->].
    + split; [done|]. by intros (_ & -> & _ & _ & ?).
  - rewrite bool_decide_eq_false_2 by done. split; [done|]. intros (_ & E & _). destruct Hn.
    assert (c' = c) as -> by exact (f_equal (fun o => match o with Ok e => envClaims e | _ => c end) E).
    f_equal. symmetry. exact (f_equal (fun o => match o with Ok e => envSignature e | _ => sg end) E).
Qed.

Definition credential_texts_ok (s : Issuer) (accountID provider : string) (now : Z) : bool :=
  json_text (issName s) && json_text accountID && json_text provider &&
  int64_ok (Unix now) && int64_ok (Unix (now + effectiveTTL s)).

Lemma issued_envelope_ok s accountID provider nonce key now :
  credential_texts_ok s accountID provider now = true ->
  let c := issued_claims s accountID provider (hashString (accountID +:+ "|" +:+ provider)) (hex_encode nonce) now in
  envelope_ok {| envClaims := c; envSignature := sign key c |} = true.
Proof.
  unfold credential_texts_ok. rewrite !andb_true_iff. intros [[[[? ?] ?] ?] ?].
  unfold envelope_ok, claims_ok, issued_claims, hashString, sign.
  cbn [envClaims envSignature clIssuer AccountID SubjectHash Provider TokenHash Nonce clVersion IssuedAt ExpiresAt].
  rewrite !hex_json_text, !andb_true_iff. tauto.
Qed.

(** A credential that [Issue] returns verifies with the same issuer name
    and key until the second its time to live ends and is expired from then
    on, and its claims are those it was issued for. *)
Lemma Issue_Verify s accountID provider nonce now :
  SigningKey s <> [] -> credential_texts_ok s accountID provider now = true ->
  exists blob c,
    Issue s accountID provider (Ok nonce) now = Ok blob /\
    AccountID c = accountID /\ Provider c = provider /\ IssuedAt c = Unix now /\
    ExpiresAt c = Unix (now + effectiveTTL s) /\
    forall later, Verify_blob s blob later =
      if (Unix (now + effectiveTTL s) <=? Unix later)%Z then Err ErrCredentialExpired else Ok c.
Proof.
  intros Hk Hok. set (c := issued_claims s accountID provider
    (hashString (accountID +:+ "|" +:+ provider)) (hex_encode nonce) now).
  exists (Marshal_env {| envClaims := c; envSignature := sign (SigningKey s) c |}), c.
  split_and!; [|done..|].
  - unfold Issue, IssueWithTokenHash. by destruct (SigningKey s).
  - intros later. rewrite verify_marshalled by (done || by apply issued_envelope_ok).
    by rewrite verify_envelope_signed.
Qed.

(** Account names are not checked for zero bytes, and the signed message
    separates its parts by them: whoever obtains a credential for an account
    name of their choice can rewrite it into one that verifies for any other
    account and any expiry. *)
Lemma credential_forgery s f provider nonce now :
  SigningKey s <> [] -> clIssuer f = issName s ->
  credential_texts_ok s (smuggle f) provider now = true ->
  let c := issued_claims s (smuggle f) provider (hashString (smuggle f +:+ "|" +:+ provider)) (hex_encode nonce) now in
  claims_ok (forge f c) = true ->
  exists signature,
    Issue s (smuggle f) provider (Ok nonce) now = Ok (Marshal_env {| envClaims := c; envSignature := signature |}) /\
    AccountID (forge f c) = AccountID f /\ ExpiresAt (forge f c) = ExpiresAt f /\
    forall later, (Unix later < ExpiresAt f)%Z ->
      Verify_blob s (Marshal_env {| envClaims := forge f c; envSignature := signature |}) later = Ok (forge f c).
Proof.
  intros Hk Hi Hok c Hf. exists (sign (SigningKey s) c). split_and!; [|done..|].
  - unfold Issue, IssueWithTokenHash. by destruct (SigningKey s).
  - intros later Hl. rewrite (sign_smuggled _ f c) by done. rewrite verify_marshalled; [|done|].
    + rewrite verify_envelope_signed by done. destruct (Z.leb_spec (ExpiresAt (forge f c)) (Unix later)) as [Hle|]; [|done].
      simpl in Hle. lia.
    + unfold envelope_ok. cbn [envClaims envSignature]. rewrite Hf. apply hex_json_text.
Qed.

(** The token handler answers with a token exactly when the pseudonym is
    not empty and the credential verifies, and that token is the only one the
    transport accepts for the pseudonym under the same secret. *)
Lemma handleWSToken_iff svc pseudonym credential now bypass :
  WSSecret svc <> [] ->
  (exists token,
     handleWSToken svc (Ok (pseudonym, credential)) now =
       Ok (writeJSON 200 [("pseudonym"%string, AString pseudonym); ("token"%string, AString token)]) /\
     forall t, ValidateToken {| Secret := WSSecret svc; AllowDevBypass := bypass |} pseudonym t = true <-> t = token) <->
  pseudonym <> EmptyString /\
  exists c, Verify_blob (svcIssuer svc) (of_string credential) now = Ok c.
Proof.
  intros Hs. unfold handleWSToken. destruct (String.eqb_spec pseudonym EmptyString) as [->|Hp].
  { split; [by intros (t & [=] & _)|by intros [? _]]. }
  destruct (Verify_blob _ _ _) as [c|e|w].
  - split; [eauto|]. intros _. exists (wsTokenFor (WSSecret svc) pseudonym). split; [done|].
    intros t. rewrite ValidateToken_run. cbn [Secret]. by destruct (WSSecret svc).
  - split; [by intros (t & [=] & _)|by intros (_ & c & [=])].
  - split; [by intros (t & [=] & _)|by intros (_ & c & [=])].
Qed.
End Issuing.

(** ** A toy codec and concrete credentials *)

Module Witnesses.

(** A byte string as its bytes, each after a one, up to a zero. *)
Definition put_bytes (l : bytes) : bytes := (l ≫= (fun b => [x01; b])) ++ [x00].
Fixpoint get_bytes (s : bytes) : option (bytes * bytes) :=
  match s with
  | x01 :: b :: s' => match get_bytes s' with Some (l, r) => Some (b :: l, r) | None => None end
  | x00 :: r => Some ([], r)
  | _ => None
  end.
Lemma get_put l r : get_bytes (put_bytes l ++ r) = Some (l, r).
Proof. induction l as [|b l IH]; [done|]. cbn. unfold put_bytes in IH. by rewrite IH. Qed.

Fixpoint pos_bytes (p : positive) : bytes :=
  match p with xH => [] | xO p => x00 :: pos_bytes p | xI p => x01 :: pos_bytes p end.
Fixpoint bytes_pos (l : bytes) : positive :=
  match l with [] => xH | x00 :: l => xO (bytes_pos l) | _ :: l => xI (bytes_pos l) end.
Lemma bytes_pos_bytes p : bytes_pos (pos_bytes p) = p.
Proof. induction p; simpl; congruence. Qed.

Definition put_fields (l : list bytes) : bytes := l ≫= put_bytes.
Fixpoint get_fields (n : nat) (s : bytes) : option (list bytes) :=
  match n with
  | O => Some []
  | S n' => match get_bytes s with
            | Some (f, r) => match get_fields n' r with Some fs => Some (f :: fs) | None => None end
            | None => None
            end
  end.
Lemma get_put_fields l : get_fields (length l) (put_fields l) = Some l.
Proof.
  induction l as [|f l IH]; [done|]. change (put_fields (f :: l)) with (put_bytes f ++ put_fields l).
  cbn [length get_fields]. by rewrite get_put, IH.
Qed.

Definition put_Z (n : Z) : bytes := pos_bytes (encode n).
Definition get_Z (b : bytes) : Z := default 0%Z (decode (bytes_pos b)).
Lemma get_put_Z n : get_Z (put_Z n) = n.
Proof. unfold get_Z, put_Z. by rewrite bytes_pos_bytes, decode_encode. Qed.

Definition env_fields (e : Envelope) : list bytes :=
  let c := envClaims e in
  [put_Z (clVersion c); of_string (clIssuer c); of_string (AccountID c); of_string (SubjectHash c);
   of_string (Provider c); of_string (TokenHash c); of_string (Nonce c);
   put_Z (IssuedAt c); put_Z (ExpiresAt c); of_string (envSignature e)].
Definition toy_unmarshal (s : bytes) : Outcome Envelope :=
  match get_fields 10 (tail s) with
  | Some [v; i; a; sh; p; th; n; ia; ea; sg] =>
      Ok {| envClaims := {| clVersion := get_Z v; clIssuer := to_string i; AccountID := to_string a;
              SubjectHash := to_string sh; Provider := to_string p; TokenHash := to_string th;
              Nonce := to_string n; IssuedAt := get_Z ia; ExpiresAt := get_Z ea |};
            envSignature := to_string sg |}
  | _ => Err (ErrorsNew "json")
  end.
#[export] Instance toy_codec : CredentialCodec := {|
  Marshal_env e := x7b :: put_fields (env_fields e);
  Unmarshal_env := toy_unmarshal;
  json_Valid _ := true
|}.
#[export] Instance toy_codec_laws : CodecLaws toy_codec.
Proof.
  split; [|done]. intros e _. cbn [Unmarshal_env Marshal_env toy_codec]. 
  pose proof (get_put_fields (env_fields e)) as H. change (length (env_fields e)) with 10 in H.
  unfold toy_unmarshal. change (tail (?b :: ?l)) with l. rewrite H. unfold env_fields.
  rewrite !get_put_Z, !to_of_string. by destruct e as [[]].
Qed.

Definition iss : Issuer := NewIssuer "ares-test-v1" (of_string "test-signing-key-32-bytes-long!!").
Definition svc : AuthService := NewAuthService iss (of_string "ws-secret").
Definition second : Z := 1000000000.
Definition t0 : Z := 1700000000 * second.
Definition nonce : bytes := be_bytes 16 7.

Definition cred : bytes := match Issue iss "acc-1" "invite" (Ok nonce) t0 with Ok b => b | _ => [] end.

Example Issue_Verify_witness :
  exists blob c, Issue iss "acc-1" "invite" (Ok nonce) t0 = Ok blob /\ AccountID c = "acc-1"%string /\
    Verify_blob iss blob t0 = Ok c /\ Verify_blob iss blob (t0 + defaultTTL) = Err ErrCredentialExpired.
Proof.
  destruct (Issue_Verify iss "acc-1" "invite" nonce t0) as (b & c & H & Ha & _ & _ & _ & Hv);
    [discriminate|reflexivity|].
  exists b, c. split; [exact H|]. split; [exact Ha|]. rewrite !Hv. split; reflexivity.
Defined.

(** Two credentials that agree on the signature are the same. *)
Definition claims1 : Claims := issued_claims iss "acc-1" "invite" "h" "n" t0.
Example credential_binding_witness :
  claims_nul_free claims1 = true /\
  (claims1 = claims1 \/ (mac_input (canonical claims1) <> mac_input (canonical claims1) /\
   hmac_sha256 [x01] (mac_input (canonical claims1)) = hmac_sha256 [x01] (mac_input (canonical claims1)))).
Proof. split; [reflexivity|apply (credential_binding [x01]); reflexivity]. Defined.

Example handleWSToken_iff_witness :
  exists token, handleWSToken svc (Ok ("alice"%string, to_string cred)) t0 =
      Ok (writeJSON 200 [("pseudonym"%string, AString "alice"); ("token"%string, AString token)]) /\
    forall t, ValidateToken {| Secret := WSSecret svc; AllowDevBypass := false |} "alice" t = true <-> t = token.
Proof.
  apply handleWSToken_iff; [discriminate|]. split; [discriminate|]. eexists. vm_compute. reflexivity.
Defined.

(** The claims an attacker wants signed: the account [victim], valid for
    centuries. *)
Definition wanted : Claims :=
  {| clVersion := 1; clIssuer := "ares-test-v1"; AccountID := "victim"; SubjectHash := "s"; Provider := "invite";
     TokenHash := "t"; Nonce := "n"; IssuedAt := 1; ExpiresAt := 9999999999 |}.
Example credential_forgery_witness :
  exists c signature,
    Issue iss (smuggle wanted) "anonymous" (Ok nonce) t0 = Ok (Marshal_env {| envClaims := c; envSignature := signature |}) /\
    exists g, AccountID g = "victim"%string /\
      Verify_blob iss (Marshal_env {| envClaims := g; envSignature := signature |}) (t0 + 1000 * defaultTTL) = Ok g.
Proof.
  destruct (credential_forgery iss wanted "anonymous" nonce t0) as (sg & H & Ha & He & Hv);
    [discriminate|reflexivity|reflexivity|reflexivity|].
  eexists _, sg. split; [exact H|]. eexists. split; [exact Ha|]. apply Hv. reflexivity.
Defined.
End Witnesses.
