(* ===== verification/CGo.v ===== *)
(** * The C boundary of the homomorphic bridge (pkg/ares/crypto/cgo)

    The bridge is Go code over C handles: every call creates, uses and frees
    objects of the OpenFHE wrapper.  This file models the boundary: a heap of
    live objects by handle, the C calls over an arbitrary library, [defer], and
    a small separation logic in which the files of the bridge show that each
    call releases exactly what it acquires, on every path.

    What is assumed of a C call: it uses only the objects passed to it; a
    constructor returns nil or one new object; a status of zero sets every out
    parameter, any other none, except where the Go code allows for more.
    Everything else, results, failures, the library's own state, is arbitrary.
    Using or freeing a handle that is not live is undefined behaviour, here a
    panic. *)
From Stdlib Require Import ZArith NArith Lia String Ascii.
From stdpp Require Import base gmap list strings.
From S2P Require Import Prelude Bytes.
From S2P Require Import GoFloat.

(** ** Objects and calls *)

(** [C.int(n)]. *)
Definition int32 (n : Z) : Z := ((n + 2 ^ 31) mod 2 ^ 32 - 2 ^ 31)%Z.

(** The handle types of openfhe_wrapper.h, and memory from malloc. *)
Inductive Kind :=
| KContext | KPublicKey | KSecretKey | KEvalMultKey | KRotKey | KCiphertext | KAVectors | KBuffer.
#[export] Instance Kind_eq_dec : EqDecision Kind.
Proof. solve_decision. Defined.

Abbreviation handle := positive.
Abbreviation owned := (list (handle * Kind)).

(** The arguments of the CKKS fusion functions; each takes some of them.  An
    absent key is a nil pointer. *)
Record FuseArgs := {
  a_ringDim : Z; a_scalingFactor : float64; a_depth : Z;
  a_initiator : bytes; a_candidates : bytes; a_candidateLens : list Z;
  a_latQ : list Z; a_lonQ : list Z; a_brownies : list Z;
  a_n : Z; a_profileDim : Z; a_initiatorLatQ : Z; a_initiatorLonQ : Z;
  a_alpha : float64; a_beta : float64; a_gamma : float64;
  a_comparator : string; a_degree : Z; a_gain : float64; a_scale : float64; a_bound : float64; a_schedule : string;
  a_evalMult : option bytes; a_evalSum : option bytes;
  a_distances : bytes; a_distanceLens : list Z;
  a_payload : bytes; a_payloadLens : list Z;
  a_packages : list Z; a_packageBytes : Z; a_payloadSlots : Z; a_minimal : bool
}.
Record BlindArgs := {
  b_ringDim : Z; b_depth : Z; b_modulus : Z; b_batchSize : Z;
  b_evalMult : bytes; b_evalSum : bytes; b_initiator : bytes;
  b_profiles : list bytes; b_distances : list bytes; b_payloads : list bytes; b_brownies : list Z;
  b_profileDim : Z; b_profileWeight : Z; b_distanceWeight : Z; b_brownieWeight : Z;
  b_packageBytes : Z; b_step : list Z
}.

(** The C functions the bridge calls, with their scalar and byte arguments;
    their handle arguments are passed beside. *)
Inductive COp :=
| C_CreateCKKSContext (ringDim : Z) (scalingFactor : float64) (depth batchSize : Z)
| C_CreateBFVContext (ringDim depth plaintextModulus batchSize : Z)
| C_SetMinimalRotationKeys (profileDim payloadSlots : Z) | C_SetEvalSumOnlyRotationKeys (profileDim : Z)
| C_KeyGenFirst | C_KeyGenNext
| C_EvalMultKeyGenLead | C_EvalSumKeyGenLead | C_EvalMultKeySwitchShare | C_EvalSumKeyShare
| C_StreamedEvalSumKeyGenLead | C_StreamedEvalSumKeyShare
| C_GeneratePerIndexEvalSumKey (index : Z) | C_GeneratePerIndexEvalSumShare (index : Z)
| C_CombineEvalMultSwitchShares (n : nat) | C_EvalMultKeyFinalShare | C_CombineEvalMultFinalShares (n : nat)
| C_EvalSumCombineStart | C_EvalSumCombineFold | C_MergeEvalSumKeyMaps | C_CombineEvalSumKeys (n : nat)
| C_InsertEvalMultKey | C_InsertEvalSumKey | C_InsertEvalSumKeyAppend | C_ClearEvalSumKeysForContext
| C_Serialize (k : Kind) | C_Deserialize (k : Kind) (raw : bytes)
| C_DeserializeSecretKeyShare (raw : bytes) (lead : bool)
| C_SerializeRotKeyAVectors | C_SerializeRotKeyBVectors
| C_ReconstructRotKeyFromAB (a b : bytes) | C_DeserializeAVectors (a : bytes)
| C_ReconstructRotKeyFromAVectors (b : bytes)
| C_Encrypt (values : list float64) | C_EncryptPackedInt (values : list Z)
| C_EncryptRepeatedScalarCKKS (value : float64) | C_EncryptRepeatedScalarBFV (value : Z)
| C_SquaredDistanceCKKS (first second : bytes) (x y : float64)
| C_SquaredDistanceBFV (first second : bytes) (x y : Z)
| C_EvalAdd | C_EvalSub | C_EvalMult | C_EvalMultConst (scalar : float64) | C_EvalSum (nSlots : Z)
| C_EvalPolynomial (coeffs : list float64) | C_EvalArgmax (n : nat) (sharp : list float64)
| C_MultiDecMain | C_MultiDecFusion (n : nat) (capacity : Z) | C_MultiDecFusionPackedInt (n : nat) (capacity : Z)
| C_DecryptSingle (capacity : Z)
| C_SingleKeyEvalMultKeyGen | C_SingleKeyEvalMultKeyGenWithOutput
| C_SchemeSwitchingArgmin (numValues : Z) (scaleSign : float64)
| C_GenEvalMultKeyShare | C_GenRotKeyShare
| C_GetMinimalRotationIndices
| C_malloc (size : Z)
| C_ARESFullFusePayloadCKKS (args : FuseArgs)
| C_ARESChunkedFusePayloadCKKS (args : FuseArgs)
| C_ARESChunkedFuseEncryptedPayloadCKKS (args : FuseArgs)
| C_ARESChunkedFuseEncryptedInputsCKKS (args : FuseArgs)
| C_ARESBlindFusePayloadBFV (args : BlindArgs)
| C_ARESOpenFHESmoke
| C_StreamedRotShareBytes | C_StreamedTwoPartyRotKeygenBytes | C_MeasureBOnlyRotShare
| C_OpenFHEContextCount | C_ReleaseAllOpenFHEContexts.

(** The library: [V] is the content of an object, [LS] the library's own
    state (registered keys, randomness). *)
Record CLib (V LS : Type) := {
  (** A handle returned or set: nil, or an object. *)
  lib_new : COp -> list V -> LS -> option V * LS;
  lib_new2 : COp -> list V -> LS -> option (V * V) * LS;
  (** An array of handles set: the i-th object of each index. *)
  lib_array : COp -> list V -> LS -> option (nat -> V) * LS;
  (** A status. *)
  lib_status : COp -> list V -> LS -> bool * LS;
  (** A status, and the new content of the first object. *)
  lib_update : COp -> list V -> LS -> (bool * V) * LS;
  (** A status and a malloc'ed buffer that may be nil, whatever the status. *)
  lib_buffer : COp -> list V -> LS -> (bool * option V) * LS;
  (** Values written to a caller's array, at most its capacity of them. *)
  lib_floats : COp -> list V -> LS -> option (list float64) * LS;
  lib_ints : COp -> list V -> LS -> option (list Z) * LS;
  (** A fusion: a status, the text of its error, a buffer, the lengths of the
      chunks in it and their number. *)
  lib_fuse : COp -> list V -> LS -> (bool * string * option V * list Z * Z) * LS;
  (** The bytes of a buffer; a NUL-terminated string. *)
  buffer_bytes : V -> bytes;
  cstring : string -> V
}.
Arguments lib_new {V LS} _ _ _ _.
Arguments lib_new2 {V LS} _ _ _ _.
Arguments lib_array {V LS} _ _ _ _.
Arguments lib_status {V LS} _ _ _ _.
Arguments lib_update {V LS} _ _ _ _.
Arguments lib_buffer {V LS} _ _ _ _.
Arguments lib_floats {V LS} _ _ _ _.
Arguments lib_ints {V LS} _ _ _ _.
Arguments lib_fuse {V LS} _ _ _ _.
Arguments buffer_bytes {V LS} _ _.
Arguments cstring {V LS} _ _.

Record CState (V LS : Type) := { heap : gmap handle (Kind * V); lib_state : LS }.
Arguments heap {V LS} _.
Arguments lib_state {V LS} _.

Section Calls.
Context {V LS : Type} (L : CLib V LS).
Notation CS := (CState V LS).
Implicit Types (s : CS).

Definition lookup_kind s (hk : handle * Kind) : option V :=
  match heap s !! hk.1 with
  | Some (k, v) => if decide (k = hk.2) then Some v else None
  | None => None
  end.

Definition fetch (hs : owned) : M CS (list V) := fun s =>
  match mapM (lookup_kind s) hs with
  | Some vs => (Ok vs, s)
  | None => (Panic "invalid handle", s)
  end.

Definition set_lib (l : LS) s : CS := {| heap := heap s; lib_state := l |}.
Definition set_heap (m : gmap handle (Kind * V)) s : CS := {| heap := m; lib_state := lib_state s |}.

Definition alloc (k : Kind) (v : V) : M CS handle := fun s =>
  let h := fresh (dom (heap s)) in (Ok h, set_heap (<[h := (k, v)]> (heap s)) s).

(** Run a library function on the contents of the handles. *)
Definition c_call {A} (f : COp -> list V -> LS -> A * LS) (op : COp) (hs : owned) : M CS A :=
  let! vs := fetch hs in
  fun s => let '(a, l) := f op vs (lib_state s) in (Ok a, set_lib l s).

Definition c_new (k : Kind) (op : COp) (hs : owned) : M CS (option handle) :=
  let! r := c_call (lib_new L) op hs in
  match r with
  | None => ret None
  | Some v => let! h := alloc k v in ret (Some h)
  end.

Definition c_new2 (k1 k2 : Kind) (op : COp) (hs : owned) : M CS (option (handle * handle)) :=
  let! r := c_call (lib_new2 L) op hs in
  match r with
  | None => ret None
  | Some (v1, v2) => let! h1 := alloc k1 v1 in let! h2 := alloc k2 v2 in ret (Some (h1, h2))
  end.

Fixpoint alloc_array (k : Kind) (vs : list V) : M CS (list handle) :=
  match vs with
  | [] => ret []
  | v :: vs' => let! h := alloc k v in let! hs := alloc_array k vs' in ret (h :: hs)
  end.
Definition c_array (n : nat) (k : Kind) (op : COp) (hs : owned) : M CS (option (list handle)) :=
  let! r := c_call (lib_array L) op hs in
  match r with
  | None => ret None
  | Some f => let! out := alloc_array k (f <$> seq 0 n) in ret (Some out)
  end.

Definition c_status (op : COp) (hs : owned) : M CS bool := c_call (lib_status L) op hs.

Definition c_update (op : COp) (h : handle) (k : Kind) (hs : owned) : M CS bool :=
  let! r := c_call (lib_update L) op ((h, k) :: hs) in
  fun s => (Ok r.1, set_heap (<[h := (k, r.2)]> (heap s)) s).

Definition c_buffer (op : COp) (hs : owned) : M CS (bool * option handle) :=
  let! r := c_call (lib_buffer L) op hs in
  match r with
  | (ok, None) => ret (ok, None)
  | (ok, Some v) => let! h := alloc KBuffer v in ret (ok, Some h)
  end.

(** A CKKS fusion sets its buffer on success only; the BFV one at any time. *)
Definition c_fuse (op : COp) (hs : owned) (what : string) : M CS (option handle * list Z * Z) :=
  let! r := c_call (lib_fuse L) op hs in
  let '(ok, text, out, lens, n) := r in
  if ok : bool then
    match out with
    | None => ret (None, lens, n)
    | Some v => let! h := alloc KBuffer v in ret (Some h, lens, n)
    end
  else throw (Errorf [T what; T ": "; T text]).
Definition c_blind (op : COp) : M CS (bool * string * option handle) :=
  let! r := c_call (lib_fuse L) op [] in
  let '(ok, text, out, _, _) := r in
  match out with
  | None => ret (ok, text, None)
  | Some v => let! h := alloc KBuffer v in ret (ok, text, Some h)
  end.

(** A status and the text of its error. *)
Definition c_text (op : COp) : M CS (bool * string) :=
  let! r := c_call (lib_fuse L) op [] in
  let '(ok, text, _, _, _) := r in ret (ok, text).

(** [C.CString]. *)
Definition c_string (text : string) : M CS handle := alloc KBuffer (cstring L text).

Definition c_floats (op : COp) (hs : owned) : M CS (option (list float64)) := c_call (lib_floats L) op hs.
Definition c_ints (op : COp) (hs : owned) : M CS (option (list Z)) := c_call (lib_ints L) op hs.

(** The usual tests of what a call returned: nil, or a status other than 0. *)
Definition fail {A} (msg : string) : M CS A := throw (Errorf [T msg]).
Definition fail_if (b : bool) (msg : string) : M CS unit := if b then fail msg else ret tt.
Definition c_must (k : Kind) (op : COp) (hs : owned) (msg : string) : M CS handle :=
  let! r := c_new k op hs in
  match r with Some h => ret h | None => fail msg end.
Definition c_check (op : COp) (hs : owned) (msg : string) : M CS unit :=
  let! ok := c_status op hs in if ok then ret tt else fail msg.

(** A serializer: its buffer is set on success only. *)
Definition c_serialize (op : COp) (hs : owned) (msg : string) : M CS (option handle) :=
  let! r := c_call (lib_buffer L) op hs in
  match r with
  | (false, _) => fail msg
  | (true, None) => ret None
  | (true, Some v) => let! h := alloc KBuffer v in ret (Some h)
  end.

(** The Free functions; freeing nil does nothing. *)
Definition free (k : Kind) (h : handle) : M CS unit := fun s =>
  match lookup_kind s (h, k) with
  | Some _ => (Ok tt, set_heap (delete h (heap s)) s)
  | None => (Panic "invalid free", s)
  end.
Definition free_opt (k : Kind) (h : option handle) : M CS unit :=
  match h with Some h => free k h | None => ret tt end.
Fixpoint free_all (k : Kind) (hs : list handle) : M CS unit :=
  match hs with [] => ret tt | h :: hs' => free k h ;;; free_all k hs' end.

(** [defer cleanup] before [body]: the clean-up runs on every outcome. *)
Definition deferring {A} (cleanup : M CS unit) (body : M CS A) : M CS A := fun s =>
  let '(o, s1) := body s in
  match cleanup s1 with
  | (Ok _, s2) => (o, s2)
  | (Err e, s2) => (Err e, s2)
  | (Panic w, s2) => (Panic w, s2)
  end.

(** [x := m; defer free(x)] before the rest; also a scope that frees [x] by hand
    on every path out of it. *)
Definition with_handle {A} (k : Kind) (m : M CS handle) (body : handle -> M CS A) : M CS A :=
  let! h := m in deferring (free k h) (body h).
Definition with_keypair {A} (op : COp) (hs : owned) (msg : string) (body : handle -> handle -> M CS A) : M CS A :=
  let! r := c_new2 KPublicKey KSecretKey op hs in
  match r with
  | None => fail msg
  | Some (pk, sk) => deferring (free KPublicKey pk) (deferring (free KSecretKey sk) (body pk sk))
  end.
Definition with_handles {A} (k : Kind) (m : M CS (list handle)) (body : list handle -> M CS A) : M CS A :=
  let! hs := m in deferring (free_all k hs) (body hs).

(** [if err != nil { cleanup; return err }]. *)
Definition on_error {St A} (cleanup : M St unit) (m : M St A) : M St A := fun st =>
  match m st with
  | (Err e, st') => (cleanup ;;; throw e) st'
  | o => o
  end.

(** A loop that fills an array of handles and, on an error, frees what it has. *)
Fixpoint collect_from {X} (k : Kind) (f : nat -> X -> M CS handle) (i : nat) (got : list handle) (xs : list X)
  : M CS (list handle) :=
  match xs with
  | [] => ret got
  | x :: xs' => let! h := on_error (free_all k got) (f i x) in collect_from k f (S i) (got ++ [h]) xs'
  end.
Definition collect {X} (k : Kind) (f : nat -> X -> M CS handle) (xs : list X) : M CS (list handle) :=
  collect_from k f 0 [] xs.

(** Local variables that a deferred clean-up reads when it runs. *)
Definition lift {Lc A} (m : Lc -> M CS A) : M (CS * Lc) A := fun sl =>
  let '(o, s') := m sl.2 sl.1 in (o, (s', sl.2)).
Definition get_local {Lc} : M (CS * Lc) Lc := fun sl => (Ok sl.2, sl).
Definition set_local {Lc} (l : Lc) : M (CS * Lc) unit := fun sl => (Ok tt, (sl.1, l)).
Definition with_locals {Lc A} (l0 : Lc) (cleanup : Lc -> M CS unit) (body : M (CS * Lc) A) : M CS A := fun s =>
  let '(o, (s1, l1)) := body (s, l0) in deferring (cleanup l1) (fun s => (o, s)) s1.

(** [len(l) == 0]. *)
Definition is_empty {A} (l : list A) : bool := match l with [] => true | _ => false end.

(** [&l[0]]: Go panics on an empty slice. *)
Definition first_element {A} (l : list A) : M CS unit :=
  match l with [] => panic "index out of range [0] with length 0" | _ => ret tt end.

(** [n] elements read by C from [&l[0]]: past the end is undefined. *)
Definition array_arg {A} (l : list A) (n : nat) : M CS unit :=
  first_element l ;;;
  if (n <=? length l)%nat then ret tt else panic "out-of-bounds read".

(** [C.GoBytes] of a buffer that may be nil. *)
Definition copyCBytes (data : option handle) : M CS bytes :=
  match data with
  | None => ret []
  | Some h => let! vs := fetch [(h, KBuffer)] in
              ret (match vs with v :: _ => buffer_bytes L v | [] => [] end)
  end.
End Calls.

(** ** Ownership

    [spec G D m R]: run with the objects [D] owned and [G] borrowed from the
    rest of the heap, [m] does not panic; on an error everything owned has been
    released, on a result [a] exactly [R a] is owned, and the rest of the heap
    holds the same objects as before. *)

Section Logic.
Context {V LS : Type} (L : CLib V LS).
Notation CS := (CState V LS).
Implicit Types (s : CS) (F : gmap handle Kind) (G D : owned).

(** The live objects, by kind. *)
Definition kinds s : gmap handle Kind := fst <$> heap s.
Definition minus F (hs : list handle) : gmap handle Kind := foldr delete F hs.
Definition live (hs : owned) F : Prop := forall h k, (h, k) ∈ hs -> F !! h = Some k.
Definition holds D F s : Prop := NoDup D.*1 /\ live D (kinds s) /\ minus (kinds s) D.*1 = F.

Definition spec {A} G D (m : M CS A) (R : A -> owned) : Prop := forall s F,
  holds D F s -> live G F ->
  match m s with
  | (Ok a, s') => holds (R a) F s'
  | (Err _, s') => kinds s' = F
  | (Panic _, _) => False
  end.

Lemma lookup_minus F hs h : minus F hs !! h = if decide (h ∈ hs) then None else F !! h.
Proof.
  induction hs as [|x hs IH]; simpl; [done|]. destruct (decide (x = h)) as [->|Hne].
  - rewrite lookup_delete_eq. destruct (decide (h ∈ h :: hs)) as [|Hn]; [done|]. destruct Hn. by left.
  - rewrite lookup_delete_ne, IH by done. destruct (decide (h ∈ hs)), (decide (h ∈ x :: hs)); set_solver.
Qed.

Lemma minus_delete F hs h : delete h (minus F hs) = minus (delete h F) hs.
Proof.
  apply map_eq. intros i. rewrite (lookup_minus (delete h F)). destruct (decide (i = h)) as [->|Hne].
  - rewrite !lookup_delete_eq. by destruct (decide (h ∈ hs)).
  - by rewrite !lookup_delete_ne, lookup_minus by done.
Qed.

#[export] Instance minus_perm F : Proper ((≡ₚ) ==> (=)) (minus F).
Proof.
  intros l1 l2 Hp. apply map_eq. intros i. rewrite !lookup_minus.
  destruct (decide (i ∈ l1)) as [H|H], (decide (i ∈ l2)) as [H'|H']; try done.
  - destruct H'. by rewrite <- Hp.
  - destruct H. by rewrite Hp.
Qed.

#[export] Instance live_perm : Proper ((≡ₚ) ==> (=) ==> iff) live.
Proof. intros D1 D2 Hp F ? <-. unfold live. split; intros H h k; [rewrite <- Hp|rewrite Hp]; apply H. Qed.

#[export] Instance holds_perm : Proper ((≡ₚ) ==> (=) ==> (=) ==> iff) holds.
Proof. intros D1 D2 Hp F ? <- s ? <-. unfold holds. by rewrite Hp. Qed.

Lemma spec_perm {A} G D D' (m : M CS A) R R' :
  D ≡ₚ D' -> (forall a, R a ≡ₚ R' a) -> spec G D m R -> spec G D' m R'.
Proof.
  intros HD HR Hm s F H HG. rewrite <- HD in H. specialize (Hm s F H HG).
  destruct (m s) as [[a|e|w] s1]; [by rewrite <- HR|done|done].
Qed.

Lemma holds_nil F s : holds [] F s <-> kinds s = F.
Proof. unfold holds, live. simpl. split; [naive_solver|]. intros ->. split_and!; [constructor|set_solver|done]. Qed.

Lemma live_app D1 D2 F : live (D1 ++ D2) F <-> live D1 F /\ live D2 F.
Proof. unfold live. setoid_rewrite elem_of_app. naive_solver. Qed.
Lemma live_cons h k D F : live ((h, k) :: D) F <-> F !! h = Some k /\ live D F.
Proof. unfold live. setoid_rewrite elem_of_cons. naive_solver. Qed.

Lemma live_minus D F hs : live D (minus F hs) -> live D F.
Proof. intros H h k Hin. specialize (H h k Hin). rewrite lookup_minus in H. by destruct (decide (h ∈ hs)). Qed.

Lemma live_use G D F s : holds D F s -> live G F -> live (D ++ G) (kinds s).
Proof. intros (_ & Hl & <-) HG. apply live_app. split; [done|by eapply live_minus]. Qed.

Lemma holds_app D1 D2 F s :
  holds (D1 ++ D2) F s <-> NoDup D1.*1 /\ exists F2, holds D2 F2 s /\ live D1 F2 /\ minus F2 D1.*1 = F.
Proof.
  unfold holds. rewrite fmap_app, NoDup_app, live_app. unfold minus at 1. rewrite foldr_app. split.
  - intros ((Hn1 & Hd & Hn2) & [Hl1 Hl2] & Hm). split; [done|]. exists (minus (kinds s) D2.*1). split_and!; try done.
    intros h k Hin. rewrite lookup_minus, decide_False; [by apply Hl1|]. intros Hx. eapply Hd; [|exact Hx].
    apply list_elem_of_fmap. by exists (h, k).
  - intros (Hn1 & F2 & (Hn2 & Hl2 & <-) & Hl1 & Hm). split_and!; try done; [|by eapply live_minus].
    intros h [[h' k] [-> Hin]]%list_elem_of_fmap Hx. specialize (Hl1 _ _ Hin). rewrite lookup_minus in Hl1.
    by rewrite decide_True in Hl1.
Qed.

(** ** Rules *)

Lemma spec_ret {A} G (a : A) R : spec G (R a) (ret a) R.
Proof. intros s F H _. exact H. Qed.

Lemma spec_ret' {A} G D (a : A) R : D = R a -> spec G D (ret a) R.
Proof. intros ->. apply spec_ret. Qed.

Lemma spec_throw {A} G e (R : A -> owned) : spec G [] (throw e) R.
Proof. intros s F H%holds_nil _. exact H. Qed.

Lemma spec_bind {A B} G D (m : M CS A) (f : A -> M CS B) R Q :
  spec G D m R -> (forall a, spec G (R a) (f a) Q) -> spec G D (bind m f) Q.
Proof.
  intros Hm Hf s F H HG. unfold bind. specialize (Hm s F H HG).
  destruct (m s) as [[a|e|w] s1]; [by apply Hf|done|done].
Qed.

Lemma spec_wrap {A} G D f (m : M CS A) R : spec G D m R -> spec G D (wrap_err f m) R.
Proof.
  intros Hm s F H HG. unfold wrap_err. specialize (Hm s F H HG). by destruct (m s) as [[a|e|w] s1].
Qed.

Lemma spec_if {A} G D (b : bool) (m1 m2 : M CS A) R :
  spec G D m1 R -> spec G D m2 R -> spec G D (if b then m1 else m2) R.
Proof. by destruct b. Qed.

Lemma mapM_lookup s (hs : owned) : live hs (kinds s) -> exists vs, mapM (lookup_kind s) hs = Some vs.
Proof.
  induction hs as [|[h k] hs IH]; intros H; [by exists []|]. apply live_cons in H as [Hh H].
  destruct (IH H) as [vs E]. unfold kinds in Hh. rewrite lookup_fmap in Hh.
  destruct (heap s !! h) as [[k' v]|] eqn:Eh; [|done]. injection Hh as Hk. simpl in Hk. subst k'.
  exists (v :: vs). assert (lookup_kind s (h, k) = Some v) as Hv by (unfold lookup_kind; cbn; by rewrite Eh, decide_True).
  cbn [mapM]. by rewrite Hv, E.
Qed.

Lemma live_sub D D' F : D ⊆ D' -> live D' F -> live D F.
Proof. unfold live. set_solver. Qed.

Lemma spec_call {A} G D (f : COp -> list V -> LS -> A * LS) op hs :
  hs ⊆ D ++ G -> spec G D (c_call f op hs) (fun _ => D).
Proof.
  intros Hs s F H HG. unfold c_call, bind, fetch.
  destruct (mapM_lookup s hs) as [vs ->]; [eapply live_sub, live_use; eauto|].
  by destruct (f op vs (lib_state s)) as [a l].
Qed.

Lemma spec_alloc G D k v : spec G D (alloc k v) (fun h => (h, k) :: D).
Proof.
  intros s F (Hnd & Hl & Hm) _. unfold alloc. set (h := fresh _).
  assert (Hf : kinds s !! h = None).
  { unfold kinds. rewrite lookup_fmap, fmap_None. apply not_elem_of_dom, is_fresh. }
  assert (HD : h ∉ D.*1).
  { intros [[h' k'] [-> Hin]]%list_elem_of_fmap. pose proof (Hl _ _ Hin). simpl in *. congruence. }
  unfold holds, kinds. cbn [heap set_heap]. rewrite fmap_insert. fold (kinds s). cbn [fst]. split_and!.
  - by constructor.
  - apply live_cons. split; [apply lookup_insert_eq|]. intros h' k' Hin.
    rewrite lookup_insert_ne; [by apply Hl|]. intros <-. destruct HD. apply list_elem_of_fmap. by eexists (_, _).
  - simpl. rewrite minus_delete, delete_insert_id by done. done.
Qed.

Definition opt_owned (k : Kind) (o : option handle) : owned :=
  match o with Some h => [(h, k)] | None => [] end.

Lemma spec_new G D k op hs :
  hs ⊆ D ++ G -> spec G D (c_new L k op hs) (fun o => opt_owned k o ++ D).
Proof.
  intros Hs. eapply spec_bind; [by apply spec_call|]. intros [v|]; [|by apply spec_ret'].
  eapply spec_bind; [apply spec_alloc|]. intros h. by apply spec_ret'.
Qed.

Lemma spec_new2 G D k1 k2 op hs :
  hs ⊆ D ++ G ->
  spec G D (c_new2 L k1 k2 op hs)
    (fun o => match o with Some (h1, h2) => (h1, k1) :: (h2, k2) :: D | None => D end).
Proof.
  intros Hs. eapply spec_bind; [by apply spec_call|]. intros [[v1 v2]|]; [|by apply spec_ret'].
  eapply spec_bind; [apply spec_alloc|]. intros h1. eapply spec_bind; [apply spec_alloc|]. intros h2 s F H _.
  simpl in *. by rewrite Permutation_swap.
Qed.

Definition all_owned (k : Kind) (hs : list handle) : owned := (fun h => (h, k)) <$> hs.

Lemma spec_alloc_array G D k vs :
  spec G D (alloc_array k vs) (fun hs => all_owned k hs ++ D).
Proof.
  revert D. induction vs as [|v vs IH]; intros D; [by apply spec_ret'|].
  simpl. eapply spec_bind; [apply spec_alloc|]. intros h. eapply spec_bind; [apply IH|]. intros hs s F H _.
  simpl in *. by rewrite Permutation_middle.
Qed.

Lemma spec_array G D n k op hs :
  hs ⊆ D ++ G ->
  spec G D (c_array L n k op hs) (fun o => match o with Some out => all_owned k out ++ D | None => D end).
Proof.
  intros Hs. eapply spec_bind; [by apply spec_call|]. intros [f|]; [|by apply spec_ret'].
  eapply spec_bind; [apply spec_alloc_array|]. intros out. by apply spec_ret'.
Qed.

Lemma spec_status G D op hs : hs ⊆ D ++ G -> spec G D (c_status L op hs) (fun _ => D).
Proof. apply spec_call. Qed.
Lemma spec_floats G D op hs : hs ⊆ D ++ G -> spec G D (c_floats L op hs) (fun _ => D).
Proof. apply spec_call. Qed.
Lemma spec_ints G D op hs : hs ⊆ D ++ G -> spec G D (c_ints L op hs) (fun _ => D).
Proof. apply spec_call. Qed.

Lemma spec_buffer G D op hs :
  hs ⊆ D ++ G -> spec G D (c_buffer L op hs) (fun r => opt_owned KBuffer r.2 ++ D).
Proof.
  intros Hs. eapply spec_bind; [by apply spec_call|]. intros [ok [v|]]; [|by apply spec_ret'].
  eapply spec_bind; [apply spec_alloc|]. intros h. by apply spec_ret'.
Qed.

Lemma spec_update G D op h k hs :
  (h, k) :: hs ⊆ D ++ G -> spec G D (c_update L op h k hs) (fun _ => D).
Proof.
  intros Hs s F H HG. unfold c_update, c_call, bind, fetch. pose proof (live_use _ _ _ _ H HG) as Hu.
  destruct (mapM_lookup s ((h, k) :: hs)) as [vs ->]; [by eapply live_sub|].
  destruct (lib_update L op vs (lib_state s)) as [r l].
  assert (E : kinds (set_heap (<[h := (k, r.2)]> (heap s)) (set_lib l s)) = kinds s).
  { unfold kinds. cbn [heap set_heap]. rewrite fmap_insert. apply insert_id. apply Hu, Hs. by left. }
  unfold holds. cbn [heap set_lib]. by rewrite E.
Qed.

Lemma spec_fetch G D hs : hs ⊆ D ++ G -> spec G D (fetch hs) (fun _ => D).
Proof.
  intros Hs s F H HG. unfold fetch. destruct (mapM_lookup s hs) as [vs ->]; [eapply live_sub, live_use; eauto|done].
Qed.

Lemma spec_copy G D (o : option handle) :
  opt_owned KBuffer o ⊆ D ++ G -> spec G D (copyCBytes L o) (fun _ => D).
Proof.
  destruct o as [h|]; [|intros _; by apply spec_ret']. intros Hs.
  eapply spec_bind; [by apply spec_fetch|]. intros vs. by apply spec_ret'.
Qed.

Lemma free_live s h k : kinds s !! h = Some k -> free k h s = (Ok tt, set_heap (delete h (heap s)) s).
Proof.
  unfold kinds. rewrite lookup_fmap. destruct (heap s !! h) as [[k' v]|] eqn:E; [|done]. intros [= <-].
  unfold free, lookup_kind. simpl. by rewrite E, decide_True.
Qed.

Lemma spec_free G D h k : spec G ((h, k) :: D) (free k h) (fun _ => D).
Proof.
  intros s F (Hnd & Hl & Hm) HG. apply live_cons in Hl as [E Hl]. rewrite (free_live s h k E).
  simpl in *. apply NoDup_cons in Hnd as [Hn Hnd]. unfold holds, kinds. cbn [heap set_heap].
  rewrite fmap_delete. fold (kinds s). split_and!; [done| |].
  - intros h' k' Hin. rewrite lookup_delete_ne; [by apply Hl|]. intros <-. destruct Hn. apply list_elem_of_fmap. by eexists (_, _).
  - by rewrite <- minus_delete.
Qed.

Lemma spec_free_opt G D k o : spec G (opt_owned k o ++ D) (free_opt k o) (fun _ => D).
Proof. destruct o as [h|]; [apply spec_free|by apply spec_ret']. Qed.

Lemma spec_free_all G D k hs : spec G (all_owned k hs ++ D) (free_all k hs) (fun _ => D).
Proof.
  induction hs as [|h hs IH]; [by apply spec_ret'|].
  eapply spec_bind; [apply spec_free|]. intros u. exact IH.
Qed.

(** A clean-up that releases [D'] from whatever heap holds it. *)
Definition releases D' (cleanup : M CS unit) : Prop := forall G D s F,
  holds (D' ++ D) F s -> live G F -> exists s', cleanup s = (Ok tt, s') /\ holds D F s'.

Lemma releases_nil : releases [] (ret tt).
Proof. intros G D s F H _. by exists s. Qed.
Lemma releases_free k h : releases [(h, k)] (free k h).
Proof.
  intros G D s F H HG. pose proof (spec_free G D h k s F H HG) as Hf.
  destruct H as (_ & [E _]%live_cons & _). rewrite (free_live s h k E) in *. by eexists.
Qed.
Lemma releases_seq D1 D2 c1 c2 : releases D1 c1 -> releases D2 c2 -> releases (D1 ++ D2) (c1 ;;; c2).
Proof.
  intros H1 H2 G D s F H HG. rewrite <- app_assoc in H. destruct (H1 G _ s F H HG) as (s1 & E1 & Hh1).
  destruct (H2 G _ s1 F Hh1 HG) as (s2 & E2 & Hh2). exists s2. unfold bind. by rewrite E1.
Qed.
Lemma releases_free_opt k o : releases (opt_owned k o) (free_opt k o).
Proof. destruct o; [apply releases_free|apply releases_nil]. Qed.
Lemma releases_free_all k hs : releases (all_owned k hs) (free_all k hs).
Proof. induction hs as [|h hs IH]; [apply releases_nil|]. apply (releases_seq [(h, k)]); [apply releases_free|exact IH]. Qed.

(** [defer]: what the clean-up releases is only borrowed by the body. *)
Lemma spec_defer {A} G D D' cleanup (body : M CS A) R :
  releases D' cleanup -> spec (D' ++ G) D body R -> spec G (D' ++ D) (deferring cleanup body) R.
Proof.
  intros Hc Hb s F (Hnd & F2 & HD & Hl & HF)%holds_app HG. unfold deferring.
  assert (HG2 : live (D' ++ G) F2) by (apply live_app; split; [done|]; rewrite <- HF in HG; by eapply live_minus).
  specialize (Hb s F2 HD HG2). destruct (body s) as [[a|e|w] s1]; [| |done].
  - assert (Hh : holds (D' ++ R a) F s1) by (apply holds_app; eauto).
    destruct (Hc G (R a) s1 F Hh HG) as (s2 & -> & Hr). exact Hr.
  - assert (Hh : holds (D' ++ []) F s1) by (apply holds_app; split; [done|]; exists F2; by rewrite holds_nil).
    destruct (Hc G [] s1 F Hh HG) as (s2 & -> & Hr). by apply holds_nil in Hr.
Qed.

(** ** Rules for the patterns of the bridge *)

Lemma spec_fail {A} G msg (R : A -> owned) : spec G [] (fail msg) R.
Proof. apply spec_throw. Qed.

Lemma spec_fail_if G b msg : spec G [] (fail_if b msg) (fun _ => []).
Proof. destruct b; [apply spec_fail|by apply spec_ret']. Qed.

Lemma spec_must G k op hs msg : hs ⊆ G -> spec G [] (c_must L k op hs msg) (fun h => [(h, k)]).
Proof. intros Hs. eapply spec_bind; [by apply spec_new|]. intros [h|]; [by apply spec_ret'|apply spec_fail]. Qed.

Lemma spec_new_nil G k op hs : hs ⊆ G -> spec G [] (c_new L k op hs) (opt_owned k).
Proof.
  intros Hs. eapply spec_perm; [reflexivity| |by apply spec_new]. intros a. simpl. by rewrite app_nil_r.
Qed.

Lemma spec_check G op hs msg : hs ⊆ G -> spec G [] (c_check L op hs msg) (fun _ => []).
Proof. intros Hs. eapply spec_bind; [by apply spec_status|]. intros [|]; [by apply spec_ret'|apply spec_fail]. Qed.

Lemma spec_string G text : spec G [] (c_string L text) (fun h => [(h, KBuffer)]).
Proof. apply spec_alloc. Qed.

Lemma spec_fuse G op hs what :
  hs ⊆ G -> spec G [] (c_fuse L op hs what) (fun r => opt_owned KBuffer r.1.1).
Proof.
  intros Hs. eapply spec_bind; [by apply spec_call|]. intros [[[[[|] text] [v|]] lens] n]; [|by apply spec_ret'|apply spec_throw..].
  eapply spec_bind; [apply spec_alloc|]. intros h. by apply spec_ret'.
Qed.

Lemma spec_blind G op : spec G [] (c_blind L op) (fun r => opt_owned KBuffer r.2).
Proof.
  eapply spec_bind; [apply spec_call, list_subseteq_nil|]. intros [[[[ok text] [v|]] lens] n]; [|by apply spec_ret'].
  eapply spec_bind; [apply spec_alloc|]. intros h. by apply spec_ret'.
Qed.

Lemma spec_serialize G op hs msg : hs ⊆ G -> spec G [] (c_serialize L op hs msg) (opt_owned KBuffer).
Proof.
  intros Hs. eapply spec_bind; [by apply spec_call|]. intros [[|] [v|]]; [|by apply spec_ret'|apply spec_fail..].
  eapply spec_bind; [apply spec_alloc|]. intros h. by apply spec_ret'.
Qed.

Lemma spec_with {A} G k m (body : handle -> M CS A) R :
  spec G [] m (fun h => [(h, k)]) -> (forall h, spec ((h, k) :: G) [] (body h) R) ->
  spec G [] (with_handle k m body) R.
Proof.
  intros Hm Hb. eapply spec_bind; [exact Hm|]. intros h. cbn beta.
  apply (spec_defer G [] [(h, k)]); [apply releases_free|apply Hb].
Qed.

Lemma spec_keypair {A} G op hs msg (body : handle -> handle -> M CS A) R :
  hs ⊆ G ->
  (forall pk sk, spec ((sk, KSecretKey) :: (pk, KPublicKey) :: G) [] (body pk sk) R) ->
  spec G [] (with_keypair L op hs msg body) R.
Proof.
  intros Hs Hb. eapply spec_bind; [by apply spec_new2|]. intros [[pk sk]|]; [|apply spec_fail]. cbn beta.
  apply (spec_defer G _ [(pk, KPublicKey)]); [apply releases_free|].
  apply (spec_defer _ [] [(sk, KSecretKey)]); [apply releases_free|]. apply Hb.
Qed.

(** What a result satisfies. *)
Definition returns {A} (m : M CS A) (Q : A -> Prop) : Prop := forall s a s', m s = (Ok a, s') -> Q a.

Lemma returns_any {A} (m : M CS A) : returns m (fun _ => True).
Proof. done. Qed.

Lemma spec_bind_returns {A B} G D (m : M CS A) (f : A -> M CS B) R Q W :
  spec G D m R -> returns m W -> (forall a, W a -> spec G (R a) (f a) Q) -> spec G D (bind m f) Q.
Proof.
  intros Hm HW Hf s F H HG. unfold bind. specialize (Hm s F H HG).
  destruct (m s) as [[a|e|w] s1] eqn:E; [|done|done]. apply Hf; [by eapply HW|done|done].
Qed.

Lemma spec_guard {A} G b msg (k : unit -> M CS A) R :
  (b = false -> spec G [] (k tt) R) -> spec G [] (bind (fail_if b msg) k) R.
Proof.
  intros Hk. apply (spec_bind_returns _ _ _ _ (fun _ => []) _ (fun _ => b = false)); [apply spec_fail_if| |intros []; exact Hk].
  intros s a s' H. by destruct b.
Qed.

Lemma spec_first_element {A} G (l : list A) : (0 < length l)%nat -> spec G [] (first_element l) (fun _ => []).
Proof. destruct l; simpl; [lia|]. intros _. exact (spec_ret G tt (fun _ => [])). Qed.

Lemma spec_array_arg {A} G (l : list A) n :
  (0 < length l)%nat -> (n <= length l)%nat -> spec G [] (array_arg l n) (fun _ => []).
Proof.
  intros H0 Hn. unfold array_arg. apply Nat.leb_le in Hn as ->. destruct l; simpl in H0; [lia|].
  eapply spec_bind; [exact (spec_ret G tt (fun _ => []))|intros u; exact (spec_ret G tt (fun _ => []))].
Qed.

Lemma spec_with_all {A} G k m (body : list handle -> M CS A) R W :
  spec G [] m (all_owned k) -> returns m W -> (forall hs, W hs -> spec (all_owned k hs ++ G) [] (body hs) R) ->
  spec G [] (with_handles k m body) R.
Proof.
  intros Hm HW Hb. eapply spec_bind_returns; [exact Hm|exact HW|]. intros hs Hhs. rewrite <- (app_nil_r (all_owned k hs)).
  apply (spec_defer G [] (all_owned k hs)); [apply releases_free_all|by apply Hb].
Qed.

(** What a call does not own is there after it. *)
Lemma spec_frame {A} G D X (m : M CS A) R s F :
  spec (X ++ G) D m R -> holds (D ++ X) F s -> live G F ->
  match m s with
  | (Ok a, s') => holds (R a ++ X) F s'
  | (Err _, s') => holds X F s'
  | (Panic _, _) => False
  end.
Proof.
  intros Hm H HG. rewrite (comm (++)) in H. apply holds_app in H as (Hnd & F2 & HD & Hl & HF).
  assert (HG2 : live (X ++ G) F2) by (apply live_app; split; [done|]; rewrite <- HF in HG; by eapply live_minus).
  specialize (Hm s F2 HD HG2). destruct (m s) as [[a|e|w] s1]; [| |done].
  - rewrite (comm (++)). apply holds_app. eauto.
  - rewrite <- (app_nil_r X). apply holds_app. split; [done|]. exists F2. by rewrite holds_nil.
Qed.

(** A clean-up by hand releases what the failed call left. *)
Lemma spec_on_error {A} G D X cleanup (m : M CS A) R :
  releases X cleanup -> spec (X ++ G) D m R ->
  spec G (D ++ X) (on_error cleanup m) (fun a => R a ++ X).
Proof.
  intros Hc Hm s F H HG. pose proof (spec_frame G D X m R s F Hm H HG) as Ha. unfold on_error.
  destruct (m s) as [[a|e|w] s1]; [exact Ha| |exact Ha].
  rewrite <- (app_nil_r X) in Ha. destruct (Hc G [] s1 F Ha HG) as (s2 & E & Hr).
  unfold bind. rewrite E. by apply holds_nil in Hr.
Qed.

Lemma spec_collect {X} G k (f : nat -> X -> M CS handle) xs :
  (forall i x G', G ⊆ G' -> spec G' [] (f i x) (fun h => [(h, k)])) ->
  spec G [] (collect k f xs) (all_owned k).
Proof.
  intros Hf. enough (forall got i, spec G (all_owned k got) (collect_from k f i got xs) (all_owned k)) as H by exact (H [] 0%nat).
  induction xs as [|x xs IH]; intros got i; [by apply spec_ret'|]. simpl.
  eapply spec_bind; [apply (spec_on_error G [] (all_owned k got)); [apply releases_free_all|apply Hf; set_solver]|].
  intros h. cbn beta. eapply spec_perm; [|reflexivity|apply IH].
  unfold all_owned. rewrite fmap_app. simpl. symmetry. apply Permutation_cons_append.
Qed.

(** ** Local variables that own objects

    [lspec G l D m R]: as [spec], started with the locals [l]; what the locals
    own is there on every outcome. *)
Section Locals.
Context {Lc : Type} (Own : Lc -> owned).

Definition lspec {A} G (l : Lc) D (m : M (CS * Lc) A) (R : A -> owned) : Prop := forall s F,
  holds (D ++ Own l) F s -> live G F ->
  match m (s, l) with
  | (Ok a, (s', l')) => holds (R a ++ Own l') F s'
  | (Err _, (s', l')) => holds (Own l') F s'
  | (Panic _, _) => False
  end.

Lemma lspec_ret {A} G l D (a : A) R : D ≡ₚ R a -> lspec G l D (ret a) R.
Proof. intros HD s F H _. simpl. by rewrite <- HD. Qed.

Lemma lspec_throw {A} G l e (R : A -> owned) : lspec G l [] (throw e) R.
Proof. intros s F H _. exact H. Qed.

Lemma lspec_bind {A B} G l D (m : M (CS * Lc) A) (f : A -> M (CS * Lc) B) R Q :
  lspec G l D m R -> (forall a l', lspec G l' (R a) (f a) Q) -> lspec G l D (bind m f) Q.
Proof.
  intros Hm Hf s F H HG. unfold bind. specialize (Hm s F H HG).
  destruct (m (s, l)) as [[a|e|w] [s1 l1]]; [by apply Hf|done|done].
Qed.

Lemma lspec_bind_returns {A B} G l D (m : M (CS * Lc) A) (f : A -> M (CS * Lc) B) R Q (W : Lc -> Prop) :
  lspec G l D m R -> (forall s a s' l', m (s, l) = (Ok a, (s', l')) -> W l') ->
  (forall a l', W l' -> lspec G l' (R a) (f a) Q) -> lspec G l D (bind m f) Q.
Proof.
  intros Hm HW Hf s F H HG. unfold bind. specialize (Hm s F H HG).
  destruct (m (s, l)) as [[a|e|w] [s1 l1]] eqn:E; [|done|done]. apply Hf; [by eapply HW|done|done].
Qed.

Lemma lspec_wrap {A} G l D f (m : M (CS * Lc) A) R : lspec G l D m R -> lspec G l D (wrap_err f m) R.
Proof.
  intros Hm s F H HG. unfold wrap_err. specialize (Hm s F H HG). by destruct (m (s, l)) as [[a|e|w] [s1 l1]].
Qed.

Lemma lspec_lift {A} G l D (m : Lc -> M CS A) R :
  spec (Own l ++ G) D (m l) R -> lspec G l D (lift m) R.
Proof.
  intros Hm s F H HG. pose proof (spec_frame G D (Own l) (m l) R s F Hm H HG) as Ha.
  unfold lift. simpl. by destruct (m l s) as [[a|e|w] s1].
Qed.

(** After a lifted call the locals are the same. *)
Lemma lspec_lift_bind {A B} G l D (m : Lc -> M CS A) (f : A -> M (CS * Lc) B) R Q :
  spec (Own l ++ G) D (m l) R -> (forall a, lspec G l (R a) (f a) Q) -> lspec G l D (bind (lift m) f) Q.
Proof.
  intros Hm Hf s F H HG. pose proof (lspec_lift G l D m R Hm s F H HG) as Ha. unfold bind.
  unfold lift in *. simpl in *. destruct (m l s) as [[a|e|w] s1]; [by apply Hf|done|done].
Qed.

Lemma lspec_get {B} G l D (f : Lc -> M (CS * Lc) B) Q :
  lspec G l D (f l) Q -> lspec G l D (bind get_local f) Q.
Proof. intros Hf s F H HG. by apply Hf. Qed.

Lemma lspec_set {B} G l l' D D' (f : unit -> M (CS * Lc) B) Q :
  D ++ Own l ≡ₚ D' ++ Own l' -> lspec G l' D' (f tt) Q -> lspec G l D (bind (set_local l') f) Q.
Proof. intros HD Hf s F H HG. apply Hf; [by rewrite <- HD|done]. Qed.

Lemma lspec_on_error {A} G l D X cleanup (m : M (CS * Lc) A) R :
  releases X cleanup -> lspec (X ++ G) l D m R ->
  lspec G l (X ++ D) (on_error (lift (fun _ => cleanup)) m) (fun a => X ++ R a).
Proof.
  intros Hc Hm s F H HG. rewrite <- app_assoc in H. apply holds_app in H as (Hnd & F2 & HD & Hl & HF).
  assert (HG2 : live (X ++ G) F2) by (apply live_app; split; [done|]; rewrite <- HF in HG; by eapply live_minus).
  specialize (Hm s F2 HD HG2). unfold on_error. destruct (m (s, l)) as [[a|e|w] [s1 l1]]; [| |done].
  - rewrite <- app_assoc. apply holds_app. eauto.
  - assert (Hh : holds (X ++ Own l1) F s1) by (apply holds_app; eauto).
    destruct (Hc G (Own l1) s1 F Hh HG) as (s2 & E & Hr). unfold bind, lift. simpl. by rewrite E.
Qed.

Lemma spec_with_locals {A} G l0 cleanup (body : M (CS * Lc) A) R :
  Own l0 = [] -> (forall l, releases (Own l) (cleanup l)) -> lspec G l0 [] body R ->
  spec G [] (with_locals l0 cleanup body) R.
Proof.
  intros H0 Hc Hb s F H HG. unfold with_locals, deferring.
  assert (Hh : holds ([] ++ Own l0) F s) by (by rewrite H0). specialize (Hb s F Hh HG).
  destruct (body (s, l0)) as [[a|e|w] [s1 l1]]; [| |done].
  - rewrite (comm (++)) in Hb. destruct (Hc l1 G (R a) s1 F Hb HG) as (s2 & -> & Hr). exact Hr.
  - rewrite <- (app_nil_r (Own l1)) in Hb. destruct (Hc l1 G [] s1 F Hb HG) as (s2 & -> & Hr).
    by apply holds_nil in Hr.
Qed.
End Locals.

Lemma returns_collect {X} k (f : nat -> X -> M CS handle) xs :
  returns (collect k f xs) (fun hs => length hs = length xs).
Proof.
  enough (forall got i, returns (collect_from k f i got xs) (fun hs => length hs = length got + length xs)%nat) as H
    by exact (H [] 0%nat).
  induction xs as [|x xs IH]; intros got i s a s' H; simpl in H.
  - injection H as <- <-. simpl. lia.
  - apply bind_Ok_inv in H as (h & s1 & _ & H). apply IH in H. rewrite H, length_app. simpl. lia.
Qed.
End Logic.

(** ** Equality up to the text of errors *)

Section SameCalls.
Context {V LS : Type}.
Notation CS := (CState V LS).

Lemma same_deferring {A} c (m1 m2 : M CS A) : m1 ≅ m2 -> deferring c m1 ≅ deferring c m2.
Proof.
  intros H s. destruct (H s) as [Ho Hs]. unfold deferring.
  destruct (m1 s) as [o1 s1], (m2 s) as [o2 s2]. simpl in *. subst s2.
  by destruct (c s1) as [[[]|e|w] s3].
Qed.

Lemma same_with {A} k m1 m2 (b1 b2 : handle -> M CS A) :
  m1 ≅ m2 -> (forall h, b1 h ≅ b2 h) -> with_handle k m1 b1 ≅ with_handle k m2 b2.
Proof. intros Hm Hb. apply same_bind; [done|]. intros h. by apply same_deferring. Qed.

Lemma same_on_error {St A} c (m1 m2 : M St A) : m1 ≅ m2 -> on_error c m1 ≅ on_error c m2.
Proof.
  intros H s. destruct (H s) as [Ho Hs]. unfold on_error, bind.
  destruct (m1 s) as [[a|e|w] s1], (m2 s) as [[b|e'|w'] s2]; simpl in *; subst; try done.
  by destruct (c s2) as [[[]|e2|w2] s3].
Qed.

Lemma same_lift {Lc A} (m1 m2 : Lc -> M CS A) : (forall l, m1 l ≅ m2 l) -> lift m1 ≅ lift m2.
Proof.
  intros H [s l]. destruct (H l s) as [Ho Hs]. unfold lift. simpl in *.
  destruct (m1 l s) as [o1 s1], (m2 l s) as [o2 s2]. simpl in *. by subst.
Qed.

Lemma same_with_locals {Lc A} (l0 : Lc) c (m1 m2 : M (CS * Lc) A) : m1 ≅ m2 -> with_locals l0 c m1 ≅ with_locals l0 c m2.
Proof.
  intros H s. destruct (H (s, l0)) as [Ho Hs]. unfold with_locals, deferring.
  destruct (m1 (s, l0)) as [o1 [s1 l1]], (m2 (s, l0)) as [o2 [s2 l2]]. simpl in *. injection Hs as -> ->.
  by destruct (c l2 s2) as [[[]|e|w] s3].
Qed.

Lemma deferring_Ok {A} c (m : M CS A) s a s' :
  deferring c m s = (Ok a, s') <-> exists s1, m s = (Ok a, s1) /\ c s1 = (Ok tt, s').
Proof.
  unfold deferring. destruct (m s) as [o s1] eqn:E. destruct (c s1) as [[[]|e|w] s2] eqn:Ec; naive_solver congruence.
Qed.

Lemma on_error_Ok {St A} c (m : M St A) s a s' : on_error c m s = (Ok a, s') <-> m s = (Ok a, s').
Proof.
  unfold on_error, bind. destruct (m s) as [[b|e|w] s1]; try done.
  destruct (c s1) as [[u|e'|w] s2]; naive_solver congruence.
Qed.
End SameCalls.

(** ** Automation

    [own] proves a [spec] goal about straight-line bridge code; the lemmas of
    the functions it calls are the hints of [cgo]. *)

Create HintDb cgo.

Lemma owned_cons (x : handle * Kind) (l G : owned) : x ∈ G -> l ⊆ G -> x :: l ⊆ G.
Proof. set_solver. Qed.
Lemma owned_app (l1 l2 G : owned) : l1 ⊆ G -> l2 ⊆ G -> l1 ++ l2 ⊆ G.
Proof. set_solver. Qed.
Lemma owned_app_l (l G1 G2 : owned) : l ⊆ G1 -> l ⊆ G1 ++ G2.
Proof. set_solver. Qed.
Lemma owned_app_r (l G1 G2 : owned) : l ⊆ G2 -> l ⊆ G1 ++ G2.
Proof. set_solver. Qed.

Lemma owned_take k hs n : all_owned k (take n hs) ⊆ all_owned k hs.
Proof.
  intros x. unfold all_owned. rewrite !list_elem_of_fmap. intros (y & -> & Hy). exists y. split; [done|].
  rewrite <- (take_drop n hs). set_solver.
Qed.

(** A handle, or several, among what is borrowed. *)
Ltac in_env :=
  first [ assumption
        | apply list_elem_of_here
        | apply list_elem_of_further; in_env
        | apply elem_of_app; first [left; in_env | right; in_env]
        | match goal with H : ?G ⊆ _ |- _ ∈ _ => apply H; in_env end ].
Ltac sub_env :=
  cbn [app];
  first [ apply list_subseteq_nil
        | reflexivity
        | assumption
        | etransitivity; [apply owned_take|sub_env]
        | apply owned_cons; [in_env|sub_env]
        | apply owned_app; sub_env
        | apply list_subseteq_cons; sub_env
        | apply owned_app_l; sub_env
        | apply owned_app_r; sub_env ].

Lemma is_empty_false {A} (l : list A) : is_empty l = false -> (0 < length l)%nat.
Proof. destruct l; [done|]. simpl. lia. Qed.

(** Lengths, from the guards passed. *)
Ltac len :=
  repeat match goal with
  | H : _ || _ = false |- _ => apply orb_false_iff in H as [? ?]
  | H : negb _ = false |- _ => apply negb_false_iff in H
  | H : is_empty _ = false |- _ => apply is_empty_false in H
  | H : Nat.eqb _ _ = true |- _ => apply Nat.eqb_eq in H
  | H : Nat.eqb _ _ = false |- _ => apply Nat.eqb_neq in H
  | H : Nat.ltb _ _ = false |- _ => apply Nat.ltb_ge in H
  end; lia.

#[export] Hint Extern 1 (_ ∈ _) => in_env : cgo.
#[export] Hint Extern 1 (_ < _)%nat => len : cgo.
#[export] Hint Extern 1 (_ <= _)%nat => len : cgo.
#[export] Hint Extern 1 (_ ⊆ _) => sub_env : cgo.
#[export] Hint Resolve spec_fail spec_throw spec_fail_if spec_string spec_must spec_check spec_serialize spec_first_element spec_array_arg spec_new_nil spec_update spec_status spec_ints spec_floats
  returns_collect : cgo.
#[export] Hint Resolve returns_any | 9 : cgo.

Ltac own_step :=
  lazymatch goal with
  | |- spec _ _ (ret _) _ => apply spec_ret'; reflexivity
  | |- spec _ _ (with_handle _ _ _) _ => eapply spec_with; [|intros ?]
  | |- spec _ _ (with_handles _ _ _) _ => eapply spec_with_all; [|solve [eauto with cgo nocore]|intros ? ?]; cbn beta in *
  | |- spec _ _ (with_keypair _ _ _ _ _) _ => eapply spec_keypair; [sub_env|intros ? ?]
  | |- spec _ _ (bind (fail_if _ _) _) _ => apply spec_guard; intros ?
  | |- spec _ _ (wrap_err _ _) _ => apply spec_wrap
  | |- spec _ _ (collect _ _ _) _ => apply spec_collect; intros ? ? ? ?
  | |- spec _ _ (bind _ _) _ => eapply spec_bind; [|intros ?]; cbn beta
  | |- spec _ _ (if ?x then _ else _) _ => first [apply spec_if | destruct x; cbn [opt_owned app]]
  | |- spec _ _ (match ?x with _ => _ end) _ => destruct x; cbn [opt_owned app]
  | |- spec _ _ (let '_ := ?x in _) _ => destruct x; cbn [opt_owned app]
  | |- spec _ _ _ _ => cbn beta; solve [eauto 4 with cgo nocore]
  end.
Ltac own := repeat own_step.

(** ** A library that follows a script, for examples *)
Module Scripted.
(** Objects are byte strings, the state is the list of answers to come. *)
Definition Script := list bool.
Definition answer (ls : Script) : bool * Script := match ls with [] => (true, []) | b :: ls' => (b, ls') end.
Definition scripted {A} (a : A) (ls : Script) : option A * Script :=
  let '(b, ls') := answer ls in ((if b then Some a else None), ls').
Definition toy : CLib bytes Script := {|
  lib_new := fun _ _ ls => scripted [Byte.x01] ls;
  lib_new2 := fun _ _ ls => scripted ([Byte.x01], [Byte.x02]) ls;
  lib_array := fun _ _ ls => scripted (fun _ => [Byte.x03]) ls;
  lib_status := fun _ _ ls => answer ls;
  lib_update := fun _ vs ls => let '(b, ls') := answer ls in (b, hd [] vs, ls');
  lib_buffer := fun _ vs ls => let '(b, ls') := answer ls in (b, Some (hd [] vs), ls');
  lib_floats := fun _ _ ls => scripted [f1] ls;
  lib_ints := fun _ _ ls => scripted [1%Z] ls;
  lib_fuse := fun _ _ ls => let '(b, ls') := answer ls in (b, ""%string, Some [Byte.x01; Byte.x02], [1%Z; 1%Z], 2%Z, ls');
  buffer_bytes := id;
  cstring := fun _ => []
|}.
Definition start (script : Script) : CState bytes Script := {| heap := ∅; lib_state := script |}.
End Scripted.
