(* ===== verification/Bridge.v ===== *)
(** * Contexts, serialization and key generation of the bridge
    (pkg/ares/crypto/cgo: bridge.go, bonly_keygen.go, minimal_rotation_keys.go)

    One definition per function of the code, over an arbitrary library.  The
    CKKS functions, their BFV twins and the [WithContext] variants have the same
    body up to the text of the errors: the body is written once, with the text
    as its first argument.  A [CryptoContext] that has not been closed is its
    handle. *)
From Stdlib Require Import ZArith NArith Lia String Ascii.
From stdpp Require Import base gmap list strings.
From S2P Require Import Prelude Bytes.
From S2P Require Import GoFloat GoFmt.
From S2P Require Import CGo.

(** ** Parameters and keys *)

Record ContractParams := {
  RingDim : Z;
  ScalingFactor : float64;
  Depth : Z;
  MinimalRotationKeys : bool;
  ProfileDim : Z;
  PayloadSlotCount : Z;
  EvalSumOnlyRotationKeys : bool
}.

Record BFVContractParams := {
  bfv_RingDim : Z;
  MultiplicativeDepth : Z;
  PlaintextModulus : Z;
  BatchSize : Z
}.

Record DistributedKeyShare := { PublicKey : bytes; SecretKeyShare : bytes; Lead : bool }.
Record EvalKeyRound1LeadShare := { EvalMultBase : bytes; EvalSumBase : bytes }.
Record EvalKeyRound1ParticipantShare := { EvalMultSwitchShare : bytes; EvalSumShare : bytes }.
Record EvalKeyRound1Combined := { EvalMultJoined : bytes; joined_EvalSumFinal : bytes }.
Record EvalKeyRound2ParticipantShare := { EvalMultFinalShare : bytes }.
Record EvalKeyFinal := { EvalMultFinal : bytes; EvalSumFinal : bytes }.

(** [bs = 1; for bs < need { bs <<= 1 }] on [w]-bit words; [None] when the
    iterations run out. *)
Fixpoint double_until (w : Z) (fuel : nat) (bs need : Z) : option Z :=
  match fuel with
  | O => None
  | S fuel' => if (bs <? need)%Z then double_until w fuel' ((2 * bs) mod 2 ^ w) need else Some bs
  end.
(** On 32-bit words; on an [int], whose largest power of two is [2^62] and whose
    next doublings give a negative number, then zero for ever. *)
Definition next_pow2 (need : Z) : option Z := double_until 32 33 1 (need mod 2 ^ 32).
Definition next_pow2_int (need : Z) : option Z := double_until 63 64 1 need.

(** *** When the doubling ends, and where *)

Section Doubling.
Context (w : Z) (Hw : (0 < w)%Z).
Local Open Scope Z_scope.

Lemma double_until_zero fuel need : 0 < need -> double_until w fuel 0 need = None.
Proof.
  intros Hn. induction fuel as [|fuel IH]; [done|]. simpl. rewrite (proj2 (Z.ltb_lt 0 need)) by lia.
  by rewrite Zmod_0_l.
Qed.

(** One doubling. *)
Lemma double_pow2 k : 0 <= k < w -> (2 * 2 ^ k) mod 2 ^ w = if k =? w - 1 then 0 else 2 ^ (k + 1).
Proof.
  intros Hk. rewrite <- Z.pow_succ_r, Z.add_1_r by lia. destruct (Z.eqb_spec k (w - 1)) as [->|Hne].
  - replace (Z.succ (w - 1)) with w by lia. apply Z_mod_same_full.
  - apply Z.mod_small. split; [lia|]. apply Z.pow_lt_mono_r; lia.
Qed.

Lemma double_until_ends fuel k need :
  0 <= k < w -> need <= 2 ^ (w - 1) -> w - k <= Z.of_nat fuel -> (k = 0 \/ 2 ^ (k - 1) < need) ->
  exists j, double_until w fuel (2 ^ k) need = Some (2 ^ j) /\ 0 <= j < w /\ need <= 2 ^ j /\ (j = 0 \/ 2 ^ (j - 1) < need).
Proof.
  revert k. induction fuel as [|fuel IH]; intros k Hk Hn Hf Hl; [lia|]. simpl.
  destruct (Z.ltb_spec (2 ^ k) need) as [Hlt|Hge]; [|by exists k].
  rewrite double_pow2 by lia. destruct (Z.eqb_spec k (w - 1)) as [->|Hne]; [lia|].
  apply IH; [lia|lia|lia|right]. by replace (k + 1 - 1) with k by lia.
Qed.

Lemma double_until_diverges fuel k need : 0 <= k < w -> 2 ^ (w - 1) < need -> double_until w fuel (2 ^ k) need = None.
Proof.
  intros Hk Hn. revert k Hk. induction fuel as [|fuel IH]; intros k Hk; [done|]. simpl.
  assert (2 ^ k <= 2 ^ (w - 1)) by (apply Z.pow_le_mono_r; lia).
  rewrite (proj2 (Z.ltb_lt (2 ^ k) need)) by lia. rewrite double_pow2 by lia.
  destruct (Z.eqb_spec k (w - 1)); [apply double_until_zero; lia|apply IH; lia].
Qed.

(** With fuel for every word size, the loop returns exactly the least power of
    two that is enough, when the words have one. *)
Lemma double_until_iff fuel need c :
  w <= Z.of_nat fuel ->
  double_until w fuel 1 need = Some c <->
  need <= 2 ^ (w - 1) /\ exists j, 0 <= j /\ c = 2 ^ j /\ need <= c /\ (forall i, 0 <= i -> need <= 2 ^ i -> j <= i).
Proof.
  intros Hf. change (double_until w fuel 1 need) with (double_until w fuel (2 ^ 0) need). destruct (Z.le_gt_cases need (2 ^ (w - 1))) as [Hn|Hn].
  - destruct (double_until_ends fuel 0 need) as (j & E & Hj & Hc & Hm); [lia|lia|lia|by left|].
    assert (forall i, 0 <= i -> need <= 2 ^ i -> j <= i) as Hleast.
    { intros i Hi Hni. destruct Hm as [->|Hm]; [lia|]. apply Z.le_ngt. intros Hlt.
      assert (2 ^ i <= 2 ^ (j - 1)) by (apply Z.pow_le_mono_r; lia). lia. }
    rewrite E. split.
    + intros [= <-]. split; [done|]. exists j. split_and!; [lia|done|done|done].
    + intros (_ & j' & H0 & -> & Hc' & Hl). do 2 f_equal. pose proof (Hl j ltac:(lia) Hc). pose proof (Hleast j' H0 Hc'). lia.
  - rewrite double_until_diverges by lia. split; [done|]. intros [? _]. lia.
Qed.
End Doubling.

Lemma next_pow2_int_pos need c : next_pow2_int need = Some c -> (0 < c)%Z.
Proof.
  intros (_ & j & Hj & -> & _)%double_until_iff; [|lia|lia]. by apply Z.pow_pos_nonneg.
Qed.

Definition two_pow_50 : float64 := of_Z (2 ^ 50).

(** [None]: the loop of the code does not end. *)
Definition DefaultContractParams (profileDim depth : Z) : option ContractParams :=
  match (if (0 <? profileDim)%Z then next_pow2 (2 * profileDim) else Some 1024%Z) with
  | None => None
  | Some ringDim => Some {|
      RingDim := Z.max ringDim 1024; ScalingFactor := two_pow_50;
      Depth := if (depth =? 0)%Z then 30%Z else depth;
      MinimalRotationKeys := false; ProfileDim := 0; PayloadSlotCount := 0; EvalSumOnlyRotationKeys := false |}
  end.

(** The batch size a context is created with. *)
Definition batch_size (params : ContractParams) : option Z :=
  if MinimalRotationKeys params && (0 <? ProfileDim params)%Z && (0 <? PayloadSlotCount params)%Z then
    next_pow2 (Z.max (ProfileDim params) (PayloadSlotCount params))
  else if EvalSumOnlyRotationKeys params && (0 <? ProfileDim params)%Z then next_pow2 (ProfileDim params)
  else Some 0%Z.
Definition batch_ok (params : ContractParams) : bool := bool_decide (is_Some (batch_size params)).

(** [for s := 1; s < bound; s *= 2] on an [int]: a doubling past [2^62] wraps,
    and the loop then has no end. *)
Fixpoint powers_below (fuel : nat) (s bound : Z) : option (list Z) :=
  match fuel with
  | O => None
  | S fuel' => if (s <? bound)%Z then cons s <$> powers_below fuel' ((2 * s) mod 2 ^ 63)%Z bound else Some []
  end.
Definition minimalRotationIndices (profileDim payloadSlots : Z) : option (list Z) :=
  positive ← powers_below 64 1 profileDim;
  negative ← powers_below 64 1 payloadSlots;
  Some (positive ++ (Z.opp <$> negative)).

(** *** The doublings of the rotation indices *)

Section Rotations.
Local Open Scope Z_scope.

Definition sum_Z (l : list Z) : Z := foldr Z.add 0 l.
Lemma sum_Z_opp l : sum_Z (Z.opp <$> l) = - sum_Z l.
Proof. induction l as [|z l IH]; [done|]. cbn [sum_Z fmap list_fmap foldr] in *. unfold sum_Z in IH. lia. Qed.

Lemma powers_below_zero fuel bound : 0 < bound -> powers_below fuel 0 bound = None.
Proof.
  intros Hb. induction fuel as [|fuel IH]; [done|]. cbn [powers_below]. rewrite (proj2 (Z.ltb_lt 0 bound)) by lia.
  by rewrite Z.mul_0_r, Zmod_0_l, IH.
Qed.

Lemma powers_below_from fuel k bound :
  0 <= k <= 62 -> 63 - k < Z.of_nat fuel ->
  (2 ^ 62 < bound -> powers_below fuel (2 ^ k) bound = None) /\
  (bound <= 2 ^ 62 -> exists l, powers_below fuel (2 ^ k) bound = Some l /\ NoDup l /\
     forall z, z ∈ l <-> exists j, k <= j /\ z = 2 ^ j /\ z < bound).
Proof.
  revert k. induction fuel as [|fuel IH]; intros k Hk Hf; [lia|]. cbn [powers_below].
  rewrite (double_pow2 63) by lia.
  assert (2 ^ k <= 2 ^ 62) as Hp by (apply Z.pow_le_mono_r; lia).
  destruct (Z.ltb_spec (2 ^ k) bound) as [Hlt|Hge].
  - destruct (Z.eqb_spec k (63 - 1)) as [->|Hne].
    { split; [|intros; change (2 ^ (63 - 1)) with (2 ^ 62) in Hlt; lia]. intros Hb. by rewrite powers_below_zero by lia. }
    destruct (IH (k + 1)) as [Hd Hl]; [lia|lia|]. split; [intros Hb; by rewrite Hd|]. intros Hb.
    destruct (Hl Hb) as (l & -> & Hn & Hm). exists (2 ^ k :: l). split; [done|]. split.
    + constructor; [|done]. intros (j & Hj & E & _)%Hm. apply Z.pow_inj_r in E; lia.
    + intros z. rewrite elem_of_cons, Hm. split.
      * intros [->|(j & Hj & -> & Hz)]; [by exists k|exists j]. split_and!; [lia|done|done].
      * intros (j & Hj & -> & Hz). destruct (decide (j = k)) as [->|Hne']; [by left|right]. exists j. split_and!; [lia|done|done].
  - split; [lia|]. intros _. exists []. split; [done|]. split; [constructor|]. intros z. split; [by intros ?%not_elem_of_nil|].
    intros (j & Hj & -> & Hz). assert (2 ^ k <= 2 ^ j) by (apply Z.pow_le_mono_r; lia). lia.
Qed.

(** Every number below [2^n] is a sum of distinct powers of two not above it. *)
Lemma sum_of_powers (n : nat) d :
  0 <= d < 2 ^ Z.of_nat n ->
  exists ks : list Z, NoDup ks /\ sum_Z ks = d /\ forall z, z ∈ ks -> exists j, 0 <= j < Z.of_nat n /\ z = 2 ^ j /\ z <= d.
Proof.
  revert d. induction n as [|n IH]; intros d Hd.
  - exists []. split; [constructor|]. simpl in *. split; [lia|]. by intros z ?%not_elem_of_nil.
  - rewrite Nat2Z.inj_succ, Z.pow_succ_r in Hd by lia. destruct (Z.lt_ge_cases d (2 ^ Z.of_nat n)) as [Hlt|Hge].
    + destruct (IH d) as (ks & Hn & Hs & Hk); [lia|]. exists ks. split_and!; [done|done|].
      intros z (j & Hj & Hz)%Hk. exists j. split; [lia|done].
    + destruct (IH (d - 2 ^ Z.of_nat n)) as (ks & Hn & Hs & Hk); [lia|]. exists (2 ^ Z.of_nat n :: ks). split_and!.
      * constructor; [|done]. intros (j & Hj & E & _)%Hk. apply Z.pow_inj_r in E; lia.
      * simpl. lia.
      * intros z [->|(j & Hj & -> & Hz)%Hk]%elem_of_cons; [exists (Z.of_nat n)|exists j]; (split_and!; [lia|lia|done|lia]).
Qed.

Lemma powers_cover bound (l : list Z) d :
  (forall z, z ∈ l <-> exists j, 0 <= j /\ z = 2 ^ j /\ z < bound) -> 0 <= d < bound ->
  exists ks : list Z, NoDup ks /\ (forall z : Z, z ∈ ks -> z ∈ l) /\ sum_Z ks = d.
Proof.
  intros Hl Hd. destruct (sum_of_powers (Z.to_nat d) d) as (ks & Hn & Hs & Hk).
  { rewrite Z2Nat.id by lia. split; [lia|]. apply Z.pow_gt_lin_r; lia. }
  exists ks. split_and!; [done| |done]. intros z (j & Hj & -> & Hz)%Hk. apply Hl. exists j. split_and!; [lia|done|lia].
Qed.

(** The minimal rotation set: for dimensions up to [2^62] the loops end,
    with each index once, the positive ones the powers of two below the profile
    dimension and the negative ones below the payload slots; every offset of the
    fold and of the broadcast window is then a sum of distinct rotations of the
    set, so no rotation without a key is ever needed.  Above [2^62] the loops do
    not end. *)
Lemma minimalRotationIndices_spec profileDim payloadSlots :
  (2 ^ 62 < Z.max profileDim payloadSlots -> minimalRotationIndices profileDim payloadSlots = None) /\
  (Z.max profileDim payloadSlots <= 2 ^ 62 ->
   exists l, minimalRotationIndices profileDim payloadSlots = Some l /\ NoDup l /\
     (forall z, z ∈ l <-> exists j, 0 <= j /\ (z = 2 ^ j /\ z < profileDim \/ z = - 2 ^ j /\ - z < payloadSlots)) /\
     (forall d, - payloadSlots < d < profileDim -> exists ks : list Z, NoDup ks /\ (forall z : Z, z ∈ ks -> z ∈ l) /\ sum_Z ks = d)).
Proof.
  unfold minimalRotationIndices. destruct (powers_below_from 64 0 profileDim) as [Hd1 Hl1]; [lia|lia|].
  destruct (powers_below_from 64 0 payloadSlots) as [Hd2 Hl2]; [lia|lia|]. change (2 ^ 0) with 1 in *. split.
  - intros Hm. destruct (Z.lt_ge_cases (2 ^ 62) profileDim) as [H1|H1]; [rewrite (Hd1 H1); reflexivity|].
    destruct (Hl1 H1) as (l & -> & _). cbn [mbind option_bind]. rewrite Hd2 by lia. reflexivity.
  - intros Hm. destruct Hl1 as (l1 & -> & Hn1 & Hm1); [lia|]. destruct Hl2 as (l2 & -> & Hn2 & Hm2); [lia|]. cbn [mbind option_bind].
    eexists. split; [reflexivity|].
    assert (forall z, z ∈ Z.opp <$> l2 <-> - z ∈ l2) as Ho.
    { intros z. rewrite list_elem_of_fmap. split; [intros (y & -> & Hy); by rewrite Z.opp_involutive|].
      intros Hz. exists (- z). split; [lia|done]. }
    assert (forall j, 0 <= j -> 0 < 2 ^ j) as Hpos by (intros; lia).
    split_and!.
    + apply NoDup_app. split_and!; [done| |].
      * intros z (j & Hj & -> & _)%Hm1. rewrite Ho, Hm2. intros (i & Hi & E & _). pose proof (Hpos i Hi). pose proof (Hpos j Hj). lia.
      * apply NoDup_fmap_2; [intros x y; lia|done].
    + intros z. rewrite elem_of_app, Ho, Hm1, Hm2. split.
      * intros [(j & Hj & Hz)|(j & Hj & Hz & Hb)]; exists j; (split; [done|]); [by left|right; lia].
      * intros (j & Hj & [Hz|[Hz Hb]]); [left|right]; exists j; (split; [done|]); [done|lia].
    + intros d Hd. destruct (Z.le_gt_cases 0 d) as [H0|H0].
      * destruct (powers_cover profileDim l1 d Hm1) as (ks & Hn & Hk & Hs); [lia|]. exists ks.
        split_and!; [done| |done]. intros z Hz. apply elem_of_app. left. by apply Hk.
      * destruct (powers_cover payloadSlots l2 (- d) Hm2) as (ks & Hn & Hk & Hs); [lia|]. exists (Z.opp <$> ks). split_and!.
        -- apply NoDup_fmap_2; [intros x y; lia|done].
        -- intros z Hz. apply elem_of_app. right. apply list_elem_of_fmap in Hz as (y & -> & Hy).
           rewrite Ho, Z.opp_involutive. by apply Hk.
        -- rewrite sum_Z_opp. lia.
Qed.

(** The doubling loop of the ring dimension ends exactly when twice the
    profile dimension, cut to 32 bits, is at most [2^31]; the ring dimension is
    then the least power of two from 1024 up that holds it. *)
Lemma DefaultContractParams_iff profileDim depth ringDim :
  RingDim <$> DefaultContractParams profileDim depth = Some ringDim <->
  (0 < profileDim -> (2 * profileDim) mod 2 ^ 32 <= 2 ^ 31) /\
  exists j, 10 <= j /\ ringDim = 2 ^ j /\ (0 < profileDim -> (2 * profileDim) mod 2 ^ 32 <= ringDim) /\
    forall i, 10 <= i -> (0 < profileDim -> (2 * profileDim) mod 2 ^ 32 <= 2 ^ i) -> j <= i.
Proof.
  unfold DefaultContractParams. destruct (Z.ltb_spec 0 profileDim) as [Hp|Hp]; simpl.
  - unfold next_pow2. set (need := (2 * profileDim) mod 2 ^ 32).
    pose proof (fun c => double_until_iff 32 ltac:(lia) 33 need c ltac:(lia)) as Hi. change (32 - 1) with 31 in Hi.
    destruct (double_until 32 33 1 need) as [c|] eqn:E; simpl.
    + destruct (proj1 (Hi c) eq_refl) as (Hn & j & Hj & -> & Hc & Hl). clear Hi E.
      assert (Z.max (2 ^ j) 1024 = 2 ^ Z.max j 10) as ->.
      { change 1024 with (2 ^ 10). destruct (Z.max_spec j 10) as [[? ->]|[? ->]];
          [assert (2 ^ j <= 2 ^ 10)|assert (2 ^ 10 <= 2 ^ j)]; try (apply Z.pow_le_mono_r; lia); lia. }
      assert (need <= 2 ^ Z.max j 10) as Hc' by (etrans; [exact Hc|apply Z.pow_le_mono_r; lia]).
      split.
      * intros [= <-]. split; [done|]. exists (Z.max j 10). split_and!; [lia|done|done|].
        intros i Hi Hni. specialize (Hl i ltac:(lia) (Hni Hp)). lia.
      * intros (_ & j' & Hj' & -> & Hn' & Hl'). do 2 f_equal. specialize (Hl' (Z.max j 10) ltac:(lia) (fun _ => Hc')).
        specialize (Hl j' ltac:(lia) (Hn' Hp)). lia.
    + split; [done|]. intros (Hn & j & Hj & -> & Hn' & Hl). exfalso. specialize (Hn Hp).
      destruct (double_until_ends 32 ltac:(lia) 33 0 need) as (c & E' & _); [lia|exact Hn|lia|by left|].
      change (2 ^ 0) with 1 in E'. congruence.
  - split.
    + intros [= <-]. split; [lia|]. exists 10. split_and!; [lia|done|lia|intros; lia].
    + intros (_ & j & Hj & -> & _ & Hl). specialize (Hl 10). f_equal. change (Z.max 1024 1024) with (2 ^ 10). f_equal.
      lia.
Qed.
End Rotations.

Definition requireNonEmptyBytes (name : string) (b : bytes) : option GoError :=
  if is_empty b then Some (Errorf [T name; T " is required (empty slice)"]) else None.

Section Bridge.
Context {V LS : Type} (L : CLib V LS).
Notation CM := (M (CState V LS)).
Local Open Scope string_scope.

(** ** Contexts *)

Definition createContractContext (params : ContractParams) : CM handle :=
  match batch_size params with
  | None => panic "the doubling of the batch size does not end"
  | Some bs =>
      let ringDim := if (RingDim params =? 0)%Z then 1024%Z else RingDim params in
      let factor := if is_zero (ScalingFactor params) then two_pow_50 else ScalingFactor params in
      let depth := if (Depth params =? 0)%Z then 30%Z else Depth params in
      let! ctx := c_must L KContext (C_CreateCKKSContext ringDim factor depth bs) []
                    "failed to create OpenFHE contract context" in
      (if MinimalRotationKeys params then
         c_status L (C_SetMinimalRotationKeys (ProfileDim params) (PayloadSlotCount params)) [(ctx, KContext)]
       else if EvalSumOnlyRotationKeys params then
         c_status L (C_SetEvalSumOnlyRotationKeys (ProfileDim params)) [(ctx, KContext)]
       else ret true) ;;;
      ret ctx
  end.

Definition createBFVContractContext (params : BFVContractParams) : CM handle :=
  let ringDim := if (bfv_RingDim params =? 0)%Z then 32768%Z else bfv_RingDim params in
  let depth := if (MultiplicativeDepth params =? 0)%Z then 20%Z else MultiplicativeDepth params in
  let modulus := if (PlaintextModulus params =? 0)%Z then 65537%Z else PlaintextModulus params in
  let batch := if (BatchSize params <=? 0)%Z then (ringDim / 2)%Z else BatchSize params in
  c_must L KContext (C_CreateBFVContext ringDim depth modulus (batch mod 2 ^ 32)) []
    "failed to create OpenFHE BFV contract context".

(** A context kept by the caller; a closed one is nil. *)
Definition CryptoContext : Type := option handle.
Definition NewCryptoContext (params : ContractParams) : CM CryptoContext :=
  let! ctx := createContractContext params in ret (Some ctx).
Definition Close (c : CryptoContext) : CM CryptoContext :=
  match c with
  | Some ctx => free KContext ctx ;;; ret None
  | None => ret None
  end.

(** ** Serialization *)

Definition serializeWith (op : COp) (k : Kind) (msg : string) (h : handle) : CM bytes :=
  let! data := c_serialize L op [(h, k)] msg in
  deferring (free_opt KBuffer data) (copyCBytes L data).
Definition serializePublicKey := serializeWith (C_Serialize KPublicKey) KPublicKey "public-key serialization failed".
Definition serializeSecretKeyShare :=
  serializeWith (C_Serialize KSecretKey) KSecretKey "secret-key share serialization failed".
Definition serializeEvalMultKey :=
  serializeWith (C_Serialize KEvalMultKey) KEvalMultKey "eval-mult key serialization failed".
Definition serializeRotKey := serializeWith (C_Serialize KRotKey) KRotKey "eval-sum key serialization failed".
Definition serializeCiphertext :=
  serializeWith (C_Serialize KCiphertext) KCiphertext "ciphertext serialization failed".
Definition serializeRotKeyBVectors :=
  serializeWith C_SerializeRotKeyBVectors KRotKey "b-vector rotation-key serialization failed".
Definition serializeRotKeyAVectors :=
  serializeWith C_SerializeRotKeyAVectors KRotKey "a-vector rotation-key serialization failed".

Definition deserializePublicKey (ctx : handle) (raw : bytes) : CM handle :=
  fail_if (is_empty raw) "public key bytes are required" ;;;
  c_must L KPublicKey (C_Deserialize KPublicKey raw) [(ctx, KContext)] "public-key deserialization failed".
Definition deserializeCiphertext (ctx : handle) (raw : bytes) : CM handle :=
  fail_if (is_empty raw) "ciphertext bytes are required" ;;;
  c_must L KCiphertext (C_Deserialize KCiphertext raw) [(ctx, KContext)] "ciphertext deserialization failed".
Definition deserializeSecretKeyShare (ctx : handle) (raw : bytes) (lead : bool) : CM handle :=
  fail_if (is_empty raw) "secret key share bytes are required" ;;;
  c_must L KSecretKey (C_DeserializeSecretKeyShare raw lead) [(ctx, KContext)]
    "secret-key share deserialization failed".
Definition deserializeEvalMultKey (ctx : handle) (raw : bytes) : CM handle :=
  fail_if (is_empty raw) "eval-mult key bytes are required" ;;;
  c_must L KEvalMultKey (C_Deserialize KEvalMultKey raw) [(ctx, KContext)] "eval-mult key deserialization failed".
Definition deserializeRotKey (ctx : handle) (raw : bytes) : CM handle :=
  fail_if (is_empty raw) "eval-sum key bytes are required" ;;;
  c_must L KRotKey (C_Deserialize KRotKey raw) [(ctx, KContext)] "eval-sum key deserialization failed".

Definition at_index (what : string) (i : nat) (e : GoError) : GoError :=
  Errorf [T what; T (fmt_int (Z.of_nat i)); T ": "; W e].

Definition deserializePublicKeys (ctx : handle) (raws : list bytes) : CM (list handle) :=
  collect KPublicKey (fun i raw => wrap_err (at_index "deserialize public key " i) (deserializePublicKey ctx raw)) raws.
Definition deserializeEvalMultKeys (ctx : handle) (raws : list bytes) : CM (list handle) :=
  collect KEvalMultKey
    (fun i raw => wrap_err (at_index "deserialize eval-mult key " i) (deserializeEvalMultKey ctx raw)) raws.
Definition deserializeRotKeys (ctx : handle) (raws : list bytes) : CM (list handle) :=
  collect KRotKey (fun i raw => wrap_err (at_index "deserialize eval-sum key " i) (deserializeRotKey ctx raw)) raws.

Definition reconstructRotKeyFromAB (ctx : handle) (a b : bytes) : CM handle :=
  fail_if (is_empty a || is_empty b) "both a-vectors and b-vectors are required" ;;;
  c_must L KRotKey (C_ReconstructRotKeyFromAB a b) [(ctx, KContext)] "b-only rotation-key reconstruction failed".
Definition deserializeAVectors (a : bytes) : CM handle :=
  fail_if (is_empty a) "a-vectors are required" ;;;
  c_must L KAVectors (C_DeserializeAVectors a) [] "a-vector deserialization failed".
Definition reconstructRotKeyFromAVectors (ctx a : handle) (b : bytes) : CM handle :=
  fail_if (is_empty b) "b-vectors are required" ;;;
  c_must L KRotKey (C_ReconstructRotKeyFromAVectors b) [(ctx, KContext); (a, KAVectors)]
    "b-only rotation-key reconstruction from cached a failed".

(** ** Key pairs *)

Definition keyShare (lead : bool) (pk sk : handle) : CM DistributedKeyShare :=
  let! pkBytes := serializePublicKey pk in
  let! skBytes := serializeSecretKeyShare sk in
  ret {| PublicKey := pkBytes; SecretKeyShare := skBytes; Lead := lead |}.

Definition keyGenFirstIn (scheme : string) (create : CM handle) : CM DistributedKeyShare :=
  with_handle KContext create (fun ctx =>
  with_keypair L C_KeyGenFirst [(ctx, KContext)] (scheme +:+ "distributed keygen first failed") (keyShare true)).
Definition DistributedKeyGenFirst (params : ContractParams) := keyGenFirstIn "" (createContractContext params).
Definition BFVDistributedKeyGenFirst (params : BFVContractParams) :=
  keyGenFirstIn "BFV " (createBFVContractContext params).

Definition keyGenNextIn (scheme : string) (create : CM handle) (prevPublicKey : bytes) : CM DistributedKeyShare :=
  fail_if (is_empty prevPublicKey) "previous public key is required" ;;;
  with_handle KContext create (fun ctx =>
  with_handle KPublicKey (deserializePublicKey ctx prevPublicKey) (fun prev =>
  with_keypair L C_KeyGenNext [(ctx, KContext); (prev, KPublicKey)] (scheme +:+ "distributed keygen next failed")
    (keyShare false))).
Definition DistributedKeyGenNext (params : ContractParams) := keyGenNextIn "" (createContractContext params).
Definition BFVDistributedKeyGenNext (params : BFVContractParams) :=
  keyGenNextIn "BFV " (createBFVContractContext params).

Definition SingleKeyGen (params : ContractParams) : CM (bytes * bytes) :=
  with_handle KContext (createContractContext params) (fun ctx =>
  with_keypair L C_KeyGenFirst [(ctx, KContext)] "keygen failed" (fun cPk cSk =>
  let! pkBytes := wrap_err (fun e => Errorf [T "serialize pk: "; W e]) (serializePublicKey cPk) in
  let! skBytes := wrap_err (fun e => Errorf [T "serialize sk: "; W e]) (serializeSecretKeyShare cSk) in
  ret (pkBytes, skBytes))).

Definition SingleKeyGenWithEvalKey (params : ContractParams) : CM (bytes * bytes * bytes) :=
  with_handle KContext (createContractContext params) (fun ctx =>
  with_keypair L C_KeyGenFirst [(ctx, KContext)] "keygen failed" (fun cPk cSk =>
  with_handle KEvalMultKey
    (c_must L KEvalMultKey C_SingleKeyEvalMultKeyGenWithOutput [(ctx, KContext); (cSk, KSecretKey)]
       "eval-mult keygen failed") (fun cEvalMultKey =>
  let! pkBytes := wrap_err (fun e => Errorf [T "serialize pk: "; W e]) (serializePublicKey cPk) in
  let! skBytes := wrap_err (fun e => Errorf [T "serialize sk: "; W e]) (serializeSecretKeyShare cSk) in
  let! evalMultKeyBytes :=
    wrap_err (fun e => Errorf [T "serialize eval-mult key: "; W e]) (serializeEvalMultKey cEvalMultKey) in
  ret (pkBytes, skBytes, evalMultKeyBytes)))).

(** ** Evaluation keys, round one *)

Definition evalKeyRound1LeadIn (scheme : string) (ctx : handle) (secretKeyShare : bytes) : CM EvalKeyRound1LeadShare :=
  with_handle KSecretKey (deserializeSecretKeyShare ctx secretKeyShare true) (fun sk =>
  with_handle KEvalMultKey
    (c_must L KEvalMultKey C_EvalMultKeyGenLead [(ctx, KContext); (sk, KSecretKey)]
       (scheme +:+ "eval-mult lead key generation failed")) (fun mult =>
  let! multBytes := serializeEvalMultKey mult in
  with_handle KRotKey
    (c_must L KRotKey C_EvalSumKeyGenLead [(ctx, KContext); (sk, KSecretKey)]
       (scheme +:+ "eval-sum lead key generation failed")) (fun sum =>
  let! sumBytes := serializeRotKey sum in
  ret {| EvalMultBase := multBytes; EvalSumBase := sumBytes |}))).
Definition EvalKeyRound1LeadWithContext := evalKeyRound1LeadIn "".
Definition EvalKeyRound1Lead (params : ContractParams) (secretKeyShare : bytes) :=
  with_handle KContext (createContractContext params) (fun ctx => evalKeyRound1LeadIn "" ctx secretKeyShare).
Definition BFVEvalKeyRound1Lead (params : BFVContractParams) (secretKeyShare : bytes) :=
  with_handle KContext (createBFVContractContext params) (fun ctx => evalKeyRound1LeadIn "BFV " ctx secretKeyShare).

Definition evalKeyRound1ParticipantIn (scheme : string) (ctx : handle)
    (secretKeyShare evalMultBase evalSumBase ownPublicKey : bytes) : CM EvalKeyRound1ParticipantShare :=
  with_handle KSecretKey (deserializeSecretKeyShare ctx secretKeyShare false) (fun sk =>
  with_handle KEvalMultKey (deserializeEvalMultKey ctx evalMultBase) (fun multBase =>
  with_handle KRotKey (deserializeRotKey ctx evalSumBase) (fun sumBase =>
  with_handle KPublicKey (deserializePublicKey ctx ownPublicKey) (fun ownPK =>
  with_handle KEvalMultKey
    (c_must L KEvalMultKey C_EvalMultKeySwitchShare [(ctx, KContext); (sk, KSecretKey); (multBase, KEvalMultKey)]
       (scheme +:+ "eval-mult switch-share generation failed")) (fun multShare =>
  let! multBytes := serializeEvalMultKey multShare in
  with_handle KRotKey
    (c_must L KRotKey C_EvalSumKeyShare [(ctx, KContext); (sk, KSecretKey); (sumBase, KRotKey); (ownPK, KPublicKey)]
       (scheme +:+ "eval-sum share generation failed")) (fun sumShare =>
  let! sumBytes := serializeRotKey sumShare in
  ret {| EvalMultSwitchShare := multBytes; EvalSumShare := sumBytes |})))))).
Definition EvalKeyRound1ParticipantWithContext := evalKeyRound1ParticipantIn "".
Definition EvalKeyRound1Participant (params : ContractParams) (secretKeyShare evalMultBase evalSumBase ownPublicKey : bytes) :=
  with_handle KContext (createContractContext params) (fun ctx =>
  evalKeyRound1ParticipantIn "" ctx secretKeyShare evalMultBase evalSumBase ownPublicKey).
Definition BFVEvalKeyRound1Participant (params : BFVContractParams)
    (secretKeyShare evalMultBase evalSumBase ownPublicKey : bytes) :=
  with_handle KContext (createBFVContractContext params) (fun ctx =>
  evalKeyRound1ParticipantIn "BFV " ctx secretKeyShare evalMultBase evalSumBase ownPublicKey).

Definition EvalMultKeyGenLeadWithContext (ctx : handle) (secretKeyShare : bytes) : CM bytes :=
  with_handle KSecretKey (deserializeSecretKeyShare ctx secretKeyShare true) (fun sk =>
  with_handle KEvalMultKey
    (c_must L KEvalMultKey C_EvalMultKeyGenLead [(ctx, KContext); (sk, KSecretKey)]
       "eval-mult lead key generation failed") serializeEvalMultKey).
Definition EvalMultKeySwitchShareWithContext (ctx : handle) (secretKeyShare evalMultBase : bytes) : CM bytes :=
  with_handle KSecretKey (deserializeSecretKeyShare ctx secretKeyShare false) (fun sk =>
  with_handle KEvalMultKey (deserializeEvalMultKey ctx evalMultBase) (fun multBase =>
  with_handle KEvalMultKey
    (c_must L KEvalMultKey C_EvalMultKeySwitchShare [(ctx, KContext); (sk, KSecretKey); (multBase, KEvalMultKey)]
       "eval-mult switch-share generation failed") serializeEvalMultKey)).

(** The eval-mult half of the combination of round one, around what follows. *)
Definition combineEvalMultIn {A} (scheme : string) (ctx : handle) (publicKeys evalMultShares : list bytes)
    (rest : bytes -> CM A) : CM A :=
  with_handles KPublicKey (deserializePublicKeys ctx publicKeys) (fun pks =>
  with_handles KEvalMultKey (deserializeEvalMultKeys ctx evalMultShares) (fun multShares =>
  array_arg pks (length multShares) ;;;
  array_arg multShares (length multShares) ;;;
  with_handle KEvalMultKey
    (c_must L KEvalMultKey (C_CombineEvalMultSwitchShares (length multShares))
       ((ctx, KContext) :: all_owned KPublicKey (take (length multShares) pks) ++ all_owned KEvalMultKey multShares)
       (scheme +:+ "eval-mult switch-share combination failed")) (fun joined =>
  let! joinedBytes := serializeEvalMultKey joined in
  rest joinedBytes))).

Definition CombineEvalMultSwitchSharesWithContext (ctx : handle) (publicKeys evalMultShares : list bytes) : CM bytes :=
  combineEvalMultIn "" ctx publicKeys evalMultShares ret.
Definition CombineEvalMultSwitchShares (params : ContractParams) (publicKeys evalMultShares : list bytes) : CM bytes :=
  fail_if (is_empty publicKeys || negb (length publicKeys =? length evalMultShares)%nat)
    "public/eval-mult share counts must match and be non-empty" ;;;
  with_handle KContext (createContractContext params) (fun ctx =>
  combineEvalMultIn "" ctx publicKeys evalMultShares ret).

(** ** Evaluation keys, round two *)

Definition evalKeyRound2ParticipantIn (scheme : string) (ctx : handle)
    (secretKeyShare evalMultJoined finalPublicKey : bytes) (lead : bool) : CM EvalKeyRound2ParticipantShare :=
  with_handle KSecretKey (deserializeSecretKeyShare ctx secretKeyShare lead) (fun sk =>
  with_handle KEvalMultKey (deserializeEvalMultKey ctx evalMultJoined) (fun joined =>
  with_handle KPublicKey (deserializePublicKey ctx finalPublicKey) (fun finalPK =>
  with_handle KEvalMultKey
    (c_must L KEvalMultKey C_EvalMultKeyFinalShare
       [(ctx, KContext); (sk, KSecretKey); (joined, KEvalMultKey); (finalPK, KPublicKey)]
       (scheme +:+ "eval-mult final-share generation failed")) (fun finalShare =>
  let! finalBytes := serializeEvalMultKey finalShare in
  ret {| EvalMultFinalShare := finalBytes |})))).
Definition EvalKeyRound2ParticipantWithContext := evalKeyRound2ParticipantIn "".
Definition EvalKeyRound2Participant (params : ContractParams) (secretKeyShare evalMultJoined finalPublicKey : bytes) (lead : bool) :=
  with_handle KContext (createContractContext params) (fun ctx =>
  evalKeyRound2ParticipantIn "" ctx secretKeyShare evalMultJoined finalPublicKey lead).
Definition BFVEvalKeyRound2Participant (params : BFVContractParams)
    (secretKeyShare evalMultJoined finalPublicKey : bytes) (lead : bool) :=
  with_handle KContext (createBFVContractContext params) (fun ctx =>
  evalKeyRound2ParticipantIn "BFV " ctx secretKeyShare evalMultJoined finalPublicKey lead).

Definition combineEvalKeyRound2In (scheme : string) (create : CM handle) (finalPublicKey : bytes)
    (evalMultFinalShares : list bytes) (evalSumFinal : bytes) : CM EvalKeyFinal :=
  fail_if (is_empty evalMultFinalShares) "at least one eval-mult final share is required" ;;;
  with_handle KContext create (fun ctx =>
  with_handle KPublicKey (deserializePublicKey ctx finalPublicKey) (fun finalPK =>
  with_handles KEvalMultKey (deserializeEvalMultKeys ctx evalMultFinalShares) (fun finalShares =>
  array_arg finalShares (length finalShares) ;;;
  with_handle KEvalMultKey
    (c_must L KEvalMultKey (C_CombineEvalMultFinalShares (length finalShares))
       ((ctx, KContext) :: (finalPK, KPublicKey) :: all_owned KEvalMultKey finalShares)
       (scheme +:+ "eval-mult final-share combination failed")) (fun final =>
  let! finalBytes := serializeEvalMultKey final in
  ret {| EvalMultFinal := finalBytes; EvalSumFinal := evalSumFinal |})))).
Definition CombineEvalKeyRound2 (params : ContractParams) := combineEvalKeyRound2In "" (createContractContext params).
Definition BFVCombineEvalKeyRound2 (params : BFVContractParams) :=
  combineEvalKeyRound2In "BFV " (createBFVContractContext params).

(** The context-reusing variant also decodes the eval-sum key, and frees the
    combined key by hand. *)
Definition CombineEvalKeyRound2WithContext (ctx : handle) (finalPublicKey : bytes)
    (evalMultFinalShares : list bytes) (evalSumFinal : bytes) : CM EvalKeyFinal :=
  with_handle KPublicKey (deserializePublicKey ctx finalPublicKey) (fun finalPK =>
  with_handles KEvalMultKey (collect KEvalMultKey (fun _ b => deserializeEvalMultKey ctx b) evalMultFinalShares)
    (fun finalShares =>
  with_handle KRotKey (deserializeRotKey ctx evalSumFinal) (fun sumFinal =>
  array_arg finalShares (length finalShares) ;;;
  let! finalBytes := with_handle KEvalMultKey
    (c_must L KEvalMultKey (C_CombineEvalMultFinalShares (length finalShares))
       ((ctx, KContext) :: (finalPK, KPublicKey) :: all_owned KEvalMultKey finalShares)
       "combine eval-mult final shares failed") serializeEvalMultKey in
  ret {| EvalMultFinal := finalBytes; EvalSumFinal := evalSumFinal |}))).

(** ** Splitting a share into its a- and b-vectors *)

Definition SplitRotShareAB (params : ContractParams) (fullShare : bytes) : CM (bytes * bytes) :=
  with_handle KContext (createContractContext params) (fun ctx =>
  with_handle KRotKey (deserializeRotKey ctx fullShare) (fun share =>
  let! a := serializeRotKeyAVectors share in
  let! b := serializeRotKeyBVectors share in
  ret (a, b))).
Definition ReconstructRotShareAB (params : ContractParams) (a b : bytes) : CM bytes :=
  with_handle KContext (createContractContext params) (fun ctx =>
  with_handle KRotKey (reconstructRotKeyFromAB ctx a b) serializeRotKey).

(** ** Eval-sum keys one rotation index at a time *)

Record IndexedEvalSumKey := { Index : Z; Key : bytes }.

Definition StreamedEvalSumKeyGenLeadWithContext (ctx : handle) (secretKeyShare : bytes) : CM bytes :=
  with_handle KSecretKey (deserializeSecretKeyShare ctx secretKeyShare true) (fun sk =>
  with_handle KRotKey
    (c_must L KRotKey C_StreamedEvalSumKeyGenLead [(ctx, KContext); (sk, KSecretKey)]
       "streamed eval-sum lead key generation failed") serializeRotKey).
Definition StreamedEvalSumKeyShareWithContext (ctx : handle) (secretKeyShare evalSumBase ownPublicKey : bytes) : CM bytes :=
  with_handle KSecretKey (deserializeSecretKeyShare ctx secretKeyShare false) (fun sk =>
  with_handle KRotKey (deserializeRotKey ctx evalSumBase) (fun sumBase =>
  with_handle KPublicKey (deserializePublicKey ctx ownPublicKey) (fun ownPK =>
  with_handle KRotKey
    (c_must L KRotKey C_StreamedEvalSumKeyShare
       [(ctx, KContext); (sk, KSecretKey); (sumBase, KRotKey); (ownPK, KPublicKey)]
       "streamed eval-sum share generation failed") serializeRotKey))).

(** The first call asks for the count, the second fills a buffer of that size. *)
Definition MinimalRotationIndicesWithContext (ctx : handle) : CM (list Z) :=
  let! counted := c_ints L C_GetMinimalRotationIndices [(ctx, KContext)] in
  match counted with
  | None => fail "get minimal rotation index count failed"
  | Some c =>
      if is_empty c then ret [] else
      let! filled := c_ints L C_GetMinimalRotationIndices [(ctx, KContext)] in
      match filled with
      | None => fail "get minimal rotation indices failed"
      | Some buf => ret (take (length c) buf)
      end
  end.

Definition GeneratePerIndexEvalSumKeyWithContext (ctx : handle) (secretKeyShare : bytes) (index : Z) : CM bytes :=
  with_handle KSecretKey (deserializeSecretKeyShare ctx secretKeyShare true) (fun sk =>
  with_handle KRotKey
    (c_must L KRotKey (C_GeneratePerIndexEvalSumKey index) [(ctx, KContext); (sk, KSecretKey)]
       ("per-index eval-sum lead key generation failed for index " +:+ fmt_int index)) serializeRotKey).

(** [for _, x := range xs { v, err := f(x); ...; out = append(out, v) }]. *)
Fixpoint for_append {A B} (f : A -> CM B) (xs : list A) : CM (list B) :=
  match xs with
  | [] => ret []
  | x :: xs' => let! v := f x in let! vs := for_append f xs' in ret (v :: vs)
  end.

Definition GeneratePerIndexEvalSumKeysWithContext (ctx : handle) (secretKeyShare : bytes) : CM (list IndexedEvalSumKey) :=
  let! indices := MinimalRotationIndicesWithContext ctx in
  for_append (fun index =>
    let! key := GeneratePerIndexEvalSumKeyWithContext ctx secretKeyShare index in
    ret {| Index := index; Key := key |}) indices.

Definition GeneratePerIndexEvalSumShareWithContext (ctx : handle)
    (secretKeyShare singleIndexBase ownPublicKey : bytes) (index : Z) : CM bytes :=
  with_handle KSecretKey (deserializeSecretKeyShare ctx secretKeyShare false) (fun sk =>
  with_handle KRotKey (deserializeRotKey ctx singleIndexBase) (fun base =>
  with_handle KPublicKey (deserializePublicKey ctx ownPublicKey) (fun ownPK =>
  with_handle KRotKey
    (c_must L KRotKey (C_GeneratePerIndexEvalSumShare index)
       [(ctx, KContext); (sk, KSecretKey); (base, KRotKey); (ownPK, KPublicKey)]
       ("per-index eval-sum share generation failed for index " +:+ fmt_int index)) serializeRotKey))).

Definition GeneratePerIndexEvalSumSharesWithContext (ctx : handle) (secretKeyShare : bytes)
    (baseKeys : list IndexedEvalSumKey) (ownPublicKey : bytes) : CM (list IndexedEvalSumKey) :=
  fail_if (is_empty baseKeys) "per-index eval-sum base keys are required" ;;;
  for_append (fun base =>
    let! key := GeneratePerIndexEvalSumShareWithContext ctx secretKeyShare (Key base) ownPublicKey (int32 (Index base)) in
    ret {| Index := Index base; Key := key |}) baseKeys.

(** ** Ownership

    Every function above releases what it acquires; a constructor's result is
    the one object left. *)

Lemma createContractContext_owns params G :
  batch_ok params = true -> spec G [] (createContractContext params) (fun ctx => [(ctx, KContext)]).
Proof.
  intros Hb%bool_decide_eq_true. unfold createContractContext. destruct Hb as [bs ->]. cbn zeta.
  eapply spec_bind; [apply spec_must; sub_env|]. intros ctx. cbn beta.
  apply (spec_bind _ _ _ _ (fun _ => [(ctx, KContext)])).
  - repeat apply spec_if; [apply spec_status; sub_env..|by apply spec_ret'].
  - intros _. by apply spec_ret'.
Qed.

Lemma createBFVContractContext_owns params G :
  spec G [] (createBFVContractContext params) (fun ctx => [(ctx, KContext)]).
Proof. apply spec_must. sub_env. Qed.

Lemma serializeWith_owns op k msg h G : (h, k) ∈ G -> spec G [] (serializeWith op k msg h) (fun _ => []).
Proof.
  intros Hh. eapply spec_bind; [apply spec_serialize; sub_env|]. intros o. rewrite <- (app_nil_r (opt_owned KBuffer o)).
  apply spec_defer; [apply releases_free_opt|]. apply spec_copy. simpl. set_solver.
Qed.
End Bridge.

#[export] Hint Resolve createContractContext_owns createBFVContractContext_owns serializeWith_owns : cgo.
#[export] Hint Unfold serializePublicKey serializeSecretKeyShare serializeEvalMultKey serializeRotKey serializeCiphertext
  serializeRotKeyBVectors serializeRotKeyAVectors : cgo.

Section Owns.
Context {V LS : Type} (L : CLib V LS).
Implicit Types (G : owned).

Lemma deserializePublicKey_owns ctx raw G :
  (ctx, KContext) ∈ G -> spec G [] (deserializePublicKey L ctx raw) (fun h => [(h, KPublicKey)]).
Proof. intros. unfold deserializePublicKey. own. Qed.
Lemma deserializeCiphertext_owns ctx raw G :
  (ctx, KContext) ∈ G -> spec G [] (deserializeCiphertext L ctx raw) (fun h => [(h, KCiphertext)]).
Proof. intros. unfold deserializeCiphertext. own. Qed.
Lemma deserializeSecretKeyShare_owns ctx raw lead G :
  (ctx, KContext) ∈ G -> spec G [] (deserializeSecretKeyShare L ctx raw lead) (fun h => [(h, KSecretKey)]).
Proof. intros. unfold deserializeSecretKeyShare. own. Qed.
Lemma deserializeEvalMultKey_owns ctx raw G :
  (ctx, KContext) ∈ G -> spec G [] (deserializeEvalMultKey L ctx raw) (fun h => [(h, KEvalMultKey)]).
Proof. intros. unfold deserializeEvalMultKey. own. Qed.
Lemma deserializeRotKey_owns ctx raw G :
  (ctx, KContext) ∈ G -> spec G [] (deserializeRotKey L ctx raw) (fun h => [(h, KRotKey)]).
Proof. intros. unfold deserializeRotKey. own. Qed.
Lemma reconstructRotKeyFromAB_owns ctx a b G :
  (ctx, KContext) ∈ G -> spec G [] (reconstructRotKeyFromAB L ctx a b) (fun h => [(h, KRotKey)]).
Proof. intros. unfold reconstructRotKeyFromAB. own. Qed.
Lemma deserializeAVectors_owns a G : spec G [] (deserializeAVectors L a) (fun h => [(h, KAVectors)]).
Proof. unfold deserializeAVectors. own. Qed.
Lemma reconstructRotKeyFromAVectors_owns ctx a b G :
  (ctx, KContext) ∈ G -> (a, KAVectors) ∈ G ->
  spec G [] (reconstructRotKeyFromAVectors L ctx a b) (fun h => [(h, KRotKey)]).
Proof. intros. unfold reconstructRotKeyFromAVectors. own. Qed.
End Owns.

#[export] Hint Resolve deserializePublicKey_owns deserializeCiphertext_owns deserializeSecretKeyShare_owns
  deserializeEvalMultKey_owns deserializeRotKey_owns reconstructRotKeyFromAB_owns deserializeAVectors_owns
  reconstructRotKeyFromAVectors_owns : cgo.

Section OwnsKeys.
Context {V LS : Type} (L : CLib V LS).
Implicit Types (G : owned).

Lemma deserializePublicKeys_owns ctx raws G :
  (ctx, KContext) ∈ G -> spec G [] (deserializePublicKeys L ctx raws) (all_owned KPublicKey).
Proof. intros. unfold deserializePublicKeys. own. Qed.
Lemma deserializePublicKeys_length ctx raws :
  returns (deserializePublicKeys L ctx raws) (fun hs => length hs = length raws).
Proof. apply returns_collect. Qed.
Lemma deserializeEvalMultKeys_owns ctx raws G :
  (ctx, KContext) ∈ G -> spec G [] (deserializeEvalMultKeys L ctx raws) (all_owned KEvalMultKey).
Proof. intros. unfold deserializeEvalMultKeys. own. Qed.
Lemma deserializeEvalMultKeys_length ctx raws :
  returns (deserializeEvalMultKeys L ctx raws) (fun hs => length hs = length raws).
Proof. apply returns_collect. Qed.
Lemma deserializeRotKeys_owns ctx raws G :
  (ctx, KContext) ∈ G -> spec G [] (deserializeRotKeys L ctx raws) (all_owned KRotKey).
Proof. intros. unfold deserializeRotKeys. own. Qed.
Lemma deserializeRotKeys_length ctx raws :
  returns (deserializeRotKeys L ctx raws) (fun hs => length hs = length raws).
Proof. apply returns_collect. Qed.
Lemma keyShare_owns lead pk sk G :
  (pk, KPublicKey) ∈ G -> (sk, KSecretKey) ∈ G -> spec G [] (keyShare L lead pk sk) (fun _ => []).
Proof. intros. unfold keyShare. own. Qed.
Lemma for_append_owns {A B} (f : A -> M (CState V LS) B) xs G :
  (forall x, spec G [] (f x) (fun _ => [])) -> spec G [] (for_append f xs) (fun _ => []).
Proof. intros Hf. induction xs as [|x xs IH]; simpl; own. Qed.
End OwnsKeys.

#[export] Hint Resolve deserializePublicKeys_owns deserializePublicKeys_length deserializeEvalMultKeys_owns
  deserializeEvalMultKeys_length deserializeRotKeys_owns deserializeRotKeys_length keyShare_owns : cgo.

Section OwnsRounds.
Context {V LS : Type} (L : CLib V LS).
Implicit Types (G : owned).

Lemma keyGenFirstIn_owns scheme create G :
  spec G [] create (fun ctx => [(ctx, KContext)]) -> spec G [] (keyGenFirstIn L scheme create) (fun _ => []).
Proof. intros. unfold keyGenFirstIn. own. Qed.
Lemma keyGenNextIn_owns scheme create prev G :
  spec G [] create (fun ctx => [(ctx, KContext)]) -> spec G [] (keyGenNextIn L scheme create prev) (fun _ => []).
Proof. intros. unfold keyGenNextIn. own. Qed.
Lemma evalKeyRound1LeadIn_owns scheme ctx sk G :
  (ctx, KContext) ∈ G -> spec G [] (evalKeyRound1LeadIn L scheme ctx sk) (fun _ => []).
Proof. intros. unfold evalKeyRound1LeadIn. own. Qed.
Lemma evalKeyRound1ParticipantIn_owns scheme ctx sk mb sb pk G :
  (ctx, KContext) ∈ G -> spec G [] (evalKeyRound1ParticipantIn L scheme ctx sk mb sb pk) (fun _ => []).
Proof. intros. unfold evalKeyRound1ParticipantIn. own. Qed.
Lemma combineEvalMultIn_owns {A} scheme ctx pks shares (rest : bytes -> M (CState V LS) A) G :
  (ctx, KContext) ∈ G -> (0 < length pks)%nat -> length pks = length shares ->
  (forall b G', G ⊆ G' -> spec G' [] (rest b) (fun _ => [])) ->
  spec G [] (combineEvalMultIn L scheme ctx pks shares rest) (fun _ => []).
Proof. intros Hc H0 Hn Hr. unfold combineEvalMultIn. own. Qed.
Lemma evalKeyRound2ParticipantIn_owns scheme ctx sk mj pk lead G :
  (ctx, KContext) ∈ G -> spec G [] (evalKeyRound2ParticipantIn L scheme ctx sk mj pk lead) (fun _ => []).
Proof. intros. unfold evalKeyRound2ParticipantIn. own. Qed.
Lemma combineEvalKeyRound2In_owns scheme create pk shares sum G :
  spec G [] create (fun ctx => [(ctx, KContext)]) ->
  spec G [] (combineEvalKeyRound2In L scheme create pk shares sum) (fun _ => []).
Proof. intros. unfold combineEvalKeyRound2In. own. Qed.
Lemma MinimalRotationIndicesWithContext_owns ctx G :
  (ctx, KContext) ∈ G -> spec G [] (MinimalRotationIndicesWithContext L ctx) (fun _ => []).
Proof. intros. unfold MinimalRotationIndicesWithContext. own. Qed.
Lemma GeneratePerIndexEvalSumKeyWithContext_owns ctx sk i G :
  (ctx, KContext) ∈ G -> spec G [] (GeneratePerIndexEvalSumKeyWithContext L ctx sk i) (fun _ => []).
Proof. intros. unfold GeneratePerIndexEvalSumKeyWithContext. own. Qed.
Lemma GeneratePerIndexEvalSumShareWithContext_owns ctx sk base pk i G :
  (ctx, KContext) ∈ G -> spec G [] (GeneratePerIndexEvalSumShareWithContext L ctx sk base pk i) (fun _ => []).
Proof. intros. unfold GeneratePerIndexEvalSumShareWithContext. own. Qed.
End OwnsRounds.
