(* ===== verification/BridgeFold.v ===== *)
(** * Combination of the eval-sum key shares (pkg/ares/crypto/cgo/incremental_combine.go)

    The shares of the parties are folded into an accumulator one at a time; the
    variants take the shares as bytes, as references resolved when needed, or
    one rotation index at a time with a cache of the shared a-vectors.  The
    cache and the accumulator of an index are variables that deferred clean-ups
    read, hence locals of [CGo.with_locals].  A resolver is any Go function. *)
From Stdlib Require Import ZArith NArith Lia String Ascii.
From stdpp Require Import base gmap list strings.
From S2P Require Import Prelude Bytes.
From S2P Require Import GoFloat GoFmt.
From S2P Require Import CGo Bridge.

Record IndexedEvalSumKeyRef := { ref_Index : Z; Ref : string; ARef : string; BRef : string }.

Definition is_set (s : string) : bool := negb (String.eqb s "").
Definition full_ref (r : IndexedEvalSumKeyRef) : bool := is_set (Ref r) && negb (is_set (ARef r)) && negb (is_set (BRef r)).
Definition ab_ref (r : IndexedEvalSumKeyRef) : bool := negb (is_set (Ref r)) && is_set (ARef r) && is_set (BRef r).
Definition validIndexedEvalSumKeyRef (r : IndexedEvalSumKeyRef) : bool := full_ref r || ab_ref r.

(** ** The shares of every party cover the same indices

    [valid] is the test of one share and [bad] its error; the map of a party is
    its list of shares, without duplicates once checked. *)
Section Validate.
Context {X : Type} (index : X -> Z) (valid : X -> bool) (none bad_front bad_back : string).
Local Open Scope string_scope.

Definition party_error (party : nat) (parts : list string) : GoError :=
  Errorf (T "eval-sum party " :: T (fmt_int (Z.of_nat party)) :: (T <$> parts)).

Fixpoint check_shares (party : nat) (seen : list Z) (shares : list X) : GoError + list Z :=
  match shares with
  | [] => inr seen
  | x :: shares' =>
      let i := index x in
      if negb (valid x) then inl (party_error party [bad_front; fmt_int i; bad_back])
      else if bool_decide (i ∈ seen) then inl (party_error party [" duplicated index "; fmt_int i])
      else check_shares party (seen ++ [i]) shares'
  end.

(** The indices against those of the first party: the text of an error names
    one of the indices concerned, whichever the map yields first. *)
Definition check_required (party : nat) (required keyed : list Z) : option GoError :=
  if negb (length keyed =? length required)%nat then
    Some (party_error party [" submitted "; fmt_int (Z.of_nat (length keyed)); " indices, want "; fmt_int (Z.of_nat (length required))])
  else match filter (fun i => i ∉ keyed) required with
  | i :: _ => Some (party_error party [" missing index "; fmt_int i])
  | [] => match filter (fun i => i ∉ required) keyed with
          | i :: _ => Some (party_error party [" submitted unexpected index "; fmt_int i])
          | [] => None
          end
  end.

Definition check_party (party : nat) (required : option (list Z)) (shares : list X) : GoError + list Z :=
  if is_empty shares then inl (party_error party [none]) else
  match check_shares party [] shares with
  | inl e => inl e
  | inr keyed => match required with
                 | None => inr keyed
                 | Some r => match check_required party r keyed with Some e => inl e | None => inr keyed end
                 end
  end.

Fixpoint check_parties (party : nat) (required : list Z) (byParty : list (list X)) : option GoError :=
  match byParty with
  | [] => None
  | shares :: byParty' => match check_party party (Some required) shares with
                          | inl e => Some e
                          | inr _ => check_parties (S party) required byParty'
                          end
  end.

(** The indices, in the order of the first party. *)
Definition validateIndexed (byParty : list (list X)) : GoError + list Z :=
  match byParty with
  | [] => inl (Errorf [T "at least one eval-sum party is required"])
  | lead :: others =>
      match check_party 0 None lead with
      | inl e => inl e
      | inr indices => match check_parties 1 indices others with Some e => inl e | None => inr indices end
      end
  end.

(** [keyedByParty[party][index]]: the zero value for a missing key. *)
Definition keyed (zero : X) (i : Z) (shares : list X) : X :=
  default zero (find (fun x => (index x =? i)%Z) shares).
End Validate.

Definition validateIndexedEvalSumShares (byParty : list (list IndexedEvalSumKey)) : GoError + list Z :=
  validateIndexed Index (fun x => negb (is_empty (Key x))) " submitted no per-index keys" " index " " has empty key" byParty.
Definition validateIndexedEvalSumShareRefs (byParty : list (list IndexedEvalSumKeyRef)) : GoError + list Z :=
  validateIndexed ref_Index validIndexedEvalSumKeyRef " submitted no per-index key refs" " index "
    " must contain either full ref or a/b refs" byParty.

Section Fold.
Context {V LS : Type} (L : CLib V LS).
Notation CS := (CState V LS).
Notation CM := (M CS).
Local Open Scope string_scope.

Definition EvalSumKeyResolver : Type := string -> CM bytes.

(** ** The accumulator *)

(** [seed := decode; accum := start(seed); free(seed); if accum == nil]. *)
Definition start_accum (seed : CM handle) (msg : string) : CM handle :=
  let! accum := with_handle KRotKey seed (fun seed => c_new L KRotKey C_EvalSumCombineStart [(seed, KRotKey)]) in
  match accum with None => fail msg | Some a => ret a end.

(** Decode a public key, then a share; fold it; free both; test the status. *)
Definition fold_accum (ctx accum : handle) (pk share : CM handle) (msg : string) : CM unit :=
  let! ok := with_handle KPublicKey pk (fun pk => with_handle KRotKey share (fun share =>
    c_update L C_EvalSumCombineFold accum KRotKey [(ctx, KContext); (pk, KPublicKey); (share, KRotKey)])) in
  if ok then ret tt else fail msg.

(** [pkBytes[i]]. *)
Definition element {A} (l : list A) (i : nat) : CM A :=
  match l !! i with Some x => ret x | None => panic "index out of range" end.

Definition deserializePublicKeyAt (ctx : handle) (pkBytes : list bytes) (i : nat) : CM handle :=
  let! raw := element pkBytes i in deserializePublicKey L ctx raw.

(** [for i := 1; i < len(shares); i++], the shares decoded by [load]. *)
Fixpoint fold_from {X} (ctx accum : handle) (pkBytes : list bytes) (load : nat -> X -> CM handle)
    (i : nat) (shares : list X) : CM unit :=
  match shares with
  | [] => ret tt
  | x :: shares' =>
      fold_accum ctx accum (deserializePublicKeyAt ctx pkBytes i) (load i x)
        ("eval-sum combine fold " +:+ fmt_int (Z.of_nat i) +:+ " failed") ;;;
      fold_from ctx accum pkBytes load (S i) shares'
  end.

Definition combineEvalSumWith {X} (load : nat -> X -> CM handle) (ctx : handle) (pkBytes : list bytes)
    (shares : list X) : CM bytes :=
  match shares with
  | [] => panic "index out of range"
  | lead :: others =>
      with_handle KRotKey (start_accum (load 0%nat lead) "eval-sum combine start failed") (fun accum =>
      fold_from ctx accum pkBytes load 1 others ;;;
      serializeRotKey L accum)
  end.

Definition combineEvalSumIncremental (ctx : handle) (pkBytes shareBytes : list bytes) : CM bytes :=
  combineEvalSumWith (fun _ raw => deserializeRotKey L ctx raw) ctx pkBytes shareBytes.

Definition resolve_share (resolve : EvalSumKeyResolver) (ctx : handle) (i : nat) (ref : string) : CM handle :=
  let! raw := wrap_err (at_index "resolve eval-sum share " i) (resolve ref) in
  deserializeRotKey L ctx raw.
Definition combineEvalSumIncrementalLazy (ctx : handle) (pkBytes : list bytes) (shareRefs : list string)
    (resolve : option EvalSumKeyResolver) : CM bytes :=
  fail_if (negb (length pkBytes =? length shareRefs)%nat || is_empty shareRefs)
    "public-key and eval-sum share counts must match and be non-empty" ;;;
  match resolve with
  | None => fail "eval-sum key resolver is required"
  | Some resolve => combineEvalSumWith (resolve_share resolve ctx) ctx pkBytes shareRefs
  end.

(** The reference path: every share is decoded, then one call combines them.
    The locals are the handles of the two arrays set so far. *)
Fixpoint deserialize_pairs (ctx : handle) (pkBytes : list bytes) (i : nat) (shareBytes : list bytes)
    : M (CS * (list handle * list handle)) unit :=
  match shareBytes with
  | [] => ret tt
  | raw :: rest =>
      let! pk := lift (fun _ => deserializePublicKeyAt ctx pkBytes i) in
      let! l := get_local in set_local ((l.1 ++ [pk])%list, l.2) ;;;
      let! share := lift (fun _ => deserializeRotKey L ctx raw) in
      let! l := get_local in set_local (l.1, (l.2 ++ [share])%list) ;;;
      deserialize_pairs ctx pkBytes (S i) rest
  end.
Definition combineEvalSumAllAtOnce (ctx : handle) (pkBytes shareBytes : list bytes) : CM bytes :=
  with_locals ([], []) (fun l => free_all KPublicKey l.1 ;;; free_all KRotKey l.2)
    (deserialize_pairs ctx pkBytes 0 shareBytes ;;;
     lift (fun l =>
       first_element l.1 ;;; first_element l.2 ;;;
       with_handle KRotKey
         (c_must L KRotKey (C_CombineEvalSumKeys (length shareBytes))
            ((ctx, KContext) :: all_owned KPublicKey l.1 ++ all_owned KRotKey l.2)
            "combine eval-sum all-at-once failed") (serializeRotKey L))).

Definition CombineEvalSumSharesIncremental (params : ContractParams) (publicKeys evalSumShares : list bytes) : CM bytes :=
  fail_if (negb (length publicKeys =? length evalSumShares)%nat || is_empty evalSumShares)
    "public-key and eval-sum share counts must match and be non-empty" ;;;
  with_handle KContext (createContractContext L params) (fun ctx =>
  combineEvalSumIncremental ctx publicKeys evalSumShares).

(** ** The fold as an object of its own *)

Record EvalSumIncrementalFold := { fold_ctx : handle; accum : handle; ownsCtx : bool }.

Definition NewEvalSumIncrementalFold (params : ContractParams) (leadBase : bytes) : CM EvalSumIncrementalFold :=
  let! ctx := createContractContext L params in
  let! a := on_error (free KContext ctx)
              (start_accum (deserializeRotKey L ctx leadBase) "eval-sum combine start failed") in
  ret {| fold_ctx := ctx; accum := a; ownsCtx := true |}.
Definition NewEvalSumIncrementalFoldWithContext (ctx : handle) (leadBase : bytes) : CM EvalSumIncrementalFold :=
  let! a := start_accum (deserializeRotKey L ctx leadBase) "eval-sum combine start failed" in
  ret {| fold_ctx := ctx; accum := a; ownsCtx := false |}.
Definition Fold (f : EvalSumIncrementalFold) (publicKey evalSumShare : bytes) : CM unit :=
  fold_accum (fold_ctx f) (accum f) (deserializePublicKey L (fold_ctx f) publicKey)
    (deserializeRotKey L (fold_ctx f) evalSumShare) "eval-sum combine fold failed".
Definition Finalize (f : EvalSumIncrementalFold) : CM bytes :=
  (if ownsCtx f then deferring (free KContext (fold_ctx f)) else id)
    (deferring (free KRotKey (accum f)) (serializeRotKey L (accum f))).

(** ** One rotation index at a time *)

(** The variables of the combination: the key of the indices merged so far, and
    the decoded a-vectors by reference. *)
Record Vars := { final : option handle; aCache : list (string * handle) }.
Notation LM := (M (CS * Vars)).
Definition no_vars : Vars := {| final := None; aCache := [] |}.
Definition free_vars (l : Vars) : CM unit :=
  free_all KAVectors (aCache l).*2 ;;; free_opt KRotKey (final l).

Definition cached (l : Vars) (aref : string) : option handle :=
  snd <$> find (fun e => String.eqb e.1 aref) (aCache l).

(** [use] the a-vectors of a reference, resolved and decoded at the first use. *)
Definition with_aVectors (resolve : EvalSumKeyResolver) (aref : string) (use : handle -> CM handle) : LM handle :=
  let! l := get_local in
  match cached l aref with
  | Some h => lift (fun _ => use h)
  | None =>
      let! h := lift (fun _ =>
        let! a := wrap_err (fun e => Errorf [T "resolve a-vector ref: "; W e]) (resolve aref) in
        wrap_err (fun e => Errorf [T "deserialize a-vectors: "; W e]) (deserializeAVectors L a)) in
      set_local {| final := final l; aCache := (aref, h) :: aCache l |} ;;;
      lift (fun _ => use h)
  end.

Definition resolve_full (ctx : handle) (resolve : EvalSumKeyResolver) (ref : IndexedEvalSumKeyRef) : CM handle :=
  let! raw := wrap_err (fun e => Errorf [T "resolve full key ref: "; W e]) (resolve (Ref ref)) in
  wrap_err (fun e => Errorf [T "deserialize full key ref: "; W e]) (deserializeRotKey L ctx raw).

Definition resolveKeyRefCached (ctx : handle) (resolve : EvalSumKeyResolver) (ref : IndexedEvalSumKeyRef) : LM handle :=
  if full_ref ref then lift (fun _ => resolve_full ctx resolve ref)
  else if ab_ref ref then
    with_aVectors resolve (ARef ref) (fun a =>
      let! b := wrap_err (fun e => Errorf [T "resolve b-vector ref: "; W e]) (resolve (BRef ref)) in
      reconstructRotKeyFromAVectors L ctx a b)
  else throw (Errorf [T "eval-sum ref must contain either full ref or a/b refs"]).

(** The uncached variant, for one reference. *)
Definition resolveIndexedEvalSumKeyRef (ctx : handle) (ref : IndexedEvalSumKeyRef) (resolve : EvalSumKeyResolver) : CM handle :=
  if full_ref ref then resolve_full ctx resolve ref
  else if ab_ref ref then
    let! a := wrap_err (fun e => Errorf [T "resolve a-vector ref: "; W e]) (resolve (ARef ref)) in
    let! b := wrap_err (fun e => Errorf [T "resolve b-vector ref: "; W e]) (resolve (BRef ref)) in
    reconstructRotKeyFromAB L ctx a b
  else throw (Errorf [T "eval-sum ref must contain either full ref or a/b refs"]).

Definition index_error (what : string) (i : Z) (e : GoError) : GoError :=
  Errorf [T what; T " index "; T (fmt_int i); T ": "; W e].
Definition party_text (party : nat) : string := " eval-sum party " +:+ fmt_int (Z.of_nat party).

(** Fold the shares of the parties from [party] on into [accum]. *)
Fixpoint fold_parties {X} (verb : string) (load : X -> LM handle) (ctx accum : handle) (publicKeys : list bytes)
    (i : Z) (party : nat) (shares : list X) : LM unit :=
  match shares with
  | [] => ret tt
  | x :: shares' =>
      let! pk := wrap_err (at_index "deserialize public key party " party)
                   (lift (fun _ => deserializePublicKeyAt ctx publicKeys party)) in
      let! share := on_error (lift (fun _ => free KPublicKey pk))
                      (wrap_err (index_error (verb +:+ party_text party) i) (load x)) in
      lift (fun _ =>
        let! ok := c_update L C_EvalSumCombineFold accum KRotKey [(ctx, KContext); (pk, KPublicKey); (share, KRotKey)] in
        free KRotKey share ;;; free KPublicKey pk ;;;
        if ok then ret tt
        else fail ("eval-sum combine fold party " +:+ fmt_int (Z.of_nat party) +:+ " index " +:+ fmt_int i +:+ " failed")) ;;;
      fold_parties verb load ctx accum publicKeys i (S party) shares'
  end.

(** One index: the lead's key starts the accumulator, the others are folded in,
    and [finish] disposes of the result. *)
Definition combine_index {X} (verb : string) (load : X -> LM handle) (finish : handle -> Z -> LM unit) (ctx : handle)
    (publicKeys : list bytes) (lead : X) (others : list X) (i : Z) : LM unit :=
  let! seed := wrap_err (index_error (verb +:+ " lead eval-sum") i) (load lead) in
  let! started := lift (fun _ =>
    let! a := c_new L KRotKey C_EvalSumCombineStart [(seed, KRotKey)] in free KRotKey seed ;;; ret a) in
  match started with
  | None => throw (Errorf [T "eval-sum combine start index "; T (fmt_int i); T " failed"])
  | Some accum =>
      on_error (lift (fun _ => free KRotKey accum)) (fold_parties verb load ctx accum publicKeys i 1 others) ;;;
      finish accum i
  end.

Fixpoint combine_indices {X} (index : X -> Z) (zero : X) (verb : string) (load : X -> LM handle) (finish : handle -> Z -> LM unit)
    (ctx : handle) (publicKeys : list bytes) (lead : list X) (others : list (list X)) (indices : list Z) : LM unit :=
  match indices with
  | [] => ret tt
  | i :: indices' =>
      combine_index verb load finish ctx publicKeys (keyed index zero i lead) (keyed index zero i <$> others) i ;;;
      combine_indices index zero verb load finish ctx publicKeys lead others indices'
  end.

(** Into the first key, or merged with what is there. *)
Definition merge_final (accum : handle) (i : Z) : LM unit :=
  let! l := get_local in
  match final l with
  | None => set_local {| final := Some accum; aCache := aCache l |} ;;; ret tt
  | Some f =>
      lift (fun _ =>
        let! ok := c_update L C_MergeEvalSumKeyMaps f KRotKey [(accum, KRotKey)] in
        free KRotKey accum ;;;
        if ok then ret tt else fail ("merge eval-sum index " +:+ fmt_int i +:+ " failed"))
  end.
(** Into the context. *)
Definition insert_final (ctx accum : handle) (i : Z) : LM unit :=
  lift (fun _ =>
    let! ok := c_status L C_InsertEvalSumKeyAppend [(ctx, KContext); (accum, KRotKey)] in
    free KRotKey accum ;;;
    if ok then ret tt else fail ("insert eval-sum index " +:+ fmt_int i +:+ " failed")).

Definition no_key : IndexedEvalSumKey := {| Index := 0; Key := [] |}.
Definition no_ref : IndexedEvalSumKeyRef := {| ref_Index := 0; Ref := ""; ARef := ""; BRef := "" |}.

Definition of_validation {A} (r : GoError + A) : CM A := match r with inl e => throw e | inr a => ret a end.

Definition serialize_final : LM bytes :=
  lift (fun l => match final l with
                 | None => fail "no per-index eval-sum keys to combine"
                 | Some f => serializeRotKey L f
                 end).

Definition combineEvalSumPerIndex (ctx : handle) (publicKeys : list bytes) (byParty : list (list IndexedEvalSumKey)) : CM bytes :=
  let! indices := of_validation (validateIndexedEvalSumShares byParty) in
  with_locals no_vars free_vars
    (combine_indices Index no_key "deserialize" (fun x => lift (fun _ => deserializeRotKey L ctx (Key x))) merge_final
       ctx publicKeys (hd [] byParty) (tl byParty) indices ;;;
     serialize_final).

Definition combineEvalSumPerIndexLazy (ctx : handle) (publicKeys : list bytes) (byParty : list (list IndexedEvalSumKeyRef))
    (resolve : EvalSumKeyResolver) : CM bytes :=
  let! indices := of_validation (validateIndexedEvalSumShareRefs byParty) in
  with_locals no_vars free_vars
    (combine_indices ref_Index no_ref "load" (resolveKeyRefCached ctx resolve) merge_final
       ctx publicKeys (hd [] byParty) (tl byParty) indices ;;;
     serialize_final).

Definition insertEvalSumPerIndexLazy (ctx : handle) (publicKeys : list bytes) (byParty : list (list IndexedEvalSumKeyRef))
    (resolve : option EvalSumKeyResolver) : CM unit :=
  let! indices := of_validation (validateIndexedEvalSumShareRefs byParty) in
  fail_if (negb (length publicKeys =? length byParty)%nat) "public key count must match eval-sum party count" ;;;
  match resolve with
  | None => fail "eval-sum key resolver is required"
  | Some resolve =>
      c_check L C_ClearEvalSumKeysForContext [(ctx, KContext)] "clear eval-sum key cache failed" ;;;
      with_locals no_vars free_vars
        (combine_indices ref_Index no_ref "load" (resolveKeyRefCached ctx resolve) (insert_final ctx)
           ctx publicKeys (hd [] byParty) (tl byParty) indices)
  end.
(** A nil context, or a closed one. *)
Definition InsertEvalSumKeysPerIndexLazyWithContext (ctx : option handle) (publicKeys : list bytes)
    (byParty : list (list IndexedEvalSumKeyRef)) (resolve : option EvalSumKeyResolver) : CM unit :=
  match ctx with
  | None => fail "crypto context is required"
  | Some ctx => insertEvalSumPerIndexLazy ctx publicKeys byParty resolve
  end.

(** ** Round one *)

Definition counts_text : string := "public/eval-key share counts must match and be non-empty".
Definition parties_text : string := "public/eval-mult/eval-sum party counts must match and be non-empty".
Definition counts_differ {X Y Z} (pks : list X) (ms : list Y) (ss : list Z) : bool :=
  is_empty pks || negb (length pks =? length ms)%nat || negb (length pks =? length ss)%nat.

Definition round1 (mult sum : bytes) : EvalKeyRound1Combined := {| EvalMultJoined := mult; joined_EvalSumFinal := sum |}.

Definition CombineEvalKeyRound1 (params : ContractParams) (publicKeys evalMultShares evalSumShares : list bytes)
    : CM EvalKeyRound1Combined :=
  fail_if (counts_differ publicKeys evalMultShares evalSumShares) counts_text ;;;
  with_handle KContext (createContractContext L params) (fun ctx =>
  combineEvalMultIn L "" ctx publicKeys evalMultShares (fun mult =>
  let! sum := combineEvalSumIncremental ctx publicKeys evalSumShares in ret (round1 mult sum))).
Definition BFVCombineEvalKeyRound1 (params : BFVContractParams) (publicKeys evalMultShares evalSumShares : list bytes)
    : CM EvalKeyRound1Combined :=
  fail_if (counts_differ publicKeys evalMultShares evalSumShares) counts_text ;;;
  with_handle KContext (createBFVContractContext L params) (fun ctx =>
  combineEvalMultIn L "BFV " ctx publicKeys evalMultShares (fun mult =>
  let! sum := combineEvalSumIncremental ctx publicKeys evalSumShares in ret (round1 mult sum))).
Definition BFVCombineEvalKeyRound1Lazy (params : BFVContractParams) (publicKeys evalMultShares : list bytes)
    (evalSumShareRefs : list string) (resolve : option EvalSumKeyResolver) : CM EvalKeyRound1Combined :=
  fail_if (counts_differ publicKeys evalMultShares evalSumShareRefs) counts_text ;;;
  match resolve with
  | None => fail "eval-sum key resolver is required"
  | Some _ =>
      with_handle KContext (createBFVContractContext L params) (fun ctx =>
      combineEvalMultIn L "BFV " ctx publicKeys evalMultShares (fun mult =>
      let! sum := combineEvalSumIncrementalLazy ctx publicKeys evalSumShareRefs resolve in ret (round1 mult sum)))
  end.

Definition combineEvalKeyRound1PerIndex (ctx : handle) (publicKeys evalMultShares : list bytes)
    (evalSumSharesByParty : list (list IndexedEvalSumKey)) : CM EvalKeyRound1Combined :=
  fail_if (counts_differ publicKeys evalMultShares evalSumSharesByParty) parties_text ;;;
  combineEvalMultIn L "" ctx publicKeys evalMultShares (fun mult =>
  let! sum := combineEvalSumPerIndex ctx publicKeys evalSumSharesByParty in ret (round1 mult sum)).
Definition CombineEvalKeyRound1PerIndexWithContext := combineEvalKeyRound1PerIndex.
Definition combineEvalKeyRound1PerIndexLazy (ctx : handle) (publicKeys evalMultShares : list bytes)
    (refsByParty : list (list IndexedEvalSumKeyRef)) (resolve : EvalSumKeyResolver) : CM EvalKeyRound1Combined :=
  fail_if (counts_differ publicKeys evalMultShares refsByParty) parties_text ;;;
  combineEvalMultIn L "" ctx publicKeys evalMultShares (fun mult =>
  let! sum := combineEvalSumPerIndexLazy ctx publicKeys refsByParty resolve in ret (round1 mult sum)).
Definition combinePerIndexLazyIn (create : CM handle) (publicKeys evalMultShares : list bytes)
    (refsByParty : list (list IndexedEvalSumKeyRef)) (resolve : option EvalSumKeyResolver) : CM EvalKeyRound1Combined :=
  fail_if (counts_differ publicKeys evalMultShares refsByParty) parties_text ;;;
  match resolve with
  | None => fail "eval-sum key resolver is required"
  | Some resolve => with_handle KContext create (fun ctx =>
                    combineEvalKeyRound1PerIndexLazy ctx publicKeys evalMultShares refsByParty resolve)
  end.
Definition CombineEvalKeyRound1PerIndexLazy (params : ContractParams) :=
  combinePerIndexLazyIn (createContractContext L params).
Definition BFVCombineEvalKeyRound1PerIndexLazy (params : BFVContractParams) :=
  combinePerIndexLazyIn (createBFVContractContext L params).
End Fold.

(** ** Ownership *)

Definition vars_owned (l : Vars) : owned := all_owned KAVectors (aCache l).*2 ++ opt_owned KRotKey (final l).

Section Owns.
Context {V LS : Type} (L : CLib V LS).
Notation CS := (CState V LS).
Notation CM := (M CS).
Notation LM := (M (CS * Vars)).
Implicit Types (G : owned) (l : Vars).

Definition resolver_ok (resolve : EvalSumKeyResolver) : Prop :=
  forall ref G, spec G [] (resolve ref : CM bytes) (fun _ => []).

Lemma start_accum_owns seed msg G :
  spec G [] seed (fun h => [(h, KRotKey)]) -> spec G [] (start_accum L seed msg) (fun h => [(h, KRotKey)]).
Proof. intros. unfold start_accum. own. Qed.

Lemma fold_accum_owns ctx accum pk share msg G :
  (ctx, KContext) ∈ G -> (accum, KRotKey) ∈ G ->
  spec G [] pk (fun h => [(h, KPublicKey)]) ->
  (forall G', G ⊆ G' -> spec G' [] share (fun h => [(h, KRotKey)])) ->
  spec G [] (fold_accum L ctx accum pk share msg) (fun _ => []).
Proof. intros ? ? ? Hs. unfold fold_accum. own. Qed.

Lemma element_owns {A} (l : list A) i G : (i < length l)%nat -> spec G [] (element l i : CM A) (fun _ => []).
Proof. intros [x Hx]%lookup_lt_is_Some. unfold element. rewrite Hx. own. Qed.

Lemma deserializePublicKeyAt_owns ctx pkBytes i G :
  (ctx, KContext) ∈ G -> (i < length pkBytes)%nat ->
  spec G [] (deserializePublicKeyAt L ctx pkBytes i) (fun h => [(h, KPublicKey)]).
Proof.
  intros Hc Hi. eapply spec_bind; [by apply element_owns|]. intros raw. by apply deserializePublicKey_owns.
Qed.

Lemma fold_from_owns {X} ctx accum pkBytes (load : nat -> X -> CM handle) i shares G :
  (ctx, KContext) ∈ G -> (accum, KRotKey) ∈ G -> (i + length shares <= length pkBytes)%nat ->
  (forall j x G', G ⊆ G' -> spec G' [] (load j x) (fun h => [(h, KRotKey)])) ->
  spec G [] (fold_from L ctx accum pkBytes load i shares) (fun _ => []).
Proof.
  intros Hc Ha. revert i. induction shares as [|x shares IH]; intros i Hi Hl; simpl in *; [own|].
  eapply spec_bind; [apply fold_accum_owns; auto; apply deserializePublicKeyAt_owns; auto; lia|].
  intros u. apply IH; [lia|done].
Qed.

Lemma combineEvalSumWith_owns {X} (load : nat -> X -> CM handle) ctx pkBytes shares G :
  (ctx, KContext) ∈ G -> (0 < length shares <= length pkBytes)%nat ->
  (forall j x G', G ⊆ G' -> spec G' [] (load j x) (fun h => [(h, KRotKey)])) ->
  spec G [] (combineEvalSumWith L load ctx pkBytes shares) (fun _ => []).
Proof.
  intros Hc Hn Hl. destruct shares as [|lead shares]; simpl in *; [lia|].
  eapply spec_with; [by apply start_accum_owns, Hl|]. intros accum.
  eapply spec_bind; [apply fold_from_owns; [in_env|in_env|lia|]|intros u; own].
  intros j x G' HG. apply Hl. set_solver.
Qed.

Lemma combineEvalSumIncremental_owns ctx pkBytes shareBytes G :
  (ctx, KContext) ∈ G -> (0 < length shareBytes <= length pkBytes)%nat ->
  spec G [] (combineEvalSumIncremental L ctx pkBytes shareBytes) (fun _ => []).
Proof. intros Hc Hn. apply combineEvalSumWith_owns; [done..|]. intros j x G' HG. apply deserializeRotKey_owns. auto. Qed.

Lemma combineEvalSumIncrementalLazy_owns ctx pkBytes shareRefs resolve G :
  (ctx, KContext) ∈ G -> (forall r, resolve = Some r -> resolver_ok r) ->
  spec G [] (combineEvalSumIncrementalLazy L ctx pkBytes shareRefs resolve) (fun _ => []).
Proof.
  intros Hc Hr. apply spec_guard. intros Hn. destruct resolve as [r|]; [|own].
  apply combineEvalSumWith_owns; [done|len|]. intros j x G' HG. unfold resolve_share.
  eapply spec_bind; [apply spec_wrap, Hr; reflexivity|]. intros raw. apply deserializeRotKey_owns. auto.
Qed.

(** The combination of the indices, with its variables. *)

Notation lspec := (lspec vars_owned).

Lemma free_vars_releases l : releases (vars_owned l) (free_vars l : CM unit).
Proof. apply releases_seq; [apply releases_free_all|apply releases_free_opt]. Qed.

Lemma cached_owned l aref h : cached l aref = Some h -> (h, KAVectors) ∈ vars_owned l.
Proof.
  unfold cached. destruct (find _ _) as [e|] eqn:E; [|done]. intros [= <-]. apply find_some in E as [Hin _].
  apply elem_of_app. left. apply list_elem_of_fmap. exists e.2. split; [done|]. apply list_elem_of_fmap.
  exists e. split; [done|]. by apply list_elem_of_In.
Qed.

Lemma with_aVectors_owns resolve aref use l G :
  resolver_ok resolve ->
  (forall a G', G ⊆ G' -> (a, KAVectors) ∈ G' -> spec G' [] (use a) (fun h => [(h, KRotKey)])) ->
  lspec G l [] (with_aVectors L resolve aref use) (fun h => [(h, KRotKey)]).
Proof.
  intros Hr Hu. apply lspec_get. destruct (cached l aref) as [h|] eqn:E.
  { apply lspec_lift, Hu; [set_solver|]. apply cached_owned in E. set_solver. }
  eapply lspec_lift_bind.
  - eapply spec_bind; [apply spec_wrap, Hr|]. intros a. apply spec_wrap, deserializeAVectors_owns.
  - intros h. eapply (lspec_set _ _ _ _ _ []); [done|]. apply lspec_lift, Hu; set_solver.
Qed.

Lemma resolve_full_owns ctx resolve ref G :
  resolver_ok resolve -> (ctx, KContext) ∈ G -> spec G [] (resolve_full L ctx resolve ref) (fun h => [(h, KRotKey)]).
Proof. intros Hr Hc. eapply spec_bind; [apply spec_wrap, Hr|]. intros raw. cbn beta. own. Qed.

Lemma resolveKeyRefCached_owns ctx resolve ref l G :
  resolver_ok resolve -> (ctx, KContext) ∈ G ->
  lspec G l [] (resolveKeyRefCached L ctx resolve ref) (fun h => [(h, KRotKey)]).
Proof.
  intros Hr Hc. unfold resolveKeyRefCached. destruct (full_ref ref).
  { apply lspec_lift, resolve_full_owns; [done|]. set_solver. }
  destruct (ab_ref ref); [|apply lspec_throw]. apply with_aVectors_owns; [done|]. intros a G' HG Ha.
  eapply spec_bind; [apply spec_wrap, Hr|]. intros b. apply reconstructRotKeyFromAVectors_owns; auto.
Qed.

Lemma fold_parties_owns {X} verb (load : X -> LM handle) ctx accum publicKeys i party shares l G :
  (ctx, KContext) ∈ G -> (accum, KRotKey) ∈ G -> (party + length shares <= length publicKeys)%nat ->
  (forall x l G', G ⊆ G' -> lspec G' l [] (load x) (fun h => [(h, KRotKey)])) ->
  lspec G l [] (fold_parties L verb load ctx accum publicKeys i party shares) (fun _ => []).
Proof.
  intros Hc Ha. revert party l. induction shares as [|x shares IH]; intros party l Hp Hl; simpl in *; [by apply lspec_ret|].
  eapply lspec_bind; [apply lspec_wrap, lspec_lift, deserializePublicKeyAt_owns; [set_solver|lia]|].
  intros pk l1. cbn beta.
  eapply lspec_bind; [apply (lspec_on_error _ _ _ [] [(pk, KPublicKey)]); [apply releases_free|apply lspec_wrap, Hl; set_solver]|].
  intros share l2. cbn beta.
  eapply lspec_bind; [apply lspec_lift|intros u l3; apply IH; [lia|done]].
  eapply spec_bind; [apply spec_update; set_solver|]. intros ok. cbn [app].
  eapply spec_bind; [eapply spec_perm; [apply Permutation_swap|reflexivity|apply spec_free]|]. intros u.
  eapply spec_bind; [apply spec_free|]. intros u'. own.
Qed.

(** A share folded, whatever disposes of it. *)
Definition finishes (finish : handle -> Z -> LM unit) G : Prop :=
  forall accum i l, lspec G l [(accum, KRotKey)] (finish accum i) (fun _ => []).

Lemma combine_index_owns {X} verb (load : X -> LM handle) finish ctx publicKeys lead others i l G :
  (ctx, KContext) ∈ G -> (S (length others) <= length publicKeys)%nat ->
  (forall x l G', G ⊆ G' -> lspec G' l [] (load x) (fun h => [(h, KRotKey)])) -> finishes finish G ->
  lspec G l [] (combine_index L verb load finish ctx publicKeys lead others i) (fun _ => []).
Proof.
  intros Hc Hn Hl Hf. eapply lspec_bind; [by apply lspec_wrap, Hl|]. intros seed l1. cbn beta.
  eapply lspec_bind; [apply (lspec_lift _ _ _ _ _ (opt_owned KRotKey))|].
  - eapply spec_bind; [apply spec_new; set_solver|]. intros a. cbn beta.
    eapply spec_bind; [eapply spec_perm; [apply Permutation_app_comm|reflexivity|apply spec_free]|].
    intros u. by apply spec_ret'.
  - intros [accum|] l2; [|apply lspec_throw]. cbn [opt_owned].
    eapply lspec_bind; [|intros u l3; apply Hf].
    apply (lspec_on_error _ _ _ [] [(accum, KRotKey)] _ _ (fun _ => [])); [apply releases_free|].
    apply fold_parties_owns; [set_solver|set_solver|simpl; lia|]. intros x l' G' HG. apply Hl. set_solver.
Qed.

Lemma combine_indices_owns {X} index (zero : X) verb (load : X -> LM handle) finish ctx publicKeys lead others indices l G :
  (ctx, KContext) ∈ G -> (S (length others) <= length publicKeys)%nat ->
  (forall x l G', G ⊆ G' -> lspec G' l [] (load x) (fun h => [(h, KRotKey)])) -> finishes finish G ->
  lspec G l [] (combine_indices L index zero verb load finish ctx publicKeys lead others indices) (fun _ => []).
Proof.
  intros Hc Hn Hl Hf. revert l. induction indices as [|i indices IH]; intros l; simpl; [by apply lspec_ret|].
  eapply lspec_bind; [apply combine_index_owns; [done| |done..]|intros u l1; apply IH].
  by rewrite length_fmap.
Qed.

Lemma merge_final_owns G : finishes (merge_final L) G.
Proof.
  intros accum i l. apply lspec_get. destruct (final l) as [f|] eqn:E.
  - apply lspec_lift. eapply spec_bind; [apply spec_update; unfold vars_owned; rewrite E; set_solver|].
    intros ok. eapply spec_bind; [apply spec_free|]. intros u. own.
  - eapply (lspec_set _ _ _ _ _ []); [|by apply lspec_ret]. unfold vars_owned. rewrite E. simpl.
    rewrite app_nil_r. apply Permutation_cons_append.
Qed.

Lemma insert_final_owns ctx G : (ctx, KContext) ∈ G -> finishes (insert_final L ctx) G.
Proof.
  intros Hc accum i l. apply lspec_lift. eapply spec_bind; [apply spec_status; set_solver|].
  intros ok. eapply spec_bind; [apply spec_free|]. intros u. own.
Qed.

Lemma serialize_final_owns l G : lspec G l [] (serialize_final L) (fun _ => []).
Proof.
  apply lspec_lift. destruct (final l) as [f|] eqn:E; [|own]. apply serializeWith_owns.
  unfold vars_owned. rewrite E. set_solver.
Qed.

Lemma of_validation_owns {A} (r : GoError + A) G : spec G [] (of_validation r : CM A) (fun _ => []).
Proof. destruct r; [apply spec_throw|by apply spec_ret']. Qed.

(** What a call does before it fails to validate does not matter. *)
Lemma per_index_owns {A B} (r : GoError + A) (k : A -> CM B) G :
  (forall a, r = inr a -> spec G [] (k a) (fun _ => [])) ->
  spec G [] (let! a := of_validation r in k a) (fun _ => []).
Proof. destruct r as [e|a]; intros Hk; [apply spec_throw|]. by apply (Hk a). Qed.

Lemma tl_length {A} (l : list (list A)) n : length l = n -> (0 < n)%nat -> (S (length (tl l)) <= n)%nat.
Proof. destruct l; simpl; lia. Qed.

Lemma combineEvalSumPerIndex_owns ctx publicKeys byParty G :
  (ctx, KContext) ∈ G -> (0 < length publicKeys)%nat -> length byParty = length publicKeys ->
  spec G [] (combineEvalSumPerIndex L ctx publicKeys byParty) (fun _ => []).
Proof.
  intros Hc H0 Hn. apply per_index_owns. intros indices _.
  apply (spec_with_locals vars_owned); [done|apply free_vars_releases|].
  eapply lspec_bind; [apply combine_indices_owns|intros u l; apply serialize_final_owns].
  - done.
  - by apply tl_length.
  - intros x l G' HG. apply lspec_lift, deserializeRotKey_owns. set_solver.
  - apply merge_final_owns.
Qed.

Lemma combineEvalSumPerIndexLazy_owns ctx publicKeys byParty resolve G :
  resolver_ok resolve ->
  (ctx, KContext) ∈ G -> (0 < length publicKeys)%nat -> length byParty = length publicKeys ->
  spec G [] (combineEvalSumPerIndexLazy L ctx publicKeys byParty resolve) (fun _ => []).
Proof.
  intros Hr Hc H0 Hn. apply per_index_owns. intros indices _.
  apply (spec_with_locals vars_owned); [done|apply free_vars_releases|].
  eapply lspec_bind; [apply combine_indices_owns|intros u l; apply serialize_final_owns].
  - done.
  - by apply tl_length.
  - intros x l G' HG. apply resolveKeyRefCached_owns; [done|]. set_solver.
  - apply merge_final_owns.
Qed.

Lemma insertEvalSumPerIndexLazy_owns ctx publicKeys byParty resolve G :
  (forall r, resolve = Some r -> resolver_ok r) -> (ctx, KContext) ∈ G ->
  spec G [] (insertEvalSumPerIndexLazy L ctx publicKeys byParty resolve) (fun _ => []).
Proof.
  intros Hr Hc. apply per_index_owns. intros indices Hv. apply spec_guard. intros Hn.
  destruct resolve as [r|]; [|own]. eapply spec_bind; [apply spec_check; set_solver|]. intros u.
  apply (spec_with_locals vars_owned); [done|apply free_vars_releases|].
  apply combine_indices_owns.
  - done.
  - destruct byParty; [done|]. simpl in *. len.
  - intros x l G' HG. apply resolveKeyRefCached_owns; [by apply Hr|]. set_solver.
  - by apply insert_final_owns.
Qed.

(** The reference path. *)
Definition pair_owned (v : list handle * list handle) : owned := all_owned KPublicKey v.1 ++ all_owned KRotKey v.2.

Lemma deserialize_pairs_owns ctx pkBytes i shareBytes v G :
  (ctx, KContext) ∈ G -> (i + length shareBytes <= length pkBytes)%nat ->
  CGo.lspec pair_owned G v [] (deserialize_pairs L ctx pkBytes i shareBytes) (fun _ => []).
Proof.
  intros Hc. revert i v. induction shareBytes as [|raw rest IH]; intros i v Hi; simpl in *; [by apply lspec_ret|].
  eapply lspec_lift_bind; [apply deserializePublicKeyAt_owns; [set_solver|lia]|]. intros pk. apply lspec_get.
  eapply (lspec_set _ _ _ _ _ []).
  { unfold pair_owned, all_owned. simpl. rewrite fmap_app. simpl. rewrite <- app_assoc. simpl. apply Permutation_middle. }
  eapply lspec_lift_bind; [apply deserializeRotKey_owns; set_solver|]. intros share. apply lspec_get.
  eapply (lspec_set _ _ _ _ _ []); [|apply IH; lia].
  unfold pair_owned, all_owned. simpl. rewrite !fmap_app. simpl. rewrite app_assoc. apply Permutation_cons_append.
Qed.

Lemma deserialize_pairs_length ctx pkBytes i shareBytes v s u s' v' :
  deserialize_pairs L ctx pkBytes i shareBytes (s, v) = (Ok u, (s', v')) ->
  length v'.1 = (length v.1 + length shareBytes)%nat /\ length v'.2 = (length v.2 + length shareBytes)%nat.
Proof.
  revert i v s. induction shareBytes as [|raw rest IH]; intros i v s H; simpl in H.
  { injection H as _ _ <-. simpl. lia. }
  unfold lift in H. apply bind_Ok_inv in H as (pk & [s1 v1] & H1 & H). simpl in H1.
  destruct (deserializePublicKeyAt L ctx pkBytes i s) as [o1 s1']. injection H1 as -> <- <-.
  apply bind_Ok_inv in H as (v1 & st & [= <- <-] & H). apply bind_Ok_inv in H as (u1 & st & [= _ <-] & H). simpl in H.
  apply bind_Ok_inv in H as (share & [s2 v2] & H2 & H). simpl in H2.
  destruct (deserializeRotKey L ctx raw s1') as [o2 s2']. injection H2 as -> <- <-.
  apply bind_Ok_inv in H as (v3 & st & [= <- <-] & H). apply bind_Ok_inv in H as (u2 & st & [= _ <-] & H). simpl in H.
  apply IH in H as [H1 H2]. simpl in *. rewrite length_app in *. simpl in *. lia.
Qed.

Lemma combineEvalSumAllAtOnce_owns ctx pkBytes shareBytes G :
  (ctx, KContext) ∈ G -> (0 < length shareBytes <= length pkBytes)%nat ->
  spec G [] (combineEvalSumAllAtOnce L ctx pkBytes shareBytes) (fun _ => []).
Proof.
  intros Hc Hn. apply (spec_with_locals pair_owned).
  - done.
  - intros v. apply releases_seq; apply releases_free_all.
  - eapply (lspec_bind_returns _ _ _ _ _ _ _ _ (fun v => (0 < length v.1)%nat /\ (0 < length v.2)%nat)).
    + apply deserialize_pairs_owns; [done|lia].
    + intros s u s' v' H. apply deserialize_pairs_length in H as [H1 H2]. simpl in *. lia.
    + intros u [pks shares] [H1 H2]. apply lspec_lift. unfold pair_owned. simpl in *.
      own.
Qed.
End Owns.
