(* ===== verification/BridgeFoldSpec.v ===== *)
(** * Correctness of the eval-sum combinations

    The variants compute the same key: resolving shares when needed, through
    references or through the fold object gives the result of the combination
    of the shares in memory.  The validation accepts exactly the share matrices
    whose parties cover the same indices. *)
From Stdlib Require Import ZArith NArith Lia String Ascii.
From stdpp Require Import base gmap list strings.
From S2P Require Import Prelude Bytes.
From S2P Require Import GoFloat GoFmt.
From S2P Require Import CGo Bridge BridgeFold.

Section Same.
Context {V LS : Type} (L : CLib V LS).
Notation CS := (CState V LS).
Notation CM := (M CS).
Notation LM := (M (CS * Vars)).

(** ** The combinators respect equality up to the text of errors *)

Lemma same_start_accum m1 m2 t1 t2 : m1 ≅ m2 -> start_accum L m1 t1 ≅ start_accum L m2 t2.
Proof.
  intros H. apply same_bind; [by apply same_with|]. intros [a|]; [done|apply same_throw].
Qed.

Lemma same_fold_accum ctx accum pk1 pk2 m1 m2 t1 t2 :
  pk1 ≅ pk2 -> m1 ≅ m2 -> fold_accum L ctx accum pk1 m1 t1 ≅ fold_accum L ctx accum pk2 m2 t2.
Proof.
  intros Hp Hm. apply same_bind.
  - apply same_with; [done|]. intros pk. by apply same_with.
  - intros [|]; [done|apply same_throw].
Qed.

Lemma same_fold_from {X Y} ctx accum pks (load1 : nat -> X -> CM handle) (load2 : nat -> Y -> CM handle) i xs ys :
  Forall2 (fun x y => forall j, load1 j x ≅ load2 j y) xs ys ->
  fold_from L ctx accum pks load1 i xs ≅ fold_from L ctx accum pks load2 i ys.
Proof.
  intros H. revert i. induction H as [|x y xs ys Hx _ IH]; intros i; [done|].
  simpl. apply same_bind; [by apply same_fold_accum|]. intros _. apply IH.
Qed.

Lemma same_combine {X Y} ctx pks (load1 : nat -> X -> CM handle) (load2 : nat -> Y -> CM handle) xs ys :
  Forall2 (fun x y => forall j, load1 j x ≅ load2 j y) xs ys ->
  combineEvalSumWith L load1 ctx pks xs ≅ combineEvalSumWith L load2 ctx pks ys.
Proof.
  intros [|x y xs' ys' Hx Hxs]; [done|]. simpl. apply same_with; [by apply same_start_accum|].
  intros a. apply same_bind; [by apply same_fold_from|done].
Qed.

Lemma Forall2_map {X Y} (P : X -> Y -> Prop) (g : X -> Y) xs : (forall x, P x (g x)) -> Forall2 P xs (g <$> xs).
Proof. intros H. induction xs; constructor; auto. Qed.

(** ** Shares resolved when needed *)

(** With a resolver that finds every reference, the lazy combination of the
    references makes the same library calls in the same order as the combination
    of the shares themselves, and ends in the same state with the same key (or
    both fail, with errors that may differ in their text). *)
Lemma combineEvalSumIncrementalLazy_eager ctx pkBytes refs (f : string -> bytes) :
  length pkBytes = length refs -> refs <> [] ->
  combineEvalSumIncrementalLazy L ctx pkBytes refs (Some (fun r => ret (f r))) ≅
  combineEvalSumIncremental L ctx pkBytes (f <$> refs).
Proof.
  intros Hn H0. unfold combineEvalSumIncrementalLazy. rewrite Hn, Nat.eqb_refl.
  destruct refs as [|r refs]; [done|]. cbn [negb orb is_empty fail_if]. rewrite ret_bind.
  apply same_combine. by apply Forall2_map.
Qed.

(** ** One index at a time *)

Lemma same_fold_parties {X Y} v1 v2 (load1 : X -> LM handle) (load2 : Y -> LM handle) ctx accum pks i party xs ys :
  Forall2 (fun x y => load1 x ≅ load2 y) xs ys ->
  fold_parties L v1 load1 ctx accum pks i party xs ≅ fold_parties L v2 load2 ctx accum pks i party ys.
Proof.
  intros H. revert party. induction H as [|x y xs ys Hx _ IH]; intros party; [done|].
  simpl. apply same_bind; [done|]. intros pk. apply same_bind.
  { apply same_on_error. by rewrite !same_wrap. }
  intros share. apply same_bind; [done|]. intros u. apply IH.
Qed.

Lemma same_combine_index {X Y} v1 v2 (load1 : X -> LM handle) (load2 : Y -> LM handle) finish ctx pks x y xs ys i :
  load1 x ≅ load2 y -> Forall2 (fun x y => load1 x ≅ load2 y) xs ys ->
  combine_index L v1 load1 finish ctx pks x xs i ≅ combine_index L v2 load2 finish ctx pks y ys i.
Proof.
  intros Hx Hxs. apply same_bind; [by rewrite !same_wrap|]. intros seed. apply same_bind; [done|].
  intros [accum|]; [|apply same_throw]. apply same_bind; [|done]. by apply same_on_error, same_fold_parties.
Qed.

Definition share_of (f : string -> bytes) (r : IndexedEvalSumKeyRef) : IndexedEvalSumKey :=
  {| Index := ref_Index r; Key := f (Ref r) |}.

Definition shares_of (f : string -> bytes) (refs : list IndexedEvalSumKeyRef) : list IndexedEvalSumKey :=
  map (share_of f) refs.

Lemma keyed_map {X Y} ix iy zx zy (g : X -> Y) i (l : list X) (P : X -> Y -> Prop) :
  (forall x, iy (g x) = ix x) -> P zx zy -> Forall (fun x => P x (g x)) l ->
  P (keyed ix zx i l) (keyed iy zy i (map g l)).
Proof.
  intros Hi Hz Hl. unfold keyed. induction Hl as [|x l Hx _ IH]; [done|]. simpl. rewrite Hi.
  destruct (ix x =? i)%Z; [done|exact IH].
Qed.

(** Full references, resolved to what [f] gives. *)
Definition full_refs (f : string -> bytes) (byParty : list (list IndexedEvalSumKeyRef)) : Prop :=
  Forall (Forall (fun r => full_ref r = true /\ f (Ref r) <> [])) byParty.

Lemma load_full ctx f r :
  full_ref r = true ->
  resolveKeyRefCached L ctx (fun r => ret (f r)) r ≅ (lift (fun _ => deserializeRotKey L ctx (Key (share_of f r))) : LM handle).
Proof.
  intros H. unfold resolveKeyRefCached. rewrite H. apply same_lift. intros l. unfold resolve_full.
  apply (same_wrap (fun e => Errorf [T "deserialize full key ref: "; W e])).
Qed.

Lemma load_none ctx f :
  resolveKeyRefCached L ctx (fun r => ret (f r)) no_ref ≅ (lift (fun _ => deserializeRotKey L ctx (Key no_key)) : LM handle).
Proof. by intros [s l]. Qed.

Lemma same_combine_indices ctx pks f finish lead others indices :
  full_refs f (lead :: others) ->
  combine_indices L ref_Index no_ref "load" (resolveKeyRefCached L ctx (fun r => ret (f r))) finish ctx pks lead others indices ≅
  combine_indices L Index no_key "deserialize" (fun x => lift (fun _ => deserializeRotKey L ctx (Key x))) finish ctx pks
    (shares_of f lead) (map (shares_of f) others) indices.
Proof.
  intros Hf. apply Forall_cons in Hf as [Hl Ho].
  set (P := fun r x => resolveKeyRefCached L ctx (fun r => ret (f r)) r ≅ (lift (fun _ => deserializeRotKey L ctx (Key x)) : LM handle)).
  assert (HP : forall i l, Forall (fun r => full_ref r = true /\ f (Ref r) <> []) l ->
    P (keyed ref_Index no_ref i l) (keyed Index no_key i (shares_of f l))).
  { intros i l H. apply (keyed_map _ _ _ _ _ _ _ P); [done|apply load_none|].
    eapply Forall_impl; [exact H|]. intros r [Hr _]. by apply load_full. }
  induction indices as [|i indices IH]; [done|]. simpl. apply same_bind; [|intros u; exact IH].
  apply same_combine_index; [by apply HP|]. clear -HP Ho.
  induction Ho as [|l others Hl _ IH]; constructor; [by apply HP|exact IH].
Qed.
End Same.

(** ** Validation *)

Section Validation.
Context {X : Type} (index : X -> Z) (valid : X -> bool) (none bad_front bad_back : string).
Notation check_shares := (check_shares index valid bad_front bad_back).
Notation check_party := (check_party index valid none bad_front bad_back).
Notation validateIndexed := (validateIndexed index valid none bad_front bad_back).

(** A share list with every share valid and no index twice. *)
Definition well_keyed (shares : list X) : Prop := Forall (fun x => valid x = true) shares /\ NoDup (index <$> shares).

Lemma check_shares_inr party seen shares r :
  check_shares party seen shares = inr r <->
  r = seen ++ (index <$> shares) /\ Forall (fun x => valid x = true) shares /\ (forall i, i ∈ index <$> shares -> i ∉ seen) /\
  NoDup (index <$> shares).
Proof.
  revert seen. induction shares as [|x shares IH]; intros seen; simpl.
  { rewrite app_nil_r. split; [intros [= ->]|naive_solver]. split_and!; try done; [set_solver|constructor]. }
  destruct (valid x) eqn:Hv; simpl; [|split; [done|intros (_ & [? _]%Forall_cons & _); congruence]].
  case_bool_decide as Hin; [split; [done|intros (_ & _ & H & _); destruct (H (index x)); [by left|done]]|].
  rewrite IH, <- app_assoc. simpl. split.
  - intros (-> & Hf & Hd & Hn). split_and!; [done|by constructor|set_solver|].
    constructor; [|done]. intros Hi. apply (Hd _ Hi). set_solver.
  - intros (-> & [_ Hf]%Forall_cons & Hd & [Hx Hn]%NoDup_cons). split_and!; try done. set_solver.
Qed.

Lemma check_required_None party required keyed :
  NoDup required -> NoDup keyed -> check_required party required keyed = None <-> keyed ≡ₚ required.
Proof.
  intros Hr Hk. unfold check_required. split.
  - destruct (length keyed =? length required)%nat; simpl; [|done].
    destruct (filter _ required) as [|i l] eqn:E1; [|done]. destruct (filter _ keyed) as [|i l] eqn:E2; [|done].
    intros _. apply NoDup_Permutation; [done..|]. intros i. split; intros Hi.
    + destruct (decide (i ∈ required)) as [|Hn]; [done|]. assert (i ∈ filter (fun i => i ∉ required) keyed) as Hf.
      { by apply list_elem_of_filter. } rewrite E2 in Hf. set_solver.
    + destruct (decide (i ∈ keyed)) as [|Hn]; [done|]. assert (i ∈ filter (fun i => i ∉ keyed) required) as Hf.
      { by apply list_elem_of_filter. } rewrite E1 in Hf. set_solver.
  - intros Hp. rewrite Hp at 1. rewrite Nat.eqb_refl. simpl.
    assert (forall l l' : list Z, l ≡ₚ l' -> filter (fun i => i ∉ l) l' = []) as Hf.
    { intros l l' H. apply list_empty_elem. intros i [Hi Hi']%list_elem_of_filter. by rewrite H in Hi. }
    rewrite (Hf keyed required Hp), (Hf required keyed (symmetry Hp)). done.
Qed.

Lemma check_party_None party shares r :
  check_party party None shares = inr r <-> shares <> [] /\ well_keyed shares /\ r = index <$> shares.
Proof.
  unfold check_party, well_keyed. destruct shares as [|x shares]; [naive_solver|]. cbn [is_empty].
  destruct (check_shares party [] (x :: shares)) as [e|keyed] eqn:E.
  - split; [done|]. intros (_ & [Hf Hn] & _).
    assert (check_shares party [] (x :: shares) = inr ([] ++ (index <$> (x :: shares)))) as H; [|congruence].
    apply check_shares_inr. split_and!; set_solver.
  - apply check_shares_inr in E as (-> & Hf & _ & Hn). naive_solver.
Qed.

Lemma check_party_Some party required shares :
  NoDup required ->
  (exists r, check_party party (Some required) shares = inr r) <->
  shares <> [] /\ well_keyed shares /\ index <$> shares ≡ₚ required.
Proof.
  intros Hr. assert (check_party party (Some required) shares =
    match check_party party None shares with
    | inl e => inl e
    | inr k => match check_required party required k with Some e => inl e | None => inr k end end) as ->.
  { unfold check_party. destruct (is_empty shares); [done|]. by destruct (check_shares party [] shares). }
  destruct (check_party party None shares) as [e|k] eqn:E.
  - split; [intros [r H]; done|]. intros (H1 & H2 & _).
    assert (check_party party None shares = inr (index <$> shares)); [by apply check_party_None|congruence].
  - apply check_party_None in E as (H1 & H2 & ->). pose proof (check_required_None party required (index <$> shares) Hr (proj2 H2)) as Hc.
    destruct (check_required party required (index <$> shares)) as [e|].
    + split; [intros [r H]; done|]. intros (_ & _ & Hp). by apply Hc in Hp.
    + split; [intros _; naive_solver|]. intros _. by eexists.
Qed.

Lemma check_parties_None party required byParty :
  NoDup required ->
  check_parties index valid none bad_front bad_back party required byParty = None <->
  Forall (fun shares => shares <> [] /\ well_keyed shares /\ index <$> shares ≡ₚ required) byParty.
Proof.
  intros Hr. revert party. induction byParty as [|shares byParty IH]; intros party; simpl.
  - split; [intros _; constructor|done].
  - rewrite Forall_cons, <- (IH (S party)), <- (check_party_Some party required shares Hr).
    destruct (check_party party (Some required) shares) as [e|r]; naive_solver.
Qed.

Lemma validateIndexed_iff byParty indices :
  validateIndexed byParty = inr indices <->
  exists lead others, byParty = lead :: others /\ indices = index <$> lead /\
    Forall (fun shares => shares <> [] /\ well_keyed shares /\ index <$> shares ≡ₚ indices) byParty.
Proof.
  unfold validateIndexed. destruct byParty as [|lead others]; [naive_solver|].
  destruct (check_party 0 None lead) as [e|r] eqn:E.
  - split; [done|]. intros (l & o & [= <- <-] & -> & [(H1 & H2 & _) _]%Forall_cons).
    assert (check_party 0 None lead = inr (index <$> lead)); [by apply check_party_None|congruence].
  - apply check_party_None in E as (H1 & H2 & ->). pose proof (check_parties_None 1 (index <$> lead) others (proj2 H2)) as Hc.
    destruct (check_parties _ _ _ _ _ 1 _ others) as [e|].
    + split; [done|]. intros (l & o & [= <- <-] & -> & [_ Ho]%Forall_cons). by apply Hc in Ho.
    + split; [intros [= <-]|naive_solver]. exists lead, others. split_and!; [done..|]. constructor; [done|by apply Hc].
Qed.
End Validation.

Section PerIndex.
Context {V LS : Type} (L : CLib V LS).
Notation CS := (CState V LS).
Notation CM := (M CS).

Lemma shares_of_indices f l : Index <$> shares_of f l = ref_Index <$> l.
Proof. unfold shares_of. induction l as [|r l IH]; [done|]. cbn. f_equal. exact IH. Qed.

Lemma shares_of_well_keyed f l :
  Forall (fun r => full_ref r = true /\ f (Ref r) <> []) l ->
  well_keyed Index (fun x => negb (is_empty (Key x))) (shares_of f l) <->
  well_keyed ref_Index validIndexedEvalSumKeyRef l.
Proof.
  intros Hf. unfold well_keyed. rewrite shares_of_indices.
  enough (Forall (fun x => negb (is_empty (Key x)) = true) (shares_of f l) /\
          Forall (fun r => validIndexedEvalSumKeyRef r = true) l) by naive_solver.
  split.
  - apply Forall_map. eapply Forall_impl; [exact Hf|]. intros r [_ Hk]. simpl. by destruct (f (Ref r)).
  - eapply Forall_impl; [exact Hf|]. intros r [Hr _]. unfold validIndexedEvalSumKeyRef. by rewrite Hr.
Qed.

Lemma validate_shares_of f byParty indices :
  full_refs f byParty ->
  validateIndexedEvalSumShares (map (shares_of f) byParty) = inr indices <->
  validateIndexedEvalSumShareRefs byParty = inr indices.
Proof.
  intros Hf. unfold validateIndexedEvalSumShares, validateIndexedEvalSumShareRefs. rewrite !validateIndexed_iff.
  assert (Forall (fun s => s <> [] /\ well_keyed Index (fun x => negb (is_empty (Key x))) s /\ Index <$> s ≡ₚ indices)
            (map (shares_of f) byParty) <->
          Forall (fun s => s <> [] /\ well_keyed ref_Index validIndexedEvalSumKeyRef s /\ ref_Index <$> s ≡ₚ indices) byParty) as Hiff.
  { clear -Hf. induction Hf as [|l byParty Hl _ IH]; [by split; intros; constructor|].
    cbn [map]. rewrite !Forall_cons, IH, (shares_of_well_keyed f l Hl), shares_of_indices.
    assert (shares_of f l <> [] <-> l <> []) as -> by (by destruct l). done. }
  split.
  - intros (lead & others & E & -> & H). destruct byParty as [|l byParty]; [done|]. injection E as <- <-.
    exists l, byParty. rewrite shares_of_indices in *. split_and!; [done..|by apply Hiff].
  - intros (lead & others & -> & -> & H). exists (shares_of f lead), (map (shares_of f) others).
    rewrite shares_of_indices. split_and!; [done..|by apply Hiff].
Qed.

(** C19. Combining one rotation index at a time through references to full keys
    gives the key of the combination of the keys in memory: same calls, same
    state, same result, with either accepted exactly when the other is. *)
Theorem combineEvalSumPerIndexLazy_eager ctx publicKeys byParty (f : string -> bytes) :
  full_refs f byParty ->
  combineEvalSumPerIndexLazy L ctx publicKeys byParty (fun r => ret (f r)) ≅
  combineEvalSumPerIndex L ctx publicKeys (map (shares_of f) byParty).
Proof.
  intros Hf. unfold combineEvalSumPerIndexLazy, combineEvalSumPerIndex.
  pose proof (validate_shares_of f byParty) as Hv.
  destruct (validateIndexedEvalSumShareRefs byParty) as [e|indices] eqn:E1,
    (validateIndexedEvalSumShares (map (shares_of f) byParty)) as [e'|indices'] eqn:E2.
  - apply same_throw.
  - by destruct (proj1 (Hv indices' Hf) eq_refl).
  - by destruct (proj2 (Hv indices Hf) eq_refl).
  - destruct (proj1 (Hv indices' Hf) eq_refl). unfold of_validation. rewrite !ret_bind.
    apply same_with_locals, same_bind; [|done].
    apply validateIndexed_iff in E1 as (lead & others & -> & -> & _). by apply same_combine_indices.
Qed.

(** ** The fold object *)

Fixpoint fold_all (f : EvalSumIncrementalFold) (shares : list (bytes * bytes)) : CM unit :=
  match shares with
  | [] => ret tt
  | s :: shares' => Fold L f s.1 s.2 ;;; fold_all f shares'
  end.
(** New, a Fold per participant, Finalize. *)
Definition fold_session (params : ContractParams) (leadBase : bytes) (shares : list (bytes * bytes)) : CM bytes :=
  let! f := NewEvalSumIncrementalFold L params leadBase in
  fold_all f shares ;;;
  Finalize L f.

Lemma fold_from_all ctx a pk0 shares own_ctx pre :
  fold_from L ctx a (pk0 :: pre ++ shares.*1) (fun _ raw => deserializeRotKey L ctx raw) (S (length pre)) shares.*2 ≅
  fold_all {| fold_ctx := ctx; accum := a; ownsCtx := own_ctx |} shares.
Proof.
  revert pre. induction shares as [|[pk share] shares IH]; intros pre; [done|]. cbn [fmap list_fmap fold_from fold_all].
  apply same_bind.
  - apply same_fold_accum; [|done]. unfold deserializePublicKeyAt, element.
    rewrite lookup_cons_ne_0 by lia. simpl. by rewrite list_lookup_middle.
  - intros _. specialize (IH (pre ++ [pk])). rewrite length_app, Nat.add_1_r, <- app_assoc in IH. exact IH.
Qed.

(** The calls of a combination that returns [key]: the context, the seed, the
    folds, the serialization, then the two frees. *)
Definition combine_run (params : ContractParams) (leadBase : bytes) (folds : handle -> handle -> CM unit)
    (s : CS) (key : bytes) (s' : CS) : Prop :=
  exists ctx a s1 s2 s3 s4 s5,
    createContractContext L params s = (Ok ctx, s1) /\
    start_accum L (deserializeRotKey L ctx leadBase) "eval-sum combine start failed" s1 = (Ok a, s2) /\
    folds ctx a s2 = (Ok tt, s3) /\ serializeRotKey L a s3 = (Ok key, s4) /\
    free KRotKey a s4 = (Ok tt, s5) /\ free KContext ctx s5 = (Ok tt, s').

Lemma fold_session_run params leadBase shares s key s' :
  fold_session params leadBase shares s = (Ok key, s') <->
  combine_run params leadBase (fun ctx a => fold_all {| fold_ctx := ctx; accum := a; ownsCtx := true |} shares) s key s'.
Proof.
  unfold fold_session, NewEvalSumIncrementalFold, Finalize, combine_run. split.
  - intros (f & s1 & H & H')%bind_Ok_inv.
    apply bind_Ok_inv in H as (ctx & s2 & Hc & H). apply bind_Ok_inv in H as (a & s3 & Ha%on_error_Ok & [= <- <-]).
    apply bind_Ok_inv in H' as ([] & s4 & Hf & H'). apply deferring_Ok in H' as (s5 & H' & Hk).
    apply deferring_Ok in H' as (s6 & Hs & Hr). naive_solver.
  - intros (ctx & a & s1 & s2 & s3 & s4 & s5 & Hc & Ha & Hf & Hs & Hr & Hk).
    apply bind_Ok_iff. eexists _, s2. split.
    + apply bind_Ok_iff. exists ctx, s1. split; [done|]. apply bind_Ok_iff. exists a, s2. split; [by apply on_error_Ok|done].
    + apply bind_Ok_iff. exists tt, s3. split; [done|]. apply deferring_Ok. exists s5. split; [|done].
      apply deferring_Ok. by exists s4.
Qed.

Lemma CombineEvalSumSharesIncremental_run params pk0 pks leadBase shares s key s' :
  length pks = length shares ->
  CombineEvalSumSharesIncremental L params (pk0 :: pks) (leadBase :: shares) s = (Ok key, s') <->
  combine_run params leadBase
    (fun ctx a => fold_from L ctx a (pk0 :: pks) (fun _ raw => deserializeRotKey L ctx raw) 1 shares) s key s'.
Proof.
  intros Hn. unfold CombineEvalSumSharesIncremental, combine_run. cbn [length]. rewrite Hn, Nat.eqb_refl.
  cbn [negb orb is_empty fail_if]. rewrite ret_bind. split.
  - intros (ctx & s1 & Hc & H)%bind_Ok_inv. apply deferring_Ok in H as (s5 & H & Hk).
    apply bind_Ok_inv in H as (a & s2 & Ha & H). apply deferring_Ok in H as (s4 & H & Hr).
    apply bind_Ok_inv in H as ([] & s3 & Hf & Hs). naive_solver.
  - intros (ctx & a & s1 & s2 & s3 & s4 & s5 & Hc & Ha & Hf & Hs & Hr & Hk).
    apply bind_Ok_iff. exists ctx, s1. split; [done|]. apply deferring_Ok. exists s5. split; [|done].
    apply bind_Ok_iff. exists a, s2. split; [done|]. apply deferring_Ok. exists s4. split; [|done].
    apply bind_Ok_iff. by exists tt, s3.
Qed.

(** C22. Driving the fold object, New then a Fold per participant then Finalize,
    returns a key exactly when the combination of all shares in one call does,
    the same key, and leaves the same state. *)
Theorem fold_session_combine params pk0 leadBase shares s key s' :
  fold_session params leadBase shares s = (Ok key, s') <->
  CombineEvalSumSharesIncremental L params (pk0 :: shares.*1) (leadBase :: shares.*2) s = (Ok key, s').
Proof.
  rewrite CombineEvalSumSharesIncremental_run, fold_session_run by (by rewrite !length_fmap).
  pose proof (fun ctx a => fold_from_all ctx a pk0 shares true []) as Hs. unfold combine_run.
  split; intros (ctx & a & s1 & s2 & s3 & s4 & s5 & Hc & Ha & Hf & Hrest); exists ctx, a, s1, s2, s3, s4, s5;
    (split_and!; [done|done| |naive_solver..]); eapply same_Ok; [|exact Hf| |exact Hf]; [symmetry|]; apply Hs.
Qed.

(** A caller that goes on after an error. *)
Definition ignoring (m : CM unit) : CM unit := fun s =>
  match m s with (Err _, s') => (Ok tt, s') | o => o end.

Lemma spec_ignoring G X m : spec (X ++ G) [] m (fun _ => []) -> spec G X (ignoring m) (fun _ => X).
Proof.
  intros Hm s F H HG. pose proof (spec_frame G [] X m _ s F Hm H HG) as Hs. unfold ignoring.
  by destruct (m s) as [[a|e|w] s1].
Qed.

Definition fold_owned (f : EvalSumIncrementalFold) : owned :=
  (fold_ctx f, KContext) :: [(accum f, KRotKey)].

Lemma NewEvalSumIncrementalFold_owns params leadBase G :
  batch_ok params = true ->
  spec G [] (NewEvalSumIncrementalFold L params leadBase) fold_owned.
Proof.
  intros Hb. eapply spec_bind; [by apply createContractContext_owns|]. intros ctx. cbn beta.
  eapply spec_bind; [apply (spec_on_error G [] [(ctx, KContext)]); [apply releases_free|]|].
  - apply start_accum_owns, deserializeRotKey_owns. set_solver.
  - intros a s F H _. unfold fold_owned. simpl in *. by rewrite Permutation_swap.
Qed.

Lemma NewEvalSumIncrementalFold_ownsCtx params leadBase :
  returns (NewEvalSumIncrementalFold L params leadBase) (fun f => ownsCtx f = true).
Proof.
  intros s f s' (ctx & s1 & _ & (a & s2 & _ & [= <- _])%bind_Ok_inv)%bind_Ok_inv. done.
Qed.

(** Folds that fail leave the object usable: after New, any sequence of
    Folds, failed ones included, and Finalize, every C object is released. *)
Lemma fold_session_releases params leadBase shares G :
  batch_ok params = true ->
  spec G []
    (let! f := NewEvalSumIncrementalFold L params leadBase in
     for_each shares (fun s => ignoring (Fold L f s.1 s.2)) ;;;
     Finalize L f) (fun _ => []).
Proof.
  intros Hb. eapply spec_bind_returns; [by apply NewEvalSumIncrementalFold_owns|apply NewEvalSumIncrementalFold_ownsCtx|].
  intros f Hf. apply (spec_bind _ _ _ _ (fun _ => fold_owned f)).
  - induction shares as [|[pk share] shares IH]; [by apply spec_ret'|]. simpl.
    eapply spec_bind; [apply spec_ignoring|intros u; exact IH].
    apply fold_accum_owns; [set_solver|set_solver|apply deserializePublicKey_owns; set_solver|].
    intros G' HG. apply deserializeRotKey_owns. set_solver.
  - intros u. unfold Finalize. rewrite Hf.
    apply (spec_defer G [(accum f, KRotKey)] [(fold_ctx f, KContext)]); [apply releases_free|].
    apply (spec_defer _ [] [(accum f, KRotKey)]); [apply releases_free|]. apply serializeWith_owns. set_solver.
Qed.

(** The same on a context of the caller's. *)
Lemma fold_context_session_releases ctx leadBase shares G :
  (ctx, KContext) ∈ G ->
  spec G []
    (let! f := NewEvalSumIncrementalFoldWithContext L ctx leadBase in
     for_each shares (fun s => ignoring (Fold L f s.1 s.2)) ;;;
     Finalize L f) (fun _ => []).
Proof.
  intros Hc. unfold NewEvalSumIncrementalFoldWithContext.
  eapply spec_bind_returns with (R := fun f => [(accum f, KRotKey)]) (W := fun f => fold_ctx f = ctx /\ ownsCtx f = false).
  - eapply spec_bind; [apply start_accum_owns, deserializeRotKey_owns; set_solver|]. intros a. by apply spec_ret'.
  - intros s f s' (a & s1 & _ & [= <- _])%bind_Ok_inv. done.
  - intros f [Hf Ho]. apply (spec_bind _ _ _ _ (fun _ => [(accum f, KRotKey)])).
    + induction shares as [|[pk share] shares IH]; [by apply spec_ret'|]. simpl.
      eapply spec_bind; [apply spec_ignoring|intros u; exact IH]. cbn [fst snd]. unfold Fold. rewrite Hf.
      apply fold_accum_owns; [set_solver|set_solver|apply deserializePublicKey_owns; set_solver|].
      intros G' HG. apply deserializeRotKey_owns. set_solver.
    + intros u. unfold Finalize. rewrite Ho.
      apply (spec_defer G [] [(accum f, KRotKey)]); [apply releases_free|]. apply serializeWith_owns. set_solver.
Qed.

(** ** What the validation accepts *)

(** [validateIndexedEvalSumShares] accepts a matrix of shares exactly when
    every party has at least one share, no empty key, no index twice, and the
    same indices as the first party, and it returns these in the first party's
    order. *)
Lemma validateIndexedEvalSumShares_iff byParty indices :
  validateIndexedEvalSumShares byParty = inr indices <->
  exists lead others, byParty = lead :: others /\ indices = Index <$> lead /\
    Forall (fun shares => shares <> [] /\ (forall x, x ∈ shares -> Key x <> []) /\ NoDup (Index <$> shares) /\
                          Index <$> shares ≡ₚ indices) byParty.
Proof.
  unfold validateIndexedEvalSumShares. rewrite validateIndexed_iff.
  assert (forall shares, well_keyed Index (fun x => negb (is_empty (Key x))) shares <->
    (forall x, x ∈ shares -> Key x <> []) /\ NoDup (Index <$> shares)) as Hw.
  { intros shares. unfold well_keyed. rewrite Forall_forall. split; intros [H Hn]; (split; [|done]); intros x Hx; specialize (H x Hx);
      destruct (Key x); simpl in *; congruence. }
  by setoid_rewrite Hw; setoid_rewrite <- (assoc and).
Qed.
End PerIndex.

Module Witnesses.
Import Scripted.
Local Open Scope string_scope.

Definition params : ContractParams := {|
  RingDim := 0; ScalingFactor := f0; Depth := 0; MinimalRotationKeys := false; ProfileDim := 0;
  PayloadSlotCount := 0; EvalSumOnlyRotationKeys := false |}.
Definition stored (r : string) : bytes := if String.eqb r "" then [] else [Byte.x2a].
(** Two parties, two references, in an open context. *)
Definition opened : CState bytes Script := (createContractContext toy params (start [])).2.
Definition pks : list bytes := [[Byte.x01]; [Byte.x02]].
Definition ref (i : Z) (r : string) : IndexedEvalSumKeyRef := {| ref_Index := i; Ref := r; ARef := ""; BRef := "" |}.

Lemma combineEvalSumIncrementalLazy_eager_witness :
  combineEvalSumIncrementalLazy toy 1%positive pks ["a"; "b"] (Some (fun r => ret (stored r))) ≅
  combineEvalSumIncremental toy 1%positive pks (stored <$> ["a"; "b"]) /\
  (combineEvalSumIncremental toy 1%positive pks (stored <$> ["a"; "b"]) opened).1 = Ok [Byte.x01].
Proof. split; [by apply (combineEvalSumIncrementalLazy_eager toy 1%positive pks ["a"; "b"] stored)|vm_compute; reflexivity]. Defined.

Lemma combineEvalSumPerIndexLazy_eager_witness :
  combineEvalSumPerIndexLazy toy 1%positive pks [[ref 1 "a"; ref 2 "b"]; [ref 2 "c"; ref 1 "d"]] (fun r => ret (stored r)) ≅
  combineEvalSumPerIndex toy 1%positive pks (map (shares_of stored) [[ref 1 "a"; ref 2 "b"]; [ref 2 "c"; ref 1 "d"]]) /\
  (combineEvalSumPerIndex toy 1%positive pks (map (shares_of stored) [[ref 1 "a"; ref 2 "b"]; [ref 2 "c"; ref 1 "d"]]) opened).1 = Ok [Byte.x01].
Proof.
  split; [|vm_compute; reflexivity].
  apply (combineEvalSumPerIndexLazy_eager toy 1%positive pks [[ref 1 "a"; ref 2 "b"]; [ref 2 "c"; ref 1 "d"]] stored).
  repeat constructor; done.
Defined.
End Witnesses.
