(* ===== verification/BridgeEval.v ===== *)
(** * Encryption, evaluation and decryption through the bridge
    (pkg/ares/crypto/cgo/bridge.go)

    The operations on ciphertexts of a contract, CKKS and BFV, and the
    single-key auction.  The text of the BFV errors differs by a prefix, given
    as an argument where the body is shared. *)
From Stdlib Require Import ZArith NArith Lia String Ascii.
From stdpp Require Import base gmap list strings.
From S2P Require Import Prelude Bytes.
From S2P Require Import GoFloat GoFmt.
From S2P Require Import CGo Bridge BridgeFold.

Section Eval.
Context {V LS : Type} (L : CLib V LS).
Notation CS := (CState V LS).
Notation CM := (M CS).
Local Open Scope string_scope.

(** ** Evaluation keys in the context *)

(** [key := decode; defer free(key); insert], around what follows. *)
Definition with_mult_key {A} (ctx : handle) (evalMultKey : bytes) (msg : string) (rest : CM A) : CM A :=
  with_handle KEvalMultKey (deserializeEvalMultKey L ctx evalMultKey) (fun multKey =>
  c_check L C_InsertEvalMultKey [(ctx, KContext); (multKey, KEvalMultKey)] msg ;;;
  rest).
(** The same when the key may be absent. *)
Definition with_optional_mult_key {A} (ctx : handle) (evalMultKey : bytes) (msg : string) (rest : CM A) : CM A :=
  if is_empty evalMultKey then rest else with_mult_key ctx evalMultKey msg rest.
Definition with_sum_key {A} (ctx : handle) (evalSumKey : bytes) (msg : string) (rest : CM A) : CM A :=
  with_handle KRotKey (deserializeRotKey L ctx evalSumKey) (fun sumKey =>
  c_check L C_InsertEvalSumKey [(ctx, KContext); (sumKey, KRotKey)] msg ;;;
  rest).

(** ** Products and sums *)

Definition evalProductSumInContext (scheme : string) (ctx : handle) (leftCiphertext rightCiphertext : bytes) (nSlots : Z) : CM bytes :=
  with_handle KCiphertext (deserializeCiphertext L ctx leftCiphertext) (fun left =>
  with_handle KCiphertext (deserializeCiphertext L ctx rightCiphertext) (fun right =>
  with_handle KCiphertext
    (c_must L KCiphertext C_EvalMult [(ctx, KContext); (left, KCiphertext); (right, KCiphertext)]
       (scheme +:+ "eval-mult failed")) (fun product =>
  with_handle KCiphertext
    (c_must L KCiphertext (C_EvalSum (int32 nSlots)) [(ctx, KContext); (product, KCiphertext)]
       (scheme +:+ "eval-sum failed")) (serializeCiphertext L)))).

Definition evalProductSumIn (scheme : string) (create : CM handle) (evalKeys : EvalKeyFinal)
    (leftCiphertext rightCiphertext : bytes) (nSlots : Z) : CM bytes :=
  fail_if (is_empty (EvalMultFinal evalKeys) || is_empty (EvalSumFinal evalKeys))
    "eval-mult and eval-sum keys are required" ;;;
  fail_if (nSlots <=? 0)%Z "nSlots must be positive" ;;;
  with_handle KContext create (fun ctx =>
  with_mult_key ctx (EvalMultFinal evalKeys) ("insert " +:+ scheme +:+ "eval-mult key failed")
  (with_sum_key ctx (EvalSumFinal evalKeys) ("insert " +:+ scheme +:+ "eval-sum key failed")
  (evalProductSumInContext scheme ctx leftCiphertext rightCiphertext nSlots))).
Definition EvalProductSumForContract (params : ContractParams) := evalProductSumIn "" (createContractContext L params).
Definition EvalProductSumBFVForContract (params : BFVContractParams) :=
  evalProductSumIn "BFV " (createBFVContractContext L params).

Definition EvalProductSumForContractWithEvalSumRefs (params : ContractParams) (evalKeys : EvalKeyFinal)
    (leftCiphertext rightCiphertext : bytes) (nSlots : Z) (publicKeys : list bytes)
    (evalSumRefsByParty : list (list IndexedEvalSumKeyRef)) (resolve : option (@EvalSumKeyResolver V LS)) : CM bytes :=
  fail_if (is_empty (EvalMultFinal evalKeys)) "eval-mult key is required" ;;;
  fail_if (nSlots <=? 0)%Z "nSlots must be positive" ;;;
  match resolve with
  | None => fail "eval-sum key resolver is required"
  | Some _ =>
      with_handle KContext (createContractContext L params) (fun ctx =>
      with_mult_key ctx (EvalMultFinal evalKeys) "insert eval-mult key failed" (
      wrap_err (fun e => Errorf [T "insert per-index eval-sum keys: "; W e])
        (insertEvalSumPerIndexLazy L ctx publicKeys evalSumRefsByParty resolve) ;;;
      evalProductSumInContext "" ctx leftCiphertext rightCiphertext nSlots))
  end.

(** ** Binary operations, polynomials, argmax *)

Definition evalBinaryCKKS (params : ContractParams) (evalMultKey ctA ctB : bytes) (op : string) : CM bytes :=
  fail_if (is_empty ctA || is_empty ctB) (op +:+ ": both ciphertexts are required") ;;;
  with_handle KContext (createContractContext L params) (fun cctx =>
  with_optional_mult_key cctx evalMultKey (op +:+ ": insert eval-mult key failed")
  (with_handle KCiphertext (deserializeCiphertext L cctx ctA) (fun a =>
  with_handle KCiphertext (deserializeCiphertext L cctx ctB) (fun b =>
  with_handle KCiphertext
    (let args := [(cctx, KContext); (a, KCiphertext); (b, KCiphertext)] in
     if String.eqb op "EvalAdd" then c_must L KCiphertext C_EvalAdd args (op +:+ " failed")
     else if String.eqb op "EvalSub" then c_must L KCiphertext C_EvalSub args (op +:+ " failed")
     else if String.eqb op "EvalMult" then c_must L KCiphertext C_EvalMult args (op +:+ " failed")
     else throw (Errorf [T "evalBinaryCKKS: unknown op "; Q op])) (serializeCiphertext L))))).
Definition EvalAddCKKSForContract (params : ContractParams) (ctA ctB : bytes) := evalBinaryCKKS params [] ctA ctB "EvalAdd".
Definition EvalSubCKKSForContract (params : ContractParams) (ctA ctB : bytes) := evalBinaryCKKS params [] ctA ctB "EvalSub".
Definition EvalMultCKKSForContract (params : ContractParams) (evalMultKey ctA ctB : bytes) : CM bytes :=
  fail_if (is_empty evalMultKey) "eval-mult key is required" ;;;
  evalBinaryCKKS params evalMultKey ctA ctB "EvalMult".

Definition EvalConstMultCKKSForContract (params : ContractParams) (ct : bytes) (scalar : float64) : CM bytes :=
  fail_if (is_empty ct) "ciphertext is required" ;;;
  with_handle KContext (createContractContext L params) (fun cctx =>
  with_handle KCiphertext (deserializeCiphertext L cctx ct) (fun ctH =>
  with_handle KCiphertext
    (c_must L KCiphertext (C_EvalMultConst scalar) [(cctx, KContext); (ctH, KCiphertext)] "eval-mult-const failed")
    (serializeCiphertext L))).

Definition hasNonConstantTerm (coeffs : list float64) : bool := existsb (fun c => negb (feqb c f0)) (tl coeffs).

Definition EvalPolyCKKSForContract (params : ContractParams) (evalMultKey ciphertext : bytes) (coefficients : list float64) : CM bytes :=
  fail_if (is_empty ciphertext) "ciphertext is required" ;;;
  fail_if (is_empty coefficients) "coefficients are required" ;;;
  fail_if (is_empty evalMultKey && hasNonConstantTerm coefficients)
    "eval-mult key is required for non-constant polynomials" ;;;
  with_handle KContext (createContractContext L params) (fun ctx =>
  with_optional_mult_key ctx evalMultKey "insert eval-mult key failed"
  (with_handle KCiphertext (deserializeCiphertext L ctx ciphertext) (fun ct =>
  first_element coefficients ;;;
  with_handle KCiphertext
    (c_must L KCiphertext (C_EvalPolynomial coefficients) [(ctx, KContext); (ct, KCiphertext)] "eval poly failed")
    (serializeCiphertext L)))).

(** The call that fills an array with one handle per candidate. *)
Definition evalArgmax (ctx : handle) (handles : list handle) (sharp : list float64) (e : GoError) : CM (list handle) :=
  first_element handles ;;; first_element sharp ;;;
  let! r := c_array L (length handles) KCiphertext (C_EvalArgmax (length handles) sharp)
              ((ctx, KContext) :: all_owned KCiphertext handles) in
  match r with None => throw e | Some out => ret out end.

Fixpoint serialize_each (what : string) (i : nat) (hs : list handle) : CM (list bytes) :=
  match hs with
  | [] => ret []
  | h :: hs' =>
      let! raw := wrap_err (fun e => Errorf [T what; T (fmt_int (Z.of_nat i)); T "]: "; W e]) (serializeCiphertext L h) in
      let! raws := serialize_each what (S i) hs' in
      ret (raw :: raws)
  end.

Definition deserialize_each (what suffix : string) (ctx : handle) (raws : list bytes) : CM (list handle) :=
  collect KCiphertext (fun i raw =>
    wrap_err (fun e => Errorf [T what; T (fmt_int (Z.of_nat i)); T suffix; W e]) (deserializeCiphertext L ctx raw)) raws.

(** The status of the library goes into the text; it is not modelled further. *)
Definition EvalArgmaxCKKSForContract (params : ContractParams) (evalMultKey : bytes) (ciphertexts : list bytes)
    (sharpCoeffs : list float64) : CM (list bytes) :=
  fail_if (length ciphertexts <? 2)%nat
    ("argmax needs at least 2 candidates, got " +:+ fmt_int (Z.of_nat (length ciphertexts))) ;;;
  fail_if (is_empty evalMultKey) "eval-mult key is required" ;;;
  fail_if (length sharpCoeffs <? 2)%nat "sharpening polynomial must have at least 2 coefficients" ;;;
  with_handle KContext (createContractContext L params) (fun cctx =>
  with_mult_key cctx evalMultKey "insert eval-mult key failed"
  (with_handles KCiphertext (deserialize_each "ciphertext[" "]: " cctx ciphertexts) (fun handles =>
  with_handles KCiphertext (evalArgmax cctx handles sharpCoeffs (Errorf [T "eval argmax failed"]))
    (serialize_each "serialize mask[" 0)))).

Definition RoundTripCiphertext (params : ContractParams) (ct : bytes) : CM bytes :=
  fail_if (is_empty ct) "ciphertext is required" ;;;
  with_handle KContext (createContractContext L params) (fun cctx =>
  with_handle KCiphertext (deserializeCiphertext L cctx ct) (serializeCiphertext L)).

(** ** Encryption *)

Definition encryptIn (scheme : string) (op : COp) (create : CM handle) (jointPublicKey : bytes) (no_values : bool) : CM bytes :=
  fail_if (is_empty jointPublicKey) "joint public key is required" ;;;
  fail_if no_values "values are required" ;;;
  with_handle KContext create (fun ctx =>
  with_handle KPublicKey (deserializePublicKey L ctx jointPublicKey) (fun pk =>
  with_handle KCiphertext
    (c_must L KCiphertext op [(ctx, KContext); (pk, KPublicKey)] (scheme +:+ "contract encryption failed"))
    (serializeCiphertext L))).
Definition EncryptCKKSForContract (params : ContractParams) (jointPublicKey : bytes) (values : list float64) :=
  encryptIn "" (C_Encrypt values) (createContractContext L params) jointPublicKey (is_empty values).
Definition EncryptBFVForContract (params : BFVContractParams) (jointPublicKey : bytes) (values : list Z) :=
  encryptIn "BFV " (C_EncryptPackedInt values) (createBFVContractContext L params) jointPublicKey (is_empty values).

(** A buffer filled by the library: a failed status, nil or empty is an error,
    and what was allocated is freed all the same. *)
Definition buffer_result (op : COp) (hs : owned) (msg : string) : CM bytes :=
  let! r := c_buffer L op hs in
  deferring (free_opt KBuffer r.2) (
  let! b := copyCBytes L r.2 in
  if negb r.1 || is_empty b then fail msg else ret b).

Definition require (name : string) (b : bytes) : CM unit :=
  match requireNonEmptyBytes name b with Some e => throw e | None => ret tt end.

Definition encryptRepeatedIn (op : COp) (create : CM handle) (jointPublicKey : bytes) (msg : string) : CM bytes :=
  require "joint public key" jointPublicKey ;;;
  with_handle KContext create (fun ctx =>
  with_handle KPublicKey (deserializePublicKey L ctx jointPublicKey) (fun pk =>
  buffer_result op [(ctx, KContext); (pk, KPublicKey)] msg)).
Definition EncryptRepeatedScalarCKKSForContract (params : ContractParams) (jointPublicKey : bytes) (value : float64) :=
  encryptRepeatedIn (C_EncryptRepeatedScalarCKKS value) (createContractContext L params) jointPublicKey
    "repeated scalar encryption failed".
Definition EncryptRepeatedScalarBFVForContract (params : BFVContractParams) (jointPublicKey : bytes) (value : Z) :=
  encryptRepeatedIn (C_EncryptRepeatedScalarBFV value) (createBFVContractContext L params) jointPublicKey
    "repeated BFV scalar encryption failed".

Definition squaredDistanceIn (scheme : string) (op : COp) (create : CM handle) (evalMultKey originFirst originSecond : bytes) : CM bytes :=
  require "eval-mult key" evalMultKey ;;;
  require "origin first ciphertext" originFirst ;;;
  require "origin second ciphertext" originSecond ;;;
  with_handle KContext create (fun ctx =>
  with_mult_key ctx evalMultKey ("insert " +:+ scheme +:+ "eval-mult key failed")
  (buffer_result op [(ctx, KContext)] ("encrypted " +:+ scheme +:+ "squared distance failed"))).
Definition EncryptedSquaredDistanceCKKSForContract (params : ContractParams) (evalMultKey originFirst originSecond : bytes)
    (localFirst localSecond : float64) :=
  squaredDistanceIn "" (C_SquaredDistanceCKKS originFirst originSecond localFirst localSecond)
    (createContractContext L params) evalMultKey originFirst originSecond.
Definition EncryptedSquaredDistanceBFVForContract (params : BFVContractParams) (evalMultKey originFirst originSecond : bytes)
    (localFirst localSecond : Z) :=
  squaredDistanceIn "BFV " (C_SquaredDistanceBFV originFirst originSecond localFirst localSecond)
    (createBFVContractContext L params) evalMultKey originFirst originSecond.

(** ** Threshold decryption *)

Definition partialDecryptIn (scheme : string) (create : CM handle) (ciphertext secretKeyShare : bytes) (lead : bool) : CM bytes :=
  fail_if (is_empty ciphertext) "ciphertext is required" ;;;
  fail_if (is_empty secretKeyShare) "secret key share is required" ;;;
  with_handle KContext create (fun ctx =>
  with_handle KCiphertext (deserializeCiphertext L ctx ciphertext) (fun ct =>
  with_handle KSecretKey (deserializeSecretKeyShare L ctx secretKeyShare lead) (fun sk =>
  with_handle KCiphertext
    (c_must L KCiphertext C_MultiDecMain [(ctx, KContext); (ct, KCiphertext); (sk, KSecretKey)]
       (scheme +:+ "contract partial decrypt failed")) (serializeCiphertext L)))).
Definition PartialDecryptCKKSForContract (params : ContractParams) := partialDecryptIn "" (createContractContext L params).
Definition PartialDecryptBFVForContract (params : BFVContractParams) :=
  partialDecryptIn "BFV " (createBFVContractContext L params).

(** The slots written, at most the capacity asked for. *)
Definition slots {A} (nSlots : Z) (call : CM (option (list A))) (msg : string) : CM (list A) :=
  let! r := call in
  match r with None => fail msg | Some out => ret (take (Z.to_nat nSlots) out) end.

Definition fusePartialsIn {A} (scheme : string) (create : CM handle) (partials : list bytes) (nSlots : Z)
    (fuse : handle -> list handle -> CM (option (list A))) : CM (list A) :=
  fail_if (is_empty partials) "at least one partial decrypt share is required" ;;;
  fail_if (nSlots <=? 0)%Z "nSlots must be positive" ;;;
  with_handle KContext create (fun ctx =>
  with_handles KCiphertext (deserialize_each ("deserialize " +:+ scheme +:+ "partial ") ": " ctx partials) (fun handles =>
  first_element handles ;;;
  slots nSlots (fuse ctx handles) (scheme +:+ "contract partial fusion failed"))).
Definition FuseCKKSPartialsForContract (params : ContractParams) (partials : list bytes) (nSlots : Z) : CM (list float64) :=
  fusePartialsIn "" (createContractContext L params) partials nSlots (fun ctx handles =>
    c_floats L (C_MultiDecFusion (length handles) (int32 nSlots)) ((ctx, KContext) :: all_owned KCiphertext handles)).
Definition FuseBFVPartialsForContract (params : BFVContractParams) (partials : list bytes) (nSlots : Z) : CM (list Z) :=
  fusePartialsIn "BFV " (createBFVContractContext L params) partials nSlots (fun ctx handles =>
    c_ints L (C_MultiDecFusionPackedInt (length handles) (int32 nSlots)) ((ctx, KContext) :: all_owned KCiphertext handles)).

(** ** The single-key auction *)

(** Four slots, the value in the first. *)
Definition slot0 (x : float64) : list float64 := [x; f0; f0; f0].
Definition encryptScalar (ctx pk : handle) (x : float64) (msg : string) : CM handle :=
  c_must L KCiphertext (C_Encrypt (slot0 x)) [(ctx, KContext); (pk, KPublicKey)] msg.

Definition SingleKeyEncrypt (params : ContractParams) (pk : bytes) (value : float64) : CM bytes :=
  fail_if (is_empty pk) "pk required" ;;;
  with_handle KContext (createContractContext L params) (fun ctx =>
  with_handle KPublicKey (wrap_err (fun e => Errorf [T "deserialize pk: "; W e]) (deserializePublicKey L ctx pk)) (fun cPk =>
  with_handle KCiphertext (encryptScalar ctx cPk value "encrypt failed") (serializeCiphertext L))).

(** [make] and [&out[0]] panic on a slot count that is not positive. *)
Definition SingleKeyDecrypt (params : ContractParams) (sk ct : bytes) (nSlots : Z) : CM (list float64) :=
  with_handle KContext (createContractContext L params) (fun ctx =>
  with_handle KSecretKey
    (wrap_err (fun e => Errorf [T "deserialize sk: "; W e]) (deserializeSecretKeyShare L ctx sk true)) (fun cSk =>
  with_handle KCiphertext (wrap_err (fun e => Errorf [T "deserialize ct: "; W e]) (deserializeCiphertext L ctx ct)) (fun cCt =>
  (if (nSlots <? 0)%Z then panic "makeslice: len out of range" else first_element (replicate (Z.to_nat nSlots) f0)) ;;;
  slots nSlots
    (c_floats L (C_DecryptSingle (int32 nSlots)) [(ctx, KContext); (cCt, KCiphertext); (cSk, KSecretKey)])
    "decrypt failed"))).

Record AuctionWeights := { K_ : float64; WStar : float64; WDist : float64 }.

(** The default sharpening polynomial, and the linear one. *)
Definition sharp_coeffs (degree : Z) : list float64 :=
  if (degree =? 1)%Z then [of_ratio 1 2; of_ratio 1 2] else [of_ratio 1 2; of_ratio 3 4; f0; of_ratio (-1) 4].

(** The scores are kept below 0.9 in absolute value. *)
Definition auction_scale (w : AuctionWeights) (distSqs : list float64) : float64 :=
  let span0 := fadd (K_ w) (fmul (WStar w) (of_Z 5)) in
  let maxKeySpan := foldl (fun m d => if fgtb (fmul (WDist w) d) m then fmul (WDist w) d else m) span0 distSqs in
  fdiv (of_ratio 9 10) maxKeySpan.
Definition auction_span (floorCents capCents : Z) : float64 :=
  let span := of_Z (capCents - floorCents) in if fleb span f0 then f1 else span.
Definition auction_offset (w : AuctionWeights) (scale span floor star dist : float64) : float64 :=
  fmul (fopp scale)
    (fsub (fadd (fmul (WStar w) (fsub (of_Z 5) star)) (fmul (WDist w) dist)) (fdiv (fmul (K_ w) floor) span)).
Definition auction_price_factor (w : AuctionWeights) (scale span : float64) : float64 :=
  fdiv (fmul (fopp scale) (K_ w)) span.

Definition bid_text (what : string) (i : nat) (rest : string) : string := what +:+ "[" +:+ fmt_int (Z.of_nat i) +:+ rest.

(** The encrypted score of each bid; everything is freed when the function
    returns, except the scaled price, freed at once. *)
Fixpoint with_scores {A} (ctx cPk : handle) (w : AuctionWeights) (scale span floor : float64) (price : nat -> CM handle)
    (i : nat) (bids : list (float64 * float64)) (scores : list handle) (rest : list handle -> CM A) : CM A :=
  match bids with
  | [] => rest scores
  | (star, dist) :: bids' =>
      with_handle KCiphertext
        (encryptScalar ctx cPk (auction_offset w scale span floor star dist) (bid_text "encrypt offset" i "] failed")) (fun offCt =>
      with_handle KCiphertext (price i) (fun pCt =>
      with_handle KCiphertext
        (let! sum := with_handle KCiphertext
           (c_must L KCiphertext (C_EvalMultConst (auction_price_factor w scale span)) [(ctx, KContext); (pCt, KCiphertext)]
              (bid_text "scale price" i "] failed")) (fun scaledPrice =>
           c_new L KCiphertext C_EvalAdd [(ctx, KContext); (scaledPrice, KCiphertext); (offCt, KCiphertext)]) in
         match sum with None => fail (bid_text "assemble score" i "] failed") | Some h => ret h end) (fun score =>
      with_scores ctx cPk w scale span floor price (S i) bids' (scores ++ [score])%list rest)))
  end.

(** The evaluation shared by the two auction servers; [price ctx pk i] is the
    ciphertext of bid [i]. *)
Definition auctionServerIn (params : ContractParams) (pk evalMultKey : bytes) (variant : string) (n : nat)
    (price : handle -> handle -> nat -> CM handle) (starNorms distSqs : list float64) (nonces : list bytes)
    (floorCents capCents : Z) (w : AuctionWeights) (degree : Z) : CM (list bytes) :=
  fail_if (is_empty evalMultKey) ("evaluation key required: use " +:+ variant) ;;;
  fail_if (n <? 2)%nat ("need >= 2 bids, got " +:+ fmt_int (Z.of_nat n)) ;;;
  fail_if (negb (length starNorms =? n)%nat || negb (length distSqs =? n)%nat || negb (length nonces =? n)%nat)
    "mismatched input lengths" ;;;
  fail_if (is_empty pk) "pk required" ;;;
  with_handle KContext (createContractContext L params) (fun ctx =>
  with_handle KPublicKey (wrap_err (fun e => Errorf [T "deserialize pk: "; W e]) (deserializePublicKey L ctx pk)) (fun cPk =>
  with_handle KEvalMultKey
    (wrap_err (fun e => Errorf [T "deserialize eval-mult key: "; W e]) (deserializeEvalMultKey L ctx evalMultKey)) (fun key =>
  c_check L C_InsertEvalMultKey [(ctx, KContext); (key, KEvalMultKey)] "insert eval-mult key failed" ;;;
  let span := auction_span floorCents capCents in
  let scale := auction_scale w distSqs in
  with_scores ctx cPk w scale span (of_Z floorCents) (price ctx cPk) 0 (zip starNorms distSqs) [] (fun scores =>
  with_handles KCiphertext
    (evalArgmax ctx scores (sharp_coeffs degree)
       (Errorf [T "argmax failed (depth "; T (fmt_int (Depth params)); T " insufficient for n="; T (fmt_int (Z.of_nat n)); T ")"]))
    (serialize_each "serialize mask[" 0))))).

(** The server encrypts the prices it is given. *)
Definition singleKeyAuctionServer (params : ContractParams) (pk evalMultKey : bytes) (priceCents : list Z)
    (starNorms distSqs : list float64) (nonces : list bytes) (floorCents capCents : Z) (w : AuctionWeights) (degree : Z) :=
  auctionServerIn params pk evalMultKey "SingleKeyAuctionServerWithEvalKey" (length priceCents)
    (fun ctx cPk i => encryptScalar ctx cPk (of_Z (nth i priceCents 0%Z)) (bid_text "encrypt price" i "] failed"))
    starNorms distSqs nonces floorCents capCents w degree.
Definition SingleKeyAuctionServer (params : ContractParams) (pk : bytes) := singleKeyAuctionServer params pk [].
Definition SingleKeyAuctionServerWithEvalKey := singleKeyAuctionServer.

(** The bids arrive encrypted. *)
Definition singleKeyAuctionServerEnc (params : ContractParams) (pk evalMultKey : bytes) (encBids : list bytes)
    (starNorms distSqs : list float64) (nonces : list bytes) (floorCents capCents : Z) (w : AuctionWeights) (degree : Z) :=
  auctionServerIn params pk evalMultKey "SingleKeyAuctionServerEncWithEvalKey" (length encBids)
    (fun ctx cPk i => wrap_err (fun e => Errorf [T (bid_text "deserialize encBid" i "]: "); W e])
                        (deserializeCiphertext L ctx (nth i encBids [])))
    starNorms distSqs nonces floorCents capCents w degree.
Definition SingleKeyAuctionServerEnc (params : ContractParams) (pk : bytes) := singleKeyAuctionServerEnc params pk [].
Definition SingleKeyAuctionServerEncWithEvalKey := singleKeyAuctionServerEnc.

(** One slot of a ciphertext; zero when the library writes none. *)
Definition decrypt_slot (ctx cSk ct : handle) : CM (option float64) :=
  let! r := c_floats L (C_DecryptSingle 1) [(ctx, KContext); (ct, KCiphertext); (cSk, KSecretKey)] in
  ret (hd f0 <$> r).

(** [if best < 0 || v > bestVal { best, bestVal = i, v }]. *)
Definition best_of (best : Z * float64) (i : nat) (v : float64) : Z * float64 :=
  if (best.1 <? 0)%Z || fgtb v best.2 then (Z.of_nat i, v) else best.

Fixpoint decrypt_masks (ctx cSk : handle) (i : nat) (raws : list bytes) (best : Z * float64) : CM (list float64 * Z) :=
  match raws with
  | [] => ret ([], best.1)
  | raw :: raws' =>
      let! v := with_handle KCiphertext
        (wrap_err (fun e => Errorf [T (bid_text "deserialize mask" i "]: "); W e]) (deserializeCiphertext L ctx raw))
        (decrypt_slot ctx cSk) in
      match v with
      | None => fail (bid_text "decrypt mask" i "] failed")
      | Some v =>
          let! r := decrypt_masks ctx cSk (S i) raws' (best_of best i v) in
          ret (v :: r.1, r.2)
      end
  end.
Definition SingleKeyAuctionDecrypt (params : ContractParams) (sk : bytes) (encryptedMasks : list bytes) : CM (list float64 * Z) :=
  fail_if (length encryptedMasks <? 2)%nat "need >= 2 masks" ;;;
  fail_if (is_empty sk) "sk required" ;;;
  with_handle KContext (createContractContext L params) (fun ctx =>
  with_handle KSecretKey
    (wrap_err (fun e => Errorf [T "deserialize sk: "; W e]) (deserializeSecretKeyShare L ctx sk true)) (fun cSk =>
  decrypt_masks ctx cSk 0 encryptedMasks ((-1)%Z, f0))).

(** The in-process argmin.  The ciphertexts of a loop that fails are not freed:
    the clean-up is deferred after the loop. *)
Fixpoint encrypt_scores (ctx pk : handle) (i : nat) (scores : list float64) : CM (list handle) :=
  match scores with
  | [] => ret []
  | x :: scores' =>
      let! h := encryptScalar ctx pk x (bid_text "encrypt" i "] failed") in
      let! hs := encrypt_scores ctx pk (S i) scores' in
      ret (h :: hs)
  end.
Fixpoint decrypt_handles (ctx sk : handle) (i : nat) (masks : list handle) (best : Z * float64) : CM (list float64 * Z) :=
  match masks with
  | [] => ret ([], best.1)
  | h :: masks' =>
      let! v := decrypt_slot ctx sk h in
      match v with
      | None => fail (bid_text "decrypt mask" i "] failed")
      | Some v =>
          let! r := decrypt_handles ctx sk (S i) masks' (best_of best i v) in
          ret (v :: r.1, r.2)
      end
  end.
Definition SingleKeySoftArgmin (scores : list float64) (degree : Z) : CM (list float64 * Z) :=
  fail_if (length scores <? 2)%nat "need >=2 scores" ;;;
  let params := {| RingDim := 2 ^ 14; ScalingFactor := two_pow_50; Depth := 4; MinimalRotationKeys := false;
                   ProfileDim := 0; PayloadSlotCount := 0; EvalSumOnlyRotationKeys := false |} in
  with_handle KContext (createContractContext L params) (fun ctx =>
  with_keypair L C_KeyGenFirst [(ctx, KContext)] "keygen failed" (fun pk sk =>
  c_check L C_SingleKeyEvalMultKeyGen [(ctx, KContext); (sk, KSecretKey)] "eval-mult keygen failed" ;;;
  with_handles KCiphertext (encrypt_scores ctx pk 0 scores) (fun cts =>
  with_handles KCiphertext
    (evalArgmax ctx cts (sharp_coeffs degree)
       (Errorf [T "argmax failed (depth 4 insufficient for n="; T (fmt_int (Z.of_nat (length scores))); T ")"])) (fun masks =>
  decrypt_handles ctx sk 0 masks ((-1)%Z, f0))))).
End Eval.

(** ** Ownership *)

Section Owns.
Context {V LS : Type} (L : CLib V LS).
Notation CS := (CState V LS).
Notation CM := (M CS).
Implicit Types (G : owned).

Lemma with_mult_key_owns {A} ctx key msg (rest : CM A) G :
  (ctx, KContext) ∈ G -> (forall G', G ⊆ G' -> spec G' [] rest (fun _ => [])) ->
  spec G [] (with_mult_key L ctx key msg rest) (fun _ => []).
Proof. intros Hc Hr. unfold with_mult_key. own. Qed.
Lemma with_optional_mult_key_owns {A} ctx key msg (rest : CM A) G :
  (ctx, KContext) ∈ G -> (forall G', G ⊆ G' -> spec G' [] rest (fun _ => [])) ->
  spec G [] (with_optional_mult_key L ctx key msg rest) (fun _ => []).
Proof. intros Hc Hr. apply spec_if; [by apply Hr|by apply with_mult_key_owns]. Qed.
Lemma with_sum_key_owns {A} ctx key msg (rest : CM A) G :
  (ctx, KContext) ∈ G -> (forall G', G ⊆ G' -> spec G' [] rest (fun _ => [])) ->
  spec G [] (with_sum_key L ctx key msg rest) (fun _ => []).
Proof. intros Hc Hr. unfold with_sum_key. own. Qed.
Lemma evalProductSumInContext_owns scheme ctx l r n G :
  (ctx, KContext) ∈ G -> spec G [] (evalProductSumInContext L scheme ctx l r n) (fun _ => []).
Proof. intros. unfold evalProductSumInContext. own. Qed.
Lemma deserialize_each_owns what suffix ctx raws G :
  (ctx, KContext) ∈ G -> spec G [] (deserialize_each L what suffix ctx raws) (all_owned KCiphertext).
Proof. intros. unfold deserialize_each. own. Qed.
Lemma deserialize_each_length what suffix ctx raws :
  returns (deserialize_each L what suffix ctx raws) (fun hs => length hs = length raws).
Proof. apply returns_collect. Qed.
Lemma evalArgmax_owns ctx handles sharp e G :
  (ctx, KContext) ∈ G -> all_owned KCiphertext handles ⊆ G -> (0 < length handles)%nat -> (0 < length sharp)%nat ->
  spec G [] (evalArgmax L ctx handles sharp e) (all_owned KCiphertext).
Proof.
  intros Hc Hh H0 H1. unfold evalArgmax. own_step; [own|]. own_step; [own|].
  eapply spec_bind; [apply spec_array; sub_env|]. intros [out|]; [|apply spec_throw].
  rewrite app_nil_r. by apply spec_ret'.
Qed.
Lemma serialize_each_owns what i hs G :
  all_owned KCiphertext hs ⊆ G -> spec G [] (serialize_each L what i hs) (fun _ => []).
Proof.
  revert i. induction hs as [|h hs IH]; intros i Hh; [by apply spec_ret'|]. simpl.
  eapply spec_bind; [apply spec_wrap, serializeWith_owns, Hh; by left|]. intros raw.
  eapply spec_bind; [apply IH; set_solver|]. intros raws. own.
Qed.
Lemma buffer_result_owns op hs msg G : hs ⊆ G -> spec G [] (buffer_result L op hs msg) (fun _ => []).
Proof.
  intros Hs. eapply spec_bind; [by apply spec_buffer|]. intros r. apply spec_defer; [apply releases_free_opt|].
  eapply spec_bind; [apply spec_copy; set_solver|]. intros b. own.
Qed.
Lemma require_owns name b G : spec G [] (require name b : CM unit) (fun _ => []).
Proof. unfold require. own. Qed.
Lemma encryptScalar_owns ctx pk x msg G :
  (ctx, KContext) ∈ G -> (pk, KPublicKey) ∈ G -> spec G [] (encryptScalar L ctx pk x msg) (fun h => [(h, KCiphertext)]).
Proof. intros. unfold encryptScalar. own. Qed.
Lemma decrypt_slot_owns ctx sk ct G :
  (ctx, KContext) ∈ G -> (sk, KSecretKey) ∈ G -> (ct, KCiphertext) ∈ G ->
  spec G [] (decrypt_slot L ctx sk ct) (fun _ => []).
Proof. intros. unfold decrypt_slot. own. Qed.
Lemma slots_owns {A} n (call : CM (option (list A))) msg G :
  spec G [] call (fun _ => []) -> spec G [] (slots n call msg) (fun _ => []).
Proof. intros. unfold slots. own. Qed.
End Owns.

#[export] Hint Resolve with_mult_key_owns with_optional_mult_key_owns with_sum_key_owns evalProductSumInContext_owns
  deserialize_each_owns deserialize_each_length evalArgmax_owns serialize_each_owns buffer_result_owns require_owns
  encryptScalar_owns decrypt_slot_owns slots_owns : cgo.
