(* ===== verification/BridgeFuse.v ===== *)
(** * Score fusion through the bridge (pkg/ares/crypto/cgo/bridge.go)

    The requests and their conversions, the flattening of ciphertext matrices
    into one blob with its lengths, the fusion calls and the union of several
    comparators over one shared context.  The chunks a fusion returns come back
    as one blob that Go cuts by the lengths the library gives. *)
From Stdlib Require Import ZArith NArith Lia String Ascii.
From stdpp Require Import base gmap list strings.
From S2P Require Import Prelude Bytes.
From S2P Require Import GoFloat GoFmt.
From S2P Require Import CGo Bridge BridgeFold BridgeEval.

(** ** Requests *)

Record FullFuseRequest := {
  InitiatorCiphertext : bytes;
  InitiatorLatQ : Z; InitiatorLonQ : Z;
  CandidateCiphertexts : list bytes;
  CandidateLatQ : list Z; CandidateLonQ : list Z;
  CandidateDistanceCiphertexts : list bytes;
  CandidateBrownies : list Z;
  CandidatePackages : list (list Z);
  CandidatePayloadCiphertexts : list (list bytes);
  ProfileDim_ : Z;
  Alpha : float64; Beta : float64; Gamma : float64;
  Comparator : string; ComparatorDegree : Z; ComparatorGain : float64; ComparatorScale : float64;
  ComparatorBound : float64; SelectorSchedule : string;
  EvalKeys : EvalKeyFinal;
  PackageBytes : Z; PayloadSlotCount_ : Z; MinimalRotationKeys_ : bool
}.

(** The ciphertext-only requests: no package, no coordinate. *)
Record EncryptedInputFuseRequest := {
  e_InitiatorCiphertext : bytes;
  e_CandidateCiphertexts : list bytes;
  e_CandidateDistanceCiphertexts : list bytes;
  e_CandidateBrownies : list Z;
  e_CandidatePayloadCiphertexts : list (list bytes);
  e_ProfileDim : Z;
  e_Alpha : float64; e_Beta : float64; e_Gamma : float64;
  e_Comparator : string; e_ComparatorDegree : Z; e_ComparatorGain : float64; e_ComparatorScale : float64;
  e_ComparatorBound : float64; e_SelectorSchedule : string;
  e_EvalKeys : EvalKeyFinal; e_PayloadSlotCount : Z
}.

Record BFVBlindFuseRequest := {
  bfv_InitiatorCiphertext : bytes;
  CandidateProfileCiphertexts : list bytes;
  bfv_CandidatePayloadCiphertexts : list bytes;
  bfv_CandidateDistanceCiphertexts : list bytes;
  bfv_CandidateBrownies : list Z;
  bfv_ProfileDim : Z;
  ProfileWeight : Z; DistanceWeight : Z; BrownieWeight : Z;
  bfv_PackageBytes : Z;
  bfv_EvalKeys : EvalKeyFinal;
  StepCoefficients : list Z
}.

Definition fullFuseRequest (req : EncryptedInputFuseRequest) : FullFuseRequest := {|
  InitiatorCiphertext := e_InitiatorCiphertext req; InitiatorLatQ := 0; InitiatorLonQ := 0;
  CandidateCiphertexts := e_CandidateCiphertexts req; CandidateLatQ := []; CandidateLonQ := [];
  CandidateDistanceCiphertexts := e_CandidateDistanceCiphertexts req;
  CandidateBrownies := e_CandidateBrownies req; CandidatePackages := [];
  CandidatePayloadCiphertexts := e_CandidatePayloadCiphertexts req;
  ProfileDim_ := e_ProfileDim req; Alpha := e_Alpha req; Beta := e_Beta req; Gamma := e_Gamma req;
  Comparator := e_Comparator req; ComparatorDegree := e_ComparatorDegree req; ComparatorGain := e_ComparatorGain req;
  ComparatorScale := e_ComparatorScale req; ComparatorBound := e_ComparatorBound req;
  SelectorSchedule := e_SelectorSchedule req; EvalKeys := e_EvalKeys req;
  PackageBytes := 0; PayloadSlotCount_ := e_PayloadSlotCount req; MinimalRotationKeys_ := false |}.

Definition encryptedInputFuseRequestFromFull (req : FullFuseRequest) : EncryptedInputFuseRequest := {|
  e_InitiatorCiphertext := InitiatorCiphertext req;
  e_CandidateCiphertexts := CandidateCiphertexts req;
  e_CandidateDistanceCiphertexts := CandidateDistanceCiphertexts req;
  e_CandidateBrownies := CandidateBrownies req;
  e_CandidatePayloadCiphertexts := CandidatePayloadCiphertexts req;
  e_ProfileDim := ProfileDim_ req; e_Alpha := Alpha req; e_Beta := Beta req; e_Gamma := Gamma req;
  e_Comparator := Comparator req; e_ComparatorDegree := ComparatorDegree req; e_ComparatorGain := ComparatorGain req;
  e_ComparatorScale := ComparatorScale req; e_ComparatorBound := ComparatorBound req;
  e_SelectorSchedule := SelectorSchedule req; e_EvalKeys := EvalKeys req;
  e_PayloadSlotCount := PayloadSlotCount_ req |}.

(** ** Flattening *)

Definition err (s : string) : GoError := Errorf [T s].

Definition intsToCInts (values : list Z) : list Z := int32 <$> values.

Definition byte_value (v : Z) : bool := (0 <=? v)%Z && (v <=? 255)%Z.
Fixpoint flatten_packages (i : nat) (packages : list (list Z)) (packageBytes : Z) : GoError + list Z :=
  match packages with
  | [] => inr []
  | pkg :: packages' =>
      if negb (Z.of_nat (length pkg) =? packageBytes)%Z then
        inl (Errorf [T "candidate package "; T (fmt_int (Z.of_nat i)); T " length = "; T (fmt_int (Z.of_nat (length pkg)));
                     T ", want "; T (fmt_int packageBytes)])
      else if negb (forallb byte_value pkg) then
        inl (Errorf [T "candidate package "; T (fmt_int (Z.of_nat i)); T " contains byte out of range"])
      else match flatten_packages (S i) packages' packageBytes with
           | inl e => inl e
           | inr out => inr ((int32 <$> pkg) ++ out)
           end
  end.
Definition flattenCandidatePackages := flatten_packages 0.

Definition defaultStringGo (value fallback : string) : string := if is_set value then value else fallback.

Definition lens_of (cts : list bytes) : list Z := (fun c => Z.of_nat (length c)) <$> cts.
Definition concatCandidateCiphertexts (cts : list bytes) : bytes * list Z := (concat cts, lens_of cts).

(** The first empty ciphertext of a list. *)
Fixpoint first_empty (i : nat) (cts : list bytes) : option nat :=
  match cts with
  | [] => None
  | c :: cts' => if is_empty c then Some i else first_empty (S i) cts'
  end.

(** A candidate-major, chunk-major matrix of non-empty chunks. *)
Fixpoint flatten_payload (candidate : nat) (nChunks : Z) (matrix : list (list bytes)) : GoError + (bytes * list Z) :=
  match matrix with
  | [] => inr ([], [])
  | chunks :: matrix' =>
      if negb (Z.of_nat (length chunks) =? nChunks)%Z then
        inl (Errorf [T "encrypted payload candidate "; T (fmt_int (Z.of_nat candidate)); T " chunk count = ";
                     T (fmt_int (Z.of_nat (length chunks))); T ", want "; T (fmt_int nChunks)])
      else match first_empty 0 chunks with
      | Some chunk => inl (Errorf [T "encrypted payload candidate "; T (fmt_int (Z.of_nat candidate)); T " chunk ";
                                   T (fmt_int (Z.of_nat chunk)); T " is empty"])
      | None =>
          match flatten_payload (S candidate) nChunks matrix' with
          | inl e => inl e
          | inr (blob, lens) => inr (concat chunks ++ blob, lens_of chunks ++ lens)
          end
      end
  end.

(** For slot counts up to [2^62], whose sum with a chunk size stays in an [int]. *)
Definition payload_chunks (chunkSize slots : Z) : Z := ((slots + chunkSize - 1) / chunkSize)%Z.

(** [None]: the doubling of the chunk size does not end. *)
Definition flattenEncryptedPayloadCiphertexts (req : FullFuseRequest) (requireEvalKeys : bool)
    : option (GoError + (nat * Z * bytes * list Z)) :=
  let n := length (CandidateCiphertexts req) in
  let no_mult := is_empty (EvalMultFinal (EvalKeys req)) in
  let no_sum := is_empty (EvalSumFinal (EvalKeys req)) in
  if is_empty (InitiatorCiphertext req) then Some (inl (err "initiator ciphertext is required"))
  else if (n =? 0)%nat then Some (inl (err "at least one candidate ciphertext is required"))
  else if negb (length (CandidateBrownies req) =? n)%nat then
    Some (inl (err "candidate metadata counts must match ciphertext count"))
  else if is_empty (CandidateDistanceCiphertexts req) &&
          (negb (length (CandidateLatQ req) =? n)%nat || negb (length (CandidateLonQ req) =? n)%nat) then
    Some (inl (err "candidate coordinate counts must match ciphertext count"))
  else if negb (is_empty (CandidateDistanceCiphertexts req)) &&
          (negb (is_empty (CandidateLatQ req)) || negb (is_empty (CandidateLonQ req))) then
    Some (inl (err "encrypted distance mode cannot include candidate coordinates"))
  else if negb (is_empty (CandidatePackages req)) then
    Some (inl (err "encrypted payload fusion cannot include plaintext candidate packages"))
  else if (ProfileDim_ req <=? 0)%Z || (PayloadSlotCount_ req <=? 0)%Z then
    Some (inl (err "profileDim and payloadSlotCount must be positive"))
  else if requireEvalKeys && (no_mult || no_sum) then Some (inl (err "final eval-mult and eval-sum keys are required"))
  else if negb requireEvalKeys && negb (eqb no_mult no_sum) then
    Some (inl (err "eval-mult and eval-sum keys must be supplied together"))
  else match next_pow2_int (ProfileDim_ req) with
  | None => None
  | Some chunkSize =>
      let nChunks := payload_chunks chunkSize (PayloadSlotCount_ req) in
      Some (
      if (256 <? nChunks)%Z then
        inl (Errorf [T "encrypted payload has "; T (fmt_int nChunks); T " chunks; maximum is 256"])
      else if negb (length (CandidatePayloadCiphertexts req) =? n)%nat then
        inl (Errorf [T "encrypted payload candidate count = "; T (fmt_int (Z.of_nat (length (CandidatePayloadCiphertexts req))));
                     T ", want "; T (fmt_int (Z.of_nat n))])
      else match flatten_payload 0 nChunks (CandidatePayloadCiphertexts req) with
           | inl e => inl e
           | inr (blob, lens) => inr (n, nChunks, blob, lens)
           end)
  end.

Definition flattenEncryptedDistanceCiphertexts (req : FullFuseRequest) (n : nat) : GoError + (bytes * list Z) :=
  let cts := CandidateDistanceCiphertexts req in
  if negb (length cts =? n)%nat then
    inl (Errorf [T "encrypted distance candidate count = "; T (fmt_int (Z.of_nat (length cts))); T ", want ";
                 T (fmt_int (Z.of_nat n))])
  else if negb (is_empty (CandidateLatQ req)) || negb (is_empty (CandidateLonQ req)) then
    inl (err "encrypted distance mode cannot include candidate coordinates")
  else match first_empty 0 cts with
       | Some i => inl (Errorf [T "encrypted distance ciphertext "; T (fmt_int (Z.of_nat i)); T " is empty"])
       | None => inr (concat cts, lens_of cts)
       end.

(** ** Cutting the output *)

(** [chunks[c] = blob[off:off+l]]: a slice out of range panics, [None]. *)
Fixpoint cut (blob : bytes) (lens : list Z) (n : nat) : option (list bytes) :=
  match n with
  | O => Some []
  | S n' =>
      let l := hd 0%Z lens in
      if (0 <=? l)%Z && (l <=? Z.of_nat (length blob))%Z then
        (fun cs => take (Z.to_nat l) blob :: cs) <$> cut (drop (Z.to_nat l) blob) (tl lens) n'
      else None
  end.

(** The same with the lengths checked; [inl c] is the chunk with a bad length,
    or the end when bytes remain. *)
Fixpoint cut_checked (blob : bytes) (lens : list Z) (c n : nat) : option nat + list bytes :=
  match n with
  | O => if is_empty blob then inr [] else inl None
  | S n' =>
      let l := hd 0%Z lens in
      if (l <=? 0)%Z || (Z.of_nat (length blob) <? l)%Z then inl (Some c)
      else match cut_checked (drop (Z.to_nat l) blob) (tl lens) (S c) n' with
           | inl e => inl e
           | inr cs => inr (take (Z.to_nat l) blob :: cs)
           end
  end.

Section Fuse.
Context {V LS : Type} (L : CLib V LS).
Notation CS := (CState V LS).
Notation CM := (M CS).
Local Open Scope string_scope.

Definition requirePlainPayloadMode (req : FullFuseRequest) : CM unit :=
  fail_if (negb (is_empty (CandidatePayloadCiphertexts req)))
    "plaintext package fusion cannot also include encrypted payload chunks".

(** ** Arguments *)

Definition optional (b : bytes) : option bytes := if is_empty b then None else Some b.

(** The arguments every fusion takes, with the context parameters given. *)
Definition fuse_args (ring : Z) (scaling : float64) (depth : Z) (req : FullFuseRequest) (packages : list Z)
    (distances payload : bytes * list Z) : FuseArgs := {|
  a_ringDim := ring; a_scalingFactor := scaling; a_depth := depth;
  a_initiator := InitiatorCiphertext req;
  a_candidates := (concatCandidateCiphertexts (CandidateCiphertexts req)).1;
  a_candidateLens := (concatCandidateCiphertexts (CandidateCiphertexts req)).2;
  a_latQ := intsToCInts (CandidateLatQ req); a_lonQ := intsToCInts (CandidateLonQ req);
  a_brownies := intsToCInts (CandidateBrownies req);
  a_n := int32 (Z.of_nat (length (CandidateCiphertexts req))); a_profileDim := int32 (ProfileDim_ req);
  a_initiatorLatQ := int32 (InitiatorLatQ req); a_initiatorLonQ := int32 (InitiatorLonQ req);
  a_alpha := Alpha req; a_beta := Beta req; a_gamma := Gamma req;
  a_comparator := defaultStringGo (Comparator req) "tanh_chebyshev"; a_degree := int32 (ComparatorDegree req);
  a_gain := ComparatorGain req; a_scale := ComparatorScale req; a_bound := ComparatorBound req;
  a_schedule := defaultStringGo (SelectorSchedule req) "none";
  a_evalMult := optional (EvalMultFinal (EvalKeys req)); a_evalSum := optional (EvalSumFinal (EvalKeys req));
  a_distances := distances.1; a_distanceLens := distances.2;
  a_payload := payload.1; a_payloadLens := payload.2;
  a_packages := packages; a_packageBytes := int32 (PackageBytes req);
  a_payloadSlots := int32 (PayloadSlotCount_ req); a_minimal := MinimalRotationKeys_ req |}.

(** The two C strings, freed when the fusion returns. *)
Definition with_strings {A} (req : FullFuseRequest) (rest : CM A) : CM A :=
  with_handle KBuffer (c_string L (defaultStringGo (Comparator req) "tanh_chebyshev")) (fun _ =>
  with_handle KBuffer (c_string L (defaultStringGo (SelectorSchedule req) "none")) (fun _ => rest)).

Definition of_sum {A} (r : GoError + A) : CM A := match r with inl e => throw e | inr a => ret a end.

(** ** Plaintext packages *)

Definition counts_match (req : FullFuseRequest) : bool :=
  let n := length (CandidateCiphertexts req) in
  (length (CandidateLatQ req) =? n)%nat && (length (CandidateLonQ req) =? n)%nat &&
  (length (CandidateBrownies req) =? n)%nat && (length (CandidatePackages req) =? n)%nat.

(** The checks of the entry points that build their own context. *)
Definition check_plain_fresh (req : FullFuseRequest) : CM unit :=
  requirePlainPayloadMode req ;;;
  fail_if (is_empty (InitiatorCiphertext req)) "initiator ciphertext is required" ;;;
  fail_if (is_empty (CandidateCiphertexts req)) "at least one candidate ciphertext is required" ;;;
  fail_if (negb (counts_match req)) "candidate metadata counts must match ciphertext count" ;;;
  fail_if (is_empty (EvalMultFinal (EvalKeys req)) || is_empty (EvalSumFinal (EvalKeys req)))
    "final eval-mult and eval-sum keys are required" ;;;
  fail_if (PackageBytes req <=? 0)%Z "packageBytes must be positive" ;;;
  fail_if (PayloadSlotCount_ req <=? 0)%Z "payloadSlotCount must be positive".
(** The checks of those that reuse a context, after the context's own. *)
Definition check_plain_context (req : FullFuseRequest) : CM unit :=
  fail_if (is_empty (CandidateCiphertexts req) || is_empty (InitiatorCiphertext req))
    "initiator and at least one candidate ciphertext required" ;;;
  fail_if (negb (counts_match req)) "candidate metadata counts must match ciphertext count" ;;;
  fail_if (is_empty (EvalMultFinal (EvalKeys req)) && negb (is_empty (EvalSumFinal (EvalKeys req))))
    "final eval-mult key is required" ;;;
  fail_if (PackageBytes req <=? 0)%Z "packageBytes must be positive" ;;;
  fail_if (PayloadSlotCount_ req <=? 0)%Z "payloadSlotCount must be positive".

(** [&candidateBlob[0]], [&latQ[0]] and the others. *)
Definition plain_pointers (req : FullFuseRequest) (packages : list Z) : CM unit :=
  first_element (InitiatorCiphertext req) ;;; first_element (concat (CandidateCiphertexts req)) ;;;
  first_element (CandidateLatQ req) ;;; first_element (CandidateLonQ req) ;;;
  first_element (CandidateBrownies req) ;;; first_element packages.

(** The packages are flattened, the strings made, the library called; [take]
    reads the output before it is freed. *)
Definition plain_fusion {A} (op : FuseArgs -> COp) (hs : owned) (what : string) (ring : Z) (scaling : float64) (depth : Z)
    (req : FullFuseRequest) (read : option handle * list Z * Z -> CM A) : CM A :=
  let! packages := of_sum (flattenCandidatePackages (CandidatePackages req) (PackageBytes req)) in
  with_strings req (
  plain_pointers req packages ;;;
  let! r := c_fuse L (op (fuse_args ring scaling depth req packages ([], []) ([], []))) hs what in
  deferring (free_opt KBuffer r.1.1) (read r)).

Definition read_payload (r : option handle * list Z * Z) : CM bytes := copyCBytes L r.1.1.

Definition FullFusePayloadCKKS (params : ContractParams) (req : FullFuseRequest) : CM bytes :=
  check_plain_fresh req ;;;
  match first_empty 0 (CandidateCiphertexts req) with
  | Some i => throw (Errorf [T "candidate ciphertext "; T (fmt_int (Z.of_nat i)); T " is empty"])
  | None => plain_fusion C_ARESFullFusePayloadCKKS [] "openfhe full payload fusion failed"
              (RingDim params) (ScalingFactor params) (Depth params) req read_payload
  end.
Definition FullFusePayloadCKKSWithContext (ctx : option handle) (req : FullFuseRequest) : CM bytes :=
  requirePlainPayloadMode req ;;;
  match ctx with
  | None => fail "crypto context is required"
  | Some ctx =>
      check_plain_context req ;;;
      plain_fusion C_ARESFullFusePayloadCKKS [(ctx, KContext)] "full fuse payload" 0 f0 0 req read_payload
  end.

(** At most 256 chunks, then the cut by the lengths as they are. *)
Definition read_chunks (r : option handle * list Z * Z) : CM (list bytes) :=
  let '(out, lens, nChunks) := r in
  if (256 <? nChunks)%Z then
    fail ("chunked fuse produced " +:+ fmt_int nChunks +:+ " chunks > cap 256")
  else
    let! blob := copyCBytes L out in
    if (nChunks <? 0)%Z then panic "makeslice: len out of range" else
    match cut blob lens (Z.to_nat nChunks) with
    | None => panic "slice bounds out of range"
    | Some chunks => ret chunks
    end.

Definition ChunkedFusePayloadCKKS (params : ContractParams) (req : FullFuseRequest) : CM (list bytes) :=
  check_plain_fresh req ;;;
  plain_fusion C_ARESChunkedFusePayloadCKKS [] "chunked fuse payload"
    (RingDim params) (ScalingFactor params) (Depth params) req read_chunks.
Definition ChunkedFusePayloadCKKSWithContext (ctx : option handle) (req : FullFuseRequest) : CM (list bytes) :=
  requirePlainPayloadMode req ;;;
  match ctx with
  | None => fail "crypto context is required"
  | Some ctx =>
      check_plain_context req ;;;
      plain_fusion C_ARESChunkedFusePayloadCKKS [(ctx, KContext)] "chunked fuse payload" 0 f0 0 req read_chunks
  end.

(** ** Encrypted payloads *)

(** The chunk count must be the one expected and the lengths must add up. *)
Definition read_checked (what input : string) (expected : Z) (r : option handle * list Z * Z) : CM (list bytes) :=
  let '(out, lens, nChunks) := r in
  match out with
  | None => fail ("chunked encrypted " +:+ what +:+ " returned no ciphertexts")
  | Some _ =>
      if negb (nChunks =? expected)%Z then
        fail ("chunked encrypted " +:+ what +:+ " produced " +:+ fmt_int nChunks +:+ " chunks, want " +:+ fmt_int expected)
      else
        let! blob := copyCBytes L out in
        match cut_checked blob lens 0 (Z.to_nat nChunks) with
        | inl (Some c) => fail ("invalid serialized encrypted " +:+ input +:+ " chunk " +:+ fmt_int (Z.of_nat c) +:+ " length")
        | inl None => fail ("encrypted " +:+ input +:+ " output length does not match chunk lengths")
        | inr chunks => ret chunks
        end
  end.

Definition context_args (ctx : option handle) (params : ContractParams) : Z * float64 * Z :=
  match ctx with
  | Some _ => (0%Z, f0, 0%Z)
  | None => (RingDim params, ScalingFactor params, Depth params)
  end.
Definition context_owned (ctx : option handle) : owned := opt_owned KContext ctx.

Definition encrypted_fusion (op : FuseArgs -> COp) (what input : string) (ctx : option handle) (params : ContractParams)
    (req : FullFuseRequest) (expected : Z) (distances payload : bytes * list Z) (coordinates : bool) : CM (list bytes) :=
  match first_empty 0 (CandidateCiphertexts req) with
  | Some i => throw (Errorf [T "candidate ciphertext "; T (fmt_int (Z.of_nat i)); T " is empty"])
  | None =>
      with_strings req (
      first_element (InitiatorCiphertext req) ;;; first_element (concat (CandidateCiphertexts req)) ;;;
      (if coordinates then first_element (CandidateLatQ req) ;;; first_element (CandidateLonQ req)
       else first_element distances.1 ;;; first_element distances.2) ;;;
      first_element (CandidateBrownies req) ;;; first_element payload.1 ;;; first_element payload.2 ;;;
      let '(ring, scaling, depth) := context_args ctx params in
      let! r := c_fuse L (op (fuse_args ring scaling depth req [] distances payload)) (context_owned ctx)
                  ("chunked encrypted " +:+ what) in
      deferring (free_opt KBuffer r.1.1) (read_checked what input expected r))
  end.

Definition flattened (req : FullFuseRequest) (requireEvalKeys : bool) : CM (nat * Z * bytes * list Z) :=
  match flattenEncryptedPayloadCiphertexts req requireEvalKeys with
  | None => panic "the doubling of the chunk size does not end"
  | Some r => of_sum r
  end.
Definition no_context (ctx : option handle) : bool := match ctx with None => true | Some _ => false end.

Definition chunkedFuseEncryptedPayloadCKKS (ctx : option handle) (params : ContractParams) (req : FullFuseRequest) : CM (list bytes) :=
  fail_if (negb (is_empty (CandidateDistanceCiphertexts req)))
    "encrypted payload fusion with raw coordinates cannot include encrypted distances" ;;;
  let! f := flattened req (no_context ctx) in
  let '(n, expectedChunks, payloadBlob, payloadLens) := f in
  encrypted_fusion C_ARESChunkedFuseEncryptedPayloadCKKS "payload fusion" "payload" ctx params req expectedChunks
    ([], []) (payloadBlob, payloadLens) true.
Definition ChunkedFuseEncryptedPayloadCKKS := chunkedFuseEncryptedPayloadCKKS None.

Definition zero_params : ContractParams := {|
  RingDim := 0; ScalingFactor := f0; Depth := 0; MinimalRotationKeys := false; ProfileDim := 0; PayloadSlotCount := 0;
  EvalSumOnlyRotationKeys := false |}.
Definition ChunkedFuseEncryptedPayloadCKKSWithContext (ctx : option handle) (req : FullFuseRequest) : CM (list bytes) :=
  match ctx with
  | None => fail "crypto context is required"
  | Some _ => chunkedFuseEncryptedPayloadCKKS ctx zero_params req
  end.

Definition chunkedFuseEncryptedInputsCKKS (ctx : option handle) (params : ContractParams) (req : FullFuseRequest) : CM (list bytes) :=
  let! f := flattened req (no_context ctx) in
  let '(n, expectedChunks, payloadBlob, payloadLens) := f in
  let! distances := of_sum (flattenEncryptedDistanceCiphertexts req n) in
  encrypted_fusion C_ARESChunkedFuseEncryptedInputsCKKS "input fusion" "input" ctx params req expectedChunks
    distances (payloadBlob, payloadLens) false.
Definition ChunkedFuseEncryptedInputsCKKS (params : ContractParams) (req : EncryptedInputFuseRequest) :=
  chunkedFuseEncryptedInputsCKKS None params (fullFuseRequest req).
Definition ChunkedFuseEncryptedInputsCKKSWithContext (ctx : option handle) (req : EncryptedInputFuseRequest) : CM (list bytes) :=
  match ctx with
  | None => fail "crypto context is required"
  | Some _ => chunkedFuseEncryptedInputsCKKS ctx zero_params (fullFuseRequest req)
  end.

(** ** Exact fusion over BFV *)

Definition pinned (label : string) (cts : list bytes) : CM unit :=
  match first_empty 0 cts with
  | Some i => throw (Errorf [T "candidate "; T (fmt_int (Z.of_nat i)); T " "; T label; T " ciphertext is empty"])
  | None => ret tt
  end.
Definition with_table {A} (n : nat) (rest : CM A) : CM A :=
  with_handle KBuffer (c_must L KBuffer (C_malloc (8 * Z.of_nat n)) [] "allocate BFV ciphertext pointer table") (fun _ => rest).

Definition blind_args (params : BFVContractParams) (req : BFVBlindFuseRequest) : BlindArgs := {|
  b_ringDim := bfv_RingDim params; b_depth := MultiplicativeDepth params; b_modulus := PlaintextModulus params;
  b_batchSize := BatchSize params mod 2 ^ 32;
  b_evalMult := EvalMultFinal (bfv_EvalKeys req); b_evalSum := EvalSumFinal (bfv_EvalKeys req);
  b_initiator := bfv_InitiatorCiphertext req; b_profiles := CandidateProfileCiphertexts req;
  b_distances := bfv_CandidateDistanceCiphertexts req; b_payloads := bfv_CandidatePayloadCiphertexts req;
  b_brownies := intsToCInts (bfv_CandidateBrownies req); b_profileDim := int32 (bfv_ProfileDim req);
  b_profileWeight := ProfileWeight req; b_distanceWeight := DistanceWeight req; b_brownieWeight := BrownieWeight req;
  b_packageBytes := int32 (bfv_PackageBytes req); b_step := StepCoefficients req |}.

Definition BlindFusePayloadBFVForContract (params : BFVContractParams) (req : BFVBlindFuseRequest) : CM bytes :=
  let n := length (CandidateProfileCiphertexts req) in
  require "initiator ciphertext" (bfv_InitiatorCiphertext req) ;;;
  fail_if (n <? 2)%nat "at least two BFV candidates are required" ;;;
  fail_if (negb (length (bfv_CandidateDistanceCiphertexts req) =? n)%nat ||
           negb (length (bfv_CandidatePayloadCiphertexts req) =? n)%nat ||
           negb (length (bfv_CandidateBrownies req) =? n)%nat)
    "BFV candidate ciphertext and brownie counts must match" ;;;
  fail_if (is_empty (EvalMultFinal (bfv_EvalKeys req)) || is_empty (EvalSumFinal (bfv_EvalKeys req)))
    "final BFV eval-mult and eval-sum keys are required" ;;;
  fail_if ((bfv_ProfileDim req <=? 0)%Z || (bfv_PackageBytes req <=? 0)%Z || is_empty (StepCoefficients req))
    "BFV profile dimension, package size, and step coefficients are required" ;;;
  with_table n (with_table n (with_table n (
  pinned "profile" (CandidateProfileCiphertexts req) ;;;
  pinned "distance" (bfv_CandidateDistanceCiphertexts req) ;;;
  pinned "payload" (bfv_CandidatePayloadCiphertexts req) ;;;
  let! r := c_blind L (C_ARESBlindFusePayloadBFV (blind_args params req)) in
  let '(ok, text, out) := r in
  deferring (free_opt KBuffer out) (
  let! b := copyCBytes L out in
  if negb ok || is_empty b then throw (Errorf [T "openfhe BFV blind payload fusion failed: "; T text]) else ret b)))).
End Fuse.

(** ** Correctness of the conversions *)

Lemma fullFuseRequest_round req : encryptedInputFuseRequestFromFull (fullFuseRequest req) = req.
Proof. by destruct req. Qed.

Lemma int32_small n : (- 2 ^ 31 <= n < 2 ^ 31)%Z -> int32 n = n.
Proof. intros H. unfold int32. rewrite Z.mod_small; lia. Qed.

Lemma flatten_packages_inr i packages pb out :
  flatten_packages i packages pb = inr out <->
  out = concat packages /\
  Forall (fun pkg => Z.of_nat (length pkg) = pb /\ Forall (fun v => (0 <= v <= 255)%Z) pkg) packages.
Proof.
  revert i out. induction packages as [|pkg packages IH]; intros i out; simpl.
  { split; [intros [= <-]; by split; [|constructor]|]. by intros [-> _]. }
  destruct (Z.eqb_spec (Z.of_nat (length pkg)) pb) as [Hn|Hn]; simpl.
  2:{ split; [done|]. intros [_ [[? _] _]%Forall_cons]. done. }
  assert (forallb byte_value pkg = true <-> Forall (fun v => (0 <= v <= 255)%Z) pkg) as Hb.
  { rewrite forallb_forall, Forall_forall. unfold byte_value. setoid_rewrite <- list_elem_of_In.
    split; intros H v Hv; specialize (H v Hv); lia. }
  destruct (forallb byte_value pkg); simpl.
  2:{ split; [done|]. intros [_ [[_ H] _]%Forall_cons]. by apply Hb in H. }
  pose proof (proj1 Hb eq_refl) as Hp.
  assert (int32 <$> pkg = pkg) as Hid.
  { clear -Hp. induction Hp as [|v pkg Hv _ IH]; [done|]. simpl. rewrite int32_small by lia. f_equal. exact IH. }
  destruct (flatten_packages (S i) packages pb) as [e|rest] eqn:E.
  - split; [done|]. intros [_ [_ Hf]%Forall_cons].
    assert (flatten_packages (S i) packages pb = inr (concat packages)) by (by apply IH). congruence.
  - apply IH in E as [-> Hf]. rewrite Hid. split.
    + intros [= <-]. split; [done|]. by constructor.
    + by intros [-> _].
Qed.

(** The packages of the candidates are flattened exactly when each has the
    declared length and only byte values, into their concatenation: no value
    changes on its way to a C int. *)
Lemma flattenCandidatePackages_iff packages packageBytes out :
  flattenCandidatePackages packages packageBytes = inr out <->
  out = concat packages /\
  Forall (fun pkg => Z.of_nat (length pkg) = packageBytes /\ Forall (fun v => (0 <= v <= 255)%Z) pkg) packages.
Proof. apply flatten_packages_inr. Qed.

(** ** Cutting undoes the concatenation *)

Lemma cut_app c blob lens n :
  cut (c ++ blob) (Z.of_nat (length c) :: lens) (S n) = (fun cs => c :: cs) <$> cut blob lens n.
Proof.
  simpl. rewrite length_app.
  rewrite (proj2 (Z.leb_le 0 _)), (proj2 (Z.leb_le (Z.of_nat (length c)) _)) by lia. cbn [andb].
  by rewrite Nat2Z.id, take_app_length, drop_app_length.
Qed.

Lemma cut_concat cts blob rest :
  cut (concat cts ++ blob) (lens_of cts ++ rest) (length cts) = Some cts.
Proof.
  induction cts as [|c cts IH]; [done|]. cbn [concat length lens_of fmap list_fmap app].
  rewrite <- app_assoc, cut_app. unfold lens_of in IH. by rewrite IH.
Qed.

Lemma cut_checked_inr blob lens c n chunks :
  cut_checked blob lens c n = inr chunks <->
  blob = concat chunks /\ Forall (fun c => (0 < length c)%nat) chunks /\ length chunks = n /\ take n lens = lens_of chunks.
Proof.
  revert blob lens chunks c. induction n as [|n IH]; intros blob lens chunks c; simpl.
  { split; [destruct blob; [|done]; intros [= <-]; split_and!; try done; constructor|].
    intros (-> & _ & ->%nil_length_inv & _). done. }
  destruct ((hd 0%Z lens <=? 0)%Z || (Z.of_nat (length blob) <? hd 0%Z lens)%Z) eqn:E.
  { split; [done|]. intros (-> & Hf & Hn & E'). destruct lens as [|l lens], chunks as [|ch chunks]; try done.
    apply Forall_cons in Hf as [Hc _]. simpl in *. injection E' as -> _. rewrite length_app in E.
    apply orb_true_iff in E as [?%Z.leb_le|?%Z.ltb_lt]; lia. }
  apply orb_false_iff in E as [E1%Z.leb_gt E2%Z.ltb_ge]. destruct lens as [|l lens]; [simpl in *; lia|]. simpl in *.
  specialize (IH (drop (Z.to_nat l) blob) lens). split.
  - destruct (cut_checked (drop (Z.to_nat l) blob) lens (S c) n) as [e|cs] eqn:Ec; [done|]. intros [= <-].
    apply IH in Ec as (Eb & Hf & Hn & Ht). simpl. rewrite <- Eb, take_drop, Ht, length_take.
    split_and!; [done| |lia|].
    + constructor; [|done]. rewrite length_take. lia.
    + f_equal. lia.
  - intros (-> & Hf & Hn & E'). destruct chunks as [|ch chunks]; [done|].
    apply Forall_cons in Hf as [Hc Hf]. simpl in *. injection E' as -> E'.
    rewrite Nat2Z.id in *. rewrite take_app_length, drop_app_length in *.
    assert (cut_checked (concat chunks) lens (S c) n = inr chunks) as ->; [|done].
    apply IH. split_and!; [done|done|lia|done].
Qed.

(** The checked cut of an encrypted fusion accepts a blob and its lengths
    exactly when the lengths are those of non-empty chunks that make up the
    whole blob, and returns these chunks: cutting is the inverse of
    concatenating, and no byte is lost, shared or left over. *)
Lemma cut_checked_iff blob lens n chunks :
  cut_checked blob lens 0 n = inr chunks <->
  blob = concat chunks /\ Forall (fun c => (0 < length c)%nat) chunks /\ length chunks = n /\ take n lens = lens_of chunks.
Proof. apply cut_checked_inr. Qed.

(** ** What the flattening of the encrypted payload accepts *)

Lemma first_empty_None_iff i cts : first_empty i cts = None <-> Forall (fun c => (0 < length c)%nat) cts.
Proof.
  revert i. induction cts as [|c cts IH]; intros i; simpl; [split; [constructor|done]|].
  rewrite Forall_cons, <- (IH (S i)). destruct c; simpl; split; [done|lia|by split; [lia|]|by intros [_ ?]].
Qed.

Lemma flatten_payload_iff i nChunks matrix blob lens :
  flatten_payload i nChunks matrix = inr (blob, lens) <->
  blob = concat (concat matrix) /\ lens = lens_of (concat matrix) /\
  Forall (fun chunks => Z.of_nat (length chunks) = nChunks /\ Forall (fun c => (0 < length c)%nat) chunks) matrix.
Proof.
  revert i blob lens. induction matrix as [|chunks matrix IH]; intros i blob lens; simpl.
  { split; [intros [= <- <-]; by split_and!; [..|constructor]|]. by intros (-> & -> & _). }
  rewrite Forall_cons, concat_app. unfold lens_of in *. rewrite fmap_app.
  destruct (Z.eqb_spec (Z.of_nat (length chunks)) nChunks) as [Hn|Hn]; simpl; [|naive_solver].
  pose proof (first_empty_None_iff 0 chunks) as He. destruct (first_empty 0 chunks) as [c|]; [naive_solver|].
  destruct (flatten_payload (S i) nChunks matrix) as [e|[blob' lens']] eqn:E.
  - split; [done|]. intros (_ & _ & _ & Hf).
    assert (flatten_payload (S i) nChunks matrix = inr (concat (concat matrix), (fun c => Z.of_nat (length c)) <$> concat matrix));
      [by apply IH|congruence].
  - apply IH in E as (-> & -> & Hf). naive_solver.
Qed.
