(* ===== verification/BridgeSmoke.v ===== *)
(** * Self-tests, measurements and plain scoring of the bridge
    (pkg/ares/crypto/cgo: bridge.go, streamed_keygen.go, resident_combine.go,
    bonly_keygen.go, incremental_combine.go)

    The threshold smoke test, the functions that compare two ways to the same
    keys or measure them, the native scoring of plain candidates and the
    scheme-switching argmin.  What the library leaves in an error buffer, and the
    status it returned, are read from its state. *)
From Stdlib Require Import ZArith NArith Lia String Ascii.
From stdpp Require Import base gmap list strings.
From S2P Require Import Prelude Bytes.
From S2P Require Import GoFloat GoFmt.
From S2P Require Import CGo Bridge BridgeFold BridgeEval BridgeFuse.

(** ** Requests of the plain scoring *)

Record ScoreRequest := {
  s_InitiatorProfile : list float64; s_InitiatorLatQ : Z; s_InitiatorLonQ : Z;
  s_CandidateProfiles : list (list float64); s_CandidateLatQ : list Z; s_CandidateLonQ : list Z;
  s_CandidateBrownies : list Z; s_CandidatePackages : list (list Z);
  s_Alpha : float64; s_Beta : float64; s_Gamma : float64;
  DistanceFunction : string; s_Comparator : string; s_ComparatorDegree : Z; s_ComparatorGain : float64;
  s_ComparatorScale : float64; s_ComparatorBound : float64; MaskMode : string; s_SelectorSchedule : string;
  s_ScalingModSize : Z; FirstModSize : Z; s_PayloadSlotCount : Z
}.
Record ScoreResult := {
  Scores : list float64; MaskValues : list float64; PayloadValues : list float64;
  WinnerIndex : Z; WinnerScore : float64
}.

(** The arguments of [ARESScoreCandidatesCKKS]. *)
Record ScoreArgs := {
  p_initiator : list float64; p_dim : Z; p_lat : Z; p_lon : Z;
  p_profiles : list float64; p_latQ : list Z; p_lonQ : list Z; p_brownies : list Z; p_n : Z;
  p_alpha : float64; p_beta : float64; p_gamma : float64;
  p_distance : string; p_comparator : string; p_degree : Z; p_gain : float64; p_scale : float64; p_bound : float64;
  p_mask : string; p_schedule : string; p_scalingMod : Z; p_firstMod : Z;
  p_packages : list Z; p_packageBytes : Z; p_payloadSlots : Z
}.

Definition intsToC (values : list Z) : list Z := int32 <$> values.

Definition bad_profile_dim (i : nat) (n : nat) (dim : nat) : GoError :=
  Errorf [T "candidate "; T (fmt_int (Z.of_nat i)); T " profile dim="; T (fmt_int (Z.of_nat n)); T " want "; T (fmt_int (Z.of_nat dim))].
Fixpoint flatten_profiles (i : nat) (dim : nat) (profiles : list (list float64)) : GoError + list float64 :=
  match profiles with
  | [] => inr []
  | p :: profiles' =>
      if negb (length p =? dim)%nat then inl (bad_profile_dim i (length p) dim)
      else match flatten_profiles (S i) dim profiles' with inl e => inl e | inr out => inr (p ++ out) end
  end.

(** The first byte out of range. *)
Fixpoint bad_byte (j : nat) (pkg : list Z) : option (nat * Z) :=
  match pkg with
  | [] => None
  | v :: pkg' => if (v <? 0)%Z || (255 <? v)%Z then Some (j, v) else bad_byte (S j) pkg'
  end.
Fixpoint flatten_plain_packages (i : nat) (packageBytes : nat) (packages : list (list Z)) : GoError + list Z :=
  match packages with
  | [] => inr []
  | pkg :: packages' =>
      if negb (length pkg =? packageBytes)%nat then
        inl (Errorf [T "candidate "; T (fmt_int (Z.of_nat i)); T " package length="; T (fmt_int (Z.of_nat (length pkg)));
                     T " want "; T (fmt_int (Z.of_nat packageBytes))])
      else match bad_byte 0 pkg with
           | Some (j, v) => inl (Errorf [T "candidate "; T (fmt_int (Z.of_nat i)); T " package byte ";
                                         T (fmt_int (Z.of_nat j)); T " out of range: "; T (fmt_int v)])
           | None => match flatten_plain_packages (S i) packageBytes packages' with
                     | inl e => inl e
                     | inr out => inr (pkg ++ out)
                     end
           end
  end.

(** The number of payload slots: eight per package byte by default, and at
    least so many. *)
Definition payload_slots (requested : Z) (packageBytes : nat) : GoError + Z :=
  let bits := (Z.of_nat packageBytes * 8)%Z in
  let n := if (requested =? 0)%Z then bits else requested in
  if (n <? bits)%Z then
    inl (Errorf [T "payload slot count "; T (fmt_int n); T " cannot hold "; T (fmt_int bits); T " package bits"])
  else inr n.

(** Every check of a scoring request, then the arguments of the call and the
    length of the payload array. *)
Definition score_args (req : ScoreRequest) : GoError + (ScoreArgs * Z) :=
  let n := length (s_CandidateProfiles req) in
  let dim := length (s_InitiatorProfile req) in
  if is_empty (s_InitiatorProfile req) then inl (err "initiator profile is required")
  else if is_empty (s_CandidateProfiles req) then inl (err "at least one candidate is required")
  else match flatten_profiles 0 dim (s_CandidateProfiles req) with
  | inl e => inl e
  | inr flatProfiles =>
      if negb (length (s_CandidateLatQ req) =? n)%nat || negb (length (s_CandidateLonQ req) =? n)%nat ||
         negb (length (s_CandidateBrownies req) =? n)%nat then
        inl (err "candidate coordinate/brownie arrays must match candidate count")
      else if negb (length (s_CandidatePackages req) =? n)%nat then inl (err "candidate package array must match candidate count")
      else
        let packageBytes := length (hd [] (s_CandidatePackages req)) in
        if (packageBytes =? 0)%nat then inl (err "candidate packages are required for native payload fusion")
        else match payload_slots (s_PayloadSlotCount req) packageBytes with
        | inl e => inl e
        | inr payloadSlotCount =>
            match flatten_plain_packages 0 packageBytes (s_CandidatePackages req) with
            | inl e => inl e
            | inr flatPackages => inr ({|
                p_initiator := s_InitiatorProfile req; p_dim := int32 (Z.of_nat dim);
                p_lat := int32 (s_InitiatorLatQ req); p_lon := int32 (s_InitiatorLonQ req);
                p_profiles := flatProfiles; p_latQ := intsToC (s_CandidateLatQ req); p_lonQ := intsToC (s_CandidateLonQ req);
                p_brownies := intsToC (s_CandidateBrownies req); p_n := int32 (Z.of_nat n);
                p_alpha := s_Alpha req; p_beta := s_Beta req; p_gamma := s_Gamma req;
                p_distance := DistanceFunction req; p_comparator := s_Comparator req;
                p_degree := int32 (s_ComparatorDegree req); p_gain := s_ComparatorGain req; p_scale := s_ComparatorScale req;
                p_bound := s_ComparatorBound req; p_mask := MaskMode req; p_schedule := s_SelectorSchedule req;
                p_scalingMod := int32 (s_ScalingModSize req); p_firstMod := int32 (FirstModSize req);
                p_packages := intsToC flatPackages; p_packageBytes := int32 (Z.of_nat packageBytes);
                p_payloadSlots := int32 payloadSlotCount |}, payloadSlotCount)
            end
        end
  end.

(** An array of [n] zeros after C has written to it. *)
Definition written_to (n : nat) (l : list float64) : list float64 := take n l ++ replicate (n - length l) f0.

Section Smoke.
Context {V LS : Type} (L : CLib V LS).
Notation CS := (CState V LS).
Notation CM := (M CS).
Local Open Scope string_scope.

(** What a failed call has left: the text in its error buffer and its status. *)
Context (errText : LS -> string) (errStatus : LS -> Z).
(** [%.6f]. *)
Context (fixed6 : float64 -> string).
Definition last_text : CM string := fun s => (Ok (errText (lib_state s)), s).
Definition last_status : CM Z := fun s => (Ok (errStatus (lib_state s)), s).

(** ** The threshold smoke test *)

Definition smoke_text (what : string) (i : nat) (suffix : string) : string := what +:+ fmt_int (Z.of_nat i) +:+ suffix.

(** Key generation of the parties after the first, each from the last key. *)
Fixpoint smoke_parties {A} (ctx : handle) (i more : nat) (pks sks : list handle) (rest : list handle -> list handle -> CM A) : CM A :=
  match more with
  | O => rest pks sks
  | S more' =>
      match last pks with
      | None => panic "index out of range"
      | Some prev =>
          with_keypair L C_KeyGenNext [(ctx, KContext); (prev, KPublicKey)] (smoke_text "threshold keygen party " i " failed")
            (fun pk sk => smoke_parties ctx (S i) more' (pks ++ [pk]) (sks ++ [sk]) rest)
      end
  end.

Fixpoint smoke_shares {A} (ctx : handle) (i : nat) (sks : list handle) (rest : CM A) : CM A :=
  match sks with
  | [] => rest
  | sk :: sks' =>
      with_handle KEvalMultKey
        (c_must L KEvalMultKey C_GenEvalMultKeyShare [(ctx, KContext); (sk, KSecretKey)]
           (smoke_text "threshold eval-mult share party " i " failed")) (fun _ =>
      with_handle KRotKey
        (c_must L KRotKey C_GenRotKeyShare [(ctx, KContext); (sk, KSecretKey)]
           (smoke_text "threshold rotation/eval-sum share party " i " failed")) (fun _ =>
      smoke_shares ctx (S i) sks' rest))
  end.

Fixpoint smoke_partials {A} (ctx ct : handle) (i : nat) (sks partials : list handle) (rest : list handle -> CM A) : CM A :=
  match sks with
  | [] => rest partials
  | sk :: sks' =>
      with_handle KCiphertext
        (c_must L KCiphertext C_MultiDecMain [(ctx, KContext); (ct, KCiphertext); (sk, KSecretKey)]
           (smoke_text "threshold partial decrypt party " i " failed")) (fun p =>
      smoke_partials ctx ct (S i) sks' (partials ++ [p]) rest)
  end.

(** An object serialized, and read back from the buffer; the buffer is kept to
    the end of the test. *)
Definition round_trip {A} (ctx h : handle) (k : Kind) (serialize deserialize : string) (rest : handle -> CM A) : CM A :=
  let! data := c_serialize L (C_Serialize k) [(h, k)] serialize in
  deferring (free_opt KBuffer data) (
  let! raw := copyCBytes L data in
  with_handle k (c_must L k (C_Deserialize k raw) [(ctx, KContext)] deserialize) rest).

Definition smoke_values : list float64 := [of_ratio 5 4; of_ratio (-5) 2; of_Z 3; of_ratio 1 2].
Definition smoke_want : float64 := of_ratio 273 16.
Definition smoke_tolerance : float64 := of_ratio 1 20.

Definition smoke_verdict (out : list float64) : CM unit :=
  match out with
  | [] => fail "threshold decrypt fusion returned no slots"
  | got :: _ =>
      if fgtb (fabs (fsub got smoke_want)) smoke_tolerance then
        fail ("threshold fused value mismatch: got " +:+ fixed6 got +:+ " want " +:+ fixed6 smoke_want)
      else ret tt
  end.

(** The circuit: twice the input, half of that, its square, the sum of the slots. *)
Definition smoke_circuit (ctx pk : handle) (sks : list handle) : CM unit :=
  with_handle KCiphertext
    (c_must L KCiphertext (C_Encrypt smoke_values) [(ctx, KContext); (pk, KPublicKey)] "threshold encrypt failed") (fun ct =>
  round_trip ctx ct KCiphertext "ciphertext serialization failed" "ciphertext deserialization failed" (fun ct2 =>
  with_handle KCiphertext
    (c_must L KCiphertext C_EvalAdd [(ctx, KContext); (ct2, KCiphertext); (ct2, KCiphertext)] "threshold eval-add failed") (fun doubled =>
  with_handle KCiphertext
    (c_must L KCiphertext (C_EvalMultConst (of_ratio 1 2)) [(ctx, KContext); (doubled, KCiphertext)]
       "threshold eval-mult-const failed") (fun restored =>
  with_handle KCiphertext
    (c_must L KCiphertext C_EvalMult [(ctx, KContext); (restored, KCiphertext); (restored, KCiphertext)]
       "threshold eval-mult failed") (fun squared =>
  with_handle KCiphertext
    (c_must L KCiphertext (C_EvalSum (Z.of_nat (length smoke_values))) [(ctx, KContext); (squared, KCiphertext)]
       "threshold eval-sum failed") (fun summed =>
  smoke_partials ctx summed 0 sks [] (fun partials =>
  first_element partials ;;;
  let! out := slots 8 (c_floats L (C_MultiDecFusion (length partials) 8) ((ctx, KContext) :: all_owned KCiphertext partials))
                "threshold decrypt fusion failed" in
  smoke_verdict out))))))).

Definition ThresholdSmokeCKKS (parties : Z) : CM unit :=
  fail_if (parties <? 2)%Z "threshold smoke requires at least two parties" ;;;
  with_handle KContext
    (c_must L KContext (C_CreateCKKSContext 1024 two_pow_50 4 0) [] "failed to create OpenFHE threshold context") (fun ctx =>
  with_keypair L C_KeyGenFirst [(ctx, KContext)] "threshold first keygen failed" (fun pk0 sk0 =>
  smoke_parties ctx 1 (Z.to_nat parties - 1) [pk0] [sk0] (fun pks sks =>
  smoke_shares ctx 0 sks (
  match last pks with
  | None => panic "index out of range"
  | Some pk =>
      round_trip ctx pk KPublicKey "joint public-key serialization failed" "joint public-key deserialization failed" (fun pk2 =>
      smoke_circuit ctx pk2 sks)
  end)))).

(** ** Scoring of plain candidates *)

(** [ARESScoreCandidatesCKKS]: a status with its text, and what it wrote to the
    three arrays, the index and the score. *)
Context (lib_score : ScoreArgs -> LS -> (bool * string * (list float64 * list float64 * list float64 * Z * float64)) * LS).
Definition c_score (args : ScoreArgs) : CM (bool * string * (list float64 * list float64 * list float64 * Z * float64)) :=
  fun s => let '(r, l) := lib_score args (lib_state s) in (Ok r, set_lib l s).

(** The C strings of the request, freed when the call returns; the arrays are
    allocated before, and [make] panics beyond the address space. *)
Definition ScoreCandidatesCKKS (req : ScoreRequest) : CM ScoreResult :=
  let! checked := of_sum (score_args req) in
  let '(args, payloadSlotCount) := checked in
  let n := length (s_CandidateProfiles req) in
  (if (2 ^ 45 <? payloadSlotCount)%Z then panic "makeslice: len out of range" else ret tt) ;;;
  with_handle KBuffer (c_string L (p_distance args)) (fun _ =>
  with_handle KBuffer (c_string L (p_comparator args)) (fun _ =>
  with_handle KBuffer (c_string L (p_mask args)) (fun _ =>
  with_handle KBuffer (c_string L (p_schedule args)) (fun _ =>
  first_element (p_initiator args) ;;; first_element (p_profiles args) ;;;
  first_element (p_latQ args) ;;; first_element (p_lonQ args) ;;; first_element (p_brownies args) ;;;
  first_element (p_packages args) ;;;
  let! r := c_score args in
  let '(ok, text, (scores, masks, payload, winner, score)) := r in
  if ok : bool then
    ret {| Scores := written_to n scores; MaskValues := written_to n masks; PayloadValues := written_to (Z.to_nat payloadSlotCount) payload;
           WinnerIndex := winner; WinnerScore := score |}
  else throw (Errorf [T "openfhe scoring failed: "; T text]))))).

(** ** Scheme switching

    The caller owns both results. *)
Definition SchemeSwitchingArgmin (ctx pk sk packedCt : handle) (numValues : Z) (scaleSign : float64) : CM (handle * handle) :=
  let! r := c_new2 L KCiphertext KCiphertext (C_SchemeSwitchingArgmin (numValues mod 2 ^ 32) scaleSign)
              [(ctx, KContext); (pk, KPublicKey); (sk, KSecretKey); (packedCt, KCiphertext)] in
  match r with
  | Some out => ret out
  | None => let! text := last_text in throw (Errorf [T "scheme-switching argmin: "; T text])
  end.

(** The library's own self-test. *)
Definition SmokeCKKS : CM unit :=
  let! r := c_text L C_ARESOpenFHESmoke in
  if r.1 then ret tt else throw (Errorf [T "openfhe smoke failed: "; T r.2]).

Definition OpenFHEContextCount : CM Z :=
  let! r := c_ints L C_OpenFHEContextCount [] in ret (hd 0%Z (default [] r)).
Definition ReleaseOpenFHEGlobalContexts : CM unit := c_status L C_ReleaseAllOpenFHEContexts [] ;;; ret tt.

(** ** Two parties' keys, and what is measured on them *)

(** A number set by C, zero when it sets none. *)
Definition c_number (op : COp) (hs : owned) (msg : string) : CM Z :=
  let! r := c_ints L op hs in
  match r with None => fail msg | Some out => ret (hd 0%Z out) end.

Definition two_parties {A} (params : ContractParams) (body : handle -> handle -> handle -> handle -> handle -> CM A) : CM A :=
  with_handle KContext (createContractContext L params) (fun ctx =>
  with_keypair L C_KeyGenFirst [(ctx, KContext)] "keygen first failed" (fun pk0 sk0 =>
  with_keypair L C_KeyGenNext [(ctx, KContext); (pk0, KPublicKey)] "keygen next failed" (fun pk1 sk1 =>
  body ctx pk0 sk0 pk1 sk1))).
Definition lead_base {A} (ctx sk0 : handle) (rest : handle -> CM A) : CM A :=
  with_handle KRotKey (c_must L KRotKey C_EvalSumKeyGenLead [(ctx, KContext); (sk0, KSecretKey)] "eval-sum lead failed") rest.
Definition next_share {A} (ctx sk base pk : handle) (msg : string) (rest : handle -> CM A) : CM A :=
  with_handle KRotKey
    (c_must L KRotKey C_EvalSumKeyShare [(ctx, KContext); (sk, KSecretKey); (base, KRotKey); (pk, KPublicKey)] msg) rest.

Definition benchRotShareGen (params : ContractParams) (streamed : bool) : CM Z :=
  two_parties params (fun ctx pk0 sk0 pk1 sk1 =>
  lead_base ctx sk0 (fun base =>
  if streamed then
    c_number C_StreamedRotShareBytes [(ctx, KContext); (sk1, KSecretKey); (base, KRotKey); (pk1, KPublicKey)]
      "streamed rot share failed"
  else
    next_share ctx sk1 base pk1 "eval-sum share failed" (fun share =>
    let! raw := serializeWith L (C_Serialize KRotKey) KRotKey "serialize rot share failed" share in
    ret (Z.of_nat (length raw))))).

Definition benchStreamedFullRot (params : ContractParams) : CM Z :=
  two_parties params (fun ctx pk0 sk0 pk1 sk1 =>
  c_number C_StreamedTwoPartyRotKeygenBytes [(ctx, KContext); (sk0, KSecretKey); (sk1, KSecretKey); (pk1, KPublicKey)]
    "streamed two-party rot keygen failed").

(** The full size, the size of the b-vectors, and whether the a-vectors are
    shared. *)
Definition benchBOnlyRotShare (params : ContractParams) : CM (Z * Z * bool) :=
  two_parties params (fun ctx pk0 sk0 pk1 sk1 =>
  let! r := c_ints L C_MeasureBOnlyRotShare [(ctx, KContext); (sk0, KSecretKey); (sk1, KSecretKey); (pk1, KPublicKey)] in
  match r with
  | None => let! rc := last_status in fail ("measure b-only failed rc=" +:+ fmt_int rc)
  | Some out => ret (nth 0 out 0%Z, nth 1 out 0%Z, (nth 2 out 0 =? 1)%Z)
  end).

(** The clock gives the time the two combinations took. *)
Definition benchResidentCombineRound1 (params : ContractParams) (elapsed : Z) (pubKeys multShares sumShares : list bytes) : CM Z :=
  with_handle KContext (createContractContext L params) (fun ctx =>
  with_handles KPublicKey (deserializePublicKeys L ctx pubKeys) (fun pks =>
  with_handles KEvalMultKey (deserializeEvalMultKeys L ctx multShares) (fun multH =>
  with_handles KRotKey (deserializeRotKeys L ctx sumShares) (fun sumH =>
  array_arg pks (length multH) ;;; first_element multH ;;;
  with_handle KEvalMultKey
    (c_must L KEvalMultKey (C_CombineEvalMultSwitchShares (length multH))
       ((ctx, KContext) :: all_owned KPublicKey (take (length multH) pks) ++ all_owned KEvalMultKey multH) "resident eval-mult combine failed") (fun _ =>
  array_arg pks (length sumH) ;;; first_element sumH ;;;
  with_handle KRotKey
    (c_must L KRotKey (C_CombineEvalSumKeys (length sumH))
       ((ctx, KContext) :: all_owned KPublicKey (take (length sumH) pks) ++ all_owned KRotKey sumH) "resident eval-sum combine failed") (fun _ =>
  ret elapsed)))))).

(** ** Two ways to the same key *)

Record bOnlyRotResult := {
  bo_full : bytes; aBase : bytes; aShare : bytes; bShare : bytes; reconA : bytes; reconB : bytes
}.
Definition runBOnlyRotReconstruction (params : ContractParams) : CM bOnlyRotResult :=
  two_parties params (fun ctx pk0 sk0 pk1 sk1 =>
  lead_base ctx sk0 (fun base =>
  next_share ctx sk1 base pk1 "eval-sum share failed" (fun share =>
  let! full := serializeRotKey L share in
  let! a := serializeRotKeyAVectors L base in
  let! a' := serializeRotKeyAVectors L share in
  let! b := serializeRotKeyBVectors L share in
  with_handle KRotKey (reconstructRotKeyFromAB L ctx a b) (fun recon =>
  let! ra := serializeRotKeyAVectors L recon in
  let! rb := serializeRotKeyBVectors L recon in
  ret {| bo_full := full; aBase := a; aShare := a'; bShare := b; reconA := ra; reconB := rb |})))).

Record incrementalCombineResult := { allAtOnce : bytes; incremental : bytes }.
Definition runIncrementalCombineCheck (params : ContractParams) : CM incrementalCombineResult :=
  with_handle KContext (createContractContext L params) (fun ctx =>
  with_keypair L C_KeyGenFirst [(ctx, KContext)] "keygen first failed" (fun pk0 sk0 =>
  with_keypair L C_KeyGenNext [(ctx, KContext); (pk0, KPublicKey)] "keygen next 1 failed" (fun pk1 sk1 =>
  with_keypair L C_KeyGenNext [(ctx, KContext); (pk1, KPublicKey)] "keygen next 2 failed" (fun pk2 sk2 =>
  lead_base ctx sk0 (fun base =>
  next_share ctx sk1 base pk1 "eval-sum share 1 failed" (fun s1 =>
  next_share ctx sk2 base pk2 "eval-sum share 2 failed" (fun s2 =>
  let! baseBytes := serializeRotKey L base in
  let! s1Bytes := serializeRotKey L s1 in
  let! s2Bytes := serializeRotKey L s2 in
  let! pk0Bytes := serializePublicKey L pk0 in
  let! pk1Bytes := serializePublicKey L pk1 in
  let! pk2Bytes := serializePublicKey L pk2 in
  let! atOnce := combineEvalSumAllAtOnce L ctx [pk0Bytes; pk1Bytes; pk2Bytes] [baseBytes; s1Bytes; s2Bytes] in
  let! incr := combineEvalSumIncremental L ctx [pk0Bytes; pk1Bytes; pk2Bytes] [baseBytes; s1Bytes; s2Bytes] in
  ret {| allAtOnce := atOnce; incremental := incr |}))))))).
End Smoke.

(** ** Ownership *)

Section Owns.
Context {V LS : Type} (L : CLib V LS) (errText : LS -> string) (errStatus : LS -> Z) (fixed6 : float64 -> string).
Notation CS := (CState V LS).
Notation CM := (M CS).
Implicit Types (G : owned).

Lemma last_text_owns G : spec G [] (last_text errText : CM string) (fun _ => []).
Proof. by intros s F H _. Qed.
Lemma last_status_owns G : spec G [] (last_status errStatus : CM Z) (fun _ => []).
Proof. by intros s F H _. Qed.

Lemma smoke_parties_owns {A} ctx i more pks sks (rest : list handle -> list handle -> CM A) G :
  (ctx, KContext) ∈ G -> pks <> [] -> all_owned KPublicKey pks ⊆ G -> all_owned KSecretKey sks ⊆ G ->
  (forall pks' sks' G', G ⊆ G' -> pks' <> [] -> all_owned KPublicKey pks' ⊆ G' -> all_owned KSecretKey sks' ⊆ G' ->
     length sks' = (length sks + more)%nat -> spec G' [] (rest pks' sks') (fun _ => [])) ->
  spec G [] (smoke_parties L ctx i more pks sks rest) (fun _ => []).
Proof.
  revert i pks sks G. induction more as [|more IH]; intros i pks sks G Hc Hne Hp Hs Hr; simpl.
  { apply Hr; [done..|lia]. }
  destruct (last pks) as [prev|] eqn:El; [|by apply last_None in El].
  assert ((prev, KPublicKey) ∈ G) as Hprev.
  { apply Hp. unfold all_owned. apply list_elem_of_fmap. exists prev. split; [done|].
    apply last_Some in El as [l ->]. apply elem_of_app. right. by apply list_elem_of_singleton. }
  apply spec_keypair; [set_solver|]. intros pk sk. apply IH.
  - set_solver.
  - by destruct pks.
  - unfold all_owned in *. rewrite fmap_app. set_solver.
  - unfold all_owned in *. rewrite fmap_app. set_solver.
  - intros pks' sks' G' HG Hne' Hp' Hs' Hl. apply Hr; [set_solver|done..|]. rewrite Hl, length_app. simpl. lia.
Qed.

Lemma smoke_shares_owns {A} ctx i sks (rest : CM A) G :
  (ctx, KContext) ∈ G -> all_owned KSecretKey sks ⊆ G ->
  (forall G', G ⊆ G' -> spec G' [] rest (fun _ => [])) ->
  spec G [] (smoke_shares L ctx i sks rest) (fun _ => []).
Proof.
  revert i G. induction sks as [|sk sks IH]; intros i G Hc Hs Hr; simpl; [by apply Hr|].
  eapply spec_with; [apply spec_must; set_solver|]. intros m. eapply spec_with; [apply spec_must; set_solver|]. intros r.
  apply IH; [set_solver..|]. intros G' HG. apply Hr. set_solver.
Qed.

Lemma smoke_partials_owns {A} ctx ct i sks partials (rest : list handle -> CM A) G :
  (ctx, KContext) ∈ G -> (ct, KCiphertext) ∈ G -> all_owned KSecretKey sks ⊆ G -> all_owned KCiphertext partials ⊆ G ->
  (forall ps G', G ⊆ G' -> all_owned KCiphertext ps ⊆ G' -> length ps = (length partials + length sks)%nat ->
     spec G' [] (rest ps) (fun _ => [])) ->
  spec G [] (smoke_partials L ctx ct i sks partials rest) (fun _ => []).
Proof.
  revert i partials G. induction sks as [|sk sks IH]; intros i partials G Hc Ht Hs Hp Hr; simpl.
  { apply Hr; [done..|]. simpl. lia. }
  eapply spec_with; [apply spec_must; set_solver|]. intros p. apply IH; [set_solver|set_solver|set_solver| |].
  - unfold all_owned in *. rewrite fmap_app. set_solver.
  - intros ps G' HG Hps Hl. apply Hr; [set_solver|done|]. rewrite Hl, length_app. simpl. lia.
Qed.

Lemma round_trip_owns {A} ctx h k e1 e2 (rest : handle -> CM A) G :
  (ctx, KContext) ∈ G -> (h, k) ∈ G -> (forall h' G', G ⊆ G' -> (h', k) ∈ G' -> spec G' [] (rest h') (fun _ => [])) ->
  spec G [] (round_trip L ctx h k e1 e2 rest) (fun _ => []).
Proof.
  intros Hc Hh Hr. unfold round_trip. eapply spec_bind; [apply spec_serialize; set_solver|]. intros data. cbn beta.
  rewrite <- (app_nil_r (opt_owned _ _)). apply spec_defer; [apply releases_free_opt|].
  eapply spec_bind; [apply spec_copy; set_solver|]. intros raw. cbn beta.
  eapply spec_with; [apply spec_must; set_solver|]. intros h'. apply Hr; set_solver.
Qed.

Lemma smoke_circuit_owns ctx pk sks G :
  (ctx, KContext) ∈ G -> (pk, KPublicKey) ∈ G -> all_owned KSecretKey sks ⊆ G -> (0 < length sks)%nat ->
  spec G [] (smoke_circuit L fixed6 ctx pk sks) (fun _ => []).
Proof.
  intros Hc Hp Hs Hn. unfold smoke_circuit. eapply spec_with; [apply spec_must; set_solver|]. intros ct.
  apply round_trip_owns; [set_solver..|]. intros ct2 G' HG Hct.
  do 4 (eapply spec_with; [apply spec_must; set_solver|intros ?]).
  apply smoke_partials_owns; [set_solver..|]. intros ps G2 HG2 Hps Hl. simpl in Hl.
  eapply spec_bind; [apply spec_first_element; lia|]. intros u. cbn beta.
  apply (spec_bind _ _ _ _ (fun _ => [])).
  { unfold slots. eapply spec_bind; [apply spec_floats; set_solver|]. intros [out|]; [by apply spec_ret'|apply spec_fail]. }
  intros out. cbn beta. unfold smoke_verdict. destruct out; [apply spec_fail|]. apply spec_if; [apply spec_fail|by apply spec_ret'].
Qed.

Lemma ThresholdSmokeCKKS_owns parties G : spec G [] (ThresholdSmokeCKKS L fixed6 parties) (fun _ => []).
Proof.
  unfold ThresholdSmokeCKKS. apply spec_guard. intros Hn%Z.ltb_ge.
  eapply spec_with; [apply spec_must; set_solver|]. intros ctx. apply spec_keypair; [set_solver|]. intros pk sk.
  apply smoke_parties_owns; [set_solver|done|set_solver|set_solver|]. intros pks sks G' HG Hne Hp Hs Hl.
  apply smoke_shares_owns; [set_solver|done|]. intros G2 HG2.
  destruct (last pks) as [pk2|] eqn:El; [|by apply last_None in El].
  assert ((pk2, KPublicKey) ∈ G').
  { apply Hp. unfold all_owned. apply list_elem_of_fmap. exists pk2. split; [done|].
    apply last_Some in El as [l ->]. apply elem_of_app. right. by apply list_elem_of_singleton. }
  apply round_trip_owns; [set_solver..|]. intros pk3 G3 HG3 Hpk3.
  apply smoke_circuit_owns; [set_solver..|]. simpl in Hl. lia.
Qed.

Lemma score_args_inr req args slots :
  score_args req = inr (args, slots) ->
  (0 < length (p_initiator args))%nat /\ (0 < length (p_profiles args))%nat /\ (0 < length (p_latQ args))%nat /\
  (0 < length (p_lonQ args))%nat /\ (0 < length (p_brownies args))%nat /\ (0 < length (p_packages args))%nat /\ (8 <= slots)%Z.
Proof.
  unfold score_args. destruct (s_InitiatorProfile req) as [|x xs] eqn:Ei; [done|].
  destruct (s_CandidateProfiles req) as [|c cs] eqn:Ec; [done|]. cbn [is_empty].
  destruct (flatten_profiles _ _ _) as [e|flat] eqn:Ef; [done|].
  destruct (_ || _ || _) eqn:El; [done|].
  destruct (negb (length (s_CandidatePackages req) =? _)%nat) eqn:Ep; [done|].
  destruct (Nat.eqb (length (hd [] (s_CandidatePackages req))) 0) eqn:Hb; [done|]. apply Nat.eqb_neq in Hb.
  destruct (payload_slots _ _) as [e|n] eqn:Es; [done|]. destruct (flatten_plain_packages _ _ _) as [e|fp] eqn:Efp; [done|].
  intros [= <- <-]. cbn [p_initiator p_profiles p_latQ p_lonQ p_brownies p_packages]. unfold intsToC. rewrite !length_fmap.
  apply orb_false_iff in El as [[E1%negb_false_iff%Nat.eqb_eq E2%negb_false_iff%Nat.eqb_eq]%orb_false_iff E3%negb_false_iff%Nat.eqb_eq].
  rewrite E1, E2, E3. simpl. split_and!; try lia.
  - simpl in Ef. destruct (negb _) eqn:Ed; [done|]. apply negb_false_iff, Nat.eqb_eq in Ed.
    destruct (flatten_profiles 1 _ cs); [done|]. injection Ef as <-. rewrite length_app. simpl in Ed. lia.
  - destruct (s_CandidatePackages req) as [|pkg pkgs]; simpl in Hb, Efp; [by destruct Hb|].
    rewrite Nat.eqb_refl in Efp. cbn [negb] in Efp. destruct (bad_byte 0 pkg) as [[? ?]|]; [done|].
    destruct (flatten_plain_packages 1 (length pkg) pkgs); [done|]. injection Efp as <-. rewrite length_app. lia.
  - unfold payload_slots in Es. destruct (Z.ltb_spec (if (s_PayloadSlotCount req =? 0)%Z
      then (Z.of_nat (length (hd [] (s_CandidatePackages req))) * 8)%Z else s_PayloadSlotCount req)
      (Z.of_nat (length (hd [] (s_CandidatePackages req))) * 8)); [done|]. injection Es as <-. lia.
Qed.

Lemma spec_ret_bind {A B} G D (a : A) (k : A -> CM B) R : spec G D (k a) R -> spec G D (bind (ret a) k) R.
Proof. done. Qed.
Lemma c_score_owns lib_score args G : spec G [] (c_score lib_score args : CM _) (fun _ => []).
Proof. intros s F H _. unfold c_score. by destruct (lib_score args (lib_state s)) as [r l]. Qed.

(** A payload array that fits the address space. *)
Definition payload_fits (req : ScoreRequest) : Prop :=
  forall args slots, score_args req = inr (args, slots) -> (slots <= 2 ^ 45)%Z.

Lemma ScoreCandidatesCKKS_owns lib_score req G :
  payload_fits req -> spec G [] (ScoreCandidatesCKKS L lib_score req) (fun _ => []).
Proof.
  intros Hfit. unfold ScoreCandidatesCKKS. destruct (score_args req) as [e|[args slots]] eqn:E; [apply spec_throw|].
  pose proof (Hfit _ _ E) as Hs. apply score_args_inr in E as (H1 & H2 & H3 & H4 & H5 & H6 & _).
  apply spec_ret_bind. cbv iota beta. destruct (Z.ltb_spec (2 ^ 45) slots); [lia|]. apply spec_ret_bind.
  do 4 (eapply spec_with; [apply spec_string|intros ?]).
  do 6 (eapply spec_bind; [by apply spec_first_element|intros ?; cbn beta]).
  eapply spec_bind; [apply c_score_owns|]. intros [[ok text] [[[[scores masks] payload] winner] score]].
  destruct ok; [by apply spec_ret'|apply spec_throw].
Qed.

Lemma SchemeSwitchingArgmin_owns ctx pk sk ct n x G :
  [(ctx, KContext); (pk, KPublicKey); (sk, KSecretKey); (ct, KCiphertext)] ⊆ G ->
  spec G [] (SchemeSwitchingArgmin L errText ctx pk sk ct n x) (fun r => [(r.1, KCiphertext); (r.2, KCiphertext)]).
Proof.
  intros Hs. unfold SchemeSwitchingArgmin. eapply spec_bind; [by apply spec_new2|]. intros [[a b]|]; cbn beta.
  - by apply spec_ret'.
  - eapply spec_bind; [apply last_text_owns|]. intros text. apply spec_throw.
Qed.

Lemma c_number_owns op hs msg G : hs ⊆ G -> spec G [] (c_number L op hs msg) (fun _ => []).
Proof.
  intros Hs. eapply spec_bind; [apply spec_ints; set_solver|]. intros [out|]; [by apply spec_ret'|apply spec_fail].
Qed.
Lemma SmokeCKKS_owns G : spec G [] (SmokeCKKS L) (fun _ => []).
Proof.
  unfold SmokeCKKS, c_text. eapply spec_bind; [eapply spec_bind; [apply spec_call; set_solver|]|].
  - intros [[[[ok text] out] lens] n]. by apply (spec_ret' _ _ _ (fun _ => [])).
  - intros [ok text]. apply spec_if; [by apply spec_ret'|apply spec_throw].
Qed.
Lemma OpenFHEContextCount_owns G : spec G [] (OpenFHEContextCount L) (fun _ => []).
Proof. eapply spec_bind; [apply spec_ints; set_solver|]. intros r. by apply spec_ret'. Qed.
Lemma ReleaseOpenFHEGlobalContexts_owns G : spec G [] (ReleaseOpenFHEGlobalContexts L) (fun _ => []).
Proof. eapply spec_bind; [apply spec_status; set_solver|]. intros r. by apply spec_ret'. Qed.

Lemma two_parties_owns {A} params (body : handle -> handle -> handle -> handle -> handle -> CM A) G :
  batch_ok params = true ->
  (forall ctx pk0 sk0 pk1 sk1 G', G ⊆ G' ->
     [(ctx, KContext); (pk0, KPublicKey); (sk0, KSecretKey); (pk1, KPublicKey); (sk1, KSecretKey)] ⊆ G' ->
     spec G' [] (body ctx pk0 sk0 pk1 sk1) (fun _ => [])) ->
  spec G [] (two_parties L params body) (fun _ => []).
Proof.
  intros Hb Hr. eapply spec_with; [by apply createContractContext_owns|]. intros ctx.
  apply spec_keypair; [set_solver|]. intros pk0 sk0. apply spec_keypair; [set_solver|]. intros pk1 sk1. apply Hr; set_solver.
Qed.
Lemma lead_base_owns {A} ctx sk (rest : handle -> CM A) G :
  (ctx, KContext) ∈ G -> (sk, KSecretKey) ∈ G -> (forall h, spec ((h, KRotKey) :: G) [] (rest h) (fun _ => [])) ->
  spec G [] (lead_base L ctx sk rest) (fun _ => []).
Proof. intros Hc Hs Hr. eapply spec_with; [apply spec_must; set_solver|done]. Qed.
Lemma next_share_owns {A} ctx sk base pk msg (rest : handle -> CM A) G :
  [(ctx, KContext); (sk, KSecretKey); (base, KRotKey); (pk, KPublicKey)] ⊆ G ->
  (forall h, spec ((h, KRotKey) :: G) [] (rest h) (fun _ => [])) ->
  spec G [] (next_share L ctx sk base pk msg rest) (fun _ => []).
Proof. intros Hs Hr. eapply spec_with; [apply spec_must; set_solver|done]. Qed.

Lemma benchRotShareGen_owns params streamed G : batch_ok params = true -> spec G [] (benchRotShareGen L params streamed) (fun _ => []).
Proof.
  intros Hb. apply two_parties_owns; [done|]. intros. apply lead_base_owns; [set_solver..|]. intros base.
  destruct streamed; [apply c_number_owns; set_solver|]. apply next_share_owns; [set_solver|]. intros share.
  eapply spec_bind; [apply serializeWith_owns; set_solver|]. intros raw. by apply spec_ret'.
Qed.
Lemma benchStreamedFullRot_owns params G : batch_ok params = true -> spec G [] (benchStreamedFullRot L params) (fun _ => []).
Proof. intros Hb. apply two_parties_owns; [done|]. intros. apply c_number_owns. set_solver. Qed.
Lemma benchBOnlyRotShare_owns params G : batch_ok params = true -> spec G [] (benchBOnlyRotShare L errStatus params) (fun _ => []).
Proof.
  intros Hb. apply two_parties_owns; [done|]. intros. eapply spec_bind; [apply spec_ints; set_solver|].
  intros [out|]; cbn beta; [by apply spec_ret'|]. eapply spec_bind; [apply last_status_owns|]. intros rc. apply spec_fail.
Qed.
Lemma runBOnlyRotReconstruction_owns params G :
  batch_ok params = true -> spec G [] (runBOnlyRotReconstruction L params) (fun _ => []).
Proof.
  intros Hb. apply two_parties_owns; [done|]. intros. apply lead_base_owns; [set_solver..|]. intros base.
  apply next_share_owns; [set_solver|]. intros share.
  do 4 (eapply spec_bind; [apply serializeWith_owns; set_solver|intros ?; cbn beta]).
  eapply spec_with; [apply reconstructRotKeyFromAB_owns; set_solver|]. intros recon.
  do 2 (eapply spec_bind; [apply serializeWith_owns; set_solver|intros ?; cbn beta]). by apply spec_ret'.
Qed.
Lemma runIncrementalCombineCheck_owns params G :
  batch_ok params = true -> spec G [] (runIncrementalCombineCheck L params) (fun _ => []).
Proof.
  intros Hb. eapply spec_with; [by apply createContractContext_owns|]. intros ctx.
  do 3 (apply spec_keypair; [set_solver|intros ? ?]). apply lead_base_owns; [set_solver..|]. intros base.
  do 2 (apply next_share_owns; [set_solver|intros ?]).
  do 6 (eapply spec_bind; [apply serializeWith_owns; set_solver|intros ?; cbn beta]).
  eapply spec_bind; [apply combineEvalSumAllAtOnce_owns; [set_solver|simpl; lia]|intros ?; cbn beta].
  eapply spec_bind; [apply combineEvalSumIncremental_owns; [set_solver|simpl; lia]|intros ?; cbn beta]. by apply spec_ret'.
Qed.
Lemma benchResidentCombineRound1_owns params elapsed pks ms ss G :
  batch_ok params = true -> (0 < length ms <= length pks)%nat -> (0 < length ss <= length pks)%nat ->
  spec G [] (benchResidentCombineRound1 L params elapsed pks ms ss) (fun _ => []).
Proof.
  intros Hb Hm Hs. unfold benchResidentCombineRound1. own.
Qed.
End Owns.

(** ** What the plain scoring returns *)

Lemma written_to_length n l : length (written_to n l) = n.
Proof. unfold written_to. rewrite length_app, length_take, length_replicate. lia. Qed.

(** A result comes from an accepted request; it has a score and a mask per
    candidate and a value per payload slot, whatever the library writes. *)
Lemma ScoreCandidates_Ok {V LS} (L : CLib V LS) lib_score req s r s' :
  ScoreCandidatesCKKS L lib_score req s = (Ok r, s') ->
  exists args slots, score_args req = inr (args, slots) /\ length (Scores r) = length (s_CandidateProfiles req) /\
    length (MaskValues r) = length (s_CandidateProfiles req) /\ Z.of_nat (length (PayloadValues r)) = slots.
Proof.
  unfold ScoreCandidatesCKKS. destruct (score_args req) as [e|[args slots]] eqn:E; [done|]. intros H.
  exists args, slots. split; [done|]. apply score_args_inr in E as (_ & _ & _ & _ & _ & _ & Hs).
  unfold with_handle in H. cbn [of_sum] in H. apply bind_Ok_inv in H as (? & ? & Hr & H). injection Hr as <- <-.
  cbv iota beta in H.
  repeat match goal with
  | H : bind _ _ _ = (Ok _, _) |- _ => apply bind_Ok_inv in H as (? & ? & ? & H)
  | H : deferring _ _ _ = (Ok _, _) |- _ => apply deferring_Ok in H as (? & H & _)
  end.
  match goal with Hc : c_score _ _ _ = (Ok ?r, _) |- _ => destruct r as [[ok text] [[[[scores masks] payload] winner] score]] end.
  cbv iota beta in H. destruct ok; [|done].
  injection H as <- _. cbn [Scores MaskValues PayloadValues]. rewrite !written_to_length. split_and!; [done..|lia].
Qed.

(** ** A library that computes, and one that does not *)

Module SmokeWitnesses.

(** An object is a vector of slots or the bytes of a buffer; the library keeps
    what it has serialized. *)
Inductive Val := Vec (l : list float64) | Raw (b : bytes).
Definition vec (v : Val) : list float64 := match v with Vec l => l | Raw _ => [] end.
Definition Table := list (list float64).
Definition at_vec (vs : list Val) (i : nat) : list float64 := vec (nth i vs (Vec [])).
Definition index_bytes (t : Table) : bytes := [byte_of_N (N.of_nat (length t))].
Definition stored (t : Table) (raw : bytes) : list float64 :=
  match raw with b :: _ => nth (N.to_nat (Byte.to_N b)) t [] | [] => [] end.
Definition zip_with_f (f : float64 -> float64 -> float64) (a b : list float64) : list float64 := zip_with f a b.

Definition computes (mult : float64 -> float64 -> float64) : CLib Val Table := {|
  lib_new := fun op vs t =>
    (Some (Vec match op with
     | C_Encrypt values => values
     | C_Deserialize _ raw => stored t raw
     | C_EvalAdd => zip_with_f fadd (at_vec vs 1) (at_vec vs 2)
     | C_EvalMult => zip_with_f mult (at_vec vs 1) (at_vec vs 2)
     | C_EvalMultConst x => fmul x <$> at_vec vs 1
     | C_EvalSum _ => (fun _ => foldl fadd f0 (at_vec vs 1)) <$> at_vec vs 1
     | C_MultiDecMain => at_vec vs 1
     | _ => []
     end), t);
  lib_new2 := fun _ _ t => (Some (Vec [], Vec []), t);
  lib_array := fun _ _ t => (None, t);
  lib_status := fun _ _ t => (true, t);
  lib_update := fun _ vs t => ((true, Vec (at_vec vs 0)), t);
  lib_buffer := fun _ vs t => ((true, Some (Raw (index_bytes t))), t ++ [at_vec vs 0]);
  lib_floats := fun _ vs t => (Some (at_vec vs 1), t);
  lib_ints := fun _ _ t => (Some [], t);
  lib_fuse := fun _ _ t => ((true, ""%string, None, [], 0%Z), t);
  buffer_bytes := fun v => match v with Raw b => b | Vec _ => [] end;
  cstring := fun _ => Raw []
|}.
Definition fresh_state : CState Val Table := {| heap := ∅; lib_state := [] |}.
Definition no_text (x : float64) : string := ""%string.

(** The expected value is that of the circuit: with arithmetic that is right the
    test passes for any number of parties, and a wrong product is noticed. *)
Example smoke_passes :
  forallb (fun n => match (ThresholdSmokeCKKS (computes fmul) no_text n fresh_state).1 with Ok tt => true | _ => false end)
    [2; 3; 6]%Z = true /\
  match (ThresholdSmokeCKKS (computes fadd) no_text 3 fresh_state).1 with Err _ => True | _ => False end /\
  match (ThresholdSmokeCKKS (computes fmul) no_text 1 fresh_state).1 with Err _ => True | _ => False end.
Proof. split; [|split]; [vm_compute; reflexivity|vm_compute; exact I..]. Qed.

(** A result that is not a number passes too. *)
Example nan_smoke_passes :
  (ThresholdSmokeCKKS (computes (fun _ _ => SpecFloat.S754_nan)) no_text 3 fresh_state).1 = Ok tt.
Proof. vm_compute. reflexivity. Qed.

Definition plain_request (slots : Z) : ScoreRequest := {|
  s_InitiatorProfile := [f1]; s_InitiatorLatQ := 0; s_InitiatorLonQ := 0; s_CandidateProfiles := [[f1]; [f0]];
  s_CandidateLatQ := [0; 0]%Z; s_CandidateLonQ := [0; 0]%Z; s_CandidateBrownies := [0; 0]%Z;
  s_CandidatePackages := [[1]; [2]]%Z; s_Alpha := f1; s_Beta := f1; s_Gamma := f1;
  DistanceFunction := "haversine"; s_Comparator := ""; s_ComparatorDegree := 0; s_ComparatorGain := f1;
  s_ComparatorScale := f1; s_ComparatorBound := f1; MaskMode := ""; s_SelectorSchedule := "";
  s_ScalingModSize := 0; FirstModSize := 0; s_PayloadSlotCount := slots |}.
(** The payload length the library is told is a 32-bit integer: with [2^32 + 8]
    slots it is told eight. *)
Example payload_slots_wrap :
  match score_args (plain_request (2 ^ 32 + 8)) with
  | inr (args, slots) => p_payloadSlots args = 8%Z /\ slots = (2 ^ 32 + 8)%Z
  | inl _ => False
  end.
Proof. vm_compute. by split. Qed.
End SmokeWitnesses.
