(* ===== verification/BridgeUnion.v ===== *)
(** * The union of comparators (pkg/ares/crypto/cgo/bridge.go)

    Several comparators score the same request over one shared context, in turn
    or on concurrent workers; the statistics and the tuning that derive their
    parameters.  Each fusion is one atomic call: a concurrent run is an order of
    the calls and an order in which their results arrive, which the number of
    workers limits ([schedules]). *)
From Stdlib Require Import ZArith NArith Lia String Ascii.
From stdpp Require Import base gmap list strings.
From S2P Require Import Prelude Bytes.
From S2P Require Import GoFloat GoFmt.
From S2P Require Import CGo Bridge BridgeFold BridgeEval BridgeFuse.

Record UnionComparator := {
  ID : string;
  u_Comparator : string;
  Schedule : string;
  Gain : float64;
  Bound : float64;
  InputScale : float64;
  RangeMargin : float64;
  Degree : Z
}.

(** ** Statistics and tuning *)

Record DistributionMetadata := {
  MinMargin : float64;
  MedianMargin : float64;
  MaxMargin : float64;
  MaxPairwiseDiff : float64
}.

(** The product of two profiles over the shorter length. *)
Definition dot (a b : list float64) : float64 := foldl (fun d xy => fadd d (fmul xy.1 xy.2)) f0 (zip a b).

Definition neg_inf : float64 := fopp pos_inf.
(** The two best scores and the worst. *)
Definition scan_scores (init : list float64) (candidates : list (list float64)) : float64 * float64 * float64 :=
  foldl (fun '(best, second, worst) cand =>
    let d := dot init cand in
    let '(best, second) :=
      if fgtb d best then (d, best) else if fgtb d second then (best, d) else (best, second) in
    (best, second, if fltb d worst then d else worst)) (neg_inf, neg_inf, pos_inf) candidates.

(** [sort.Float64s]: NaN first. *)
Definition fless (x y : float64) : bool := fltb x y || (is_nan x && negb (is_nan y)).
Fixpoint finsert (x : float64) (l : list float64) : list float64 :=
  match l with
  | [] => [x]
  | y :: l' => if fless y x then y :: finsert x l' else x :: l
  end.
Definition fsort (l : list float64) : list float64 := foldr finsert [] l.

Definition cohort_step (acc : list float64 * float64) (ch : list (list float64)) : list float64 * float64 :=
  match ch with
  | init :: _ :: _ :: _ =>
      let '(best, second, worst) := scan_scores init (tl ch) in
      let pairwise := fsub best worst in
      (acc.1 ++ [fsub best second], if fgtb pairwise acc.2 then pairwise else acc.2)
  | _ => acc
  end.
Definition MarginStatsFromCohorts (cohorts : list (list (list float64))) : DistributionMetadata :=
  let '(margins, maxPairwise) := foldl cohort_step ([], f0) cohorts in
  if is_empty margins then
    {| MinMargin := of_ratio 5 1000; MedianMargin := of_ratio 126 10000; MaxMargin := of_ratio 5 100;
       MaxPairwiseDiff := of_ratio 5 100 |}
  else
    let sorted := fsort margins in
    let largest := nth (length sorted - 1) sorted f0 in
    {| MinMargin := nth 0 sorted f0; MedianMargin := nth (length sorted / 2) sorted f0; MaxMargin := largest;
       MaxPairwiseDiff := if fleb maxPairwise f0 then largest else maxPairwise |}.

Definition clamp1 (x : float64) : float64 := if fgtb x f1 then f1 else x.
Definition tune_comparator (scoreScale rangeMargin target : float64) (c : UnionComparator) : UnionComparator :=
  let margin := if fgtb (RangeMargin c) f0 then RangeMargin c else rangeMargin in
  let diff0 := fmul (fdiv scoreScale (of_Z 2)) margin in
  let compMaxDiff := if fleb diff0 f0 then target else diff0 in
  let scale :=
    if fgtb (Bound c) f0 then fdiv (Bound c) (fmul compMaxDiff (of_ratio 115 100))
    else fdiv (of_ratio 67 10) (fmul compMaxDiff (of_ratio 105 100)) in
  {| ID := ID c; u_Comparator := u_Comparator c; Schedule := Schedule c; Gain := Gain c; Bound := Bound c;
     InputScale := clamp1 scale; RangeMargin := RangeMargin c; Degree := Degree c |}.
Definition TuneUnion (meta : DistributionMetadata) (base : list UnionComparator) (target : float64)
    : float64 * list UnionComparator :=
  let target := if fleb target f0 then of_Z 4 else target in
  let med := if fleb (MedianMargin meta) f0 then of_ratio 126 10000 else MedianMargin meta in
  let scoreScale := fdiv (fmul (of_Z 2) target) med in
  let rangeMargin := if fgtb (MaxPairwiseDiff meta) (MaxMargin meta) then MaxPairwiseDiff meta else MaxMargin meta in
  (scoreScale, tune_comparator scoreScale rangeMargin target <$> base).

Definition clampUnionConcurrency (concurrency : Z) (comparators : list UnionComparator) : Z :=
  let c := if (concurrency <=? 0)%Z then 1%Z else concurrency in
  Z.min c (Z.of_nat (length comparators)).

Definition no_keys : EvalKeyFinal := {| EvalMultFinal := []; EvalSumFinal := [] |}.
Definition set_EvalKeys (keys : EvalKeyFinal) (req : FullFuseRequest) : FullFuseRequest := {|
  InitiatorCiphertext := InitiatorCiphertext req; InitiatorLatQ := InitiatorLatQ req; InitiatorLonQ := InitiatorLonQ req;
  CandidateCiphertexts := CandidateCiphertexts req; CandidateLatQ := CandidateLatQ req; CandidateLonQ := CandidateLonQ req;
  CandidateDistanceCiphertexts := CandidateDistanceCiphertexts req; CandidateBrownies := CandidateBrownies req;
  CandidatePackages := CandidatePackages req; CandidatePayloadCiphertexts := CandidatePayloadCiphertexts req;
  ProfileDim_ := ProfileDim_ req; Alpha := Alpha req; Beta := Beta req; Gamma := Gamma req;
  Comparator := Comparator req; ComparatorDegree := ComparatorDegree req; ComparatorGain := ComparatorGain req;
  ComparatorScale := ComparatorScale req; ComparatorBound := ComparatorBound req; SelectorSchedule := SelectorSchedule req;
  EvalKeys := keys; PackageBytes := PackageBytes req; PayloadSlotCount_ := PayloadSlotCount_ req;
  MinimalRotationKeys_ := MinimalRotationKeys_ req |}.
Definition unionComparatorRequest (req : FullFuseRequest) (comp : UnionComparator) (usePreinsertedEvalKeys : bool) : FullFuseRequest :=
  {| InitiatorCiphertext := InitiatorCiphertext req; InitiatorLatQ := InitiatorLatQ req; InitiatorLonQ := InitiatorLonQ req;
     CandidateCiphertexts := CandidateCiphertexts req; CandidateLatQ := CandidateLatQ req; CandidateLonQ := CandidateLonQ req;
     CandidateDistanceCiphertexts := CandidateDistanceCiphertexts req; CandidateBrownies := CandidateBrownies req;
     CandidatePackages := CandidatePackages req; CandidatePayloadCiphertexts := CandidatePayloadCiphertexts req;
     ProfileDim_ := ProfileDim_ req; Alpha := Alpha req; Beta := Beta req; Gamma := Gamma req;
     Comparator := u_Comparator comp; ComparatorDegree := Degree comp; ComparatorGain := Gain comp;
     ComparatorScale := InputScale comp; ComparatorBound := Bound comp; SelectorSchedule := Schedule comp;
     EvalKeys := if usePreinsertedEvalKeys then no_keys else EvalKeys req;
     PackageBytes := PackageBytes req; PayloadSlotCount_ := PayloadSlotCount_ req;
     MinimalRotationKeys_ := MinimalRotationKeys_ req |}.

(** ** Runs *)

(** The order of the calls of a concurrent run, and of their results. *)
Record UnionRun := { calls : list nat; arrivals : list nat }.

Section Union.
Context {V LS : Type} (L : CLib V LS).
Notation CS := (CState V LS).
Notation CM := (M CS).
Local Open Scope string_scope.

Definition comparator_error (id : string) (e : GoError) : GoError :=
  Errorf [T "union comparator "; T id; T ": "; W e].

(** In turn: the first error stops the run. *)
Fixpoint run_sequential (fuse : UnionComparator -> CM (list bytes)) (comparators : list UnionComparator) : CM (list (list bytes)) :=
  match comparators with
  | [] => ret []
  | comp :: comparators' =>
      let! chunks := wrap_err (comparator_error (ID comp)) (fuse comp) in
      let! rest := run_sequential fuse comparators' in
      ret (chunks :: rest)
  end.

(** A call whose error is a value. *)
Definition caught {A} (m : CM A) : CM (GoError + A) := fun s =>
  match m s with
  | (Ok a, s') => (Ok (inr a), s')
  | (Err e, s') => (Ok (inl e), s')
  | (Panic w, s') => (Panic w, s')
  end.

(** Every worker call runs to its end, whatever the others return. *)
Fixpoint run_calls (fuse : UnionComparator -> CM (list bytes)) (comparators : list UnionComparator) (order : list nat)
    : CM (list (nat * (GoError + list bytes))) :=
  match order with
  | [] => ret []
  | i :: order' =>
      match comparators !! i with
      | None => panic "index out of range"
      | Some comp =>
          let! r := caught (wrap_err (comparator_error (ID comp)) (fuse comp)) in
          let! rs := run_calls fuse comparators order' in
          ret ((i, r) :: rs)
      end
  end.

Definition result_of (results : list (nat * (GoError + list bytes))) (i : nat) : option (GoError + list bytes) :=
  snd <$> find (fun r => (r.1 =? i)%nat) results.
Definition error_of (r : option (GoError + list bytes)) : option GoError :=
  match r with Some (inl e) => Some e | _ => None end.
Definition chunks_of (r : option (GoError + list bytes)) : list bytes :=
  match r with Some (inr c) => c | _ => [] end.

(** The first error to arrive, or every result in its place. *)
Definition gather (n : nat) (results : list (nat * (GoError + list bytes))) (arrival : list nat) : GoError + list (list bytes) :=
  match omap (fun i => error_of (result_of results i)) arrival with
  | e :: _ => inl e
  | [] => inr ((fun i => chunks_of (result_of results i)) <$> seq 0 n)
  end.
Definition run_concurrent (fuse : UnionComparator -> CM (list bytes)) (comparators : list UnionComparator) (run : UnionRun)
    : CM (list (list bytes)) :=
  let! results := run_calls fuse comparators (calls run) in
  of_sum (gather (length comparators) results (arrivals run)).

(** One worker scores in turn; several take the comparators from a channel.
    Without a worker nobody takes the first comparator and every goroutine of
    the call waits for ever. *)
Definition runUnionComparatorsWith (fuse : UnionComparator -> CM (list bytes)) (comparators : list UnionComparator)
    (concurrency : Z) (run : UnionRun) : CM (list (list bytes)) :=
  if (concurrency =? 1)%Z then run_sequential fuse comparators
  else if (concurrency <=? 0)%Z && negb (is_empty comparators) then panic "all goroutines are asleep"
  else run_concurrent fuse comparators run.

(** ** The comparators *)

Definition chunkedUnionComparatorWithContext (ctx : option handle) (req : FullFuseRequest) (pre : bool) (comp : UnionComparator) :=
  ChunkedFusePayloadCKKSWithContext L ctx (unionComparatorRequest req comp pre).
Definition chunkedEncryptedUnionComparatorWithContext (ctx : option handle) (req : FullFuseRequest) (pre : bool) (comp : UnionComparator) :=
  ChunkedFuseEncryptedPayloadCKKSWithContext L ctx (unionComparatorRequest req comp pre).
Definition chunkedEncryptedInputUnionComparatorWithContext (ctx : option handle) (req : FullFuseRequest) (pre : bool) (comp : UnionComparator) :=
  ChunkedFuseEncryptedInputsCKKSWithContext L ctx (encryptedInputFuseRequestFromFull (unionComparatorRequest req comp pre)).

Definition insertUnionEvalKeys (ctx : handle) (evalKeys : EvalKeyFinal) : CM unit :=
  fail_if (is_empty (EvalMultFinal evalKeys) || is_empty (EvalSumFinal evalKeys))
    "final eval-mult and eval-sum keys are required" ;;;
  with_handle KEvalMultKey
    (wrap_err (fun e => Errorf [T "deserialize eval-mult key: "; W e]) (deserializeEvalMultKey L ctx (EvalMultFinal evalKeys)))
    (fun multKey =>
  c_check L C_InsertEvalMultKey [(ctx, KContext); (multKey, KEvalMultKey)] "insert eval-mult key failed" ;;;
  with_handle KRotKey
    (wrap_err (fun e => Errorf [T "deserialize eval-sum key: "; W e]) (deserializeRotKey L ctx (EvalSumFinal evalKeys)))
    (fun sumKey =>
  c_check L C_InsertEvalSumKey [(ctx, KContext); (sumKey, KRotKey)] "insert eval-sum key failed")).

(** One context for every comparator; the keys are inserted once when the
    comparators run concurrently. *)
Definition union_score (fuse : option handle -> FullFuseRequest -> bool -> UnionComparator -> CM (list bytes))
    (params : ContractParams) (req : FullFuseRequest) (comparators : list UnionComparator) (concurrency : Z) (run : UnionRun)
    : CM (list (list bytes)) :=
  fail_if (is_empty comparators) "at least one union comparator is required" ;;;
  let concurrency := clampUnionConcurrency concurrency comparators in
  with_handle KContext (createContractContext L params) (fun ctx =>
  let pre := (1 <? concurrency)%Z in
  (if pre then insertUnionEvalKeys ctx (EvalKeys req) else ret tt) ;;;
  runUnionComparatorsWith (fuse (Some ctx) req pre) comparators concurrency run).
Definition ChunkedUnionScoreCKKSWithConcurrency := union_score chunkedUnionComparatorWithContext.
Definition ChunkedUnionScoreCKKS (params : ContractParams) (req : FullFuseRequest) (comparators : list UnionComparator) :=
  ChunkedUnionScoreCKKSWithConcurrency params req comparators 1.
Definition ChunkedUnionScoreEncryptedPayloadCKKSWithConcurrency := union_score chunkedEncryptedUnionComparatorWithContext.
Definition ChunkedUnionScoreEncryptedPayloadCKKS (params : ContractParams) (req : FullFuseRequest) (comparators : list UnionComparator) :=
  ChunkedUnionScoreEncryptedPayloadCKKSWithConcurrency params req comparators 1.
Definition ChunkedUnionScoreEncryptedInputsCKKSWithConcurrency (params : ContractParams) (req : EncryptedInputFuseRequest) :=
  union_score chunkedEncryptedInputUnionComparatorWithContext params (fullFuseRequest req).
Definition ChunkedUnionScoreEncryptedInputsCKKS (params : ContractParams) (req : EncryptedInputFuseRequest)
    (comparators : list UnionComparator) :=
  ChunkedUnionScoreEncryptedInputsCKKSWithConcurrency params req comparators 1.

(** The same with the eval-sum keys given by references. *)
Definition union_score_refs (fuse : option handle -> FullFuseRequest -> bool -> UnionComparator -> CM (list bytes))
    (params : ContractParams) (req : FullFuseRequest) (comparators : list UnionComparator) (concurrency : Z) (run : UnionRun)
    (publicKeys : list bytes) (refsByParty : list (list IndexedEvalSumKeyRef)) (resolve : option (@EvalSumKeyResolver V LS))
    : CM (list (list bytes)) :=
  fail_if (is_empty comparators) "at least one union comparator is required" ;;;
  fail_if (is_empty (EvalMultFinal (EvalKeys req))) "final eval-mult key is required" ;;;
  let concurrency := clampUnionConcurrency concurrency comparators in
  with_handle KContext (createContractContext L params) (fun ctx =>
  with_handle KEvalMultKey
    (wrap_err (fun e => Errorf [T "deserialize eval-mult key: "; W e])
       (deserializeEvalMultKey L ctx (EvalMultFinal (EvalKeys req)))) (fun multKey =>
  c_check L C_InsertEvalMultKey [(ctx, KContext); (multKey, KEvalMultKey)] "insert eval-mult key failed" ;;;
  insertEvalSumPerIndexLazy L ctx publicKeys refsByParty resolve ;;;
  runUnionComparatorsWith (fuse (Some ctx) req true) comparators concurrency run)).
Definition ChunkedUnionScoreCKKSWithEvalSumRefs := union_score_refs chunkedUnionComparatorWithContext.
Definition ChunkedUnionScoreEncryptedPayloadCKKSWithEvalSumRefs := union_score_refs chunkedEncryptedUnionComparatorWithContext.
Definition ChunkedUnionScoreEncryptedInputsCKKSWithEvalSumRefs (params : ContractParams) (req : EncryptedInputFuseRequest) :=
  union_score_refs chunkedEncryptedInputUnionComparatorWithContext params (fullFuseRequest req).

Definition FullFusePayloadCKKSWithEvalSumRefs (params : ContractParams) (req : FullFuseRequest) (publicKeys : list bytes)
    (refsByParty : list (list IndexedEvalSumKeyRef)) (resolve : option (@EvalSumKeyResolver V LS)) : CM bytes :=
  fail_if (is_empty (EvalMultFinal (EvalKeys req))) "final eval-mult key is required" ;;;
  with_handle KContext (createContractContext L params) (fun ctx =>
  insertEvalSumPerIndexLazy L ctx publicKeys refsByParty resolve ;;;
  FullFusePayloadCKKSWithContext L (Some ctx)
    (set_EvalKeys {| EvalMultFinal := EvalMultFinal (EvalKeys req); EvalSumFinal := [] |} req)).
End Union.

(** ** Schedules

    What the workers may do with [c] of them: the comparators are handed out in
    order through an unbuffered channel, a worker keeps one until its result is
    sent, so at most [c] are taken and unfinished at any time; the one at place
    [i] is handed out when at least [i - c + 1] are finished, and so are the
    results. *)
Definition within (c : Z) (order : list nat) : Prop :=
  forall k i, order !! k = Some i -> (Z.of_nat i < Z.of_nat k + c)%Z.
Definition schedules (c : Z) (n : nat) (run : UnionRun) : Prop :=
  calls run ≡ₚ seq 0 n /\ arrivals run ≡ₚ seq 0 n /\ within c (calls run) /\ within c (arrivals run).

Lemma schedules_workers c n run : schedules c n run -> (0 < n)%nat -> (0 < c)%Z.
Proof.
  intros (Hc & _ & Hw & _) Hn. destruct (calls run) as [|i order]; [|specialize (Hw 0%nat i eq_refl); lia].
  apply Permutation_length in Hc. rewrite length_seq in Hc. simpl in Hc. lia.
Qed.

Lemma schedules_calls c n run : schedules c n run -> Forall (fun i => i < n)%nat (calls run).
Proof. intros (Hc & _). apply Forall_forall. intros i Hi. rewrite Hc in Hi. apply elem_of_seq in Hi. lia. Qed.

(** Calls whose answer does not depend on what ran before them: in the states of
    [I], which they keep, [fuse comp] gives [answer comp]. *)
Section Schedules.
Context {V LS : Type}.
Notation CS := (CState V LS).
Notation CM := (M CS).
Context (fuse : UnionComparator -> CM (list bytes)) (answer : UnionComparator -> GoError + list bytes) (I : CS -> Prop).

Definition answered {A} (r : GoError + A) : Outcome A :=
  match r with inl e => Err e | inr c => Ok c end.

Hypothesis fuse_answers : forall comp s, I s -> exists s', fuse comp s = (answered (answer comp), s') /\ I s'.

(** The answer of one comparator, with its name on an error. *)
Definition reported (comp : UnionComparator) : GoError + list bytes :=
  match answer comp with inl e => inl (comparator_error (ID comp) e) | inr c => inr c end.
Definition reported_at (comparators : list UnionComparator) (i : nat) : GoError + list bytes :=
  match comparators !! i with Some comp => reported comp | None => inr [] end.

Lemma wrapped_answer comp s : I s ->
  exists s', wrap_err (comparator_error (ID comp)) (fuse comp) s = (answered (reported comp), s') /\ I s'.
Proof.
  intros Hs. destruct (fuse_answers comp s Hs) as (s' & E & Hs'). exists s'. split; [|done].
  unfold wrap_err, reported. rewrite E. by destruct (answer comp).
Qed.

Lemma run_calls_outcome comparators order s :
  Forall (fun i => (i < length comparators)%nat) order -> I s ->
  exists s', run_calls fuse comparators order s = (Ok ((fun i => (i, reported_at comparators i)) <$> order), s') /\ I s'.
Proof.
  intros Ho. revert s. induction Ho as [|i order Hi _ IH]; intros s Hs; [by exists s|]. cbn [run_calls]. unfold reported_at.
  destruct (lookup_lt_is_Some_2 _ _ Hi) as [comp E]. rewrite E. unfold bind, caught.
  destruct (wrapped_answer comp s Hs) as (s1 & -> & Hs1). destruct (IH s1 Hs1) as (s2 & E2 & Hs2).
  exists s2. split; [|done]. destruct (reported comp) as [e|c] eqn:Er; simpl; rewrite E2; simpl; by rewrite E, Er.
Qed.

Lemma result_of_spec comparators order i :
  i ∈ order -> result_of ((fun i => (i, reported_at comparators i)) <$> order) i = Some (reported_at comparators i).
Proof.
  unfold result_of. induction order as [|j order IH]; [by intros ?%not_elem_of_nil|]. simpl.
  destruct (Nat.eqb_spec j i) as [->|Hne]; [done|]. intros [->|Hi]%elem_of_cons; [done|by apply IH].
Qed.

Lemma gather_outcome comparators order arrival :
  order ≡ₚ seq 0 (length comparators) -> arrival ≡ₚ seq 0 (length comparators) ->
  (forall e, Exists (fun c => reported c = inl e) comparators ->
     exists e', gather (length comparators) ((fun i => (i, reported_at comparators i)) <$> order) arrival = inl e') /\
  (forall cs, reported <$> comparators = inr <$> cs ->
     gather (length comparators) ((fun i => (i, reported_at comparators i)) <$> order) arrival = inr cs).
Proof.
  intros Ho Ha. set (rs := (fun i => (i, reported_at comparators i)) <$> order).
  assert (forall i, (i < length comparators)%nat -> result_of rs i = Some (reported_at comparators i)) as Hr.
  { intros i Hi. apply result_of_spec. rewrite Ho. apply elem_of_seq. lia. }
  split.
  - intros e [comp [Hc He]]%Exists_exists. apply list_elem_of_lookup in Hc as [i Hi].
    pose proof (lookup_lt_Some _ _ _ Hi) as Hlt. unfold gather.
    destruct (omap _ arrival) as [|e' es] eqn:E; [|by exists e'].
    assert (e ∈ omap (fun i => error_of (result_of rs i)) arrival) as Hin; [|rewrite E in Hin; by apply not_elem_of_nil in Hin].
    apply list_elem_of_omap. exists i. split; [rewrite Ha; apply elem_of_seq; lia|].
    rewrite Hr by done. unfold reported_at. by rewrite Hi, He.
  - intros cs Hcs. unfold gather.
    assert (length cs = length comparators) as Hl by (by rewrite <- (length_fmap reported), Hcs, length_fmap).
    assert (forall i c, cs !! i = Some c -> reported_at comparators i = inr c) as Hat.
    { intros i c Hi. assert ((reported <$> comparators) !! i = Some (inr c)) as Hf by (rewrite Hcs, list_lookup_fmap, Hi; done).
      rewrite list_lookup_fmap in Hf. unfold reported_at. destruct (comparators !! i); [by injection Hf|done]. }
    destruct (omap _ arrival) as [|e es] eqn:E.
    + f_equal. apply list_eq. intros i. rewrite list_lookup_fmap. destruct (decide (i < length comparators)%nat) as [Hi|Hi].
      * rewrite lookup_seq_lt by done. cbn. rewrite Hr by done.
        destruct (lookup_lt_is_Some_2 cs i) as [c Hc]; [lia|]. by rewrite Hc, (Hat i c Hc).
      * rewrite lookup_seq_ge by lia. symmetry. apply lookup_ge_None_2. lia.
    + assert (e ∈ omap (fun i => error_of (result_of rs i)) arrival) as Hin by (rewrite E; apply elem_of_cons; by left).
      apply list_elem_of_omap in Hin as (i & Hi & He). rewrite Ha in Hi. apply elem_of_seq in Hi as [_ Hi].
      rewrite Hr in He by lia. destruct (lookup_lt_is_Some_2 cs i) as [c Hc]; [lia|]. by rewrite (Hat i c Hc) in He.
Qed.

(** A run fails with an answer that is an error, or gives all of them in their
    places. *)
Definition answers_all (comparators : list UnionComparator) (o : Outcome (list (list bytes))) : Prop :=
  (exists e, Exists (fun c => exists e', reported c = inl e') comparators /\ o = Err e) \/
  (exists cs, reported <$> comparators = inr <$> cs /\ o = Ok cs).

Lemma run_sequential_outcome comparators s : I s ->
  exists s', answers_all comparators (run_sequential fuse comparators s).1 /\ (run_sequential fuse comparators s).2 = s' /\ I s'.
Proof.
  revert s. induction comparators as [|comp comparators IH]; intros s Hs.
  { exists s. split_and!; try done. right. by exists []. }
  cbn [run_sequential]. unfold bind. destruct (wrapped_answer comp s Hs) as (s1 & -> & Hs1).
  destruct (reported comp) as [e|c] eqn:Er; cbn [answered].
  - exists s1. split_and!; try done. left. exists e. split; [left; by exists e|done].
  - destruct (IH s1 Hs1) as (s2 & Ho & E & Hs2).
    destruct (run_sequential fuse comparators s1) as [o s2']. simpl in E, Ho. subst s2'.
    exists s2. destruct Ho as [(e & He & ->)|(cs & Hcs & ->)]; split_and!; try done.
    + left. exists e. split; [by right|done].
    + right. exists (c :: cs). split; [|done]. cbn [fmap list_fmap]. rewrite Er. f_equal. exact Hcs.
Qed.

Lemma reported_cases comparators :
  (exists e, Exists (fun c => reported c = inl e) comparators) \/ (exists cs, reported <$> comparators = inr <$> cs).
Proof.
  induction comparators as [|x l IH]; [right; by exists []|]. destruct (reported x) as [e|c] eqn:E; [left; exists e; by left|].
  destruct IH as [[e He]|[cs Hcs]]; [left; exists e; by right|]. right. exists (c :: cs).
  cbn [fmap list_fmap]. by rewrite E, <- Hcs.
Qed.

(** However many workers there are, and whatever they do in which order. *)
Lemma runUnion_outcome comparators c run s :
  schedules c (length comparators) run -> I s ->
  exists s', answers_all comparators (runUnionComparatorsWith fuse comparators c run s).1 /\
             (runUnionComparatorsWith fuse comparators c run s).2 = s' /\ I s'.
Proof.
  intros Hrun Hs. unfold runUnionComparatorsWith. destruct (c =? 1)%Z; [by apply run_sequential_outcome|].
  assert ((c <=? 0)%Z && negb (is_empty comparators) = false) as ->.
  { destruct comparators; [apply andb_false_r|]. pose proof (schedules_workers _ _ _ Hrun ltac:(simpl; lia)). by rewrite (proj2 (Z.leb_gt c 0)). }
  pose proof (schedules_calls _ _ _ Hrun) as Hlt. destruct Hrun as (Hc & Ha & _).
  unfold run_concurrent, bind. destruct (run_calls_outcome comparators (calls run) s Hlt Hs) as (s1 & -> & Hs1).
  exists s1. destruct (gather_outcome comparators _ _ Hc Ha) as [Hbad Hgood].
  destruct (reported_cases comparators) as [[e He]|[cs Hcs]].
  - destruct (Hbad e He) as [e' ->]. split_and!; try done. left. exists e'. split; [|done].
    eapply Exists_impl; [exact He|]. simpl. eauto.
  - rewrite (Hgood cs Hcs). split_and!; try done. right. by exists cs.
Qed.
End Schedules.

(** With no worker at all nothing is returned. *)
Lemma runUnion_blocks {V LS} (fuse : UnionComparator -> M (CState V LS) (list bytes)) comparators c run s :
  (c <= 0)%Z -> comparators <> [] -> exists w, runUnionComparatorsWith fuse comparators c run s = (Panic w, s).
Proof.
  intros Hc Hn. unfold runUnionComparatorsWith. rewrite (proj2 (Z.eqb_neq c 1)), (proj2 (Z.leb_le c 0)) by lia.
  destruct comparators; [done|]. by eexists.
Qed.

(** The entry points clamp the number of workers. *)
Lemma clampUnionConcurrency_range c comparators :
  comparators <> [] -> (1 <= clampUnionConcurrency c comparators <= Z.of_nat (length comparators))%Z.
Proof.
  unfold clampUnionConcurrency. destruct comparators as [|comp comparators]; [done|]. intros _. cbn [length].
  destruct (Z.leb_spec c 0); lia.
Qed.

Module Witnesses.
Import Scripted.
Local Open Scope string_scope.

Definition comparator (id : string) (degree : Z) : UnionComparator := {|
  ID := id; u_Comparator := ""; Schedule := ""; Gain := f0; Bound := f0; InputScale := f0; RangeMargin := f0; Degree := degree |}.
(** The comparators of degree 0 fail. *)
Definition scored (comp : UnionComparator) : GoError + list bytes :=
  if (Degree comp =? 0)%Z then inl (Errorf [T "fusion failed"]) else inr [[Byte.x01]].
Definition score (comp : UnionComparator) : M (CState bytes Script) (list bytes) := of_sum (scored comp).
Definition forwards : UnionRun := {| calls := [0; 1]; arrivals := [0; 1] |}%nat.
Definition backwards : UnionRun := {| calls := [1; 0]; arrivals := [1; 0] |}%nat.

(** Which error is reported depends on the order of arrival. *)
Example union_error_depends_on_schedule :
  exists e1 e2 s1 s2,
    runUnionComparatorsWith score [comparator "a" 0; comparator "b" 0] 2 forwards (start []) = (Err e1, s1) /\
    runUnionComparatorsWith score [comparator "a" 0; comparator "b" 0] 2 backwards (start []) = (Err e2, s2) /\ e1 <> e2.
Proof. do 4 eexists. split; [reflexivity|]. split; [reflexivity|]. discriminate. Qed.
End Witnesses.
