(* ===== verification/BridgeSafety.v ===== *)
(** * Safety of the bridge

    The exported calls, whatever the library answers, neither panic nor use or
    free an object that is not live, and leave no object behind, but for the
    in-process argmin, which leaks when an encryption fails.  The calls are
    collected in [api], with what each asks of its caller, in [ctx_api] for those
    that work on a context the caller keeps, and in [exported] with that argmin;
    the Examples at the end run what the conditions exclude.  [OpenFHEVersion],
    [DefaultContractParams], [MarginStatsFromCohorts] and [TuneUnion] make no
    object. *)
From Stdlib Require Import ZArith NArith Lia String Ascii.
From stdpp Require Import base gmap list strings.
From S2P Require Import Prelude Bytes.
From S2P Require Import GoFloat GoFmt.
From S2P Require Import CGo Bridge BridgeFold BridgeFoldSpec BridgeEval BridgeFuse BridgeSmoke BridgeUnion.

(** [own], through the functions that insert keys around a body. *)
Ltac own_keys :=
  repeat first
    [ own_step
    | apply with_mult_key_owns; [in_env|intros ? ?]
    | apply with_optional_mult_key_owns; [in_env|intros ? ?]
    | apply with_sum_key_owns; [in_env|intros ? ?] ].

Section Owns.
Context {V LS : Type} (L : CLib V LS).
Notation CS := (CState V LS).
Notation CM := (M CS).
Implicit Types (G : owned).
Notation clean m := (forall G, spec G [] m (fun _ => [])).

(** ** Evaluation and decryption *)

Lemma evalProductSumIn_owns scheme create keys l r n G :
  spec G [] create (fun ctx => [(ctx, KContext)]) -> spec G [] (evalProductSumIn L scheme create keys l r n) (fun _ => []).
Proof. intros. unfold evalProductSumIn. own. Qed.
Lemma EvalProductSumForContractWithEvalSumRefs_owns params keys l r n pks refs resolve G :
  batch_ok params = true -> (forall r, resolve = Some r -> resolver_ok r) ->
  spec G [] (EvalProductSumForContractWithEvalSumRefs L params keys l r n pks refs resolve) (fun _ => []).
Proof.
  intros Hb Hr. unfold EvalProductSumForContractWithEvalSumRefs. repeat own_step.
  apply with_mult_key_owns; [in_env|]. intros G' HG.
  own_step; [apply spec_wrap, insertEvalSumPerIndexLazy_owns; [exact Hr|auto with cgo]|]. own.
Qed.
Lemma evalBinaryCKKS_owns params key a b op G :
  batch_ok params = true -> spec G [] (evalBinaryCKKS L params key a b op) (fun _ => []).
Proof. intros. unfold evalBinaryCKKS. own_keys. Qed.
Lemma EvalConstMultCKKSForContract_owns params ct x G :
  batch_ok params = true -> spec G [] (EvalConstMultCKKSForContract L params ct x) (fun _ => []).
Proof. intros. unfold EvalConstMultCKKSForContract. own. Qed.
Lemma EvalPolyCKKSForContract_owns params key ct coeffs G :
  batch_ok params = true -> spec G [] (EvalPolyCKKSForContract L params key ct coeffs) (fun _ => []).
Proof. intros. unfold EvalPolyCKKSForContract. own_keys. Qed.
Lemma EvalArgmaxCKKSForContract_owns params key cts sharp G :
  batch_ok params = true -> spec G [] (EvalArgmaxCKKSForContract L params key cts sharp) (fun _ => []).
Proof. intros. unfold EvalArgmaxCKKSForContract. own_keys. Qed.
Lemma RoundTripCiphertext_owns params ct G :
  batch_ok params = true -> spec G [] (RoundTripCiphertext L params ct) (fun _ => []).
Proof. intros. unfold RoundTripCiphertext. own. Qed.
Lemma encryptIn_owns scheme op create pk b G :
  spec G [] create (fun ctx => [(ctx, KContext)]) -> spec G [] (encryptIn L scheme op create pk b) (fun _ => []).
Proof. intros. unfold encryptIn. own. Qed.
Lemma encryptRepeatedIn_owns op create pk msg G :
  spec G [] create (fun ctx => [(ctx, KContext)]) -> spec G [] (encryptRepeatedIn L op create pk msg) (fun _ => []).
Proof. intros. unfold encryptRepeatedIn. own. Qed.
Lemma squaredDistanceIn_owns scheme op create k a b G :
  spec G [] create (fun ctx => [(ctx, KContext)]) -> spec G [] (squaredDistanceIn L scheme op create k a b) (fun _ => []).
Proof. intros. unfold squaredDistanceIn. own. Qed.
Lemma partialDecryptIn_owns scheme create ct sk lead G :
  spec G [] create (fun ctx => [(ctx, KContext)]) -> spec G [] (partialDecryptIn L scheme create ct sk lead) (fun _ => []).
Proof. intros. unfold partialDecryptIn. own. Qed.
Lemma FuseCKKSPartialsForContract_owns params partials n G :
  batch_ok params = true -> spec G [] (FuseCKKSPartialsForContract L params partials n) (fun _ => []).
Proof. intros. unfold FuseCKKSPartialsForContract, fusePartialsIn. own. Qed.
Lemma FuseBFVPartialsForContract_owns params partials n G :
  spec G [] (FuseBFVPartialsForContract L params partials n) (fun _ => []).
Proof. intros. unfold FuseBFVPartialsForContract, fusePartialsIn. own. Qed.
Lemma SingleKeyEncrypt_owns params pk x G :
  batch_ok params = true -> spec G [] (SingleKeyEncrypt L params pk x) (fun _ => []).
Proof. intros. unfold SingleKeyEncrypt. own. Qed.
Lemma SingleKeyDecrypt_owns params sk ct n G :
  batch_ok params = true -> (0 < n)%Z -> spec G [] (SingleKeyDecrypt L params sk ct n) (fun _ => []).
Proof.
  intros ? Hn. unfold SingleKeyDecrypt. rewrite (proj2 (Z.ltb_ge n 0)) by lia.
  assert (0 < length (replicate (Z.to_nat n) f0))%nat by (rewrite length_replicate; lia). own.
Qed.

(** ** The auction *)

Lemma with_scores_owns {A} ctx pk w sc sp fl (price : nat -> CM handle) i bids scores (rest : list handle -> CM A) G :
  (ctx, KContext) ∈ G -> (pk, KPublicKey) ∈ G -> all_owned KCiphertext scores ⊆ G ->
  (forall i G', G ⊆ G' -> spec G' [] (price i) (fun h => [(h, KCiphertext)])) ->
  (forall hs G', G ⊆ G' -> all_owned KCiphertext hs ⊆ G' -> length hs = (length scores + length bids)%nat ->
     spec G' [] (rest hs) (fun _ => [])) ->
  spec G [] (with_scores L ctx pk w sc sp fl price i bids scores rest) (fun _ => []).
Proof.
  revert i scores G. induction bids as [|[star dist] bids IH]; intros i scores G Hc Hp Hs Hpr Hr; simpl.
  { apply Hr; [done|done|simpl; lia]. }
  own_step; [own|]. own_step; [apply Hpr; set_solver|]. own_step; [own|].
  apply IH.
  - set_solver.
  - set_solver.
  - unfold all_owned in *. rewrite fmap_app. simpl. set_solver.
  - intros j G' HG. apply Hpr. set_solver.
  - intros hs G' HG Hh Hn. apply Hr; [set_solver|done|]. rewrite Hn, length_app. simpl. lia.
Qed.

Lemma auctionServerIn_owns params pk key variant n (price : handle -> handle -> nat -> CM handle) stars dists nonces fl cap w deg G :
  batch_ok params = true ->
  (forall ctx pk i G', (ctx, KContext) ∈ G' -> (pk, KPublicKey) ∈ G' ->
     spec G' [] (price ctx pk i) (fun h => [(h, KCiphertext)])) ->
  spec G [] (auctionServerIn L params pk key variant n price stars dists nonces fl cap w deg) (fun _ => []).
Proof.
  intros Hb Hp. unfold auctionServerIn. own. cbn zeta. apply with_scores_owns; [in_env|in_env|sub_env| |].
  - intros i G' HG. apply Hp; in_env.
  - intros hs G' HG Hh Hn. rewrite length_zip in Hn. simpl in Hn.
    assert (0 < length hs)%nat by len. assert (0 < length (sharp_coeffs deg))%nat by (unfold sharp_coeffs; case_match; simpl; lia).
    own.
Qed.

Lemma decrypt_masks_owns ctx sk i raws best G :
  (ctx, KContext) ∈ G -> (sk, KSecretKey) ∈ G -> spec G [] (decrypt_masks L ctx sk i raws best) (fun _ => []).
Proof. intros Hc Hs. revert i best. induction raws as [|raw raws IH]; intros i best; simpl; own. Qed.
Lemma SingleKeyAuctionDecrypt_owns params sk masks G :
  batch_ok params = true -> spec G [] (SingleKeyAuctionDecrypt L params sk masks) (fun _ => []).
Proof.
  intros. unfold SingleKeyAuctionDecrypt. repeat own_step. apply decrypt_masks_owns; in_env.
Qed.

(** ** Fusion *)

Lemma of_sum_owns {A} (r : GoError + A) G : spec G [] (of_sum r : CM A) (fun _ => []).
Proof. destruct r; [apply spec_throw|by apply spec_ret']. Qed.
Lemma with_strings_owns {A} req (rest : CM A) G :
  (forall G', G ⊆ G' -> spec G' [] rest (fun _ => [])) -> spec G [] (with_strings L req rest) (fun _ => []).
Proof. intros Hr. unfold with_strings. own. Qed.
Lemma requirePlainPayloadMode_owns req G : spec G [] (requirePlainPayloadMode req : CM unit) (fun _ => []).
Proof. apply spec_fail_if. Qed.

(** The lengths the library gives for the chunks of a fusion fit its output. *)
Definition chunks_fit : Prop := forall op vs ls text out lens n ls',
  lib_fuse L op vs ls = (true, text, out, lens, n, ls') ->
  (0 <= n)%Z /\ is_Some (cut (match out with Some v => buffer_bytes L v | None => [] end) lens (Z.to_nat n)).

(** The buffer a fusion has just returned holds what the library gave. *)
Lemma c_fuse_content op hs what s r s' :
  chunks_fit -> c_fuse L op hs what s = (Ok r, s') ->
  exists blob, copyCBytes L r.1.1 s' = (Ok blob, s') /\ (0 <= r.2)%Z /\ is_Some (cut blob r.1.2 (Z.to_nat r.2)).
Proof.
  intros Hfit H. unfold c_fuse in H. apply bind_Ok_inv in H as (q & s1 & Hc & H).
  unfold c_call in Hc. apply bind_Ok_inv in Hc as (vs & s0 & _ & Hc).
  destruct (lib_fuse L op vs (lib_state s0)) as [q' l] eqn:El. injection Hc as <- _.
  destruct q' as [[[[[|] text] out] lens] n]; [|done]. pose proof (Hfit _ _ _ _ _ _ _ _ El) as [Hn Hcut].
  destruct out as [v|].
  - apply bind_Ok_inv in H as (h & s2 & [= <- <-] & [= <- <-]). exists (buffer_bytes L v). split; [|done].
    unfold copyCBytes, bind, fetch, lookup_kind. cbn. by rewrite lookup_insert_eq.
  - injection H as <- <-. by exists [].
Qed.

Lemma read_chunks_safe r s blob :
  copyCBytes L r.1.1 s = (Ok blob, s) -> (0 <= r.2)%Z -> is_Some (cut blob r.1.2 (Z.to_nat r.2)) ->
  match read_chunks L r s with (Panic _, _) => False | (_, s') => s' = s end.
Proof.
  destruct r as [[out lens] n]. simpl. intros Hc Hn [chunks E]. destruct (256 <? n)%Z; [done|].
  unfold bind. rewrite Hc, (proj2 (Z.ltb_ge n 0)) by lia. by rewrite E.
Qed.

Lemma fuse_chunks_owns op hs what G :
  chunks_fit -> hs ⊆ G ->
  spec G [] (let! r := c_fuse L op hs what in deferring (free_opt KBuffer r.1.1) (read_chunks L r)) (fun _ => []).
Proof.
  intros Hfit Hs s F H HG. pose proof (spec_fuse L G op hs what Hs s F H HG) as Hf. unfold bind.
  destruct (c_fuse L op hs what s) as [[r|e|w] s1] eqn:E; [|done|done].
  destruct (c_fuse_content _ _ _ _ _ _ Hfit E) as (blob & Hc & Hn & Hcut).
  pose proof (read_chunks_safe r s1 blob Hc Hn Hcut) as Hr. unfold deferring.
  rewrite <- (app_nil_r (opt_owned _ _)) in Hf. destruct (releases_free_opt KBuffer r.1.1 G [] s1 F Hf HG) as (s2 & E2 & H2).
  destruct (read_chunks L r s1) as [[a|e|w] s1']; [..|done]; subst s1'; rewrite E2; [done|by apply holds_nil in H2].
Qed.
Lemma fuse_payload_owns op hs what G :
  hs ⊆ G ->
  spec G [] (let! r := c_fuse L op hs what in deferring (free_opt KBuffer r.1.1) (read_payload L r)) (fun _ => []).
Proof.
  intros Hs. eapply spec_bind; [by apply spec_fuse|]. intros r. cbn beta. rewrite <- (app_nil_r (opt_owned _ _)).
  apply spec_defer; [apply releases_free_opt|]. apply spec_copy. set_solver.
Qed.

Lemma flatten_packages_length i packages pb out :
  flatten_packages i packages pb = inr out -> Z.of_nat (length out) = (Z.of_nat (length packages) * pb)%Z.
Proof.
  revert i out. induction packages as [|pkg packages IH]; intros i out; simpl; [by intros [= <-]|].
  destruct (Z.eqb_spec (Z.of_nat (length pkg)) pb); simpl; [|done]. destruct (forallb byte_value pkg); simpl; [|done].
  destruct (flatten_packages (S i) packages pb) as [e'|out'] eqn:E; [done|]. intros [= <-].
  apply IH in E. rewrite length_app, length_fmap. lia.
Qed.

Lemma counts_match_true req : counts_match req = true ->
  length (CandidateLatQ req) = length (CandidateCiphertexts req) /\
  length (CandidateLonQ req) = length (CandidateCiphertexts req) /\
  length (CandidateBrownies req) = length (CandidateCiphertexts req) /\
  length (CandidatePackages req) = length (CandidateCiphertexts req).
Proof. unfold counts_match. rewrite !andb_true_iff, !Nat.eqb_eq. tauto. Qed.

(** What the checks of both kinds of entry points leave. *)
Definition plain_ready (req : FullFuseRequest) : Prop :=
  (0 < length (InitiatorCiphertext req))%nat /\ (0 < length (CandidateCiphertexts req))%nat /\
  counts_match req = true /\ (0 < PackageBytes req)%Z.

Lemma check_plain_fresh_owns {A} req (k : unit -> CM A) G :
  (plain_ready req -> spec G [] (k tt) (fun _ => [])) -> spec G [] (bind (check_plain_fresh req) k) (fun _ => []).
Proof.
  intros Hk. eapply (spec_bind_returns _ _ _ _ (fun _ => []) _ (fun _ => plain_ready req)).
  - unfold check_plain_fresh, requirePlainPayloadMode. own.
  - intros s [] s' H. unfold check_plain_fresh in H. unfold plain_ready.
    do 6 (apply bind_Ok_inv in H as ([] & ? & ?Hb & H)). unfold fail_if in *.
    repeat match goal with H : (if ?b then _ else _) _ = _ |- _ => destruct b eqn:?; [done|clear H] end.
    repeat match goal with H : negb _ = false |- _ => apply negb_false_iff in H end.
    split_and!; [by apply is_empty_false|by apply is_empty_false|done|lia].
  - by intros [].
Qed.
Lemma check_plain_context_owns {A} req (k : unit -> CM A) G :
  (plain_ready req -> spec G [] (k tt) (fun _ => [])) -> spec G [] (bind (check_plain_context req) k) (fun _ => []).
Proof.
  intros Hk. eapply (spec_bind_returns _ _ _ _ (fun _ => []) _ (fun _ => plain_ready req)).
  - unfold check_plain_context. own.
  - intros s [] s' H. unfold check_plain_context in H. unfold plain_ready.
    do 4 (apply bind_Ok_inv in H as ([] & ? & ?Hb & H)). unfold fail_if in *.
    repeat match goal with H : (if ?b then _ else _) _ = _ |- _ => destruct b eqn:?; [done|clear H] end.
    repeat match goal with H : negb _ = false |- _ => apply negb_false_iff in H
      | H : _ || _ = false |- _ => apply orb_false_iff in H as [? ?] end.
    split_and!; [by apply is_empty_false|by apply is_empty_false|done|lia].
  - by intros [].
Qed.

(** Some candidate ciphertext has a byte: [&candidateBlob[0]] exists. *)
Definition has_candidate_bytes (req : FullFuseRequest) : Prop := (0 < length (concat (CandidateCiphertexts req)))%nat.

Lemma plain_fusion_owns {A} op hs what ring scaling depth req (read : option handle * list Z * Z -> CM A) G :
  hs ⊆ G -> plain_ready req -> has_candidate_bytes req ->
  (forall a G', G ⊆ G' -> spec G' [] (let! r := c_fuse L (op a) hs what in deferring (free_opt KBuffer r.1.1) (read r)) (fun _ => [])) ->
  spec G [] (plain_fusion L op hs what ring scaling depth req read) (fun _ => []).
Proof.
  intros Hs (Hi & Hc & Hm & Hp) Hb Hr. apply counts_match_true in Hm as (H1 & H2 & H3 & H4). unfold plain_fusion.
  destruct (flattenCandidatePackages (CandidatePackages req) (PackageBytes req)) as [e|packages] eqn:E; [apply spec_throw|].
  apply flatten_packages_length in E. cbn [of_sum]. rewrite ret_bind. apply with_strings_owns. intros G' HG.
  assert (0 < length packages)%nat by nia. unfold has_candidate_bytes in Hb.
  eapply spec_bind; [unfold plain_pointers; own|]. intros u. by apply Hr.
Qed.

Lemma first_empty_None i cts : first_empty i cts = None -> Forall (fun c => 0 < length c)%nat cts.
Proof.
  revert i. induction cts as [|c cts IH]; intros i H; [constructor|]. simpl in H.
  destruct (is_empty c) eqn:E; [done|]. constructor; [by apply is_empty_false|by eapply IH].
Qed.
Lemma concat_positive (cts : list bytes) :
  (0 < length cts)%nat -> Forall (fun c => 0 < length c)%nat cts -> (0 < length (concat cts))%nat.
Proof. intros H0 Hf. destruct Hf as [|c cts' Hc _]; simpl in *; [lia|]. rewrite length_app. lia. Qed.

Lemma FullFusePayloadCKKS_owns params req G : spec G [] (FullFusePayloadCKKS L params req) (fun _ => []).
Proof.
  apply check_plain_fresh_owns. intros Hr.
  destruct (first_empty 0 (CandidateCiphertexts req)) as [i|] eqn:E; [apply spec_throw|].
  apply plain_fusion_owns; [sub_env|done| |intros a G' _; apply fuse_payload_owns; sub_env].
  destruct Hr as (_ & H0 & _). apply concat_positive; [done|by eapply first_empty_None].
Qed.
Lemma FullFusePayloadCKKSWithContext_owns ctx req G :
  has_candidate_bytes req -> opt_owned KContext ctx ⊆ G ->
  spec G [] (FullFusePayloadCKKSWithContext L ctx req) (fun _ => []).
Proof.
  intros Hb Hc. eapply spec_bind; [apply requirePlainPayloadMode_owns|]. intros u.
  destruct ctx as [ctx|]; [|apply spec_fail]. apply check_plain_context_owns. intros Hr.
  apply plain_fusion_owns; [done|done|done|]. intros a G' HG. apply fuse_payload_owns. set_solver.
Qed.
Lemma ChunkedFusePayloadCKKS_owns params req G :
  chunks_fit -> has_candidate_bytes req -> spec G [] (ChunkedFusePayloadCKKS L params req) (fun _ => []).
Proof.
  intros Hf Hb. apply check_plain_fresh_owns. intros Hr.
  apply plain_fusion_owns; [sub_env|done|done|]. intros a G' _. apply fuse_chunks_owns; [done|sub_env].
Qed.
Lemma ChunkedFusePayloadCKKSWithContext_owns ctx req G :
  chunks_fit -> has_candidate_bytes req -> opt_owned KContext ctx ⊆ G ->
  spec G [] (ChunkedFusePayloadCKKSWithContext L ctx req) (fun _ => []).
Proof.
  intros Hf Hb Hc. eapply spec_bind; [apply requirePlainPayloadMode_owns|]. intros u.
  destruct ctx as [ctx|]; [|apply spec_fail]. apply check_plain_context_owns. intros Hr.
  apply plain_fusion_owns; [done|done|done|]. intros a G' HG. apply fuse_chunks_owns; [done|set_solver].
Qed.

(** The encrypted variants check what the library returns. *)
Lemma read_checked_owns what input expected r G :
  opt_owned KBuffer r.1.1 ⊆ G -> spec G [] (read_checked L what input expected r) (fun _ => []).
Proof.
  destruct r as [[[h|] lens] n]; intros Hr; [|apply spec_fail]. unfold read_checked. own_step; [apply spec_fail|].
  eapply spec_bind; [by apply spec_copy|]. intros blob. own.
Qed.

Lemma flatten_payload_inr i nChunks matrix blob lens :
  flatten_payload i nChunks matrix = inr (blob, lens) ->
  Forall (fun chunks => Z.of_nat (length chunks) = nChunks /\ Forall (fun c => 0 < length c)%nat chunks) matrix /\
  blob = concat (concat matrix) /\ lens = lens_of (concat matrix).
Proof.
  revert i blob lens. induction matrix as [|chunks matrix IH]; intros i blob lens; simpl; [by intros [= <- <-]|].
  destruct (Z.eqb_spec (Z.of_nat (length chunks)) nChunks) as [Hn|]; simpl; [|done].
  destruct (first_empty 0 chunks) eqn:Ee; [done|].
  destruct (flatten_payload (S i) nChunks matrix) as [e|[blob' lens']] eqn:E; [done|]. intros [= <- <-].
  apply IH in E as (Hf & -> & ->). split_and!.
  - constructor; [|done]. split; [done|by eapply first_empty_None].
  - by rewrite concat_app.
  - unfold lens_of. by rewrite fmap_app.
Qed.


(** What the flattening leaves. *)
Definition payload_ready (req : FullFuseRequest) (n : nat) (nChunks : Z) (blob : bytes) (lens : list Z) : Prop :=
  (0 < length (InitiatorCiphertext req))%nat /\ n = length (CandidateCiphertexts req) /\ (0 < n)%nat /\
  length (CandidateBrownies req) = n /\ (1 <= nChunks <= 256)%Z /\ (0 < length blob)%nat /\ (0 < length lens)%nat /\
  (CandidateDistanceCiphertexts req = [] -> length (CandidateLatQ req) = n /\ length (CandidateLonQ req) = n).

Lemma flattened_ready req b n nChunks blob lens :
  flattenEncryptedPayloadCiphertexts req b = Some (inr (n, nChunks, blob, lens)) -> payload_ready req n nChunks blob lens.
Proof.
  unfold flattenEncryptedPayloadCiphertexts. intros H.
  destruct (is_empty (InitiatorCiphertext req)) eqn:H1; [done|].
  destruct (Nat.eqb_spec (length (CandidateCiphertexts req)) 0) as [|H2]; [done|].
  destruct (Nat.eqb_spec (length (CandidateBrownies req)) (length (CandidateCiphertexts req))) as [H3|]; [|done]. cbn [negb] in H.
  destruct (is_empty (CandidateDistanceCiphertexts req) && _) eqn:H4; [done|].
  destruct (negb (is_empty (CandidateDistanceCiphertexts req)) && _); [done|].
  destruct (negb (is_empty (CandidatePackages req))); [done|].
  destruct ((ProfileDim_ req <=? 0)%Z || (PayloadSlotCount_ req <=? 0)%Z) eqn:H5; [done|].
  destruct (b && _); [done|]. destruct (negb b && _); [done|].
  destruct (next_pow2_int (ProfileDim_ req)) as [chunkSize|] eqn:H6; [|done]. injection H as H.
  apply next_pow2_int_pos in H6. apply orb_false_iff in H5 as [_ H5%Z.leb_gt].
  destruct (256 <? payload_chunks chunkSize (PayloadSlotCount_ req))%Z eqn:H7; [done|].
  destruct (Nat.eqb_spec (length (CandidatePayloadCiphertexts req)) (length (CandidateCiphertexts req))) as [H8|]; [|done].
  cbn [negb] in H.
  destruct (flatten_payload _ _ _) as [e|[blob' lens']] eqn:H9; [done|]. injection H as <- <- <- <-.
  apply flatten_payload_inr in H9 as (Hf & -> & ->).
  assert (1 <= payload_chunks chunkSize (PayloadSlotCount_ req))%Z as Hch.
  { unfold payload_chunks. apply Z.div_le_lower_bound; lia. }
  assert (0 < length (concat (CandidatePayloadCiphertexts req)))%nat as Hlen.
  { destruct Hf as [|chunks matrix [Hn _] _]; simpl in *; [lia|]. rewrite length_app. lia. }
  unfold payload_ready. split_and!; try done; try lia; try (by apply is_empty_false).
  - apply concat_positive; [done|]. clear -Hf. induction Hf as [|chunks matrix [_ Hc] _ IH]; [constructor|].
    simpl. by apply Forall_app.
  - unfold lens_of. by rewrite length_fmap.
  - intros He. rewrite He in H4. cbn [is_empty andb] in H4. apply orb_false_iff in H4 as [H4 H4'].
    apply negb_false_iff, Nat.eqb_eq in H4. apply negb_false_iff, Nat.eqb_eq in H4'. done.
Qed.

Lemma flattened_owns {A} req b (k : nat * Z * bytes * list Z -> CM A) G :
  is_Some (next_pow2_int (ProfileDim_ req)) ->
  (forall n nChunks blob lens, payload_ready req n nChunks blob lens -> spec G [] (k (n, nChunks, blob, lens)) (fun _ => [])) ->
  spec G [] (bind (flattened req b) k) (fun _ => []).
Proof.
  intros [c Hc] Hk. unfold flattened. destruct (flattenEncryptedPayloadCiphertexts req b) as [[e|[[[n nChunks] blob] lens]]|] eqn:E.
  - apply spec_throw.
  - cbn [of_sum]. rewrite ret_bind. apply Hk. by eapply flattened_ready.
  - exfalso. unfold flattenEncryptedPayloadCiphertexts in E. rewrite Hc in E.
    repeat match goal with E : (if ?b then _ else _) = None |- _ => destruct b; [done|] end. done.
Qed.

Lemma encrypted_fusion_owns op what input ctx params req expected distances payload (coordinates : bool) G :
  opt_owned KContext ctx ⊆ G ->
  (0 < length (InitiatorCiphertext req))%nat -> (0 < length (CandidateCiphertexts req))%nat ->
  (0 < length (CandidateBrownies req))%nat -> (0 < length payload.1)%nat -> (0 < length payload.2)%nat ->
  (if coordinates then (0 < length (CandidateLatQ req))%nat /\ (0 < length (CandidateLonQ req))%nat
   else (0 < length distances.1)%nat /\ (0 < length distances.2)%nat) ->
  spec G [] (encrypted_fusion L op what input ctx params req expected distances payload coordinates) (fun _ => []).
Proof.
  intros Hc H1 H2 H3 H4 H5 H6. unfold encrypted_fusion.
  destruct (first_empty 0 (CandidateCiphertexts req)) as [i|] eqn:E; [apply spec_throw|].
  apply first_empty_None in E. pose proof (concat_positive _ H2 E) as Hb.
  apply with_strings_owns. intros G' HG. do 2 (eapply spec_bind; [own|intros ?; cbn beta]).
  apply (spec_bind _ _ _ _ (fun _ => [])); [destruct coordinates, H6; own|intros ?].
  do 3 (eapply spec_bind; [own|intros ?; cbn beta]).
  destruct (context_args ctx params) as [[ring scaling] depth].
  eapply spec_bind; [apply spec_fuse; unfold context_owned; set_solver|]. intros r. cbn beta.
  rewrite <- (app_nil_r (opt_owned _ _)). apply spec_defer; [apply releases_free_opt|]. apply read_checked_owns. set_solver.
Qed.

Lemma chunkedFuseEncryptedPayloadCKKS_owns ctx params req G :
  opt_owned KContext ctx ⊆ G -> is_Some (next_pow2_int (ProfileDim_ req)) ->
  spec G [] (chunkedFuseEncryptedPayloadCKKS L ctx params req) (fun _ => []).
Proof.
  intros Hc Hp. apply spec_guard. intros Hd%negb_false_iff. apply flattened_owns; [done|].
  intros n nChunks blob lens (H1 & -> & H2 & H3 & _ & H4 & H5 & H6).
  destruct (CandidateDistanceCiphertexts req); [|done]. destruct (H6 eq_refl).
  apply encrypted_fusion_owns; simpl; auto; lia.
Qed.

Lemma flattenEncryptedDistanceCiphertexts_inr req n blob lens :
  flattenEncryptedDistanceCiphertexts req n = inr (blob, lens) -> (0 < n)%nat -> (0 < length blob)%nat /\ (0 < length lens)%nat.
Proof.
  unfold flattenEncryptedDistanceCiphertexts. intros H Hn.
  destruct (Nat.eqb_spec (length (CandidateDistanceCiphertexts req)) n) as [<-|]; [|done]. cbn [negb] in H.
  destruct (_ || _); [done|]. destruct (first_empty 0 _) eqn:E; [done|]. injection H as <- <-.
  apply first_empty_None in E. split; [by apply concat_positive|]. unfold lens_of. by rewrite length_fmap.
Qed.

Lemma chunkedFuseEncryptedInputsCKKS_owns ctx params req G :
  opt_owned KContext ctx ⊆ G -> is_Some (next_pow2_int (ProfileDim_ req)) ->
  spec G [] (chunkedFuseEncryptedInputsCKKS L ctx params req) (fun _ => []).
Proof.
  intros Hc Hp. apply flattened_owns; [done|].
  intros n nChunks blob lens (H1 & -> & H2 & H3 & _ & H4 & H5 & _).
  destruct (flattenEncryptedDistanceCiphertexts req _) as [e|[db dl]] eqn:E; [apply spec_throw|].
  cbn [of_sum]. rewrite ret_bind. destruct (flattenEncryptedDistanceCiphertexts_inr _ _ _ _ E H2).
  apply encrypted_fusion_owns; simpl; auto; lia.
Qed.

Lemma pinned_owns label cts G : spec G [] (pinned label cts : CM unit) (fun _ => []).
Proof. unfold pinned. destruct (first_empty 0 cts); [apply spec_throw|by apply spec_ret']. Qed.
Lemma blind_result_owns op G :
  spec G [] (let! r := c_blind L op in
             let '(ok, text, out) := r in
             deferring (free_opt KBuffer out) (
             let! b := copyCBytes L out in
             if negb ok || is_empty b then throw (Errorf [T "openfhe BFV blind payload fusion failed: "; T text]) else ret b))
    (fun _ => []).
Proof.
  eapply spec_bind; [apply spec_blind|]. intros [[ok text] out]. cbn [snd]. rewrite <- (app_nil_r (opt_owned _ _)).
  apply spec_defer; [apply releases_free_opt|]. eapply spec_bind; [apply spec_copy; set_solver|]. intros b. own.
Qed.
Lemma BlindFusePayloadBFVForContract_owns params req G : spec G [] (BlindFusePayloadBFVForContract L params req) (fun _ => []).
Proof.
  unfold BlindFusePayloadBFVForContract, with_table. eapply spec_bind; [apply require_owns|]. intros u.
  do 4 (apply spec_guard; intros ?). do 3 (own_step; [own|]).
  do 3 (eapply spec_bind; [apply pinned_owns|intros ?]). apply blind_result_owns.
Qed.

(** ** Unions *)

Lemma run_sequential_owns fuse comparators G :
  (forall c, spec G [] (fuse c) (fun _ => [])) -> spec G [] (run_sequential fuse comparators : CM _) (fun _ => []).
Proof. intros Hf. induction comparators as [|c comparators IH]; simpl; own. Qed.

Lemma caught_owns {A} (m : CM A) G : spec G [] m (fun _ => []) -> spec G [] (caught m) (fun _ => []).
Proof.
  intros Hm s F H HG. specialize (Hm s F H HG). unfold caught. destruct (m s) as [[a|e|w] s1]; [done|by apply holds_nil|done].
Qed.

Lemma run_calls_owns fuse comparators order G :
  (forall c, spec G [] (fuse c) (fun _ => [])) -> Forall (fun i => i < length comparators)%nat order ->
  spec G [] (run_calls fuse comparators order : CM _) (fun _ => []).
Proof.
  intros Hf Ho. induction Ho as [|i order Hi _ IH]; simpl; [own|].
  apply lookup_lt_is_Some in Hi as [c ->]. eapply spec_bind; [by apply caught_owns, spec_wrap|]. intros r. own.
Qed.

Lemma clampUnionConcurrency_pos c comparators :
  is_empty comparators = false -> (0 < clampUnionConcurrency c comparators)%Z.
Proof. intros Hn. pose proof (clampUnionConcurrency_range c comparators ltac:(by destruct comparators)). lia. Qed.

Lemma runUnionComparatorsWith_owns fuse comparators concurrency run G :
  (forall c, spec G [] (fuse c) (fun _ => [])) -> Forall (fun i => i < length comparators)%nat (calls run) ->
  comparators = [] \/ (0 < concurrency)%Z ->
  spec G [] (runUnionComparatorsWith fuse comparators concurrency run : CM _) (fun _ => []).
Proof.
  intros Hf Ho Hc. unfold runUnionComparatorsWith. apply spec_if; [by apply run_sequential_owns|].
  assert ((concurrency <=? 0)%Z && negb (is_empty comparators) = false) as ->.
  { destruct Hc as [->|Hc]; [apply andb_false_r|]. by rewrite (proj2 (Z.leb_gt _ _)). }
  eapply spec_bind; [by apply run_calls_owns|]. intros r. apply of_sum_owns.
Qed.

Lemma insertUnionEvalKeys_owns ctx keys G : (ctx, KContext) ∈ G -> spec G [] (insertUnionEvalKeys L ctx keys) (fun _ => []).
Proof. intros. unfold insertUnionEvalKeys. own. Qed.

(** A fusion that only borrows the context. *)
Definition fuse_ok (fuse : option handle -> FullFuseRequest -> bool -> UnionComparator -> CM (list bytes)) (req : FullFuseRequest) : Prop :=
  forall ctx b c G, (ctx, KContext) ∈ G -> spec G [] (fuse (Some ctx) req b c) (fun _ => []).

Lemma union_score_owns fuse params req comparators concurrency run G :
  batch_ok params = true -> fuse_ok fuse req -> Forall (fun i => i < length comparators)%nat (calls run) ->
  spec G [] (union_score L fuse params req comparators concurrency run) (fun _ => []).
Proof.
  intros Hb Hf Ho. apply spec_guard. intros Hn. eapply spec_with; [by apply createContractContext_owns|]. intros ctx.
  eapply spec_bind; [apply (spec_if _ _ _ _ _ (fun _ => [])); [apply insertUnionEvalKeys_owns; set_solver|own]|].
  intros u. apply runUnionComparatorsWith_owns; [intros c; apply Hf; set_solver|done|].
  right. apply clampUnionConcurrency_pos, Hn.
Qed.

Lemma union_score_refs_owns fuse params req comparators concurrency run pks refs resolve G :
  batch_ok params = true -> fuse_ok fuse req -> Forall (fun i => i < length comparators)%nat (calls run) ->
  (forall r, resolve = Some r -> resolver_ok r) ->
  spec G [] (union_score_refs L fuse params req comparators concurrency run pks refs resolve) (fun _ => []).
Proof.
  intros Hb Hf Ho Hr. apply spec_guard. intros Hn. apply spec_guard. intros _.
  eapply spec_with; [by apply createContractContext_owns|]. intros ctx.
  eapply spec_with; [apply spec_wrap, deserializeEvalMultKey_owns; set_solver|]. intros key.
  eapply spec_bind; [apply spec_check; sub_env|]. intros u.
  eapply spec_bind; [apply insertEvalSumPerIndexLazy_owns; [done|set_solver]|]. intros u'.
  apply runUnionComparatorsWith_owns; [intros c; apply Hf; set_solver|done|]. right. apply clampUnionConcurrency_pos, Hn.
Qed.

Lemma chunkedUnion_ok req : chunks_fit -> has_candidate_bytes req -> fuse_ok (chunkedUnionComparatorWithContext L) req.
Proof. intros Hf Hb ctx b c G Hc. apply ChunkedFusePayloadCKKSWithContext_owns; [done|done|set_solver]. Qed.
Lemma chunkedEncryptedUnion_ok req :
  is_Some (next_pow2_int (ProfileDim_ req)) -> fuse_ok (chunkedEncryptedUnionComparatorWithContext L) req.
Proof. intros Hp ctx b c G Hc. apply chunkedFuseEncryptedPayloadCKKS_owns; [set_solver|done]. Qed.
Lemma chunkedEncryptedInputUnion_ok req :
  is_Some (next_pow2_int (ProfileDim_ req)) -> fuse_ok (chunkedEncryptedInputUnionComparatorWithContext L) req.
Proof. intros Hp ctx b c G Hc. apply chunkedFuseEncryptedInputsCKKS_owns; [set_solver|done]. Qed.

Lemma FullFusePayloadCKKSWithEvalSumRefs_owns params req pks refs resolve G :
  batch_ok params = true -> has_candidate_bytes req -> (forall r, resolve = Some r -> resolver_ok r) ->
  spec G [] (FullFusePayloadCKKSWithEvalSumRefs L params req pks refs resolve) (fun _ => []).
Proof.
  intros Hb Hc Hr. apply spec_guard. intros _. eapply spec_with; [by apply createContractContext_owns|]. intros ctx.
  eapply spec_bind; [apply insertEvalSumPerIndexLazy_owns; [done|set_solver]|]. intros u.
  apply FullFusePayloadCKKSWithContext_owns; [done|set_solver].
Qed.
End Owns.

#[export] Hint Resolve keyGenFirstIn_owns keyGenNextIn_owns evalKeyRound1LeadIn_owns evalKeyRound1ParticipantIn_owns
  evalKeyRound2ParticipantIn_owns combineEvalKeyRound2In_owns MinimalRotationIndicesWithContext_owns
  GeneratePerIndexEvalSumKeyWithContext_owns GeneratePerIndexEvalSumShareWithContext_owns
  combineEvalSumIncremental_owns combineEvalSumIncrementalLazy_owns insertEvalSumPerIndexLazy_owns
  evalProductSumIn_owns EvalProductSumForContractWithEvalSumRefs_owns evalBinaryCKKS_owns
  EvalConstMultCKKSForContract_owns EvalPolyCKKSForContract_owns EvalArgmaxCKKSForContract_owns
  RoundTripCiphertext_owns encryptIn_owns encryptRepeatedIn_owns squaredDistanceIn_owns partialDecryptIn_owns
  FuseCKKSPartialsForContract_owns FuseBFVPartialsForContract_owns SingleKeyEncrypt_owns SingleKeyDecrypt_owns
  auctionServerIn_owns SingleKeyAuctionDecrypt_owns FullFusePayloadCKKS_owns FullFusePayloadCKKSWithContext_owns
  ChunkedFusePayloadCKKS_owns ChunkedFusePayloadCKKSWithContext_owns chunkedFuseEncryptedPayloadCKKS_owns
  chunkedFuseEncryptedInputsCKKS_owns BlindFusePayloadBFVForContract_owns union_score_owns union_score_refs_owns
  chunkedUnion_ok chunkedEncryptedUnion_ok chunkedEncryptedInputUnion_ok FullFusePayloadCKKSWithEvalSumRefs_owns : cgo.

Section Api.
Context {V LS : Type} (L : CLib V LS).
Notation CS := (CState V LS).
Notation CM := (M CS).
Notation Resolver := (option (@EvalSumKeyResolver V LS)).

(** A call whose result is not looked at. *)
Definition call {A} (m : CM A) : CM unit := m ;;; ret tt.
Definition run_all (ms : list (CM unit)) : CM unit := for_each ms ignoring.
Definition resolves (resolve : Resolver) : Prop := forall r, resolve = Some r -> resolver_ok r.

(** The calls on an open context. *)
Inductive ctx_api (ctx : handle) : CM unit -> Prop :=
| ctx_EvalKeyRound1Lead sk : ctx_api ctx (call (EvalKeyRound1LeadWithContext L ctx sk))
| ctx_EvalMultKeyGenLead sk : ctx_api ctx (call (EvalMultKeyGenLeadWithContext L ctx sk))
| ctx_EvalMultKeySwitchShare sk base : ctx_api ctx (call (EvalMultKeySwitchShareWithContext L ctx sk base))
| ctx_EvalKeyRound1Participant sk mb sb pk : ctx_api ctx (call (EvalKeyRound1ParticipantWithContext L ctx sk mb sb pk))
| ctx_CombineEvalMultSwitchShares pks shares :
    (0 < length pks)%nat -> length pks = length shares ->
    ctx_api ctx (call (CombineEvalMultSwitchSharesWithContext L ctx pks shares))
| ctx_EvalKeyRound2Participant sk mj pk lead : ctx_api ctx (call (EvalKeyRound2ParticipantWithContext L ctx sk mj pk lead))
| ctx_CombineEvalKeyRound2 pk shares sum :
    (0 < length shares)%nat -> ctx_api ctx (call (CombineEvalKeyRound2WithContext L ctx pk shares sum))
| ctx_StreamedEvalSumKeyGenLead sk : ctx_api ctx (call (StreamedEvalSumKeyGenLeadWithContext L ctx sk))
| ctx_StreamedEvalSumKeyShare sk base pk : ctx_api ctx (call (StreamedEvalSumKeyShareWithContext L ctx sk base pk))
| ctx_MinimalRotationIndices : ctx_api ctx (call (MinimalRotationIndicesWithContext L ctx))
| ctx_GeneratePerIndexEvalSumKey sk i : ctx_api ctx (call (GeneratePerIndexEvalSumKeyWithContext L ctx sk i))
| ctx_GeneratePerIndexEvalSumKeys sk : ctx_api ctx (call (GeneratePerIndexEvalSumKeysWithContext L ctx sk))
| ctx_GeneratePerIndexEvalSumShare sk base pk i : ctx_api ctx (call (GeneratePerIndexEvalSumShareWithContext L ctx sk base pk i))
| ctx_GeneratePerIndexEvalSumShares sk bases pk : ctx_api ctx (call (GeneratePerIndexEvalSumSharesWithContext L ctx sk bases pk))
| ctx_CombineEvalKeyRound1PerIndex pks ms ss : ctx_api ctx (call (CombineEvalKeyRound1PerIndexWithContext L ctx pks ms ss))
| ctx_EvalSumIncrementalFold lead shares :
    ctx_api ctx (call (let! f := NewEvalSumIncrementalFoldWithContext L ctx lead in
                       for_each shares (fun s => ignoring (Fold L f s.1 s.2)) ;;; Finalize L f))
| ctx_InsertEvalSumKeysPerIndexLazy pks refs resolve :
    resolves resolve -> ctx_api ctx (InsertEvalSumKeysPerIndexLazyWithContext L (Some ctx) pks refs resolve)
| ctx_FullFusePayload req : has_candidate_bytes req -> ctx_api ctx (call (FullFusePayloadCKKSWithContext L (Some ctx) req))
| ctx_ChunkedFusePayload req :
    chunks_fit L -> has_candidate_bytes req -> ctx_api ctx (call (ChunkedFusePayloadCKKSWithContext L (Some ctx) req))
| ctx_ChunkedFuseEncryptedPayload req :
    is_Some (next_pow2_int (ProfileDim_ req)) -> ctx_api ctx (call (ChunkedFuseEncryptedPayloadCKKSWithContext L (Some ctx) req))
| ctx_ChunkedFuseEncryptedInputs req :
    is_Some (next_pow2_int (e_ProfileDim req)) -> ctx_api ctx (call (ChunkedFuseEncryptedInputsCKKSWithContext L (Some ctx) req)).

(** The exported calls; the hypotheses are what each asks of its arguments. *)
Inductive api : CM unit -> Prop :=
| api_DistributedKeyGenFirst p : batch_ok p = true -> api (call (DistributedKeyGenFirst L p))
| api_BFVDistributedKeyGenFirst p : api (call (BFVDistributedKeyGenFirst L p))
| api_DistributedKeyGenNext p pk : batch_ok p = true -> api (call (DistributedKeyGenNext L p pk))
| api_BFVDistributedKeyGenNext p pk : api (call (BFVDistributedKeyGenNext L p pk))
| api_SingleKeyGen p : batch_ok p = true -> api (call (SingleKeyGen L p))
| api_SingleKeyGenWithEvalKey p : batch_ok p = true -> api (call (SingleKeyGenWithEvalKey L p))
| api_EvalKeyRound1Lead p sk : batch_ok p = true -> api (call (EvalKeyRound1Lead L p sk))
| api_BFVEvalKeyRound1Lead p sk : api (call (BFVEvalKeyRound1Lead L p sk))
| api_EvalKeyRound1Participant p sk mb sb pk : batch_ok p = true -> api (call (EvalKeyRound1Participant L p sk mb sb pk))
| api_BFVEvalKeyRound1Participant p sk mb sb pk : api (call (BFVEvalKeyRound1Participant L p sk mb sb pk))
| api_CombineEvalKeyRound1 p pks ms ss : batch_ok p = true -> api (call (CombineEvalKeyRound1 L p pks ms ss))
| api_BFVCombineEvalKeyRound1 p pks ms ss : api (call (BFVCombineEvalKeyRound1 L p pks ms ss))
| api_BFVCombineEvalKeyRound1Lazy p pks ms refs resolve :
    resolves resolve -> api (call (BFVCombineEvalKeyRound1Lazy L p pks ms refs resolve))
| api_CombineEvalKeyRound1PerIndexLazy p pks ms refs resolve :
    batch_ok p = true -> resolves resolve -> api (call (CombineEvalKeyRound1PerIndexLazy L p pks ms refs resolve))
| api_BFVCombineEvalKeyRound1PerIndexLazy p pks ms refs resolve :
    resolves resolve -> api (call (BFVCombineEvalKeyRound1PerIndexLazy L p pks ms refs resolve))
| api_CombineEvalMultSwitchShares p pks ms : batch_ok p = true -> api (call (CombineEvalMultSwitchShares L p pks ms))
| api_CombineEvalSumSharesIncremental p pks ss : batch_ok p = true -> api (call (CombineEvalSumSharesIncremental L p pks ss))
| api_EvalSumIncrementalFold p lead shares : batch_ok p = true ->
    api (call (let! f := NewEvalSumIncrementalFold L p lead in
               for_each shares (fun s => ignoring (Fold L f s.1 s.2)) ;;; Finalize L f))
| api_EvalKeyRound2Participant p sk mj pk lead : batch_ok p = true -> api (call (EvalKeyRound2Participant L p sk mj pk lead))
| api_BFVEvalKeyRound2Participant p sk mj pk lead : api (call (BFVEvalKeyRound2Participant L p sk mj pk lead))
| api_CombineEvalKeyRound2 p pk ms sum : batch_ok p = true -> api (call (CombineEvalKeyRound2 L p pk ms sum))
| api_BFVCombineEvalKeyRound2 p pk ms sum : api (call (BFVCombineEvalKeyRound2 L p pk ms sum))
| api_SplitRotShareAB p share : batch_ok p = true -> api (call (SplitRotShareAB L p share))
| api_ReconstructRotShareAB p a b : batch_ok p = true -> api (call (ReconstructRotShareAB L p a b))
| api_EvalProductSum p keys l r n : batch_ok p = true -> api (call (EvalProductSumForContract L p keys l r n))
| api_EvalProductSumBFV p keys l r n : api (call (EvalProductSumBFVForContract L p keys l r n))
| api_EvalProductSumWithRefs p keys l r n pks refs resolve : batch_ok p = true -> resolves resolve ->
    api (call (EvalProductSumForContractWithEvalSumRefs L p keys l r n pks refs resolve))
| api_EvalAdd p a b : batch_ok p = true -> api (call (EvalAddCKKSForContract L p a b))
| api_EvalSub p a b : batch_ok p = true -> api (call (EvalSubCKKSForContract L p a b))
| api_EvalMult p k a b : batch_ok p = true -> api (call (EvalMultCKKSForContract L p k a b))
| api_EvalConstMult p ct x : batch_ok p = true -> api (call (EvalConstMultCKKSForContract L p ct x))
| api_EvalPoly p k ct coeffs : batch_ok p = true -> api (call (EvalPolyCKKSForContract L p k ct coeffs))
| api_EvalArgmax p k cts sharp : batch_ok p = true -> api (call (EvalArgmaxCKKSForContract L p k cts sharp))
| api_RoundTrip p ct : batch_ok p = true -> api (call (RoundTripCiphertext L p ct))
| api_EncryptCKKS p pk vs : batch_ok p = true -> api (call (EncryptCKKSForContract L p pk vs))
| api_EncryptBFV p pk vs : api (call (EncryptBFVForContract L p pk vs))
| api_EncryptRepeatedCKKS p pk v : batch_ok p = true -> api (call (EncryptRepeatedScalarCKKSForContract L p pk v))
| api_EncryptRepeatedBFV p pk v : api (call (EncryptRepeatedScalarBFVForContract L p pk v))
| api_SquaredDistanceCKKS p k a b x y : batch_ok p = true -> api (call (EncryptedSquaredDistanceCKKSForContract L p k a b x y))
| api_SquaredDistanceBFV p k a b x y : api (call (EncryptedSquaredDistanceBFVForContract L p k a b x y))
| api_PartialDecryptCKKS p ct sk lead : batch_ok p = true -> api (call (PartialDecryptCKKSForContract L p ct sk lead))
| api_PartialDecryptBFV p ct sk lead : api (call (PartialDecryptBFVForContract L p ct sk lead))
| api_FuseCKKSPartials p partials n : batch_ok p = true -> api (call (FuseCKKSPartialsForContract L p partials n))
| api_FuseBFVPartials p partials n : api (call (FuseBFVPartialsForContract L p partials n))
| api_SingleKeyEncrypt p pk v : batch_ok p = true -> api (call (SingleKeyEncrypt L p pk v))
| api_SingleKeyDecrypt p sk ct n : batch_ok p = true -> (0 < n)%Z -> api (call (SingleKeyDecrypt L p sk ct n))
| api_SingleKeyAuctionServer p pk k prices stars dists nonces fl cap w deg : batch_ok p = true ->
    api (call (SingleKeyAuctionServerWithEvalKey L p pk k prices stars dists nonces fl cap w deg))
| api_SingleKeyAuctionServerEnc p pk k bids stars dists nonces fl cap w deg : batch_ok p = true ->
    api (call (SingleKeyAuctionServerEncWithEvalKey L p pk k bids stars dists nonces fl cap w deg))
| api_SingleKeyAuctionServer_nokey p pk prices stars dists nonces fl cap w deg : batch_ok p = true ->
    api (call (SingleKeyAuctionServer L p pk prices stars dists nonces fl cap w deg))
| api_SingleKeyAuctionServerEnc_nokey p pk bids stars dists nonces fl cap w deg : batch_ok p = true ->
    api (call (SingleKeyAuctionServerEnc L p pk bids stars dists nonces fl cap w deg))
| api_SingleKeyAuctionDecrypt p sk masks : batch_ok p = true -> api (call (SingleKeyAuctionDecrypt L p sk masks))
| api_FullFusePayload p req : api (call (FullFusePayloadCKKS L p req))
| api_FullFusePayloadWithRefs p req pks refs resolve : batch_ok p = true -> has_candidate_bytes req -> resolves resolve ->
    api (call (FullFusePayloadCKKSWithEvalSumRefs L p req pks refs resolve))
| api_ChunkedFusePayload p req : chunks_fit L -> has_candidate_bytes req -> api (call (ChunkedFusePayloadCKKS L p req))
| api_ChunkedFuseEncryptedPayload p req : is_Some (next_pow2_int (ProfileDim_ req)) ->
    api (call (ChunkedFuseEncryptedPayloadCKKS L p req))
| api_ChunkedFuseEncryptedInputs p req : is_Some (next_pow2_int (e_ProfileDim req)) ->
    api (call (ChunkedFuseEncryptedInputsCKKS L p req))
| api_BlindFusePayloadBFV p req : api (call (BlindFusePayloadBFVForContract L p req))
| api_ChunkedUnionScore p req cs n run : batch_ok p = true -> chunks_fit L -> has_candidate_bytes req ->
    Forall (fun i => i < length cs)%nat (calls run) ->
    api (call (ChunkedUnionScoreCKKSWithConcurrency L p req cs n run))
| api_ChunkedUnionScoreEncryptedPayload p req cs n run : batch_ok p = true -> is_Some (next_pow2_int (ProfileDim_ req)) ->
    Forall (fun i => i < length cs)%nat (calls run) ->
    api (call (ChunkedUnionScoreEncryptedPayloadCKKSWithConcurrency L p req cs n run))
| api_ChunkedUnionScoreEncryptedInputs p req cs n run : batch_ok p = true -> is_Some (next_pow2_int (e_ProfileDim req)) ->
    Forall (fun i => i < length cs)%nat (calls run) ->
    api (call (ChunkedUnionScoreEncryptedInputsCKKSWithConcurrency L p req cs n run))
| api_ChunkedUnionScore_serial p req cs run : batch_ok p = true -> chunks_fit L -> has_candidate_bytes req ->
    Forall (fun i => i < length cs)%nat (calls run) -> api (call (ChunkedUnionScoreCKKS L p req cs run))
| api_ChunkedUnionScoreEncryptedPayload_serial p req cs run : batch_ok p = true -> is_Some (next_pow2_int (ProfileDim_ req)) ->
    Forall (fun i => i < length cs)%nat (calls run) -> api (call (ChunkedUnionScoreEncryptedPayloadCKKS L p req cs run))
| api_ChunkedUnionScoreEncryptedInputs_serial p req cs run : batch_ok p = true -> is_Some (next_pow2_int (e_ProfileDim req)) ->
    Forall (fun i => i < length cs)%nat (calls run) -> api (call (ChunkedUnionScoreEncryptedInputsCKKS L p req cs run))
| api_ChunkedUnionScoreWithRefs p req cs n run pks refs resolve : batch_ok p = true -> chunks_fit L -> has_candidate_bytes req ->
    Forall (fun i => i < length cs)%nat (calls run) -> resolves resolve ->
    api (call (ChunkedUnionScoreCKKSWithEvalSumRefs L p req cs n run pks refs resolve))
| api_ChunkedUnionScoreEncryptedPayloadWithRefs p req cs n run pks refs resolve : batch_ok p = true ->
    is_Some (next_pow2_int (ProfileDim_ req)) -> Forall (fun i => i < length cs)%nat (calls run) -> resolves resolve ->
    api (call (ChunkedUnionScoreEncryptedPayloadCKKSWithEvalSumRefs L p req cs n run pks refs resolve))
| api_ChunkedUnionScoreEncryptedInputsWithRefs p req cs n run pks refs resolve : batch_ok p = true ->
    is_Some (next_pow2_int (e_ProfileDim req)) -> Forall (fun i => i < length cs)%nat (calls run) -> resolves resolve ->
    api (call (ChunkedUnionScoreEncryptedInputsCKKSWithEvalSumRefs L p req cs n run pks refs resolve))
| api_ThresholdSmoke fixed6 parties : api (call (ThresholdSmokeCKKS L fixed6 parties))
| api_ScoreCandidates lib_score req : payload_fits req -> api (call (ScoreCandidatesCKKS L lib_score req))
| api_Smoke : api (call (SmokeCKKS L))
| api_ContextCount : api (call (OpenFHEContextCount L))
| api_ReleaseContexts : api (ReleaseOpenFHEGlobalContexts L)
(** The measurements and comparisons of the tests. *)
| api_benchRotShareGen p streamed : batch_ok p = true -> api (call (benchRotShareGen L p streamed))
| api_benchStreamedFullRot p : batch_ok p = true -> api (call (benchStreamedFullRot L p))
| api_benchBOnlyRotShare status p : batch_ok p = true -> api (call (benchBOnlyRotShare L status p))
| api_benchResidentCombine p t pks ms ss : batch_ok p = true ->
    (0 < length ms <= length pks)%nat -> (0 < length ss <= length pks)%nat ->
    api (call (benchResidentCombineRound1 L p t pks ms ss))
| api_runBOnlyRotReconstruction p : batch_ok p = true -> api (call (runBOnlyRotReconstruction L p))
| api_runIncrementalCombineCheck p : batch_ok p = true -> api (call (runIncrementalCombineCheck L p))
(** A context opened, used by any calls, and closed. *)
| api_context p ms : batch_ok p = true -> (forall ctx, Forall (ctx_api ctx) (ms ctx)) ->
    api (let! c := NewCryptoContext L p in
         run_all (match c with Some ctx => ms ctx | None => [] end) ;;;
         call (Close c)).

Lemma call_owns {A} (m : CM A) G : spec G [] m (fun _ => []) -> spec G [] (call m) (fun _ => []).
Proof. intros Hm. eapply spec_bind; [exact Hm|]. intros a. by apply spec_ret'. Qed.

Lemma combineEvalKeyRound1PerIndex_owns ctx pks ms ss G :
  (ctx, KContext) ∈ G -> spec G [] (combineEvalKeyRound1PerIndex L ctx pks ms ss) (fun _ => []).
Proof.
  intros Hc. apply spec_guard. intros Hn. unfold counts_differ in Hn.
  apply combineEvalMultIn_owns; [done|len|len|]. intros b G' HG.
  eapply spec_bind; [apply combineEvalSumPerIndex_owns; [by apply HG|len|len]|]. intros sum. by apply spec_ret'.
Qed.
Lemma combineEvalKeyRound1PerIndexLazy_owns ctx pks ms refs resolve G :
  (ctx, KContext) ∈ G -> resolver_ok resolve -> spec G [] (combineEvalKeyRound1PerIndexLazy L ctx pks ms refs resolve) (fun _ => []).
Proof.
  intros Hc Hr. apply spec_guard. intros Hn. unfold counts_differ in Hn.
  apply combineEvalMultIn_owns; [done|len|len|]. intros b G' HG.
  eapply spec_bind; [apply combineEvalSumPerIndexLazy_owns; [done|by apply HG|len|len]|]. intros sum. by apply spec_ret'.
Qed.
Lemma combinePerIndexLazyIn_owns create pks ms refs resolve G :
  spec G [] create (fun ctx => [(ctx, KContext)]) -> resolves resolve ->
  spec G [] (combinePerIndexLazyIn L create pks ms refs resolve) (fun _ => []).
Proof.
  intros Hc Hr. apply spec_guard. intros Hn. destruct resolve as [r|]; [|apply spec_fail].
  eapply spec_with; [exact Hc|]. intros ctx. apply combineEvalKeyRound1PerIndexLazy_owns; [set_solver|by apply Hr].
Qed.
Lemma round1_owns scheme create pks ms ss G :
  spec G [] create (fun ctx => [(ctx, KContext)]) ->
  spec G [] (fail_if (counts_differ pks ms ss) counts_text ;;;
             with_handle KContext create (fun ctx =>
             combineEvalMultIn L scheme ctx pks ms (fun mult =>
             let! sum := combineEvalSumIncremental L ctx pks ss in ret (round1 mult sum)))) (fun _ => []).
Proof.
  intros Hc. apply spec_guard. intros Hn. unfold counts_differ in Hn. eapply spec_with; [exact Hc|]. intros ctx.
  apply combineEvalMultIn_owns; [set_solver|len|len|]. intros b G' HG.
  eapply spec_bind; [apply combineEvalSumIncremental_owns; [apply HG; by left|len]|]. intros sum. by apply spec_ret'.
Qed.
Lemma BFVCombineEvalKeyRound1Lazy_owns p pks ms refs resolve G :
  resolves resolve -> spec G [] (BFVCombineEvalKeyRound1Lazy L p pks ms refs resolve) (fun _ => []).
Proof.
  intros Hr. apply spec_guard. intros Hn. unfold counts_differ in Hn. destruct resolve as [r|]; [|apply spec_fail].
  eapply spec_with; [apply createBFVContractContext_owns|]. intros ctx.
  apply combineEvalMultIn_owns; [set_solver|len|len|]. intros b G' HG.
  eapply spec_bind; [apply combineEvalSumIncrementalLazy_owns; [apply HG; by left|done]|]. intros sum. by apply spec_ret'.
Qed.
Lemma CombineEvalMultSwitchShares_owns p pks ms G :
  batch_ok p = true -> spec G [] (CombineEvalMultSwitchShares L p pks ms) (fun _ => []).
Proof.
  intros Hb. apply spec_guard. intros Hn. eapply spec_with; [by apply createContractContext_owns|]. intros ctx.
  apply combineEvalMultIn_owns; [set_solver|len|len|]. intros b G' HG. by apply spec_ret'.
Qed.
Lemma CombineEvalSumSharesIncremental_owns p pks ss G :
  batch_ok p = true -> spec G [] (CombineEvalSumSharesIncremental L p pks ss) (fun _ => []).
Proof.
  intros Hb. apply spec_guard. intros Hn. eapply spec_with; [by apply createContractContext_owns|]. intros ctx.
  apply combineEvalSumIncremental_owns; [set_solver|len].
Qed.
Lemma CombineEvalKeyRound2WithContext_owns ctx pk shares sum G :
  (ctx, KContext) ∈ G -> (0 < length shares)%nat -> spec G [] (CombineEvalKeyRound2WithContext L ctx pk shares sum) (fun _ => []).
Proof. intros. unfold CombineEvalKeyRound2WithContext. own. Qed.
Lemma GeneratePerIndexEvalSumKeysWithContext_owns ctx sk G :
  (ctx, KContext) ∈ G -> spec G [] (GeneratePerIndexEvalSumKeysWithContext L ctx sk) (fun _ => []).
Proof.
  intros. unfold GeneratePerIndexEvalSumKeysWithContext. eapply spec_bind; [by apply MinimalRotationIndicesWithContext_owns|].
  intros idx. apply for_append_owns. intros i. own.
Qed.
Lemma GeneratePerIndexEvalSumSharesWithContext_owns ctx sk bases pk G :
  (ctx, KContext) ∈ G -> spec G [] (GeneratePerIndexEvalSumSharesWithContext L ctx sk bases pk) (fun _ => []).
Proof. intros. apply spec_guard. intros _. apply for_append_owns. intros i. own. Qed.

Lemma ctx_api_owns ctx m G : (ctx, KContext) ∈ G -> ctx_api ctx m -> spec G [] m (fun _ => []).
Proof.
  intros Hc H. destruct H; try apply call_owns.
  - by apply evalKeyRound1LeadIn_owns.
  - unfold EvalMultKeyGenLeadWithContext. own.
  - unfold EvalMultKeySwitchShareWithContext. own.
  - by apply evalKeyRound1ParticipantIn_owns.
  - apply combineEvalMultIn_owns; [done..|]. intros b G' HG. by apply spec_ret'.
  - by apply evalKeyRound2ParticipantIn_owns.
  - by apply CombineEvalKeyRound2WithContext_owns.
  - unfold StreamedEvalSumKeyGenLeadWithContext. own.
  - unfold StreamedEvalSumKeyShareWithContext. own.
  - by apply MinimalRotationIndicesWithContext_owns.
  - by apply GeneratePerIndexEvalSumKeyWithContext_owns.
  - by apply GeneratePerIndexEvalSumKeysWithContext_owns.
  - by apply GeneratePerIndexEvalSumShareWithContext_owns.
  - by apply GeneratePerIndexEvalSumSharesWithContext_owns.
  - by apply combineEvalKeyRound1PerIndex_owns.
  - by apply fold_context_session_releases.
  - by apply insertEvalSumPerIndexLazy_owns.
  - apply FullFusePayloadCKKSWithContext_owns; [done|set_solver].
  - apply ChunkedFusePayloadCKKSWithContext_owns; [done|done|set_solver].
  - apply chunkedFuseEncryptedPayloadCKKS_owns; [set_solver|done].
  - apply chunkedFuseEncryptedInputsCKKS_owns; [set_solver|done].
Qed.

Lemma run_all_owns (P : CM unit -> Prop) ms G X :
  (forall m G, X ⊆ G -> P m -> spec G [] m (fun _ => [])) -> Forall P ms -> spec G X (run_all ms) (fun _ => X).
Proof.
  intros HP Hms. induction Hms as [|m ms Hm _ IH]; [by apply spec_ret'|]. simpl.
  eapply spec_bind; [apply spec_ignoring, HP; [set_solver|done]|intros u; exact IH].
Qed.

Lemma context_owns p ms G :
  batch_ok p = true -> (forall ctx, Forall (ctx_api ctx) (ms ctx)) ->
  spec G [] (let! c := NewCryptoContext L p in
             run_all (match c with Some ctx => ms ctx | None => [] end) ;;; call (Close c)) (fun _ => []).
Proof.
  intros Hb Hms. eapply spec_bind.
  { eapply spec_bind; [by apply createContractContext_owns|]. intros ctx. cbn beta.
    apply (spec_ret' _ _ (Some ctx) (opt_owned KContext)). done. }
  intros [ctx|]; cbn [opt_owned]; [|exact (spec_ret G tt (fun _ => []))].
  eapply spec_bind; [apply (run_all_owns (ctx_api ctx)); [|done]|].
  - intros m G' HG. apply ctx_api_owns. set_solver.
  - intros u. eapply spec_bind; [|intros c; by apply spec_ret'].
    eapply spec_bind; [apply spec_free|]. intros u'. by apply (spec_ret' _ _ None (fun _ => [])).
Qed.

Lemma api_owns m G : api m -> spec G [] m (fun _ => []).
Proof.
  intros H. destruct H; try apply call_owns.
  all: try (solve [eauto using createContractContext_owns, createBFVContractContext_owns, round1_owns,
    BFVCombineEvalKeyRound1Lazy_owns, combinePerIndexLazyIn_owns, CombineEvalMultSwitchShares_owns,
    CombineEvalSumSharesIncremental_owns, fold_session_releases, context_owns with cgo nocore]).
  all: try (solve [eauto using ThresholdSmokeCKKS_owns, ScoreCandidatesCKKS_owns, SmokeCKKS_owns, OpenFHEContextCount_owns,
    ReleaseOpenFHEGlobalContexts_owns, benchRotShareGen_owns, benchStreamedFullRot_owns, benchBOnlyRotShare_owns,
    benchResidentCombineRound1_owns, runBOnlyRotReconstruction_owns, runIncrementalCombineCheck_owns with nocore]).
  - unfold SingleKeyGen. own.
  - unfold SingleKeyGenWithEvalKey. own.
  - unfold EvalKeyRound1Lead. own.
  - unfold BFVEvalKeyRound1Lead. own.
  - unfold EvalKeyRound1Participant. own.
  - unfold BFVEvalKeyRound1Participant. own.
  - unfold EvalKeyRound2Participant. own.
  - unfold BFVEvalKeyRound2Participant. own.
  - unfold SplitRotShareAB. own.
  - unfold ReconstructRotShareAB. own.
  - unfold EvalMultCKKSForContract. own.
  - apply auctionServerIn_owns; [done|]. intros ctx cPk i G' Hc Hp. apply spec_wrap, deserializeCiphertext_owns. done.
  - apply auctionServerIn_owns; [done|]. intros ctx cPk i G' Hc Hp. apply spec_wrap, deserializeCiphertext_owns. done.
Qed.

(** ** The in-process argmin

    [leaves N G D m R]: as [spec], but a failing [m] may leave up to [N]
    ciphertexts that nobody frees. *)
Definition leaked (N : nat) (X : owned) : Prop := (length X <= N)%nat /\ Forall (fun o => o.2 = KCiphertext) X.
Definition leaves {A} (N : nat) G D (m : CM A) (R : A -> owned) : Prop := forall s F,
  holds D F s -> live G F ->
  match m s with
  | (Ok a, s') => holds (R a) F s'
  | (Err _, s') => exists X, holds X F s' /\ leaked N X
  | (Panic _, _) => False
  end.

Lemma leaves_spec {A} N G D (m : CM A) R : spec G D m R -> leaves N G D m R.
Proof.
  intros Hm s F H HG. specialize (Hm s F H HG). destruct (m s) as [[a|e|w] s1]; [done| |done].
  exists []. split; [by apply holds_nil|]. split; [simpl; lia|constructor].
Qed.
Lemma leaves_bind_returns {A B} N G D (m : CM A) (f : A -> CM B) R Q W :
  leaves N G D m R -> returns m W -> (forall a, W a -> leaves N G (R a) (f a) Q) -> leaves N G D (bind m f) Q.
Proof.
  intros Hm HW Hf s F H HG. unfold bind. specialize (Hm s F H HG).
  destruct (m s) as [[a|e|w] s1] eqn:E; [|done|done]. apply Hf; [by eapply HW|done|done].
Qed.
Lemma leaves_bind {A B} N G D (m : CM A) (f : A -> CM B) R Q :
  leaves N G D m R -> (forall a, leaves N G (R a) (f a) Q) -> leaves N G D (bind m f) Q.
Proof. intros Hm Hf. eapply leaves_bind_returns; [exact Hm|apply returns_any|by intros a _]. Qed.
Lemma leaves_defer {A} N G D' D cleanup (body : CM A) R :
  releases D' cleanup -> leaves N (D' ++ G) D body R -> leaves N G (D' ++ D) (deferring cleanup body) R.
Proof.
  intros Hc Hb s F H HG. apply holds_app in H as (Hnd & F2 & HD & Hl & HF). unfold deferring.
  assert (HG2 : live (D' ++ G) F2) by (apply live_app; split; [done|]; rewrite <- HF in HG; by eapply live_minus).
  specialize (Hb s F2 HD HG2). destruct (body s) as [[a|e|w] s1]; [| |done].
  - assert (Hh : holds (D' ++ R a) F s1) by (apply holds_app; eauto).
    destruct (Hc G (R a) s1 F Hh HG) as (s2 & -> & Hr). exact Hr.
  - destruct Hb as (X & HX & Hk). assert (Hh : holds (D' ++ X) F s1) by (apply holds_app; eauto).
    destruct (Hc G X s1 F Hh HG) as (s2 & -> & Hr). by exists X.
Qed.

(** The loop keeps what it has encrypted when an encryption fails. *)
Lemma encrypt_scores_leaves N ctx pk i scores G D :
  (ctx, KContext) ∈ G -> (pk, KPublicKey) ∈ G -> (length D + length scores <= S N)%nat -> Forall (fun o => o.2 = KCiphertext) D ->
  leaves N G D (encrypt_scores L ctx pk i scores) (fun hs => all_owned KCiphertext hs ++ D).
Proof.
  intros Hc Hp. revert i D. induction scores as [|x scores IH]; intros i D HN HD; simpl in *; [by apply leaves_spec, spec_ret'|].
  eapply (leaves_bind _ _ _ _ _ (fun h => (h, KCiphertext) :: D)).
  - intros s F H HG.
    pose proof (spec_frame G [] D _ _ s F (encryptScalar_owns L ctx pk x (bid_text "encrypt" i "] failed") (D ++ G)
                  ltac:(set_solver) ltac:(set_solver)) H HG) as Hs.
    destruct (encryptScalar _ _ _ _ _ s) as [[h|e|w] s1]; [exact Hs| |done]. exists D. split; [done|]. split; [lia|done].
  - intros h. eapply leaves_bind; [apply IH; [simpl; lia|by constructor]|]. intros hs. cbn beta.
    intros s F H _. cbn. rewrite Permutation_middle. exact H.
Qed.

Lemma decrypt_handles_owns ctx sk i masks best G :
  (ctx, KContext) ∈ G -> (sk, KSecretKey) ∈ G -> all_owned KCiphertext masks ⊆ G ->
  spec G [] (decrypt_handles L ctx sk i masks best) (fun _ => []).
Proof.
  intros Hc Hs. revert i best. induction masks as [|h masks IH]; intros i best Hm; [by apply spec_ret'|]. simpl.
  eapply spec_bind; [apply decrypt_slot_owns; [done|done|apply Hm; by left]|]. intros [v|]; [|apply spec_fail].
  eapply spec_bind; [apply IH; set_solver|]. intros r. by apply spec_ret'.
Qed.

Lemma encrypt_scores_length ctx pk i scores : returns (encrypt_scores L ctx pk i scores) (fun hs => length hs = length scores).
Proof.
  revert i. induction scores as [|x scores IH]; intros i s hs s' H; simpl in H; [by injection H as <- _|].
  apply bind_Ok_inv in H as (h & s1 & _ & (hs' & s2 & E & [= <- _])%bind_Ok_inv). simpl. f_equal. by eapply IH.
Qed.

Lemma SingleKeySoftArgmin_leaves scores degree G :
  leaves (length scores - 1) G [] (SingleKeySoftArgmin L scores degree) (fun _ => []).
Proof.
  unfold SingleKeySoftArgmin. destruct (length scores <? 2)%nat eqn:Hn; [apply leaves_spec, spec_throw|]. apply Nat.ltb_ge in Hn.
  cbn [fail_if]. rewrite ret_bind. unfold with_handle, with_keypair, with_handles.
  eapply leaves_bind; [apply leaves_spec, createContractContext_owns; reflexivity|]. intros ctx.
  apply (leaves_defer _ _ [(ctx, KContext)] []); [apply releases_free|].
  eapply leaves_bind; [apply leaves_spec, spec_new2; set_solver|]. intros [[pk sk]|]; [|apply leaves_spec, spec_fail].
  apply (leaves_defer _ _ [(pk, KPublicKey)] [(sk, KSecretKey)]); [apply releases_free|].
  apply (leaves_defer _ _ [(sk, KSecretKey)] []); [apply releases_free|].
  eapply leaves_bind; [apply leaves_spec, spec_check; set_solver|]. intros u.
  eapply leaves_bind_returns; [apply encrypt_scores_leaves; [in_env|in_env|simpl; lia|constructor]|apply encrypt_scores_length|].
  intros cts Hlen. cbn beta in *.
  apply leaves_defer; [apply releases_free_all|]. apply leaves_spec.
  eapply spec_bind; [apply evalArgmax_owns; [in_env|sub_env|lia|unfold sharp_coeffs; case_match; simpl; lia]|]. intros masks.
  rewrite <- (app_nil_r (all_owned KCiphertext masks)). apply (spec_defer _ [] (all_owned KCiphertext masks)); [apply releases_free_all|].
  apply decrypt_handles_owns; [in_env|in_env|sub_env].
Qed.

(** Every exported call, with the number of ciphertexts it may leave behind:
    none, but for the in-process argmin when an encryption fails. *)
Inductive exported : nat -> CM unit -> Prop :=
| exported_api m : api m -> exported 0 m
| exported_SingleKeySoftArgmin scores degree : exported (length scores - 1) (call (SingleKeySoftArgmin L scores degree)).

Lemma exported_leaves N m G : exported N m -> leaves N G [] m (fun _ => []).
Proof.
  intros [m' Hm|scores degree]; [by apply leaves_spec, api_owns|].
  eapply leaves_bind; [apply SingleKeySoftArgmin_leaves|]. intros a. by apply leaves_spec, spec_ret'.
Qed.

Lemma leaked_app N1 N2 X Y : leaked N1 X -> leaked N2 Y -> leaked (N1 + N2) (Y ++ X).
Proof. intros [H1 H2] [H3 H4]. split; [rewrite length_app; lia|by apply Forall_app]. Qed.

Lemma run_all_leaves Ns ms (s : CS) X F :
  Forall2 exported Ns ms -> holds X F s ->
  exists (s' : CS) Y, run_all ms s = (Ok tt, s') /\ holds (Y ++ X) F s' /\ leaked (sum_list Ns) Y.
Proof.
  intros Hms. revert s X. induction Hms as [|N m Ns ms Hm _ IH]; intros s X H.
  { exists s, []. split; [done|]. split; [done|]. split; [simpl; lia|constructor]. }
  pose proof (exported_leaves N m [] Hm s (kinds s) ltac:(by apply holds_nil) ltac:(by intros h k ?%elem_of_nil)) as Hl.
  assert (exists (s1 : CS) Z, ignoring m s = (Ok tt, s1) /\ holds Z (kinds s) s1 /\ leaked N Z) as (s1 & Z & E1 & HZ & Hk).
  { unfold ignoring. destruct (m s) as [[[]|e|w] s1]; [| |done].
    - exists s1, []. split; [done|]. split; [done|]. split; [simpl; lia|constructor].
    - destruct Hl as (Z & HZ & Hk). by exists s1, Z. }
  assert (holds (X ++ Z) F s1) as HX.
  { apply holds_app. destruct H as (Hn & Hl' & Hm'). split; [done|]. by exists (kinds s). }
  destruct (IH s1 _ HX) as (s2 & Y & E2 & H2 & HY). exists s2, (Y ++ Z). split_and!.
  - etrans; [apply (bind_Ok _ _ _ _ _ E1)|exact E2].
  - rewrite <- app_assoc. eapply holds_perm; [| reflexivity..|exact H2]. by rewrite (comm (++) Z X).
  - simpl. by apply leaked_app.
Qed.

End Api.

(** ** A library that answers from a script *)

Module Witnesses.
Import Scripted.

Definition params := zero_params.
Definition some : bytes := [Byte.x2a].

Lemma toy_chunks_fit : chunks_fit toy.
Proof.
  intros op vs ls text out lens n ls' H. cbn in H. destruct (answer ls). injection H as -> <- <- <- <- <-.
  split; [lia|]. by eexists.
Qed.

(** Key generation succeeds, a partial decryption fails half-way, a context is
    opened, used and closed, scores are compared in process. *)
Definition session : list (M (CState bytes Script) unit) :=
  [ call (DistributedKeyGenFirst toy params);
    call (PartialDecryptCKKSForContract toy params some some true);
    let! c := NewCryptoContext toy params in
    run_all (match c with Some ctx => [call (EvalKeyRound1LeadWithContext toy ctx some)] | None => [] end) ;;;
    call (Close c);
    call (SingleKeySoftArgmin toy [f1; f0] 1) ].


(** What the guards do not cover.  Without shares, the context-reusing
    combinations take the address of the first element of an empty slice. *)
Example CombineEvalKeyRound2WithContext_empty :
  exists w s', (let! ctx := createContractContext toy params in
                CombineEvalKeyRound2WithContext toy ctx some [] some) (start []) = (Panic w, s').
Proof. by do 2 eexists. Qed.
Example CombineEvalMultSwitchSharesWithContext_empty :
  exists w s', (let! ctx := createContractContext toy params in
                CombineEvalMultSwitchSharesWithContext toy ctx [] []) (start []) = (Panic w, s').
Proof. by do 2 eexists. Qed.
(** With more shares than public keys, C reads past the end of the keys. *)
Example CombineEvalMultSwitchSharesWithContext_short :
  exists s', (let! ctx := createContractContext toy params in
              CombineEvalMultSwitchSharesWithContext toy ctx [some] [some; some]) (start []) =
             (Panic "out-of-bounds read", s').
Proof. by eexists. Qed.
(** A slot count that is not positive panics before the decryption. *)
Example SingleKeyDecrypt_no_slots : exists w s', SingleKeyDecrypt toy params some some 0 (start []) = (Panic w, s').
Proof. by do 2 eexists. Qed.
(** The second encryption of the argmin fails: the first ciphertext leaks. *)
Example SingleKeySoftArgmin_leak :
  exists e s' v, SingleKeySoftArgmin toy [f1; f0] 1 (start [true; true; true; true; false]) = (Err e, s') /\
    map_to_list (heap s') = [(v, (KCiphertext, [Byte.x01]))].
Proof. do 3 eexists. split; vm_compute; reflexivity. Qed.
(** A fold finalized twice frees its accumulator twice. *)
Example Finalize_twice :
  exists w s', (let! f := NewEvalSumIncrementalFold toy params some in
                Finalize toy f ;;; Finalize toy f) (start []) = (Panic w, s').
Proof. by do 2 eexists. Qed.
End Witnesses.
