(* ===== verification/UnionSchedules.v ===== *)
(** * A union of comparators gives what each gives alone

    Whatever the number of workers and the schedule they follow, a union run of
    pkg/ares/crypto/cgo/bridge.go returns the chunks each comparator returns
    alone, each in its place.  One worker passes the evaluation keys with every
    fusion; several find them in the context, where they were inserted once, and
    pass none.  That both give the same is a property of the library, stated
    here as the class [FusionLaws]; the file shows that the Go code keeps to
    what it needs. *)
From Stdlib Require Import ZArith NArith Lia String Ascii.
From stdpp Require Import base gmap list strings.
From S2P Require Import Prelude Bytes.
From S2P Require Import GoFloat GoFmt.
From S2P Require Import CGo Bridge BridgeFold BridgeEval BridgeFuse BridgeUnion BridgeSafety.

(** ** What the library does with evaluation keys *)

(** The chunked fusions. *)
Inductive chunked_op : (FuseArgs -> COp) -> Prop :=
| op_plain : chunked_op C_ARESChunkedFusePayloadCKKS
| op_payload : chunked_op C_ARESChunkedFuseEncryptedPayloadCKKS
| op_inputs : chunked_op C_ARESChunkedFuseEncryptedInputsCKKS.

(** The arguments of a fusion with the keys [keys]. *)
Definition with_keys (keys : EvalKeyFinal) (a : FuseArgs) : FuseArgs := {|
  a_ringDim := a_ringDim a; a_scalingFactor := a_scalingFactor a; a_depth := a_depth a;
  a_initiator := a_initiator a; a_candidates := a_candidates a; a_candidateLens := a_candidateLens a;
  a_latQ := a_latQ a; a_lonQ := a_lonQ a; a_brownies := a_brownies a; a_n := a_n a; a_profileDim := a_profileDim a;
  a_initiatorLatQ := a_initiatorLatQ a; a_initiatorLonQ := a_initiatorLonQ a;
  a_alpha := a_alpha a; a_beta := a_beta a; a_gamma := a_gamma a;
  a_comparator := a_comparator a; a_degree := a_degree a; a_gain := a_gain a; a_scale := a_scale a;
  a_bound := a_bound a; a_schedule := a_schedule a;
  a_evalMult := optional (EvalMultFinal keys); a_evalSum := optional (EvalSumFinal keys);
  a_distances := a_distances a; a_distanceLens := a_distanceLens a; a_payload := a_payload a;
  a_payloadLens := a_payloadLens a; a_packages := a_packages a; a_packageBytes := a_packageBytes a;
  a_payloadSlots := a_payloadSlots a; a_minimal := a_minimal a |}.

Section Laws.
Context {V LS : Type} (L : CLib V LS).

(** Deserialize and insert both keys in a context of content [v]: the library's
    state after the four calls, if all succeed. *)
Definition registering (v : V) (keys : EvalKeyFinal) (ls : LS) : option LS :=
  match lib_new L (C_Deserialize KEvalMultKey (EvalMultFinal keys)) [v] ls with
  | (None, _) => None
  | (Some mult, ls1) =>
      match lib_status L C_InsertEvalMultKey [v; mult] ls1 with
      | (false, _) => None
      | (true, ls2) =>
          match lib_new L (C_Deserialize KRotKey (EvalSumFinal keys)) [v] ls2 with
          | (None, _) => None
          | (Some sum, ls3) =>
              match lib_status L C_InsertEvalSumKey [v; sum] ls3 with
              | (false, _) => None
              | (true, ls4) => Some ls4
              end
          end
      end
  end.
(** Keys that the library takes in every state and every context. *)
Definition accepted (keys : EvalKeyFinal) : Prop := forall v ls, is_Some (registering v keys ls).

(** A fusion evaluates on the keys registered for its context: it draws no
    randomness and keeps nothing; one that brings keys registers them first. *)
Class FusionLaws := {
  Registered : Type;
  registered : LS -> Registered;
  fusion_keyless : forall op a v ls1 ls2, chunked_op op -> registered ls1 = registered ls2 ->
    (lib_fuse L (op (with_keys no_keys a)) [v] ls1).1 = (lib_fuse L (op (with_keys no_keys a)) [v] ls2).1;
  fusion_keeps : forall op a v ls, chunked_op op ->
    registered (lib_fuse L (op (with_keys no_keys a)) [v] ls).2 = registered ls;
  fusion_keyed : forall op a v keys ls ls1 ls2, chunked_op op -> registering v keys ls1 = Some ls2 ->
    (lib_fuse L (op (with_keys keys a)) [v] ls).1 = (lib_fuse L (op (with_keys no_keys a)) [v] ls2).1
}.
End Laws.

(** ** Programs that answer alike

    [answers P m r]: on the context [ctx], in the library states of [P], [m] ends
    with [r], puts the heap back and stays in [P].  [agree P m1 Q m2]: [m1] in
    the states of [P] and [m2] in those of [Q] end with the same. *)
Section Agree.
Context {V LS : Type} (L : CLib V LS) (ctx : handle) (v : V).
Notation CS := (CState V LS).
Notation CM := (M CS).

Definition answers {A} (P : LS -> Prop) (m : CM A) (r : GoError + A) : Prop :=
  forall s, heap s !! ctx = Some (KContext, v) -> P (lib_state s) ->
  exists s', m s = (answered r, s') /\ heap s' = heap s /\ P (lib_state s').
Definition agree {A} (P : LS -> Prop) (m1 : CM A) (Q : LS -> Prop) (m2 : CM A) : Prop :=
  exists r, answers P m1 r /\ answers Q m2 r.
Context (P Q : LS -> Prop).

Lemma answers_bind {A B} R (m : CM A) (k : A -> CM B) r q :
  answers R m r -> (forall a, r = inr a -> answers R (k a) q) -> (forall e, r = inl e -> q = inl e) -> answers R (bind m k) q.
Proof.
  intros Hm Hk He s Hs HR. destruct (Hm s Hs HR) as (s1 & E & Hh & HR1). unfold bind. rewrite E.
  destruct r as [e|a]; simpl; [rewrite (He e eq_refl); by exists s1|].
  destruct (Hk a eq_refl s1) as (s2 & E2 & Hh2 & HR2); [congruence|done|]. exists s2. split; [done|]. split; [congruence|done].
Qed.

Lemma agree_bind {A B} (m1 m2 : CM A) (k1 k2 : A -> CM B) :
  agree P m1 Q m2 -> (forall a, agree P (k1 a) Q (k2 a)) -> agree P (bind m1 k1) Q (bind m2 k2).
Proof.
  intros ([e|a] & H1 & H2) Hk.
  - exists (inl e). split; eapply answers_bind; try done; by intros ? [= <-].
  - destruct (Hk a) as (q & K1 & K2). exists q. split; eapply answers_bind; try done; by intros ? [= <-].
Qed.

Lemma agree_ret {A} (a : A) : agree P (ret a) Q (ret a).
Proof. exists (inr a). split; intros s Hs HR; by exists s. Qed.
Lemma agree_throw {A} e : agree P (throw e : CM A) Q (throw e).
Proof. exists (inl e). split; intros s Hs HR; by exists s. Qed.
Lemma agree_of_sum {A} (r : GoError + A) : agree P (of_sum r) Q (of_sum r).
Proof. destruct r; [apply agree_throw|apply agree_ret]. Qed.
Lemma agree_guard {A} b1 b2 msg (k1 k2 : unit -> CM A) :
  b1 = b2 -> (b1 = false -> agree P (k1 tt) Q (k2 tt)) -> agree P (bind (fail_if b1 msg) k1) Q (bind (fail_if b2 msg) k2).
Proof. intros <- Hk. destruct b1; [exact (agree_throw _)|by apply Hk]. Qed.
Lemma agree_first {X A} (l : list X) (k1 k2 : unit -> CM A) :
  (0 < length l)%nat -> agree P (k1 tt) Q (k2 tt) -> agree P (bind (first_element l) k1) Q (bind (first_element l) k2).
Proof. intros Hl Hk. destruct l; simpl in Hl; [lia|done]. Qed.

(** A buffer made, used and freed. *)
Lemma answers_string {A} R text (rest : handle -> CM A) r :
  (forall h, answers R (rest h) r) -> answers R (with_handle KBuffer (c_string L text) rest) r.
Proof.
  intros Hr s Hs HR. unfold with_handle, c_string, alloc, bind. set (h := fresh (dom (heap s))).
  assert (heap s !! h = None) as Hn by (apply not_elem_of_dom, is_fresh).
  assert (h <> ctx) as Hne by congruence.
  edestruct (Hr h (set_heap (<[h := (KBuffer, cstring L text)]> (heap s)) s)) as (s1 & E & Hh & HR1);
    [simpl; by rewrite lookup_insert_ne|done|].
  unfold deferring. rewrite E. unfold free, lookup_kind. cbn [fst snd]. rewrite Hh. simpl. rewrite lookup_insert_eq. simpl.
  eexists. split; [done|]. split; [|done]. simpl. by rewrite delete_insert_id.
Qed.
Lemma agree_strings {A} req1 req2 (rest1 rest2 : CM A) :
  agree P rest1 Q rest2 -> agree P (with_strings L req1 rest1) Q (with_strings L req2 rest2).
Proof. intros (r & H1 & H2). exists r. split; by do 2 (apply answers_string; intros ?). Qed.

(** What the reader of a fusion's output gives, a function of the output. *)
Definition reads {A} (read : option handle * list Z * Z -> CM A) (lens : list Z) (n : Z) (out : option V) (r : GoError + A) : Prop :=
  forall s, match out with
            | None => read (None, lens, n) s = (answered r, s)
            | Some b => forall h, heap s !! h = Some (KBuffer, b) -> read (Some h, lens, n) s = (answered r, s)
            end.

Lemma answers_fuse {A} R op what (read : option handle * list Z * Z -> CM A) ok text out lens n r :
  (forall ls, R ls -> (lib_fuse L op [v] ls).1 = (ok, text, out, lens, n) /\ R (lib_fuse L op [v] ls).2) ->
  (if ok : bool then reads read lens n out r else r = inl (Errorf [T what; T ": "%string; T text])) ->
  answers R (let! r := c_fuse L op [(ctx, KContext)] what in deferring (free_opt KBuffer r.1.1) (read r)) r.
Proof.
  intros Hf Hr s Hs HR. destruct (Hf _ HR) as [E HR'].
  assert (fetch [(ctx, KContext)] s = (Ok [v], s)) as Hv by (unfold fetch, lookup_kind; simpl; by rewrite Hs).
  unfold bind, c_fuse, c_call, bind. rewrite Hv.
  destruct (lib_fuse L op [v] (lib_state s)) as [res ls']. cbn [fst snd] in E, HR'. subst res.
  destruct ok; [|subst r; by exists (set_lib ls' s)].
  destruct out as [b|]; unfold deferring, alloc, ret; cbn [fst snd free_opt heap set_lib].
  2:{ rewrite Hr. by exists (set_lib ls' s). }
  set (h := fresh (dom (heap s))). assert (heap s !! h = None) as Hn by (apply not_elem_of_dom, is_fresh).
  rewrite (Hr _ h) by apply lookup_insert_eq. unfold free, lookup_kind. cbn [fst snd heap set_heap]. rewrite lookup_insert_eq.
  cbn. eexists. split; [done|]. split; [|done]. by rewrite delete_insert_id.
Qed.

(** Every output of a fusion is read. *)
Lemma copy_content h b s : heap s !! h = Some (KBuffer, b) -> copyCBytes L (Some h) s = (Ok (buffer_bytes L b), s).
Proof. intros Hb. unfold copyCBytes, bind, fetch, lookup_kind. simpl. by rewrite Hb. Qed.

Lemma reads_chunks lens n out :
  (0 <= n)%Z -> is_Some (cut (match out with Some b => buffer_bytes L b | None => [] end) lens (Z.to_nat n)) ->
  exists r, reads (read_chunks L) lens n out r.
Proof.
  intros Hn [chunks E]. unfold reads, read_chunks. destruct (256 <? n)%Z.
  { eexists (inl _). intros s. by destruct out. }
  exists (inr chunks). intros s. destruct out as [b|]; [intros h Hb|]; unfold bind.
  - by rewrite (copy_content _ _ _ Hb), (proj2 (Z.ltb_ge n 0)), E by lia.
  - cbn. by rewrite (proj2 (Z.ltb_ge n 0)), E by lia.
Qed.
Lemma reads_checked what input expected lens n out : exists r, reads (read_checked L what input expected) lens n out r.
Proof.
  unfold reads, read_checked. destruct out as [b|]; [|by eexists (inl _)].
  destruct (negb (n =? expected)%Z); [by eexists (inl _)|].
  destruct (cut_checked (buffer_bytes L b) lens 0 (Z.to_nat n)) as [[c|]|chunks] eqn:E;
    [eexists (inl _)|eexists (inl _)|exists (inr chunks)];
    intros s h Hb; unfold bind; rewrite (copy_content _ _ _ Hb), E; reflexivity.
Qed.

Definition readable {A} (read : option handle * list Z * Z -> CM A) : Prop :=
  forall op vs ls text out lens n ls', lib_fuse L op vs ls = (true, text, out, lens, n, ls') -> exists r, reads read lens n out r.

(** ** Fusions with keys and without

    The keys passed with a fusion, in the states of [P], do what the keys found
    in the context do in those of [Q]. *)
Definition same_answers (keys : EvalKeyFinal) : Prop := forall op a, chunked_op op -> exists res,
  (forall ls, P ls -> (lib_fuse L (op (with_keys keys a)) [v] ls).1 = res /\ P (lib_fuse L (op (with_keys keys a)) [v] ls).2) /\
  (forall ls, Q ls -> (lib_fuse L (op (with_keys no_keys a)) [v] ls).1 = res /\ Q (lib_fuse L (op (with_keys no_keys a)) [v] ls).2).

Lemma agree_fuse {A} keys op a what (read : option handle * list Z * Z -> CM A) ls0 :
  same_answers keys -> chunked_op op -> readable read -> P ls0 ->
  agree P (let! r := c_fuse L (op (with_keys keys a)) [(ctx, KContext)] what in deferring (free_opt KBuffer r.1.1) (read r))
        Q (let! r := c_fuse L (op (with_keys no_keys a)) [(ctx, KContext)] what in deferring (free_opt KBuffer r.1.1) (read r)).
Proof.
  intros Hsame Hop Hr H0. destruct (Hsame op a Hop) as ([[[[ok text] out] lens] n] & H1 & H2).
  destruct ok.
  - destruct (H1 _ H0) as [E _].
    destruct (lib_fuse L (op (with_keys keys a)) [v] ls0) as [res ls'] eqn:El. cbn [fst] in E. subst res.
    destruct (Hr _ _ _ _ _ _ _ _ El) as [r Hrd]. exists r. split; by eapply answers_fuse.
  - eexists (inl _). split; by eapply answers_fuse.
Qed.
End Agree.

Lemma fuse_args_keys ring scaling depth req packages distances payload keys :
  fuse_args ring scaling depth (set_EvalKeys keys req) packages distances payload =
  with_keys keys (fuse_args ring scaling depth req packages distances payload).
Proof. reflexivity. Qed.
Lemma set_own_keys req : set_EvalKeys (EvalKeys req) req = req.
Proof. by destruct req. Qed.

(** Both keys, or none. *)
Definition keys_present (keys : EvalKeyFinal) : Prop := EvalMultFinal keys <> [] /\ EvalSumFinal keys <> [].

Section Fusions.
Context {V LS : Type} (L : CLib V LS) (ctx : handle) (v : V) (P Q : LS -> Prop) (keys : EvalKeyFinal) (ls0 : LS).
Notation CS := (CState V LS).
Notation CM := (M CS).
Hypothesis Hkeys : keys_present keys.
Hypothesis Hsame : same_answers L v P Q keys.
Hypothesis HP : P ls0.
Notation agrees m1 m2 := (agree ctx v P m1 Q m2).

Lemma check_plain_context_cases req :
  (exists e, forall s : CS, check_plain_context req s = (Err e, s)) \/
  (plain_ready req /\ forall s : CS, check_plain_context req s = (Ok tt, s)).
Proof.
  unfold check_plain_context, plain_ready, bind, fail_if.
  destruct (is_empty (CandidateCiphertexts req)) eqn:H1, (is_empty (InitiatorCiphertext req)) eqn:H2; simpl; try (left; by eexists).
  destruct (counts_match req); simpl; [|left; by eexists].
  destruct (is_empty (EvalMultFinal (EvalKeys req)) && negb (is_empty (EvalSumFinal (EvalKeys req)))); [left; by eexists|].
  destruct (Z.leb_spec (PackageBytes req) 0); simpl; [left; by eexists|].
  destruct (PayloadSlotCount_ req <=? 0)%Z; [left; by eexists|]. right. apply is_empty_false in H1, H2. split_and!; done.
Qed.

Lemma check_plain_context_keys req :
  check_plain_context (set_EvalKeys keys req) = (check_plain_context (set_EvalKeys no_keys req) : CM unit).
Proof. destruct keys as [[|] [|]], Hkeys; done. Qed.

Lemma chunked_plain_agrees req :
  chunks_fit L -> has_candidate_bytes req ->
  agrees (ChunkedFusePayloadCKKSWithContext L (Some ctx) (set_EvalKeys keys req))
         (ChunkedFusePayloadCKKSWithContext L (Some ctx) (set_EvalKeys no_keys req)).
Proof.
  intros Hfit Hb. apply agree_guard; [done|]. intros _. rewrite check_plain_context_keys.
  destruct (check_plain_context_cases (set_EvalKeys no_keys req)) as [[e He]|[(Hi & Hc & Hm & Hp) Hok]].
  { exists (inl e). split; intros s Hs HR; exists s; unfold bind; by rewrite He. }
  apply agree_bind; [exists (inr tt); split; intros s Hs HR; exists s; by rewrite Hok|]. intros u.
  apply counts_match_true in Hm as (H1 & H2 & H3 & H4). unfold plain_fusion.
  change (CandidatePackages (set_EvalKeys keys req)) with (CandidatePackages req).
  change (CandidatePackages (set_EvalKeys no_keys req)) with (CandidatePackages req).
  destruct (flattenCandidatePackages _ _) as [e|packages] eqn:E; [apply agree_throw|].
  apply flatten_packages_length in E. cbn [of_sum]. rewrite !ret_bind. apply agree_strings.
  apply agree_bind.
  { unfold plain_pointers. unfold has_candidate_bytes in Hb.
    cbn [CandidatePackages InitiatorCiphertext CandidateCiphertexts CandidateLatQ CandidateLonQ CandidateBrownies PackageBytes set_EvalKeys] in *.
    do 5 (apply agree_first; [nia|]). destruct packages; [simpl in E; nia|]. apply agree_ret. }
  intros _. rewrite !fuse_args_keys. apply (agree_fuse L ctx v P Q keys _ _ _ _ ls0); [done|constructor| |done].
  intros op vs ls text out lens n ls' El. destruct (Hfit _ _ _ _ _ _ _ _ El). by apply reads_chunks.
Qed.

Lemma agree_locate (req : FullFuseRequest) (coordinates : bool) (distances : bytes * list Z) (k1 k2 : unit -> CM (list bytes)) :
  (if coordinates then (0 < length (CandidateLatQ req))%nat /\ (0 < length (CandidateLonQ req))%nat
   else (0 < length distances.1)%nat /\ (0 < length distances.2)%nat) ->
  agrees (k1 tt) (k2 tt) ->
  agrees (bind (if coordinates then first_element (CandidateLatQ req) ;;; first_element (CandidateLonQ req)
                else first_element distances.1 ;;; first_element distances.2) k1)
         (bind (if coordinates then first_element (CandidateLatQ req) ;;; first_element (CandidateLonQ req)
                else first_element distances.1 ;;; first_element distances.2) k2).
Proof.
  intros H Hk. assert (forall X Y (l : list X) (l' : list Y) (k : unit -> CM (list bytes)), (0 < length l)%nat -> (0 < length l')%nat ->
    bind (first_element l ;;; first_element l') k = k tt) as Hf.
  { intros X Y [|] [|]; simpl; intros k ? ?; try lia. reflexivity. }
  destruct coordinates, H as [H1 H2]; by rewrite !Hf.
Qed.

Lemma encrypted_agrees op what input params req expected distances payload (coordinates : bool) :
  chunked_op op ->
  (0 < length (InitiatorCiphertext req))%nat -> (0 < length (CandidateCiphertexts req))%nat ->
  (0 < length (CandidateBrownies req))%nat -> (0 < length payload.1)%nat -> (0 < length payload.2)%nat ->
  (if coordinates then (0 < length (CandidateLatQ req))%nat /\ (0 < length (CandidateLonQ req))%nat
   else (0 < length distances.1)%nat /\ (0 < length distances.2)%nat) ->
  agrees (encrypted_fusion L op what input (Some ctx) params (set_EvalKeys keys req) expected distances payload coordinates)
         (encrypted_fusion L op what input (Some ctx) params (set_EvalKeys no_keys req) expected distances payload coordinates).
Proof.
  intros Hop H1 H2 H3 H4 H5 H6. unfold encrypted_fusion.
  cbn [InitiatorCiphertext CandidateCiphertexts CandidateBrownies CandidateLatQ CandidateLonQ set_EvalKeys].
  destruct (first_empty 0 (CandidateCiphertexts req)) as [i|] eqn:E; [apply agree_throw|].
  apply first_empty_None in E. pose proof (concat_positive _ H2 E) as Hb.
  apply agree_strings. do 2 (apply agree_first; [done|]). apply agree_locate; [done|].
  do 3 (apply agree_first; [done|]). cbn [context_args context_owned opt_owned]. rewrite !fuse_args_keys.
  apply (agree_fuse L ctx v P Q keys _ _ _ _ ls0); [done|done| |done].
  intros op' vs ls text out lens n ls' _. apply reads_checked.
Qed.

Lemma flattened_keys req :
  flattenEncryptedPayloadCiphertexts (set_EvalKeys keys req) false = flattenEncryptedPayloadCiphertexts (set_EvalKeys no_keys req) false.
Proof. destruct keys as [[|] [|]], Hkeys; try done; reflexivity. Qed.

Lemma agree_flattened {A} req (k1 k2 : nat * Z * bytes * list Z -> CM A) :
  is_Some (next_pow2_int (ProfileDim_ req)) ->
  (forall n nChunks blob lens, payload_ready req n nChunks blob lens -> agrees (k1 (n, nChunks, blob, lens)) (k2 (n, nChunks, blob, lens))) ->
  agrees (bind (flattened (set_EvalKeys keys req) false) k1) (bind (flattened (set_EvalKeys no_keys req) false) k2).
Proof.
  intros [c Hc] Hk. unfold flattened. rewrite flattened_keys.
  destruct (flattenEncryptedPayloadCiphertexts (set_EvalKeys no_keys req) false) as [[e|[[[n nChunks] blob] lens]]|] eqn:E.
  - apply agree_throw.
  - cbn [of_sum]. rewrite !ret_bind. apply Hk. apply flattened_ready in E. exact E.
  - exfalso. unfold flattenEncryptedPayloadCiphertexts in E. cbn [ProfileDim_ set_EvalKeys] in E. rewrite Hc in E.
    repeat match goal with E : (if ?b then _ else _) = None |- _ => destruct b; [done|] end. done.
Qed.

Lemma chunked_payload_agrees req :
  is_Some (next_pow2_int (ProfileDim_ req)) ->
  agrees (ChunkedFuseEncryptedPayloadCKKSWithContext L (Some ctx) (set_EvalKeys keys req))
         (ChunkedFuseEncryptedPayloadCKKSWithContext L (Some ctx) (set_EvalKeys no_keys req)).
Proof.
  intros Hp. apply agree_guard; [done|]. intros Hd%negb_false_iff. apply agree_flattened; [done|].
  intros n nChunks blob lens (H1 & -> & H2 & H3 & _ & H4 & H5 & H6).
  change (CandidateDistanceCiphertexts (set_EvalKeys keys req)) with (CandidateDistanceCiphertexts req) in Hd.
  destruct (CandidateDistanceCiphertexts req); [|done]. destruct (H6 eq_refl).
  apply encrypted_agrees; simpl; try constructor; auto; lia.
Qed.

Lemma chunked_inputs_agrees req :
  is_Some (next_pow2_int (ProfileDim_ req)) ->
  agrees (chunkedFuseEncryptedInputsCKKS L (Some ctx) zero_params (set_EvalKeys keys req))
         (chunkedFuseEncryptedInputsCKKS L (Some ctx) zero_params (set_EvalKeys no_keys req)).
Proof.
  intros Hp. apply agree_flattened; [done|]. intros n nChunks blob lens (H1 & -> & H2 & H3 & _ & H4 & H5 & _).
  change (flattenEncryptedDistanceCiphertexts (set_EvalKeys ?k req)) with (flattenEncryptedDistanceCiphertexts req).
  destruct (flattenEncryptedDistanceCiphertexts req _) as [e|[db dl]] eqn:E; [apply agree_throw|].
  cbn [of_sum]. rewrite !ret_bind. destruct (flattenEncryptedDistanceCiphertexts_inr _ _ _ _ E H2).
  apply encrypted_agrees; simpl; try constructor; auto; lia.
Qed.
End Fusions.

(** ** Runs *)

Section Runs.
Context {V LS : Type} (L : CLib V LS).
Notation CS := (CState V LS).
Notation CM := (M CS).
Notation union_fusion := (option handle -> FullFuseRequest -> bool -> UnionComparator -> CM (list bytes)).

(** The fusions of the three entry points, with what each needs not to panic. *)
Inductive union_fuse (req : FullFuseRequest) : union_fusion -> Prop :=
| fuse_packages : chunks_fit L -> has_candidate_bytes req -> union_fuse req (chunkedUnionComparatorWithContext L)
| fuse_payloads : is_Some (next_pow2_int (ProfileDim_ req)) -> union_fuse req (chunkedEncryptedUnionComparatorWithContext L)
| fuse_inputs : is_Some (next_pow2_int (ProfileDim_ req)) -> union_fuse req (chunkedEncryptedInputUnionComparatorWithContext L).

Lemma union_fuse_agrees req fuse ctx v P Q ls0 comp :
  union_fuse req fuse -> keys_present (EvalKeys req) -> same_answers L v P Q (EvalKeys req) -> P ls0 ->
  agree ctx v P (fuse (Some ctx) req false comp) Q (fuse (Some ctx) req true comp).
Proof.
  intros Hf Hk Hs HP. destruct Hf as [Hfit Hb|Hp|Hp].
  - exact (chunked_plain_agrees L ctx v P Q _ ls0 Hk Hs HP (unionComparatorRequest req comp true) Hfit Hb).
  - exact (chunked_payload_agrees L ctx v P Q _ ls0 Hk Hs HP (unionComparatorRequest req comp true) Hp).
  - exact (chunked_inputs_agrees L ctx v P Q _ ls0 Hk Hs HP
             (fullFuseRequest (encryptedInputFuseRequestFromFull (unionComparatorRequest req comp true))) Hp).
Qed.

(** A new object, used and freed. *)
Lemma acquire_run {A} k (m : CM handle) (body : handle -> CM A) s h x s1 a s2 :
  m s = (Ok h, s1) -> heap s !! h = None -> heap s1 = <[h := (k, x)]> (heap s) ->
  body h s1 = (Ok a, s2) -> heap s2 = heap s1 ->
  exists s', with_handle k m body s = (Ok a, s') /\ heap s' = heap s /\ lib_state s' = lib_state s2.
Proof.
  intros Hm Hn H1 Hb H2. unfold with_handle. rewrite (bind_Ok _ _ _ _ _ Hm). unfold deferring. rewrite Hb.
  unfold free, lookup_kind. cbn [fst snd]. rewrite H2, H1, lookup_insert_eq. rewrite decide_True by done.
  eexists. split; [done|]. split; [|done]. simpl. by rewrite delete_insert_id.
Qed.

Section Keys.
Context (ctx : handle) (v : V).

Lemma must_new k op msg s x ls1 :
  heap s !! ctx = Some (KContext, v) -> lib_new L op [v] (lib_state s) = (Some x, ls1) ->
  exists h, heap s !! h = None /\
    c_must L k op [(ctx, KContext)] msg s = (Ok h, {| heap := <[h := (k, x)]> (heap s); lib_state := ls1 |}).
Proof.
  intros Hc E. exists (fresh (dom (heap s))). split; [apply not_elem_of_dom, is_fresh|].
  assert (fetch [(ctx, KContext)] s = (Ok [v], s)) as Hv by (unfold fetch, lookup_kind; simpl; by rewrite Hc).
  unfold c_must, c_new, c_call, bind. rewrite Hv, E. reflexivity.
Qed.

Lemma check_status op k h x msg s ls1 :
  heap s !! ctx = Some (KContext, v) -> heap s !! h = Some (k, x) ->
  lib_status L op [v; x] (lib_state s) = (true, ls1) ->
  c_check L op [(ctx, KContext); (h, k)] msg s = (Ok tt, set_lib ls1 s).
Proof.
  intros Hc Hh E.
  assert (fetch [(ctx, KContext); (h, k)] s = (Ok [v; x], s)) as Hv.
  { unfold fetch, lookup_kind. simpl. rewrite Hc, Hh. simpl. by rewrite decide_True. }
  unfold c_check, c_status, c_call, bind. rewrite Hv, E. reflexivity.
Qed.

Lemma insert_run keys s ls' :
  keys_present keys -> heap s !! ctx = Some (KContext, v) -> registering L v keys (lib_state s) = Some ls' ->
  exists s', insertUnionEvalKeys L ctx keys s = (Ok tt, s') /\ heap s' = heap s /\ lib_state s' = ls'.
Proof.
  intros [Hk1 Hk2] Hc Hr. unfold insertUnionEvalKeys. unfold deserializeEvalMultKey, deserializeRotKey.
  assert (is_empty (EvalMultFinal keys) = false) as -> by (by destruct (EvalMultFinal keys)).
  assert (is_empty (EvalSumFinal keys) = false) as -> by (by destruct (EvalSumFinal keys)). cbn [orb fail_if].
  rewrite !ret_bind. unfold registering in Hr.
  destruct (lib_new L (C_Deserialize KEvalMultKey _) [v] _) as [[mult|] ls1] eqn:E1; [|done].
  destruct (lib_status L C_InsertEvalMultKey [v; mult] ls1) as [[|] ls2] eqn:E2; [|done].
  destruct (lib_new L (C_Deserialize KRotKey _) [v] ls2) as [[sum|] ls3] eqn:E3; [|done].
  destruct (lib_status L C_InsertEvalSumKey [v; sum] ls3) as [[|] ls4] eqn:E4; [|done]. injection Hr as <-.
  destruct (must_new KEvalMultKey _ "eval-mult key deserialization failed" s _ _ Hc E1) as (h1 & Hn1 & M1).
  set (s1 := {| heap := <[h1 := (KEvalMultKey, mult)]> (heap s); lib_state := ls1 |}) in *.
  assert (heap s1 !! ctx = Some (KContext, v)) as Hc1 by (unfold s1; simpl; rewrite lookup_insert_ne by congruence; done).
  assert (heap s1 !! h1 = Some (KEvalMultKey, mult)) as Hh1 by apply lookup_insert_eq.
  set (s2 := set_lib ls2 s1).
  destruct (must_new KRotKey _ "eval-sum key deserialization failed" s2 _ _ Hc1 E3) as (h3 & Hn3 & M3).
  set (s3 := {| heap := <[h3 := (KRotKey, sum)]> (heap s2); lib_state := ls3 |}) in *.
  assert (heap s3 !! ctx = Some (KContext, v)) as Hc3 by (unfold s3; simpl in *; rewrite lookup_insert_ne by congruence; done).
  assert (heap s3 !! h3 = Some (KRotKey, sum)) as Hh3 by apply lookup_insert_eq.
  edestruct (acquire_run KRotKey (wrap_err (fun e => Errorf [T "deserialize eval-sum key: "; W e])
      (c_must L KRotKey (C_Deserialize KRotKey (EvalSumFinal keys)) [(ctx, KContext)] "eval-sum key deserialization failed"))
      (fun sumKey => c_check L C_InsertEvalSumKey [(ctx, KContext); (sumKey, KRotKey)] "insert eval-sum key failed")
      s2 h3 sum s3 tt) as (s4 & R3 & H3 & L3).
  { unfold wrap_err. by rewrite M3. }
  { done. }
  { done. }
  { by apply (check_status _ _ _ sum). }
  { done. }
  match type of R3 with ?m _ = _ => set (ins := m) in * end.
  destruct (acquire_run KEvalMultKey (wrap_err (fun e => Errorf [T "deserialize eval-mult key: "; W e])
      (c_must L KEvalMultKey (C_Deserialize KEvalMultKey (EvalMultFinal keys)) [(ctx, KContext)] "eval-mult key deserialization failed"))
      (fun multKey => c_check L C_InsertEvalMultKey [(ctx, KContext); (multKey, KEvalMultKey)] "insert eval-mult key failed" ;;; ins)
      s h1 mult s1 tt s4) as (s5 & R1 & H1 & L1).
  { unfold wrap_err. by rewrite M1. }
  { done. }
  { done. }
  { rewrite (bind_Ok _ _ _ _ _ (check_status _ _ _ mult _ _ _ Hc1 Hh1 E2)). exact R3. }
  { exact H3. }
  exists s5. split; [exact R1|]. split; [done|]. by rewrite L1, L3.
Qed.
End Keys.

Lemma must_Ok k op hs msg s h s1 : c_must L k op hs msg s = (Ok h, s1) -> exists x, heap s1 !! h = Some (k, x).
Proof.
  intros H. unfold c_must in H. apply bind_Ok_inv in H as (r & s2 & H & Hr). destruct r as [h'|]; [|done]. injection Hr as <- <-.
  unfold c_new in H. apply bind_Ok_inv in H as (x & s3 & _ & H). destruct x as [x|]; [|done].
  apply bind_Ok_inv in H as (h2 & s4 & Ha & [= <- <-]). injection Ha as <- <-. exists x. apply lookup_insert_eq.
Qed.

Lemma status_heap op hs s b s1 : c_status L op hs s = (Ok b, s1) -> heap s1 = heap s.
Proof.
  intros H. unfold c_status, c_call in H. apply bind_Ok_inv in H as (vs & s2 & Hf & H).
  unfold fetch in Hf. destruct (mapM _ hs); [|done]. injection Hf as _ <-. destruct (lib_status _ _ _ _). by injection H as _ <-.
Qed.

Lemma context_content params s ctx s1 :
  createContractContext L params s = (Ok ctx, s1) -> exists v, heap s1 !! ctx = Some (KContext, v).
Proof.
  unfold createContractContext. destruct (batch_size params) as [bs|]; [|done]. intros H.
  apply bind_Ok_inv in H as (h & s2 & H & H'). apply must_Ok in H as [v Hv]. exists v.
  apply bind_Ok_inv in H' as (b & s3 & Hs & [= <- <-]).
  destruct (MinimalRotationKeys params); [by rewrite (status_heap _ _ _ _ _ Hs)|].
  destruct (EvalSumOnlyRotationKeys params); [by rewrite (status_heap _ _ _ _ _ Hs)|]. by injection Hs as _ <-.
Qed.

Lemma deferring_free {A} k h x (m : CM A) s o s1 :
  m s = (o, s1) -> heap s1 !! h = Some (k, x) -> (deferring (free k h) m s).1 = o.
Proof.
  intros Hm Hh. unfold deferring, free, lookup_kind. rewrite Hm. cbn [fst snd]. by rewrite Hh, decide_True.
Qed.

(** One comparator, with the keys, on a context of its own. *)
Definition alone (fuse : union_fusion) (params : ContractParams) (req : FullFuseRequest) (comp : UnionComparator) : CM (list bytes) :=
  with_handle KContext (createContractContext L params) (fun ctx => fuse (Some ctx) req false comp).

Definition answer_of (o : Outcome (list bytes)) : GoError + list bytes :=
  match o with Ok c => inr c | Err e => inl e | Panic _ => inl (Errorf []) end.

Lemma reported_all answer comparators cs :
  reported answer <$> comparators = inr <$> cs <-> Forall2 (fun comp c => answer comp = inr c) comparators cs.
Proof.
  revert cs. induction comparators as [|comp comparators IH]; intros cs.
  - destruct cs; (split; [|by inversion 1]); [constructor|done].
  - destruct cs as [|c cs]; [split; [done|by inversion 1]|]. cbn [fmap list_fmap]. unfold reported at 1.
    rewrite Forall2_cons, <- IH. destruct (answer comp); split; try (by intros [= -> ->]); try done.
    + by intros [? _].
    + by intros [[= ->] ->].
Qed.

Context {laws : FusionLaws L}.

Lemma laws_same_answers v keys ls1 ls2 :
  registering L v keys ls1 = Some ls2 ->
  same_answers L v (fun _ => True) (fun ls => registered L ls = registered L ls2) keys.
Proof.
  intros Hr op a Hop. exists (lib_fuse L (op (with_keys no_keys a)) [v] ls2).1. split.
  - intros ls _. split; [by eapply (fusion_keyed L)|done].
  - intros ls E. split; [by apply (fusion_keyless L)|]. by rewrite (fusion_keeps L).
Qed.

(** On a context, and once the keys are inserted when the fusions expect so,
    every fusion gives what it gives with the keys. *)
Lemma fusions_answer req fuse ctx v s1 (pre : bool) :
  union_fuse req fuse -> keys_present (EvalKeys req) -> accepted L (EvalKeys req) -> heap s1 !! ctx = Some (KContext, v) ->
  exists I : CS -> Prop,
    (forall comp s, I s -> exists s', fuse (Some ctx) req pre comp s =
       (answered (answer_of (fuse (Some ctx) req false comp s1).1), s') /\ I s') /\
    (forall s, I s -> heap s = heap s1) /\
    (exists s2, (if pre then insertUnionEvalKeys L ctx (EvalKeys req) else ret tt) s1 = (Ok tt, s2) /\ I s2).
Proof.
  intros Hf Hk Hacc Hc. destruct (Hacc v (lib_state s1)) as [ls2 Hr].
  pose proof (fun comp => union_fuse_agrees req fuse ctx v _ _ (lib_state s1) comp Hf Hk (laws_same_answers _ _ _ _ Hr) Logic.I) as Ha.
  assert (forall comp, exists r, answer_of (fuse (Some ctx) req false comp s1).1 = r /\
    answers ctx v (fun _ => True) (fuse (Some ctx) req false comp) r /\
    answers ctx v (fun ls => registered L ls = registered L ls2) (fuse (Some ctx) req true comp) r) as Hans.
  { intros comp. destruct (Ha comp) as (r & H1 & H2). exists r. split; [|done].
    destruct (H1 s1 Hc Logic.I) as (s' & -> & _). by destruct r. }
  exists (fun s => heap s = heap s1 /\ if pre then registered L (lib_state s) = registered L ls2 else True). split_and!.
  - intros comp s [Hh HQ]. destruct (Hans comp) as (r & -> & H1 & H2). destruct pre.
    + destruct (H2 s) as (s' & E & Hh' & HQ'); [by rewrite Hh|done|]. exists s'. split; [done|]. by rewrite Hh'.
    + destruct (H1 s) as (s' & E & Hh' & _); [by rewrite Hh|done|]. exists s'. split; [done|]. by rewrite Hh'.
  - by intros s [? _].
  - destruct pre; [|by exists s1]. destruct (insert_run ctx v _ _ _ Hk Hc Hr) as (s2 & E & Hh & <-). by exists s2.
Qed.

Lemma alone_answers req fuse params comp s ctx v s1 :
  union_fuse req fuse -> keys_present (EvalKeys req) -> accepted L (EvalKeys req) ->
  createContractContext L params s = (Ok ctx, s1) -> heap s1 !! ctx = Some (KContext, v) ->
  (alone fuse params req comp s).1 = answered (answer_of (fuse (Some ctx) req false comp s1).1).
Proof.
  intros Hf Hk Hacc E Hc. destruct (fusions_answer req fuse ctx v s1 false Hf Hk Hacc Hc) as (I & Hans & Hheap & s2 & [= <-] & HI).
  destruct (Hans comp s1 HI) as (s' & Ef & HI'). unfold alone, with_handle. rewrite (bind_Ok _ _ _ _ _ E).
  eapply deferring_free; [exact Ef|]. by rewrite (Hheap _ HI').
Qed.

(** C20. A union run never panics and returns scores exactly when every
    comparator, alone on a context of its own, succeeds, and then each one's
    chunks in its place: whatever concurrency is asked for (it is clamped to one
    worker at least and one per comparator at most), whatever order the workers
    take the comparators and their results arrive in, and whether the evaluation
    keys go with each fusion (one worker) or are inserted once (several).  This
    holds for the three kinds of fusion, for comparators and keys that are
    present, under [FusionLaws], with keys the library accepts and parameters
    that do not make Go itself panic.  Fusions are atomic calls. *)
Theorem union_schedule_independent fuse params req comparators concurrency run s :
  union_fuse req fuse -> batch_ok params = true -> keys_present (EvalKeys req) -> accepted L (EvalKeys req) ->
  comparators <> [] -> schedules (clampUnionConcurrency concurrency comparators) (length comparators) run ->
  (forall w, (union_score L fuse params req comparators concurrency run s).1 <> Panic w) /\
  forall scores, (union_score L fuse params req comparators concurrency run s).1 = Ok scores <->
                 Forall2 (fun comp chunks => (alone fuse params req comp s).1 = Ok chunks) comparators scores.
Proof.
  intros Hf Hb Hk Hacc Hn Hrun. unfold union_score. destruct comparators as [|comp0 rest]; [done|].
  set (comparators := comp0 :: rest) in *. set (c := clampUnionConcurrency concurrency comparators) in *.
  cbn [is_empty comparators fail_if]. rewrite ret_bind. unfold with_handle.
  pose proof (createContractContext_owns L params [] Hb s (kinds s) ltac:(by apply holds_nil) ltac:(by intros h k ?%elem_of_nil)) as Hno.
  assert (forall comp, (alone fuse params req comp s).1 =
    match createContractContext L params s with
    | (Ok ctx, s1) => answered (answer_of (fuse (Some ctx) req false comp s1).1)
    | (Err e, _) => Err e | (Panic w, _) => Panic w end) as Halone.
  { intros comp. destruct (createContractContext L params s) as [[ctx|e|w] s1] eqn:E; [|unfold alone, with_handle, bind; by rewrite E..].
    destruct (context_content _ _ _ _ E) as [v Hc]. by eapply alone_answers. }
  unfold bind at 1 3. destruct (createContractContext L params s) as [[ctx|e|w] s1] eqn:E; [| |done].
  2:{ split; [done|]. intros scores. split; [done|]. intros H. inversion H as [|x y l l' H1 H2]; subst. by rewrite Halone in H1. }
  destruct (context_content _ _ _ _ E) as [v Hc].
  destruct (fusions_answer req fuse ctx v s1 (1 <? c)%Z Hf Hk Hacc Hc) as (I & Hans & Hheap & s2 & E2 & HI).
  destruct (runUnion_outcome _ _ I Hans comparators c run s2 Hrun HI) as (s3 & Ho & <- & HI3).
  assert (forall o, (runUnionComparatorsWith (fuse (Some ctx) req (1 <? c)%Z) comparators c run s2).1 = o ->
    (deferring (free KContext ctx) ((if (1 <? c)%Z then insertUnionEvalKeys L ctx (EvalKeys req) else ret tt) ;;;
       runUnionComparatorsWith (fuse (Some ctx) req (1 <? c)%Z) comparators c run) s1).1 = o) as Hbody.
  { intros o <-. eapply deferring_free; [rewrite (bind_Ok _ _ _ _ _ E2); apply surjective_pairing|]. by rewrite (Hheap _ HI3). }
  assert (forall scores, reported (fun comp => answer_of (fuse (Some ctx) req false comp s1).1) <$> comparators = inr <$> scores <->
    Forall2 (fun comp chunks => (alone fuse params req comp s).1 = Ok chunks) comparators scores) as Hrep.
  { intros scores. rewrite reported_all. split; intros H; (eapply Forall2_impl; [exact H|]); intros comp ch; simpl; rewrite Halone;
      destruct (answer_of _); simpl; congruence. }
  destruct Ho as [(e & He & Ho)|(cs & Hcs & Ho)]; rewrite (Hbody _ Ho); (split; [done|]); intros scores.
  - split; [done|]. intros H. apply Hrep in H. exfalso. clear -He H. revert scores H.
    induction He as [x l [e' He']|x l _ IH]; intros [|sc scores] H; simpl in H; try done; injection H as H H'; [congruence|by eapply IH].
  - rewrite <- Hrep, Hcs. split; [by intros [= ->]|]. intros H. f_equal. symmetry. clear -H. revert scores H.
    induction cs as [|x cs IH]; intros [|y scores] H; simpl in H; try done. injection H as <- H. f_equal. by apply IH.
Qed.
End Runs.

(** ** A library with registered keys, for the witness *)

Module Witnesses.
Import BridgeUnion.Witnesses.

Definition fusion_args (op : COp) : option FuseArgs :=
  match op with
  | C_ARESChunkedFusePayloadCKKS a | C_ARESChunkedFuseEncryptedPayloadCKKS a | C_ARESChunkedFuseEncryptedInputsCKKS a => Some a
  | _ => None
  end.
Definition or_registered (key : option bytes) (registered : bytes) : bytes := match key with Some k => k | None => registered end.
(** Its state is the two keys registered; a fusion writes the keys it works
    with, as two chunks, and fails at degree 0. *)
Definition keyring : CLib bytes (bytes * bytes) := {|
  lib_new := fun op _ ls =>
    match op with C_Deserialize _ [] => (None, ls) | C_Deserialize _ raw => (Some raw, ls) | _ => (Some [], ls) end;
  lib_new2 := fun _ _ ls => (None, ls);
  lib_array := fun _ _ ls => (None, ls);
  lib_status := fun op vs ls =>
    match op, vs with
    | C_InsertEvalMultKey, [_; k] => (true, (k, ls.2))
    | C_InsertEvalSumKey, [_; k] => (true, (ls.1, k))
    | _, _ => (true, ls)
    end;
  lib_update := fun _ vs ls => ((true, hd [] vs), ls);
  lib_buffer := fun _ _ ls => ((true, None), ls);
  lib_floats := fun _ _ ls => (None, ls);
  lib_ints := fun _ _ ls => (None, ls);
  lib_fuse := fun op _ ls =>
    match fusion_args op with
    | Some a =>
        let keys := (or_registered (a_evalMult a) ls.1, or_registered (a_evalSum a) ls.2) in
        ((negb (a_degree a =? 0)%Z, "no degree"%string, Some (keys.1 ++ keys.2), lens_of [keys.1; keys.2], 2%Z), keys)
    | None => ((true, ""%string, None, [], 0%Z), ls)
    end;
  buffer_bytes := id;
  cstring := fun _ => []
|}.

#[export] Instance keyring_laws : FusionLaws keyring.
Proof.
  refine {| Registered := bytes * bytes; registered := id |}.
  - intros op a v ls1 ls2 [] [= ->]; reflexivity.
  - intros op a v [m r] []; reflexivity.
  - intros op a v [[|b m] r] ls [m1 r1] ls2 Hop H; [done|]. unfold registering in H. cbn in H.
    destruct r as [|b' r]; [done|]. injection H as <-. destruct Hop; reflexivity.
Defined.

Lemma keyring_chunks_fit : chunks_fit keyring.
Proof.
  intros op vs ls text out lens n ls' H. cbn in H. destruct (fusion_args op) as [a|].
  - injection H as _ _ <- <- <- _. split; [lia|].
    set (m := or_registered _ _). set (r := or_registered _ _). pose proof (cut_concat [m; r] [] []) as E. cbn in E.
    rewrite !app_nil_r in E. eexists. exact E.
  - injection H as _ <- <- <- _. split; [lia|]. by eexists.
Qed.

Definition a_byte : bytes := [Byte.x07].
Definition two_keys : EvalKeyFinal := {| EvalMultFinal := [Byte.x0a]; EvalSumFinal := [Byte.x0b; Byte.x0c] |}.
Definition request : FullFuseRequest := {|
  InitiatorCiphertext := a_byte; InitiatorLatQ := 0; InitiatorLonQ := 0; CandidateCiphertexts := [a_byte];
  CandidateLatQ := [0%Z]; CandidateLonQ := [0%Z]; CandidateDistanceCiphertexts := []; CandidateBrownies := [1%Z];
  CandidatePackages := [[65%Z]]; CandidatePayloadCiphertexts := []; ProfileDim_ := 2; Alpha := f1; Beta := f0; Gamma := f0;
  Comparator := ""%string; ComparatorDegree := 1; ComparatorGain := f1; ComparatorScale := f1; ComparatorBound := f1;
  SelectorSchedule := ""%string; EvalKeys := two_keys; PackageBytes := 1; PayloadSlotCount_ := 1; MinimalRotationKeys_ := false |}.
Definition lanes : list UnionComparator := [comparator "a"%string 1; comparator "b"%string 3].
Definition empty_ring : CState bytes (bytes * bytes) := {| heap := ∅; lib_state := ([], []) |}.
Definition scores : list (list bytes) := [[[Byte.x0a]; [Byte.x0b; Byte.x0c]]; [[Byte.x0a]; [Byte.x0b; Byte.x0c]]].

Lemma keyring_accepts : accepted keyring two_keys.
Proof. intros v [m r]. by eexists. Qed.

Lemma union_schedule_independent_witness :
  Forall2 (fun comp chunks =>
    (alone keyring (chunkedUnionComparatorWithContext keyring) zero_params request comp empty_ring).1 = Ok chunks) lanes scores.
Proof.
  apply (union_schedule_independent keyring (chunkedUnionComparatorWithContext keyring) zero_params request lanes 7 backwards empty_ring).
  - apply fuse_packages; [exact keyring_chunks_fit|]. unfold has_candidate_bytes. simpl. lia.
  - reflexivity.
  - split; discriminate.
  - exact keyring_accepts.
  - discriminate.
  - change (clampUnionConcurrency 7 lanes) with 2%Z. split; [apply perm_swap|]. split; [apply perm_swap|].
    split; intros [|[|[|k]]] i; simpl; intros [= <-]; lia.
  - vm_compute. reflexivity.
Defined.

(** A comparator that fails fails the run, whoever runs first. *)
Example union_fails :
  exists e s', union_score keyring (chunkedUnionComparatorWithContext keyring) zero_params request
                 [comparator "a"%string 1; comparator "b"%string 0] 2 backwards empty_ring = (Err e, s').
Proof. do 2 eexists. vm_compute. reflexivity. Qed.
End Witnesses.
