(* ===== verification/Helper.v ===== *)
(** * The OpenFHE helper process (cmd/openfhe-contract-helper/main.go)

    The helper reads one JSON request after the other, runs the bridge and
    answers each with an envelope.  The string members of a request or a
    response, all of them base64 texts but one, are a function of their names;
    the client and the helper declare the same objects
    (pkg/ares/crypto/helperclient/types.go), modelled once, and the client has no
    use for the members of [split_rot_share] and [reconstruct_rot_share].
    encoding/json is the class [HelperCodec]. *)
From Stdlib Require Import ZArith NArith Lia String Ascii.
From stdpp Require Import base gmap list strings.
From S2P Require Import Prelude Bytes Encoding.
From S2P Require Import GoFloat GoFmt.
From S2P Require Import Lineage.
From S2P Require Import CGo Bridge BridgeFold BridgeEval.

(** ** Parameters, requests, responses *)

(** helperclient.ContractParams and contractParamsJSON. *)
Record HelperParams := {
  h_Scheme : string;
  h_RingDim : Z;
  h_ScalingFactor : float64;
  h_ScalingModSize : Z;
  h_Depth : Z
}.
Definition EffectiveScheme (p : HelperParams) : string :=
  if String.eqb (h_Scheme p) "" then "ckks" else h_Scheme p.

(** The string members. *)
Inductive Member :=
| F_PrevPublicKey | F_JointPublicKey | F_OwnPublicKey | F_FinalPublicKey | F_PublicKey
| F_EvalMultBase | F_EvalSumBase | F_EvalMultJoined | F_EvalMultShare | F_EvalSumShare | F_EvalSumShareA | F_EvalSumShareB
| F_EvalMultFinalShare | F_EvalMultFinal | F_EvalSumFinal | F_EvalSumFinalKey | F_EvalKeys
| F_Ciphertext | F_CiphertextA | F_CiphertextB | F_SecretKeyShare | F_Partial | F_Version.
#[export] Instance member_eq_decision : EqDecision Member.
Proof. solve_decision. Defined.

(** The members that are lists of base64 texts. *)
Inductive ListMember :=
| F_Partials | F_Ciphertexts | F_PublicKeys | F_EvalMultRound1Shares | F_EvalSumRound1Shares | F_EvalMultFinalShares.
#[export] Instance list_member_eq_decision : EqDecision ListMember.
Proof. solve_decision. Defined.

Record Numbers := {
  q_Values : list float64;
  q_IntValues : list Z;
  q_Lead : bool;
  q_NSlots : Z;
  q_Scalar : float64;
  q_Coefficients : list float64;
  q_PolyLowerBound : float64;
  q_PolyUpperBound : float64
}.

Record Request := {
  Op : string;
  Params : HelperParams;
  BFVParams : BFVContractParams;
  text : Member -> string;
  texts : ListMember -> list string;
  numbers : Numbers
}.

Record Response := {
  r_text : Member -> string;
  r_Lead : option bool;
  r_Values : list float64;
  r_IntValues : list Z;
  r_Ciphertexts : list string
}.
Record HelperEnvelope := { Result : option Response; env_Error : string }.

(** ** The helper *)

Definition encodeB64 (raw : bytes) : string := to_string (base64_EncodeToString raw).

Definition member_of {A} (none : A) (l : list (Member * A)) (m : Member) : A :=
  match find (fun p => bool_decide (p.1 = m)) l with Some p => p.2 | None => none end.
(** A response with the given string members only. *)
Definition response (l : list (Member * string)) : Response :=
  {| r_text := member_of EmptyString l; r_Lead := None; r_Values := []; r_IntValues := []; r_Ciphertexts := [] |}.

Definition toContractParams (p : HelperParams) : ContractParams := {|
  RingDim := h_RingDim p;
  ScalingFactor :=
    if is_zero (h_ScalingFactor p) && (0 <? h_ScalingModSize p)%Z then of_Z (2 ^ h_ScalingModSize p) else h_ScalingFactor p;
  Depth := h_Depth p;
  MinimalRotationKeys := false; ProfileDim := 0; PayloadSlotCount := 0; EvalSumOnlyRotationKeys := false |}.
Definition toBFVContractParams (p : BFVContractParams) : BFVContractParams := {|
  bfv_RingDim := bfv_RingDim p; MultiplicativeDepth := MultiplicativeDepth p;
  PlaintextModulus := PlaintextModulus p; BatchSize := BatchSize p |}.

Definition keyShareResponse (share : DistributedKeyShare) : Response := {|
  r_text := member_of EmptyString
    [(F_PublicKey, encodeB64 (PublicKey share)); (F_SecretKeyShare, encodeB64 (SecretKeyShare share))];
  r_Lead := Some (Lead share); r_Values := []; r_IntValues := []; r_Ciphertexts := [] |}.

Section Run.
Context {V LS : Type} (L : CLib V LS) (OpenFHEVersion : string).
Notation CM := (M (CState V LS)).
Local Open Scope string_scope.

(** Where the text of encoding/base64's error gives an offset. *)
Definition decodeB64 (field value : string) : CM bytes :=
  if String.eqb value "" then fail (field +:+ " is required")
  else match base64_DecodeString (of_string value) with
       | Some raw => ret raw
       | None => throw (Errorf [T field; T " must be base64: "; W (ErrorsNew "illegal base64 data")])
       end.
Fixpoint decode_from (field : string) (i : nat) (values : list string) : CM (list bytes) :=
  match values with
  | [] => ret []
  | v :: values' =>
      let! raw := decodeB64 (field +:+ "[" +:+ fmt_int (Z.of_nat i) +:+ "]") v in
      let! raws := decode_from field (S i) values' in
      ret (raw :: raws)
  end.
Definition decodeB64Slice (field : string) (values : list string) : CM (list bytes) := decode_from field 0 values.

Section Ops.
Context (req : Request).
Let nums := numbers req.

Definition op_keygen_next (next : bytes -> CM DistributedKeyShare) : CM Response :=
  let! prev := decodeB64 "prev_public_key" (text req F_PrevPublicKey) in
  let! share := next prev in
  ret (keyShareResponse share).

Definition op_encrypt (encrypt : bytes -> CM bytes) : CM Response :=
  let! joint := decodeB64 "joint_public_key" (text req F_JointPublicKey) in
  let! ct := encrypt joint in
  ret (response [(F_Ciphertext, encodeB64 ct)]).

Definition op_round1_lead (lead : bytes -> CM EvalKeyRound1LeadShare) : CM Response :=
  let! sk := decodeB64 "secret_key_share" (text req F_SecretKeyShare) in
  let! round1 := lead sk in
  ret (response [(F_EvalMultBase, encodeB64 (EvalMultBase round1)); (F_EvalSumBase, encodeB64 (EvalSumBase round1))]).

Definition op_round1_participant (participant : bytes -> bytes -> bytes -> bytes -> CM EvalKeyRound1ParticipantShare) : CM Response :=
  let! sk := decodeB64 "secret_key_share" (text req F_SecretKeyShare) in
  let! multBase := decodeB64 "eval_mult_base" (text req F_EvalMultBase) in
  let! sumBase := decodeB64 "eval_sum_base" (text req F_EvalSumBase) in
  let! ownPK := decodeB64 "own_public_key" (text req F_OwnPublicKey) in
  let! round1 := participant sk multBase sumBase ownPK in
  ret (response [(F_EvalMultShare, encodeB64 (EvalMultSwitchShare round1)); (F_EvalSumShare, encodeB64 (EvalSumShare round1))]).

Definition op_round2_participant (participant : bytes -> bytes -> bytes -> bool -> CM EvalKeyRound2ParticipantShare) : CM Response :=
  let! sk := decodeB64 "secret_key_share" (text req F_SecretKeyShare) in
  let! joined := decodeB64 "eval_mult_joined" (text req F_EvalMultJoined) in
  let! finalPK := decodeB64 "final_public_key" (text req F_FinalPublicKey) in
  let! round2 := participant sk joined finalPK (q_Lead nums) in
  ret (response [(F_EvalMultFinalShare, encodeB64 (EvalMultFinalShare round2))]).

Definition op_partial_decrypt (decrypt : bytes -> bytes -> bool -> CM bytes) : CM Response :=
  let! ct := decodeB64 "ciphertext" (text req F_Ciphertext) in
  let! sk := decodeB64 "secret_key_share" (text req F_SecretKeyShare) in
  let! partial := decrypt ct sk (q_Lead nums) in
  ret (response [(F_Partial, encodeB64 partial)]).

Definition op_combine_round1 (combine : list bytes -> list bytes -> list bytes -> CM EvalKeyRound1Combined) : CM Response :=
  let! pks := decodeB64Slice "public_keys" (texts req F_PublicKeys) in
  let! multShares := decodeB64Slice "eval_mult_round1_shares" (texts req F_EvalMultRound1Shares) in
  let! sumShares := decodeB64Slice "eval_sum_round1_shares" (texts req F_EvalSumRound1Shares) in
  let! combined := combine pks multShares sumShares in
  ret (response [(F_EvalMultJoined, encodeB64 (EvalMultJoined combined)); (F_EvalSumFinal, encodeB64 (joined_EvalSumFinal combined))]).

Definition op_combine_round2 (combine : bytes -> list bytes -> bytes -> CM EvalKeyFinal) : CM Response :=
  let! finalPK := decodeB64 "final_public_key" (text req F_FinalPublicKey) in
  let! finalShares := decodeB64Slice "eval_mult_final_shares" (texts req F_EvalMultFinalShares) in
  let! sumFinal := decodeB64 "eval_sum_final_key" (text req F_EvalSumFinalKey) in
  let! final := combine finalPK finalShares sumFinal in
  ret (response [(F_EvalMultFinal, encodeB64 (EvalMultFinal final)); (F_EvalSumFinal, encodeB64 (EvalSumFinal final))]).

(** [runEvalBinary]. *)
Definition runEvalBinary (fn : bytes -> bytes -> CM bytes) : CM Response :=
  let! ctA := decodeB64 "ciphertext_a" (text req F_CiphertextA) in
  let! ctB := decodeB64 "ciphertext_b" (text req F_CiphertextB) in
  let! out := fn ctA ctB in
  ret (response [(F_Ciphertext, encodeB64 out)]).

Definition op_eval_mult (params : ContractParams) : CM Response :=
  let! ctA := decodeB64 "ciphertext_a" (text req F_CiphertextA) in
  let! ctB := decodeB64 "ciphertext_b" (text req F_CiphertextB) in
  let! evalKey := decodeB64 "eval_keys" (text req F_EvalKeys) in
  let! out := EvalMultCKKSForContract L params evalKey ctA ctB in
  ret (response [(F_Ciphertext, encodeB64 out)]).

Definition op_eval_const_mult (params : ContractParams) : CM Response :=
  let! ct := decodeB64 "ciphertext" (text req F_Ciphertext) in
  let! out := EvalConstMultCKKSForContract L params ct (q_Scalar nums) in
  ret (response [(F_Ciphertext, encodeB64 out)]).

Definition op_eval_poly (params : ContractParams) : CM Response :=
  let! evalKeys := decodeB64 "eval_keys" (text req F_EvalKeys) in
  let! ct := decodeB64 "ciphertext" (text req F_Ciphertext) in
  fail_if (is_empty (q_Coefficients nums)) "eval_poly requires coefficients" ;;;
  let! result := EvalPolyCKKSForContract L params evalKeys ct (q_Coefficients nums) in
  ret (response [(F_Ciphertext, encodeB64 result)]).

Definition op_argmax (params : ContractParams) : CM Response :=
  let! evalKey := decodeB64 "eval_keys" (text req F_EvalKeys) in
  fail_if (length (texts req F_Ciphertexts) <? 2)%nat "argmax requires at least 2 ciphertexts" ;;;
  let! cts := decodeB64Slice "ciphertexts" (texts req F_Ciphertexts) in
  fail_if (length (q_Coefficients nums) <? 2)%nat "argmax requires sharpening coefficients (>= 2)" ;;;
  let! masks := EvalArgmaxCKKSForContract L params evalKey cts (q_Coefficients nums) in
  ret {| r_text := fun _ => ""; r_Lead := None; r_Values := []; r_IntValues := []; r_Ciphertexts := encodeB64 <$> masks |}.

Definition op_bfv_eval_product_sum (params : BFVContractParams) : CM Response :=
  let! evalMult := decodeB64 "eval_keys" (text req F_EvalKeys) in
  let! evalSum := decodeB64 "eval_sum_final_key" (text req F_EvalSumFinalKey) in
  let! ctA := decodeB64 "ciphertext_a" (text req F_CiphertextA) in
  let! ctB := decodeB64 "ciphertext_b" (text req F_CiphertextB) in
  let! out := EvalProductSumBFVForContract L params {| EvalMultFinal := evalMult; EvalSumFinal := evalSum |} ctA ctB (q_NSlots nums) in
  ret (response [(F_Ciphertext, encodeB64 out)]).

Definition op_split_rot_share (params : ContractParams) : CM Response :=
  let! full := decodeB64 "eval_sum_share" (text req F_EvalSumShare) in
  let! ab := SplitRotShareAB L params full in
  ret (response [(F_EvalSumShareA, encodeB64 ab.1); (F_EvalSumShareB, encodeB64 ab.2)]).

Definition op_reconstruct_rot_share (params : ContractParams) : CM Response :=
  let! a := decodeB64 "eval_sum_share_a" (text req F_EvalSumShareA) in
  let! b := decodeB64 "eval_sum_share_b" (text req F_EvalSumShareB) in
  let! full := ReconstructRotShareAB L params a b in
  ret (response [(F_EvalSumShare, encodeB64 full)]).

Definition op_fuse_partials (params : ContractParams) : CM Response :=
  let! partials := decodeB64Slice "partials" (texts req F_Partials) in
  let! values := FuseCKKSPartialsForContract L params partials (q_NSlots nums) in
  ret {| r_text := fun _ => ""; r_Lead := None; r_Values := values; r_IntValues := []; r_Ciphertexts := [] |}.
Definition op_bfv_fuse_partials (params : BFVContractParams) : CM Response :=
  let! partials := decodeB64Slice "partials" (texts req F_Partials) in
  let! values := FuseBFVPartialsForContract L params partials (q_NSlots nums) in
  ret {| r_text := fun _ => ""; r_Lead := None; r_Values := []; r_IntValues := values; r_Ciphertexts := [] |}.

(** The switch of [run]. *)
Definition ops : list (string * CM Response) :=
  let params := toContractParams (Params req) in
  let bfv := toBFVContractParams (BFVParams req) in
  [ ("version", ret (response [(F_Version, OpenFHEVersion)]));
    ("keygen_first", let! share := DistributedKeyGenFirst L params in ret (keyShareResponse share));
    ("keygen_next", op_keygen_next (DistributedKeyGenNext L params));
    ("bfv_keygen_first", let! share := BFVDistributedKeyGenFirst L bfv in ret (keyShareResponse share));
    ("bfv_keygen_next", op_keygen_next (BFVDistributedKeyGenNext L bfv));
    ("encrypt_profile", op_encrypt (fun joint => EncryptCKKSForContract L params joint (q_Values nums)));
    ("bfv_encrypt_int_vector", op_encrypt (fun joint => EncryptBFVForContract L bfv joint (q_IntValues nums)));
    ("evalkey_round1_lead", op_round1_lead (EvalKeyRound1Lead L params));
    ("bfv_evalkey_round1_lead", op_round1_lead (BFVEvalKeyRound1Lead L bfv));
    ("evalkey_round1_participant", op_round1_participant (EvalKeyRound1Participant L params));
    ("bfv_evalkey_round1_participant", op_round1_participant (BFVEvalKeyRound1Participant L bfv));
    ("evalkey_round2_participant", op_round2_participant (EvalKeyRound2Participant L params));
    ("bfv_evalkey_round2_participant", op_round2_participant (BFVEvalKeyRound2Participant L bfv));
    ("partial_decrypt", op_partial_decrypt (PartialDecryptCKKSForContract L params));
    ("bfv_partial_decrypt", op_partial_decrypt (PartialDecryptBFVForContract L bfv));
    ("combine_evalkey_round1", op_combine_round1 (CombineEvalKeyRound1 L params));
    ("bfv_combine_evalkey_round1", op_combine_round1 (BFVCombineEvalKeyRound1 L bfv));
    ("combine_evalkey_round2", op_combine_round2 (CombineEvalKeyRound2 L params));
    ("bfv_combine_evalkey_round2", op_combine_round2 (BFVCombineEvalKeyRound2 L bfv));
    ("split_rot_share", op_split_rot_share params);
    ("reconstruct_rot_share", op_reconstruct_rot_share params);
    ("fuse_partials", op_fuse_partials params);
    ("bfv_fuse_partials_int", op_bfv_fuse_partials bfv);
    ("bfv_eval_product_sum", op_bfv_eval_product_sum bfv);
    ("eval_poly", op_eval_poly params);
    ("eval_add", runEvalBinary (EvalAddCKKSForContract L params));
    ("eval_sub", runEvalBinary (EvalSubCKKSForContract L params));
    ("eval_mult", op_eval_mult params);
    ("eval_const_mult", op_eval_const_mult params);
    ("argmax", op_argmax params) ]%list.
End Ops.

Definition run (req : Request) : CM Response :=
  match find (fun p => String.eqb p.1 (Op req)) (ops req) with
  | Some p => p.2
  | None => throw (Errorf [T "unsupported op "; Q (Op req)])
  end.
End Run.

(** ** The daemon *)

(** encoding/json between the client and the helper; [Wire] is a JSON text. *)
Class HelperCodec (Wire : Type) := {
  EncodeRequest : Request -> Outcome Wire;
  DecodeRequest : Wire -> Outcome Request;
  EncodeEnvelope : HelperEnvelope -> Outcome Wire;
  DecodeEnvelope : Wire -> Outcome HelperEnvelope
}.

(** The helper process with the bridge in it, and the client's end of it. *)
Record Helper (V LS : Type) := { bridge : CState V LS; alive : bool; closed : bool }.
Arguments bridge {V LS} _.
Arguments alive {V LS} _.
Arguments closed {V LS} _.

Section Daemon.
Context {V LS : Type} (L : CLib V LS) (OpenFHEVersion : string).
Context {Wire : Type} `{C : HelperCodec Wire}.
Notation HS := (Helper V LS).
Notation HM := (M HS).

Definition with_bridge (h : HS) (s : CState V LS) (up : bool) : HS :=
  {| bridge := s; alive := up; closed := closed h |}.

(** One turn of the loop of [runDaemon]: the reply, or [None] when the process
    ends without one, by a message it cannot decode, a panic or a response it
    cannot encode. *)
Definition serve (w : Wire) : HM (option Wire) := fun h =>
  match DecodeRequest w with
  | Ok req =>
      match run L OpenFHEVersion req (bridge h) with
      | (Panic _, s) => (Ok None, with_bridge h s false)
      | (o, s) =>
          let envelope := match o with
            | Ok res => {| Result := Some res; env_Error := EmptyString |}
            | Err e => {| Result := None; env_Error := Error e |}
            | Panic w => {| Result := None; env_Error := w |}
            end in
          match EncodeEnvelope envelope with
          | Ok reply => (Ok (Some reply), with_bridge h s true)
          | _ => (Ok None, with_bridge h s false)
          end
      end
  | _ => (Ok None, with_bridge h (bridge h) false)
  end.
End Daemon.
