(* ===== verification/HelperClient.v ===== *)
(** * The client of the helper process (pkg/ares/crypto/helperclient)

    One function per method of [Client]: the request it builds, the call, the
    decoding of the response.  The result structs of the client have the fields
    of the bridge's, whose records they share.  A method and its BFV twin share
    one body over the request with the operation and the parameters.  The mutex
    makes one call one step. *)
From Stdlib Require Import ZArith NArith Lia String Ascii.
From stdpp Require Import base gmap list strings.
From S2P Require Import Prelude Bytes Encoding.
From S2P Require Import GoFloat GoFmt.
From S2P Require Import Lineage.
From S2P Require Import CGo Bridge BridgeFold BridgeEval Helper.

(** ** Requests *)

Definition no_numbers : Numbers := {|
  q_Values := []; q_IntValues := []; q_Lead := false; q_NSlots := 0; q_Scalar := f0; q_Coefficients := [];
  q_PolyLowerBound := f0; q_PolyUpperBound := f0 |}.
Definition no_params : HelperParams := {|
  h_Scheme := EmptyString; h_RingDim := 0; h_ScalingFactor := f0; h_ScalingModSize := 0; h_Depth := 0 |}.
Definition no_bfv : BFVContractParams := {| bfv_RingDim := 0; MultiplicativeDepth := 0; PlaintextModulus := 0; BatchSize := 0 |}.

(** A request with an operation and its parameters. *)
Definition ckks (op : string) (params : HelperParams) : Request := {|
  Op := op; Params := params; BFVParams := no_bfv; text := fun _ => EmptyString; texts := fun _ => []; numbers := no_numbers |}.
Definition bfv (op : string) (params : BFVContractParams) : Request := {|
  Op := op; Params := no_params; BFVParams := params; text := fun _ => EmptyString; texts := fun _ => []; numbers := no_numbers |}.

Definition list_member_of (l : list (ListMember * list bytes)) (m : ListMember) : list string :=
  match find (fun p => bool_decide (p.1 = m)) l with Some p => encodeB64 <$> p.2 | None => [] end.
(** The byte fields, the list fields and the numbers of a request. *)
Definition fill (r : Request) (ts : list (Member * bytes)) (ls : list (ListMember * list bytes)) (n : Numbers) : Request := {|
  Op := Op r; Params := Params r; BFVParams := BFVParams r;
  text := member_of EmptyString ((fun p => (p.1, encodeB64 p.2)) <$> ts); texts := list_member_of ls; numbers := n |}.

Definition with_lead (lead : bool) : Numbers := {|
  q_Values := []; q_IntValues := []; q_Lead := lead; q_NSlots := 0; q_Scalar := f0; q_Coefficients := [];
  q_PolyLowerBound := f0; q_PolyUpperBound := f0 |}.
Definition with_slots (n : Z) : Numbers := {|
  q_Values := []; q_IntValues := []; q_Lead := false; q_NSlots := n; q_Scalar := f0; q_Coefficients := [];
  q_PolyLowerBound := f0; q_PolyUpperBound := f0 |}.
Definition with_values (values : list float64) (ints : list Z) : Numbers := {|
  q_Values := values; q_IntValues := ints; q_Lead := false; q_NSlots := 0; q_Scalar := f0; q_Coefficients := [];
  q_PolyLowerBound := f0; q_PolyUpperBound := f0 |}.
Definition with_scalar (x : float64) : Numbers := {|
  q_Values := []; q_IntValues := []; q_Lead := false; q_NSlots := 0; q_Scalar := x; q_Coefficients := [];
  q_PolyLowerBound := f0; q_PolyUpperBound := f0 |}.

Record EvalPolyParams := { Coefficients : list float64; LowerBound : float64; UpperBound : float64 }.
Definition with_poly (p : EvalPolyParams) : Numbers := {|
  q_Values := []; q_IntValues := []; q_Lead := false; q_NSlots := 0; q_Scalar := f0; q_Coefficients := Coefficients p;
  q_PolyLowerBound := LowerBound p; q_PolyUpperBound := UpperBound p |}.

Definition SharpenSignDegree3 : EvalPolyParams := {|
  Coefficients := [f0; of_ratio 3 2; f0; of_ratio (-1) 2]; LowerBound := of_Z (-1); UpperBound := f1 |}.
Definition SharpenSignDegree9 : EvalPolyParams := {|
  Coefficients := [f0; of_ratio 315 128; f0; of_ratio (-105) 32; f0; of_ratio 189 64; f0; of_ratio (-45) 32; f0; of_ratio 35 128];
  LowerBound := of_Z (-1); UpperBound := f1 |}.
Definition SharpenChebyshev (low high : float64) (degree : Z) : EvalPolyParams :=
  {| Coefficients := []; LowerBound := low; UpperBound := high |}.

Definition SupportedOpenFHEVersionPrefix : string := "v1.5.".

Section Client.
Context {V LS : Type} (L : CLib V LS) (OpenFHEVersion : string).
Context {Wire : Type} `{C : HelperCodec Wire}.
Notation HS := (Helper V LS).
Notation HM := (M HS).
Local Open Scope string_scope.

(** [call]: writing to a process that has ended, or reading from it, is an error. *)
Definition call (req : Request) : HM Response :=
  let! h := get in
  if closed h then throw (ErrorsNew "helperclient: client is closed") else
  match EncodeRequest req with
  | Ok w =>
      let! reply := (if alive h then serve L OpenFHEVersion w else ret None) in
      match reply with
      | None => throw (Errorf [T "decode "; T (Op req); T " response: EOF"])
      | Some reply =>
          match DecodeEnvelope reply with
          | Ok env =>
              if negb (String.eqb (env_Error env) "") then
                throw (Errorf [T "helper op "; Q (Op req); T ": "; T (env_Error env)])
              else match Result env with
                   | None => throw (Errorf [T "helper op "; Q (Op req); T ": empty response envelope"])
                   | Some res => ret res
                   end
          | Err e => throw (Errorf [T "decode "; T (Op req); T " response: "; W e])
          | Panic w => panic w
          end
      end
  | Err e => throw (Errorf [T "encode "; T (Op req); T ": "; W e])
  | Panic w => panic w
  end.

(** [Close]: the helper ends at the end of its input. *)
Definition client_Close : HM unit :=
  modify (fun h => if closed h then h else {| bridge := bridge h; alive := false; closed := true |}).

Definition client_decodeB64 (s : string) : HM bytes :=
  if String.eqb s "" then ret []
  else match base64_DecodeString (of_string s) with
       | Some out => ret out
       | None => throw (Errorf [T "base64 decode: "; W (ErrorsNew "illegal base64 data")])
       end.
Fixpoint client_decode_all (l : list string) : HM (list bytes) :=
  match l with
  | [] => ret []
  | s :: l' => let! raw := client_decodeB64 s in let! raws := client_decode_all l' in ret (raw :: raws)
  end.

Definition decodeKeyShare (resp : Response) : HM DistributedKeyShare :=
  let! pk := client_decodeB64 (r_text resp F_PublicKey) in
  let! sk := client_decodeB64 (r_text resp F_SecretKeyShare) in
  ret {| PublicKey := pk; SecretKeyShare := sk; Lead := match r_Lead resp with Some b => b | None => false end |}.

(** A call whose result is one byte field. *)
Definition call_bytes (req : Request) (m : Member) : HM bytes :=
  let! resp := call req in client_decodeB64 (r_text resp m).

Definition Version : HM string :=
  let! resp := call (ckks "version" no_params) in ret (r_text resp F_Version).
(** [Start]: the process, and whether its version is the supported one, which
    is only reported. *)
Definition Start : HM bool :=
  fun h => match Version h with
           | (Ok v, h') => (Ok (negb (String.eqb v "") && negb (String.prefix SupportedOpenFHEVersionPrefix v)), h')
           | (_, h') => (Ok false, h')
           end.

(** *** Keys *)

Definition keygenNext (r : Request) (prevPublicKey : bytes) : HM DistributedKeyShare :=
  let! resp := call (fill r [(F_PrevPublicKey, prevPublicKey)] [] no_numbers) in decodeKeyShare resp.
Definition KeygenFirst (params : HelperParams) : HM DistributedKeyShare :=
  let! resp := call (ckks "keygen_first" params) in decodeKeyShare resp.
Definition KeygenNext (params : HelperParams) := keygenNext (ckks "keygen_next" params).
Definition BFVKeygenFirst (params : BFVContractParams) : HM DistributedKeyShare :=
  let! resp := call (bfv "bfv_keygen_first" params) in decodeKeyShare resp.
Definition BFVKeygenNext (params : BFVContractParams) := keygenNext (bfv "bfv_keygen_next" params).

Definition evalKeyRound1Lead (r : Request) (secretKeyShare : bytes) : HM EvalKeyRound1LeadShare :=
  let! resp := call (fill r [(F_SecretKeyShare, secretKeyShare)] [] no_numbers) in
  let! multBase := client_decodeB64 (r_text resp F_EvalMultBase) in
  let! sumBase := client_decodeB64 (r_text resp F_EvalSumBase) in
  ret {| EvalMultBase := multBase; EvalSumBase := sumBase |}.
Definition client_EvalKeyRound1Lead (params : HelperParams) := evalKeyRound1Lead (ckks "evalkey_round1_lead" params).
Definition client_BFVEvalKeyRound1Lead (params : BFVContractParams) := evalKeyRound1Lead (bfv "bfv_evalkey_round1_lead" params).

Definition evalKeyRound1Participant (r : Request) (secretKeyShare evalMultBase evalSumBase ownPublicKey : bytes)
    : HM EvalKeyRound1ParticipantShare :=
  let! resp := call (fill r [(F_SecretKeyShare, secretKeyShare); (F_EvalMultBase, evalMultBase);
                             (F_EvalSumBase, evalSumBase); (F_OwnPublicKey, ownPublicKey)] [] no_numbers) in
  let! multShare := client_decodeB64 (r_text resp F_EvalMultShare) in
  let! sumShare := client_decodeB64 (r_text resp F_EvalSumShare) in
  ret {| EvalMultSwitchShare := multShare; EvalSumShare := sumShare |}.
Definition client_EvalKeyRound1Participant (params : HelperParams) :=
  evalKeyRound1Participant (ckks "evalkey_round1_participant" params).
Definition client_BFVEvalKeyRound1Participant (params : BFVContractParams) :=
  evalKeyRound1Participant (bfv "bfv_evalkey_round1_participant" params).

Definition evalKeyRound2Participant (r : Request) (secretKeyShare evalMultJoined finalPublicKey : bytes) (lead : bool) : HM bytes :=
  call_bytes (fill r [(F_SecretKeyShare, secretKeyShare); (F_EvalMultJoined, evalMultJoined); (F_FinalPublicKey, finalPublicKey)]
                [] (with_lead lead)) F_EvalMultFinalShare.
Definition client_EvalKeyRound2Participant (params : HelperParams) :=
  evalKeyRound2Participant (ckks "evalkey_round2_participant" params).
Definition client_BFVEvalKeyRound2Participant (params : BFVContractParams) :=
  evalKeyRound2Participant (bfv "bfv_evalkey_round2_participant" params).

Definition combineEvalKeyRound1 (r : Request) (pks multShares sumShares : list bytes) : HM EvalKeyRound1Combined :=
  let! resp := call (fill r [] [(F_PublicKeys, pks); (F_EvalMultRound1Shares, multShares); (F_EvalSumRound1Shares, sumShares)] no_numbers) in
  let! joined := client_decodeB64 (r_text resp F_EvalMultJoined) in
  let! sumFinal := client_decodeB64 (r_text resp F_EvalSumFinal) in
  ret {| EvalMultJoined := joined; joined_EvalSumFinal := sumFinal |}.
Definition client_CombineEvalKeyRound1 (params : HelperParams) := combineEvalKeyRound1 (ckks "combine_evalkey_round1" params).
Definition client_BFVCombineEvalKeyRound1 (params : BFVContractParams) :=
  combineEvalKeyRound1 (bfv "bfv_combine_evalkey_round1" params).

Definition combineEvalKeyRound2 (r : Request) (finalPublicKey : bytes) (finalShares : list bytes) (evalSumFinal : bytes) : HM bytes :=
  call_bytes (fill r [(F_FinalPublicKey, finalPublicKey); (F_EvalSumFinalKey, evalSumFinal)]
                [(F_EvalMultFinalShares, finalShares)] no_numbers) F_EvalMultFinal.
Definition client_CombineEvalKeyRound2 (params : HelperParams) := combineEvalKeyRound2 (ckks "combine_evalkey_round2" params).
Definition client_BFVCombineEvalKeyRound2 (params : BFVContractParams) :=
  combineEvalKeyRound2 (bfv "bfv_combine_evalkey_round2" params).

(** *** Ciphertexts *)

Definition EncryptProfile (params : HelperParams) (jointPublicKey : bytes) (values : list float64) : HM bytes :=
  call_bytes (fill (ckks "encrypt_profile" params) [(F_JointPublicKey, jointPublicKey)] [] (with_values values [])) F_Ciphertext.
Definition BFVEncryptIntVector (params : BFVContractParams) (jointPublicKey : bytes) (values : list Z) : HM bytes :=
  call_bytes (fill (bfv "bfv_encrypt_int_vector" params) [(F_JointPublicKey, jointPublicKey)] [] (with_values [] values)) F_Ciphertext.

Definition partialDecrypt (r : Request) (ciphertext secretKeyShare : bytes) (lead : bool) : HM bytes :=
  call_bytes (fill r [(F_Ciphertext, ciphertext); (F_SecretKeyShare, secretKeyShare)] [] (with_lead lead)) F_Partial.
Definition client_PartialDecrypt (params : HelperParams) := partialDecrypt (ckks "partial_decrypt" params).
Definition client_BFVPartialDecrypt (params : BFVContractParams) := partialDecrypt (bfv "bfv_partial_decrypt" params).

Definition FusePartials (params : HelperParams) (partials : list bytes) (nSlots : Z) : HM (list float64) :=
  let! resp := call (fill (ckks "fuse_partials" params) [] [(F_Partials, partials)] (with_slots nSlots)) in ret (r_Values resp).
Definition BFVFusePartials (params : BFVContractParams) (partials : list bytes) (nSlots : Z) : HM (list Z) :=
  let! resp := call (fill (bfv "bfv_fuse_partials_int" params) [] [(F_Partials, partials)] (with_slots nSlots)) in ret (r_IntValues resp).

Definition evalBinary (op : string) (params : HelperParams) (evalKeys ctA ctB : bytes) : HM bytes :=
  call_bytes (fill (ckks op params) [(F_EvalKeys, evalKeys); (F_CiphertextA, ctA); (F_CiphertextB, ctB)] [] no_numbers) F_Ciphertext.
Definition client_EvalAdd := evalBinary "eval_add".
Definition client_EvalSub := evalBinary "eval_sub".
Definition client_EvalMult := evalBinary "eval_mult".
Definition client_EvalConstMult (params : HelperParams) (ct : bytes) (scalar : float64) : HM bytes :=
  call_bytes (fill (ckks "eval_const_mult" params) [(F_Ciphertext, ct)] [] (with_scalar scalar)) F_Ciphertext.
Definition client_EvalPoly (params : HelperParams) (evalKeys ct : bytes) (poly : EvalPolyParams) : HM bytes :=
  call_bytes (fill (ckks "eval_poly" params) [(F_EvalKeys, evalKeys); (F_Ciphertext, ct)] [] (with_poly poly)) F_Ciphertext.
Definition client_Argmax (params : HelperParams) (evalKeys : bytes) (ciphertexts : list bytes) (p : EvalPolyParams) : HM (list bytes) :=
  let! resp := call (fill (ckks "argmax" params) [(F_EvalKeys, evalKeys)] [(F_Ciphertexts, ciphertexts)] (with_poly p)) in
  client_decode_all (r_Ciphertexts resp).
Definition BFVEvalProductSum (params : BFVContractParams) (evalMultKey evalSumKey leftCiphertext rightCiphertext : bytes) (nSlots : Z)
    : HM bytes :=
  call_bytes (fill (bfv "bfv_eval_product_sum" params)
    [(F_EvalKeys, evalMultKey); (F_EvalSumFinalKey, evalSumKey); (F_CiphertextA, leftCiphertext); (F_CiphertextB, rightCiphertext)]
    [] (with_slots nSlots)) F_Ciphertext.

(** *** The whole key generation in one process *)

Record EvalKeyBundle := {
  bundle_PublicKey : bytes;
  bundle_EvalKeys : bytes;
  bundle_EvalSumKeys : bytes;
  KeyShares : list DistributedKeyShare
}.

(** [shares[slot]] for the slots from [slot] on. *)
Fixpoint next_shares (what op : string) (next : bytes -> HM DistributedKeyShare) (prev : DistributedKeyShare) (slot more : nat)
    : HM (list DistributedKeyShare) :=
  match more with
  | O => ret []
  | S more' =>
      let! share := wrap_err (fun e => Errorf [T what; T (fmt_int (Z.of_nat slot)); T op; T "keygen_next: "; W e]) (next (PublicKey prev)) in
      let! shares := next_shares what op next share (S slot) more' in
      ret (share :: shares)
  end.
(** The shares of round one and of round two, a slot at a time. *)
Fixpoint round1_shares (what op : string) (participant : DistributedKeyShare -> HM EvalKeyRound1ParticipantShare) (slot : nat)
    (shares : list DistributedKeyShare) : HM (list EvalKeyRound1ParticipantShare) :=
  match shares with
  | [] => ret []
  | share :: shares' =>
      let! ps := wrap_err (fun e => Errorf [T what; T (fmt_int (Z.of_nat slot)); T op; T "evalkey_round1_participant: "; W e]) (participant share) in
      let! pss := round1_shares what op participant (S slot) shares' in
      ret (ps :: pss)
  end.
Fixpoint round2_shares (what op : string) (participant : DistributedKeyShare -> bool -> HM bytes) (slot : nat)
    (shares : list DistributedKeyShare) : HM (list bytes) :=
  match shares with
  | [] => ret []
  | share :: shares' =>
      let! final := wrap_err (fun e => Errorf [T what; T (fmt_int (Z.of_nat slot)); T op; T "evalkey_round2_participant: "; W e])
                      (participant share (slot =? 0)%nat) in
      let! finals := round2_shares what op participant (S slot) shares' in
      ret (final :: finals)
  end.

Definition last_key (first : DistributedKeyShare) (others : list DistributedKeyShare) : bytes :=
  PublicKey (default first (last others)).

(** The body of [KeygenChain] and [BFVKeygenChain], over the methods it calls. *)
Definition chain_step {A} (name where_ op what : string) (m : HM A) : HM A :=
  wrap_err (fun e => Errorf [T name; T where_; T op; T what; T ": "; W e]) m.
Definition keygenChain (name op : string) (n : Z)
    (first : HM DistributedKeyShare) (next : bytes -> HM DistributedKeyShare)
    (lead : bytes -> HM EvalKeyRound1LeadShare)
    (participant1 : bytes -> bytes -> bytes -> bytes -> HM EvalKeyRound1ParticipantShare)
    (combine1 : list bytes -> list bytes -> list bytes -> HM EvalKeyRound1Combined)
    (participant2 : bytes -> bytes -> bytes -> bool -> HM bytes)
    (combine2 : bytes -> list bytes -> bytes -> HM bytes) : HM EvalKeyBundle :=
  if (n <? 2)%Z then throw (Errorf [T name; T ": n must be >= 2, got "; T (fmt_int n)]) else
  let what := name +:+ ": slot " in
  let! s0 := chain_step name ": slot 0 " op "keygen_first" first in
  let! others := next_shares what (" " +:+ op) next s0 1 (Z.to_nat n - 1) in
  let shares := s0 :: others in
  let finalPublicKey := last_key s0 others in
  let! r1Lead := chain_step name ": " op "evalkey_round1_lead" (lead (SecretKeyShare s0)) in
  let! r1 := round1_shares what (" " +:+ op) (fun share =>
    participant1 (SecretKeyShare share) (EvalMultBase r1Lead) (EvalSumBase r1Lead) (PublicKey share)) 1 others in
  let! r1Combined := chain_step name ": " op "combine_evalkey_round1"
    (combine1 (PublicKey <$> shares) (EvalMultBase r1Lead :: (EvalMultSwitchShare <$> r1))
       (EvalSumBase r1Lead :: (EvalSumShare <$> r1))) in
  let! r2 := round2_shares what (" " +:+ op) (fun share =>
    participant2 (SecretKeyShare share) (EvalMultJoined r1Combined) finalPublicKey) 0 shares in
  let! evalKeys := chain_step name ": " op "combine_evalkey_round2" (combine2 finalPublicKey r2 (joined_EvalSumFinal r1Combined)) in
  ret {| bundle_PublicKey := finalPublicKey; bundle_EvalKeys := evalKeys;
         bundle_EvalSumKeys := joined_EvalSumFinal r1Combined; KeyShares := shares |}.

Definition KeygenChain (params : HelperParams) (n : Z) : HM EvalKeyBundle :=
  keygenChain "KeygenChain" "" n (KeygenFirst params) (KeygenNext params) (client_EvalKeyRound1Lead params)
    (client_EvalKeyRound1Participant params) (client_CombineEvalKeyRound1 params)
    (client_EvalKeyRound2Participant params) (client_CombineEvalKeyRound2 params).
Definition BFVKeygenChain (params : BFVContractParams) (n : Z) : HM EvalKeyBundle :=
  keygenChain "BFVKeygenChain" "bfv_" n (BFVKeygenFirst params) (BFVKeygenNext params) (client_BFVEvalKeyRound1Lead params)
    (client_BFVEvalKeyRound1Participant params) (client_BFVCombineEvalKeyRound1 params)
    (client_BFVEvalKeyRound2Participant params) (client_BFVCombineEvalKeyRound2 params).
End Client.
