(* ===== verification/Calib.v ===== *)
(** * Calibration, integer encoding and parameter profiles
    (pkg/ares/crypto: fhecalib, bfv/encoding.go, profiles)

    The calibrator runs a circuit over a two-party context at growing depths
    until its result is close enough to the plaintext one.  A circuit is a
    parameter, as it is an interface in the code. *)
From Stdlib Require Import ZArith NArith Lia String Ascii.
From stdpp Require Import base gmap list strings.
From S2P Require Import Prelude Bytes.
From S2P Require Import GoFloat GoFmt.
From S2P Require Import Lineage.
From S2P Require Import CGo Bridge BridgeFold BridgeEval BridgeSmoke Helper.

(** ** The error of a result *)

(** A NaN difference is not greater than any. *)
Definition worst_of (worst : float64) (gw : float64 * float64) : float64 :=
  let d := fabs (fsub gw.1 gw.2) in if fgtb d worst then d else worst.
Definition maxSlotAbsError (got want : list float64) : float64 := foldl worst_of f0 (zip got want).

(** ** The sweep over depths *)

Record CalibrationParams := { Base : HelperParams; StartDepth : Z; MaxDepth : Z; Tolerance : float64 }.
Record CalibrationResult := {
  Circuit : string;
  res_Depth : Z;
  ScalingModSize : Z;
  res_RingDim : Z;
  AchievedAbsError : float64;
  Passed : bool
}.
Definition ErrModulusCap : GoError := ErrorsNew "fhecalib: depth requires modulus exceeding RingDim cap".

Definition with_error (res : CalibrationResult) (e : float64) : CalibrationResult := {|
  Circuit := Circuit res; res_Depth := res_Depth res; ScalingModSize := ScalingModSize res; res_RingDim := res_RingDim res;
  AchievedAbsError := if fltb e (AchievedAbsError res) then e else AchievedAbsError res; Passed := Passed res |}.
Definition passed_at (res : CalibrationResult) (depth : Z) : CalibrationResult := {|
  Circuit := Circuit res; res_Depth := depth; ScalingModSize := ScalingModSize res; res_RingDim := res_RingDim res;
  AchievedAbsError := AchievedAbsError res; Passed := true |}.

Section Sweep.
Context {S : Type} (p : CalibrationParams) (runAtDepth : Z -> M S (float64 * bool)).
Local Open Scope string_scope.

(** The result, with the error when there is one.  [depth] is a uint32: after
    the largest one it is zero again.  [None]: the iterations run out. *)
Fixpoint sweep_from (fuel : nat) (depth : Z) (res : CalibrationResult) : M S (option (CalibrationResult * option GoError)) :=
  match fuel with
  | O => ret None
  | Datatypes.S fuel' =>
      if (depth <=? MaxDepth p)%Z then fun s =>
        match runAtDepth depth s with
        | (Err e, s') => (Ok (Some (res, Some (Errorf [T "fhecalib: run at depth "; T (fmt_int depth); T ": "; W e]))), s')
        | (Panic w, s') => (Panic w, s')
        | (Ok (absErr, capHit), s') =>
            if capHit : bool then (Ok (Some (res, Some (Errorf [W ErrModulusCap; T " (at depth "; T (fmt_int depth); T ")"]))), s')
            else
              let res' := with_error res absErr in
              if fleb absErr (Tolerance p) then (Ok (Some (passed_at res' depth, None)), s')
              else sweep_from fuel' ((depth + 1) mod 2 ^ 32)%Z res' s'
        end
      else ret (Some (res, None))
  end.
Definition sweep (fuel : nat) : M S (option (CalibrationResult * option GoError)) :=
  sweep_from fuel (StartDepth p) {|
    Circuit := ""; res_Depth := 0; ScalingModSize := h_ScalingModSize (Base p); res_RingDim := h_RingDim (Base p);
    AchievedAbsError := pos_inf; Passed := false |}.
End Sweep.

(** ** The modulus budget *)

Definition ckksFirstModSize : Z := 60.
Definition maxLog2Q (ringDim : Z) : Z := (ringDim * 1761 / 65536)%Z.
(** On 64-bit words. *)
Definition exceedsModulusBudget (ringDim depth scalingModSize : Z) : bool :=
  if (ringDim =? 0)%Z || (scalingModSize =? 0)%Z then false
  else (maxLog2Q ringDim <? (ckksFirstModSize + depth * (scalingModSize mod 2 ^ 64)) mod 2 ^ 64)%Z.

Definition modulusCapMarkers : list string := ["ciphertext modulus is too large"; "not enough to support"; "hestd"]%string.
(** [strings.ToLower] of an ASCII text, [strings.Contains]. *)
Definition lower_ascii (c : ascii) : ascii :=
  let n := nat_of_ascii c in if (65 <=? n)%nat && (n <=? 90)%nat then ascii_of_nat (n + 32) else c.
Fixpoint ToLower (s : string) : string :=
  match s with EmptyString => EmptyString | String c s' => String (lower_ascii c) (ToLower s') end.
Definition Contains (s sub : string) : bool := match String.index 0 sub s with Some _ => true | None => false end.
Definition isModulusCap (e : GoError) : bool := existsb (Contains (ToLower (Error e))) modulusCapMarkers.

(** ** Circuits over the bridge *)

Section Calibrate.
Context {V LS : Type} (L : CLib V LS).
Notation CM := (M (CState V LS)).
Local Open Scope string_scope.

Record CalibHandle := {
  handle_Params : HelperParams;
  handle_EvalMult : bytes -> bytes -> CM bytes;
  handle_EvalSubConst : bytes -> list float64 -> CM bytes;
  handle_EvalProductSum : bytes -> bytes -> Z -> CM bytes
}.
Record CircuitUnderTest := {
  cut_Name : string;
  cut_Inputs : list (list float64);
  cut_Expected : list (list float64) -> list float64;
  cut_Eval : CalibHandle -> list bytes -> CM bytes
}.

(** The methods of a cgoHandle. *)
Definition cgoHandle (params : HelperParams) (cgoParams : ContractParams) (evalKeys : EvalKeyFinal) (jointPK : bytes) : CalibHandle := {|
  handle_Params := params;
  handle_EvalMult := fun ctA ctB => EvalMultCKKSForContract L cgoParams (EvalMultFinal evalKeys) ctA ctB;
  handle_EvalSubConst := fun ct vals =>
    let! encCenter := wrap_err (fun e => Errorf [T "fhecalib: encrypt center: "; W e]) (EncryptCKKSForContract L cgoParams jointPK vals) in
    EvalSubCKKSForContract L cgoParams ct encCenter;
  handle_EvalProductSum := fun ctLeft ctRight nSlots => EvalProductSumForContract L cgoParams evalKeys ctLeft ctRight nSlots |}.
Definition NewContextHandle (params : HelperParams) (evalKeys : EvalKeyFinal) (jointPK : bytes) : CalibHandle :=
  cgoHandle params {|
    RingDim := h_RingDim params;
    ScalingFactor := if is_zero (h_ScalingFactor params) then two_pow_50 else h_ScalingFactor params;
    Depth := h_Depth params;
    MinimalRotationKeys := false; ProfileDim := 0; PayloadSlotCount := 0; EvalSumOnlyRotationKeys := false |} evalKeys jointPK.

Definition squareCircuit (input : list float64) : CircuitUnderTest := {|
  cut_Name := "elementwise-square";
  cut_Inputs := [input];
  cut_Expected := fun inputs => (fun x => fmul x x) <$> nth 0 inputs [];
  cut_Eval := fun h enc => match enc with x :: _ => handle_EvalMult h x x | [] => panic "index out of range" end |}.

(** *** The evaluation keys of a list of key shares *)

Definition at_slot (what : string) (i : nat) (e : GoError) : GoError := Errorf [T what; T (fmt_int (Z.of_nat i)); T ": "; W e].

Fixpoint joint_round1 (participant : DistributedKeyShare -> CM EvalKeyRound1ParticipantShare) (i : nat)
    (shares : list DistributedKeyShare) : CM (list EvalKeyRound1ParticipantShare) :=
  match shares with
  | [] => ret []
  | share :: shares' =>
      let! r1 := wrap_err (at_slot "evalkey round1 participant " i) (participant share) in
      let! rest := joint_round1 participant (S i) shares' in
      ret (r1 :: rest)
  end.
Fixpoint joint_round2 (participant : DistributedKeyShare -> CM EvalKeyRound2ParticipantShare) (i : nat)
    (shares : list DistributedKeyShare) : CM (list bytes) :=
  match shares with
  | [] => ret []
  | share :: shares' =>
      let! r2 := wrap_err (at_slot "evalkey round2 participant " i) (participant share) in
      let! rest := joint_round2 participant (S i) shares' in
      ret (EvalMultFinalShare r2 :: rest)
  end.

Definition buildJointEvalMultN2 (params : ContractParams) (shares : list DistributedKeyShare) : CM EvalKeyFinal :=
  match shares, last shares with
  | s0 :: others, Some final_share =>
      let finalPK := PublicKey final_share in
      let! lead := wrap_err (fun e => Errorf [T "evalkey round1 lead: "; W e]) (EvalKeyRound1Lead L params (SecretKeyShare s0)) in
      let! r1 := joint_round1 (fun share =>
        EvalKeyRound1Participant L params (SecretKeyShare share) (EvalMultBase lead) (EvalSumBase lead) (PublicKey share)) 1 others in
      let! combined := wrap_err (fun e => Errorf [T "combine round1: "; W e])
        (CombineEvalKeyRound1 L params (PublicKey <$> shares) (EvalMultBase lead :: (EvalMultSwitchShare <$> r1))
           (EvalSumBase lead :: (EvalSumShare <$> r1))) in
      let! fs := joint_round2 (fun share =>
        EvalKeyRound2Participant L params (SecretKeyShare share) (EvalMultJoined combined) finalPK (Lead share)) 0 shares in
      wrap_err (fun e => Errorf [T "combine round2: "; W e])
        (CombineEvalKeyRound2 L params finalPK fs (joined_EvalSumFinal combined))
  | _, _ => panic "index out of range"
  end.

(** *** One run of a circuit *)

(** [x, err := m; if err != nil { if isModulusCap(err) {...}; return ... }]. *)
Definition capped {A} (what : option string) (m : CM A) (rest : A -> CM (float64 * bool)) : CM (float64 * bool) := fun s =>
  match m s with
  | (Ok a, s') => rest a s'
  | (Err e, s') =>
      if isModulusCap e then (Ok (f0, true), s')
      else (Err (match what with Some w => Errorf [T w; T ": "; W e] | None => e end), s')
  | (Panic w, s') => (Panic w, s')
  end.

Fixpoint encrypt_inputs (params : ContractParams) (jointPK : bytes) (i : nat) (inputs : list (list float64))
    (rest : list bytes -> CM (float64 * bool)) : CM (float64 * bool) :=
  match inputs with
  | [] => rest []
  | vec :: inputs' =>
      capped (Some ("encrypt input " +:+ fmt_int (Z.of_nat i))) (EncryptCKKSForContract L params jointPK vec) (fun ct =>
      encrypt_inputs params jointPK (S i) inputs' (fun cts => rest (ct :: cts)))
  end.

Definition run_circuit (cut : CircuitUnderTest) (p : CalibrationParams) (profileDim depth : Z) : CM (float64 * bool) :=
  let scalingModSize := if (h_ScalingModSize (Base p) =? 0)%Z then 50%Z else h_ScalingModSize (Base p) in
  let want := cut_Expected cut (cut_Inputs cut) in
  match DefaultContractParams profileDim depth with
  | None => panic "the doubling of the ring dimension does not end"
  | Some defaults =>
      let ringDim := if (h_RingDim (Base p) =? 0)%Z then RingDim defaults else h_RingDim (Base p) in
      let params := {| RingDim := ringDim; ScalingFactor := ScalingFactor defaults; Depth := Depth defaults;
        MinimalRotationKeys := false; ProfileDim := 0; PayloadSlotCount := 0; EvalSumOnlyRotationKeys := false |} in
      if exceedsModulusBudget ringDim depth scalingModSize then ret (f0, true) else
      capped (Some "keygen first") (DistributedKeyGenFirst L params) (fun first =>
      capped (Some "keygen next") (DistributedKeyGenNext L params (PublicKey first)) (fun second =>
      capped None (buildJointEvalMultN2 params [first; second]) (fun evalKeys =>
      let jointPK := PublicKey second in
      encrypt_inputs params jointPK 0 (cut_Inputs cut) (fun encIn =>
      let h := cgoHandle {| h_Scheme := ""; h_RingDim := ringDim; h_ScalingFactor := f0; h_ScalingModSize := scalingModSize;
                            h_Depth := depth |} params evalKeys jointPK in
      capped (Some "circuit eval") (cut_Eval cut h encIn) (fun encOut =>
      capped (Some "partial decrypt lead") (PartialDecryptCKKSForContract L params encOut (SecretKeyShare first) true) (fun p0 =>
      capped (Some "partial decrypt follower") (PartialDecryptCKKSForContract L params encOut (SecretKeyShare second) false) (fun p1 =>
      capped (Some "fuse partials") (FuseCKKSPartialsForContract L params [p0; p1] (Z.of_nat (length want))) (fun got =>
      ret (maxSlotAbsError got want, false)))))))))
  end.

(** The result and the error; [None]: the sweep does not end. *)
Definition Calibrate (fuel : nat) (cut : CircuitUnderTest) (p : CalibrationParams) (profileDim : Z)
    : CM (option (CalibrationResult * option GoError)) :=
  let none := {| Circuit := ""; res_Depth := 0; ScalingModSize := 0; res_RingDim := 0; AchievedAbsError := f0; Passed := false |} in
  fun s => match SmokeCKKS L s with
  | (Err e, s') => (Ok (Some (none, Some (Errorf [T "fhecalib: OpenFHE unavailable: "; W e]))), s')
  | (Panic w, s') => (Panic w, s')
  | (Ok _, s') =>
      if (StartDepth p =? 0)%Z then
        (Ok (Some (none, Some (Errorf [T "fhecalib: StartDepth must be >= 1 (0 is not a valid CKKS multiplicative depth)"]))), s')
      else (
      let! r := sweep p (run_circuit cut p profileDim) fuel in
      ret (match r with
           | None => None
           | Some (res, e) =>
               let resolved := if (StartDepth p <=? MaxDepth p)%Z then
                   (if (h_RingDim (Base p) =? 0)%Z then default 0%Z (RingDim <$> DefaultContractParams profileDim 0)
                    else h_RingDim (Base p))
                 else 0%Z in
               Some ({| Circuit := cut_Name cut; res_Depth := res_Depth res; ScalingModSize := ScalingModSize res;
                        res_RingDim := if (resolved =? 0)%Z then res_RingDim res else resolved;
                        AchievedAbsError := AchievedAbsError res; Passed := Passed res |}, e)
           end)) s'
  end.
End Calibrate.

(** ** Packed integers (bfv/encoding.go) *)

Section Encoding.
(** What the conversion of an unrepresentable float to an int64 gives. *)
Context (out_of_range : float64 -> Z).
Local Open Scope Z_scope.

Definition float_to_int64 (x : float64) : Z :=
  match fround x with
  | Some q => if (- 2 ^ 63 <=? q) && (q <? 2 ^ 63) then q else out_of_range x
  | None => out_of_range x
  end.
Definition clamp (scale q : Z) : Z := let q := if q <? - scale then - scale else q in if scale <? q then scale else q.
Definition QuantizeSigned (values : list float64) (scale : Z) : list Z :=
  if scale <=? 0 then (fun _ => 0) <$> values
  else (fun v => clamp scale (float_to_int64 (fmul v (of_Z scale)))) <$> values.
End Encoding.

(** [None]: [make] panics. *)
Definition PayloadBytesToSlots (payload : bytes) (slotCount : Z) : option (list Z) :=
  if (slotCount <? 0)%Z then None
  else let n := Z.to_nat slotCount in
       Some (((fun b => Z.of_N (Byte.to_N b)) <$> take n payload) ++ replicate (n - length payload) 0%Z).

Fixpoint slots_to_bytes (i : nat) (slots : list Z) : GoError + bytes :=
  match slots with
  | [] => inr []
  | v :: slots' =>
      if (v <? 0)%Z || (255 <? v)%Z then
        inl (Errorf [T "slot "; T (fmt_int (Z.of_nat i)); T " = "; T (fmt_int v); T " outside byte range"])
      else match slots_to_bytes (S i) slots' with
           | inl e => inl e
           | inr bs => inr (byte_of_N (Z.to_N v) :: bs)
           end
  end.
Definition SlotsToPayloadBytes (slots : list Z) (payloadLen : Z) : GoError + bytes :=
  if (payloadLen <? 0)%Z then inl (Errorf [T "payloadLen must be non-negative"])
  else if (Z.of_nat (length slots) <? payloadLen)%Z then
    inl (Errorf [T "payloadLen "; T (fmt_int payloadLen); T " exceeds slot count "; T (fmt_int (Z.of_nat (length slots)))])
  else slots_to_bytes 0 (take (Z.to_nat payloadLen) slots).

(** ** Profiles *)

Record CKKSComparator := {
  ck_ID : string; ck_Comparator : string; SharpenSelector : bool; ck_SelectorSchedule : string;
  ck_Gain : float64; ck_Bound : float64; ck_Degree : Z; ck_InputScale : float64
}.
Record CKKSParallel := { ComparatorWorkers : Z; OMPThreadsPerWorker : Z }.
Record CKKSUnionProfile := {
  cp_Name : string; cp_Scheme : string; cp_RingDim : Z; cp_Depth : Z; cp_ScalingModSize : Z; cp_ProfileDim : Z;
  cp_PayloadSlotCount : Z; Comparators : list CKKSComparator; Parallel : CKKSParallel
}.
Record BFVBlindProfile := {
  bp_Name : string; bp_Scheme : string; bp_RingDim : Z; bp_MultiplicativeDepth : Z; bp_PlaintextModulus : Z; bp_BatchSize : Z;
  bp_ProfileDim : Z; bp_PackageBytes : Z; QuantizationScale : Z; StepPolyBits : Z; ProcessParallelism : string
}.

Definition comparator_of (id family : string) (gain bound degree : Z) : CKKSComparator := {|
  ck_ID := id; ck_Comparator := family; SharpenSelector := false; ck_SelectorSchedule := "none";
  ck_Gain := of_Z gain; ck_Bound := of_Z bound; ck_Degree := degree; ck_InputScale := f0 |}.
Definition CKKSRing32KUnionV1 : CKKSUnionProfile := {|
  cp_Name := "ckks_ring32k_union_v1"; cp_Scheme := "ckks"; cp_RingDim := 32768; cp_Depth := 16; cp_ScalingModSize := 35;
  cp_ProfileDim := 128; cp_PayloadSlotCount := 640;
  Comparators := [ comparator_of "tanh_g5_d13" "tanh_chebyshev" 5 6 13;
                   comparator_of "logi_g4_b5_d13" "logistic" 4 5 13;
                   comparator_of "logi_g3_b6_d13" "logistic" 3 6 13 ];
  Parallel := {| ComparatorWorkers := 3; OMPThreadsPerWorker := 3 |} |}.
Definition BFVRing32KBlindV1 : BFVBlindProfile := {|
  bp_Name := "bfv_ring32k_blind_v1"; bp_Scheme := "bfv"; bp_RingDim := 32768; bp_MultiplicativeDepth := 20;
  bp_PlaintextModulus := 65537; bp_BatchSize := 128; bp_ProfileDim := 128; bp_PackageBytes := 80;
  QuantizationScale := 63; StepPolyBits := 13; ProcessParallelism := "disabled" |}.
Definition BFVLightBlindV1 : BFVBlindProfile := {|
  bp_Name := "bfv_light_blind_v1"; bp_Scheme := "bfv"; bp_RingDim := 8192; bp_MultiplicativeDepth := 10;
  bp_PlaintextModulus := 65537; bp_BatchSize := 32; bp_ProfileDim := 8; bp_PackageBytes := 16;
  QuantizationScale := 15; StepPolyBits := 6; ProcessParallelism := "disabled" |}.

(** ** The sweep finds the least depth *)

Section SweepSpec.
Context {S : Type} (p : CalibrationParams) (runAtDepth : Z -> M S (float64 * bool)).
Local Open Scope Z_scope.

(** The runs from one depth to another, none at the modulus cap and none close
    enough. *)
Inductive too_coarse : Z -> S -> Z -> S -> Prop :=
| too_coarse_refl d s : too_coarse d s d s
| too_coarse_step d s e s1 d' s2 :
    runAtDepth d s = (Ok (e, false), s1) -> fleb e (Tolerance p) = false -> too_coarse (d + 1) s1 d' s2 -> too_coarse d s d' s2.

(** How a sweep that has come to depth [d] in state [s] ends. *)
Definition sweep_ends (d : Z) (s : S) (r : CalibrationResult * option GoError) (s' : S) : Prop :=
  (MaxDepth p < d /\ s' = s /\ Passed r.1 = false /\ r.2 = None) \/
  (d <= MaxDepth p /\
   ((exists e, runAtDepth d s = (Err e, s') /\ Passed r.1 = false /\ r.2 <> None) \/
    (exists e, runAtDepth d s = (Ok (e, true), s') /\ Passed r.1 = false /\ r.2 <> None) \/
    (exists e, runAtDepth d s = (Ok (e, false), s') /\ fleb e (Tolerance p) = true /\
               Passed r.1 = true /\ res_Depth r.1 = d /\ fleb (AchievedAbsError r.1) (Tolerance p) = true /\ r.2 = None))).

Lemma with_error_le res e :
  fleb e (Tolerance p) = true -> fleb (AchievedAbsError (with_error res e)) (Tolerance p) = true \/ is_nan (AchievedAbsError res) = true.
Proof.
  intros He. unfold with_error. cbn. destruct (fltb e (AchievedAbsError res)) eqn:Hl; [by left|].
  destruct (is_nan (AchievedAbsError res)) eqn:Hn; [by right|left].
  assert (is_nan e = false) as Hen. { by destruct e. }
  apply (fleb_trans _ e); [|done]. by apply fltb_false_fleb.
Qed.

Lemma with_error_not_nan res e : is_nan (AchievedAbsError res) = false -> is_nan (AchievedAbsError (with_error res e)) = false.
Proof.
  intros Hn. unfold with_error. cbn. destruct (fltb e (AchievedAbsError res)) eqn:Hl; [|done].
  apply fltb_fleb in Hl. by destruct e.
Qed.

Lemma sweep_from_spec fuel depth res s :
  (forall d s w s', runAtDepth d s <> (Panic w, s')) ->
  0 <= depth -> MaxDepth p < 2 ^ 32 - 1 -> MaxDepth p - depth + 2 <= Z.of_nat fuel -> (0 < fuel)%nat ->
  Passed res = false -> is_nan (AchievedAbsError res) = false ->
  exists r s' d s1, sweep_from p runAtDepth fuel depth res s = (Ok (Some r), s') /\
    too_coarse depth s d s1 /\ depth <= d /\ sweep_ends d s1 r s'.
Proof.
  intros Hp. revert depth res s. induction fuel as [|fuel IH]; intros depth res s H0 Hm Hf Hpos Hr Hn; [lia|].
  cbn [sweep_from]. destruct (Z.leb_spec depth (MaxDepth p)) as [Hle|Hgt].
  - destruct (runAtDepth depth s) as [[[e hit]|e|w] s1] eqn:E.
    + destruct hit.
      { do 4 eexists. split; [reflexivity|]. split; [constructor|]. split; [lia|]. right. split; [done|]. right. left. by exists e. }
      destruct (fleb e (Tolerance p)) eqn:He.
      { do 4 eexists. split; [reflexivity|]. split; [constructor|]. split; [lia|]. right. split; [done|]. right. right. exists e.
        split_and!; try done. destruct (with_error_le res e He) as [?|?]; [done|congruence]. }
      rewrite Z.mod_small by lia.
      destruct (IH (depth + 1) (with_error res e) s1) as (r & s' & d & s2 & Hs & Ht & Hd & He'); [lia..|done|by apply with_error_not_nan|].
      exists r, s', d, s2. split_and!; [done| |lia|done]. by eapply too_coarse_step.
    + do 4 eexists. split; [reflexivity|]. split; [constructor|]. split; [lia|]. right. split; [done|]. left. by exists e.
    + by destruct (Hp depth s w s1).
  - do 4 eexists. split; [reflexivity|]. split; [constructor|]. split; [lia|]. by left.
Qed.

(** C39. With a largest depth below [2^32 - 1] the sweep ends, and it runs the
    depths in order: it passes at the first depth whose error is within the
    tolerance, with that depth and an error within the tolerance, stops with an
    error at the first run that fails or hits the modulus cap, and reports not
    passed when no depth was accurate enough. *)
Theorem sweep_spec fuel s :
  (forall d s w s', runAtDepth d s <> (Panic w, s')) ->
  0 <= StartDepth p -> MaxDepth p < 2 ^ 32 - 1 -> Z.max 1 (MaxDepth p - StartDepth p + 2) <= Z.of_nat fuel ->
  exists r s' d s1, sweep p runAtDepth fuel s = (Ok (Some r), s') /\
    too_coarse (StartDepth p) s d s1 /\ StartDepth p <= d /\ sweep_ends d s1 r s'.
Proof. intros Hp H0 Hm Hf. apply sweep_from_spec; [done|lia..|done|done]. Qed.

(** At the largest uint32 the sweep never ends when no depth is accurate. *)
Lemma sweep_diverges fuel depth res s :
  (forall d s, exists e s', runAtDepth d s = (Ok (e, false), s') /\ fleb e (Tolerance p) = false) ->
  MaxDepth p = 2 ^ 32 - 1 -> 0 <= depth < 2 ^ 32 -> (sweep_from p runAtDepth fuel depth res s).1 = Ok None.
Proof.
  intros Hr Hm. revert depth res s. induction fuel as [|fuel IH]; intros depth res s Hd; [done|]. cbn [sweep_from].
  rewrite (proj2 (Z.leb_le depth (MaxDepth p))) by lia. destruct (Hr depth s) as (e & s' & -> & ->).
  apply IH. apply Z.mod_pos_bound. lia.
Qed.
End SweepSpec.

(** ** The error of a result bounds every slot *)

Lemma worst_of_not_nan l worst : is_nan worst = false -> is_nan (foldl worst_of worst l) = false.
Proof.
  revert worst. induction l as [|gw l IH]; intros worst Hw; [done|]. cbn [foldl]. apply IH. unfold worst_of, fgtb; change SpecFloat.SFltb with fltb; cbn zeta.
  destruct (fltb worst (fabs (fsub gw.1 gw.2))) eqn:E; [|done]. apply fltb_fleb in E.
  destruct (fabs (fsub gw.1 gw.2)); [done|done| |done]. by rewrite fleb_nan_r in E.
Qed.

Lemma worst_of_ge l worst : is_nan worst = false -> fleb worst (foldl worst_of worst l) = true.
Proof.
  revert worst. induction l as [|gw l IH]; intros worst Hw; [by apply fleb_refl|]. cbn [foldl].
  assert (is_nan (worst_of worst gw) = false) as Hn by apply (worst_of_not_nan [gw] worst Hw).
  apply (fleb_trans _ (worst_of worst gw)); [|by apply IH]. unfold worst_of, fgtb; change SpecFloat.SFltb with fltb; cbn zeta.
  destruct (fltb worst (fabs (fsub gw.1 gw.2))) eqn:E; [by apply fltb_fleb|by apply fleb_refl].
Qed.

(** C40. Every slot that both vectors have differs by at most the error that is
    compared with the tolerance, unless the difference is not a number. *)
Theorem maxSlotAbsError_bound got want i g w :
  got !! i = Some g -> want !! i = Some w -> is_nan (fsub g w) = false ->
  fleb (fabs (fsub g w)) (maxSlotAbsError got want) = true.
Proof.
  unfold maxSlotAbsError. assert (is_nan f0 = false) as H0 by done. revert H0. generalize f0 as worst.
  revert i got want. induction i as [|i IH]; intros [|g' got] [|w' want] worst H0 Hg Hw Hn; try done.
  - injection Hg as ->. injection Hw as ->. cbn [zip zip_with foldl].
    assert (is_nan (worst_of worst (g, w)) = false) as Hn' by apply (worst_of_not_nan [(g, w)] worst H0).
    apply (fleb_trans _ (worst_of worst (g, w))); [|by apply worst_of_ge].
    assert (is_nan (fabs (fsub g w)) = false) as Ha by (by destruct (fsub g w)).
    unfold worst_of, fgtb; change SpecFloat.SFltb with fltb; cbn zeta. cbn [fst snd]. destruct (fltb worst (fabs (fsub g w))) eqn:E; [by apply fleb_refl|by apply fltb_false_fleb].
  - cbn [zip zip_with foldl]. apply (IH got want); [|done..]. apply (worst_of_not_nan [(g', w')] worst H0).
Qed.

(** ** The modulus budget *)

(** For the depths and prime sizes of a uint32 the budget test is exact: a
    context is refused exactly when its first prime and one prime per level
    exceed the [1761/65536] bits per dimension allowed. *)
Lemma exceedsModulusBudget_iff ringDim depth scalingModSize :
  (0 < ringDim -> 0 <= depth < 2 ^ 32 -> 0 < scalingModSize < 2 ^ 31 ->
   exceedsModulusBudget ringDim depth scalingModSize = true <-> 1761 * ringDim < 65536 * (60 + depth * scalingModSize))%Z.
Proof.
  intros Hr Hd Hs. unfold exceedsModulusBudget, maxLog2Q, ckksFirstModSize.
  destruct (Z.eqb_spec ringDim 0); [lia|]. destruct (Z.eqb_spec scalingModSize 0); [lia|]. cbn [orb].
  rewrite (Z.mod_small scalingModSize) by lia. rewrite Z.mod_small by nia. rewrite Z.ltb_lt.
  split; intros H.
  - pose proof (Z.mod_pos_bound (ringDim * 1761) 65536). pose proof (Z.div_mod (ringDim * 1761) 65536). lia.
  - apply Z.div_lt_upper_bound; lia.
Qed.

(** The presets stay inside it, and their plaintext moduli allow packing. *)
Example CKKSRing32KUnionV1_in_budget :
  exceedsModulusBudget (cp_RingDim CKKSRing32KUnionV1) (cp_Depth CKKSRing32KUnionV1) (cp_ScalingModSize CKKSRing32KUnionV1) = false.
Proof. reflexivity. Qed.
Example BFV_profiles_pack :
  forallb (fun b => ((bp_PlaintextModulus b - 1) mod (2 * bp_RingDim b) =? 0)%Z) [BFVRing32KBlindV1; BFVLightBlindV1] = true.
Proof. reflexivity. Qed.

(** ** Packed integers *)

Lemma slots_to_bytes_of i payload :
  slots_to_bytes i ((fun b => Z.of_N (Byte.to_N b)) <$> payload) = inr payload.
Proof.
  revert i. induction payload as [|b payload IH]; intros i; [done|]. cbn [fmap list_fmap slots_to_bytes].
  pose proof (Byte.to_N_bounded b). destruct (Z.ltb_spec (Z.of_N (Byte.to_N b)) 0); [lia|].
  destruct (Z.ltb_spec 255 (Z.of_N (Byte.to_N b))); [lia|]. cbn [orb]. setoid_rewrite IH.
  rewrite N2Z.id. unfold byte_of_N. rewrite N.mod_small by lia. by rewrite Byte.of_to_N.
Qed.

(** A payload that fits its slots is read back from them. *)
Lemma payload_slots_roundtrip payload slotCount :
  (Z.of_nat (length payload) <= slotCount)%Z ->
  exists slots, PayloadBytesToSlots payload slotCount = Some slots /\ Z.of_nat (length slots) = slotCount /\
    SlotsToPayloadBytes slots (Z.of_nat (length payload)) = inr payload.
Proof.
  intros Hn. unfold PayloadBytesToSlots, SlotsToPayloadBytes. destruct (Z.ltb_spec slotCount 0); [lia|].
  eexists. split; [reflexivity|]. rewrite take_ge by lia.
  rewrite length_app, length_fmap, length_replicate. split; [lia|].
  destruct (Z.ltb_spec (Z.of_nat (length payload)) 0); [lia|].
  destruct (Z.ltb_spec (Z.of_nat (length payload + (Z.to_nat slotCount - length payload))) (Z.of_nat (length payload))); [lia|].
  rewrite Nat2Z.id, take_app_le, take_ge by (rewrite length_fmap; lia). apply slots_to_bytes_of.
Qed.

(** Whatever the platform makes of an overflow, quantized values stay in the
    scale. *)
Lemma QuantizeSigned_bounds out_of_range values scale q :
  (0 < scale)%Z -> q ∈ QuantizeSigned out_of_range values scale -> (- scale <= q <= scale)%Z.
Proof.
  intros Hs. unfold QuantizeSigned. destruct (Z.leb_spec scale 0); [lia|]. intros (v & -> & _)%list_elem_of_fmap.
  unfold clamp. generalize (float_to_int64 out_of_range (fmul v (of_Z scale))) as n. intros n.
  destruct (Z.ltb_spec n (- scale)); [destruct (Z.ltb_spec scale (- scale))|destruct (Z.ltb_spec scale n)]; lia.
Qed.

Module Witnesses.
Local Open Scope string_scope.

Definition params (start max : Z) : CalibrationParams := {|
  Base := {| h_Scheme := ""; h_RingDim := 16384; h_ScalingFactor := f0; h_ScalingModSize := 50; h_Depth := 0 |};
  StartDepth := start; MaxDepth := max; Tolerance := of_ratio 1 100 |}.
(** Close enough from depth 3 on. *)
Definition runs (depth : Z) : M unit (float64 * bool) := ret (if (depth <? 3)%Z then f1 else of_ratio 1 1000, false).

Lemma sweep_spec_witness :
  (exists r s' d s1, sweep (params 1 5) runs 6 tt = (Ok (Some r), s') /\
    too_coarse (params 1 5) runs 1 tt d s1 /\ (1 <= d)%Z /\ sweep_ends (params 1 5) runs d s1 r s') /\
  res_Depth <$> (match (sweep (params 1 5) runs 6 tt).1 with Ok (Some r) => Some r.1 | _ => None end) = Some 3%Z.
Proof.
  split; [|vm_compute; reflexivity].
  apply (sweep_spec (params 1 5) runs 6 tt); [|vm_compute; discriminate|vm_compute; reflexivity|vm_compute; discriminate].
  intros d s w s' H. discriminate H.
Defined.

Lemma maxSlotAbsError_bound_witness :
  [f1; f0] !! 1%nat = Some f0 /\ fleb (fabs (fsub f0 f1)) (maxSlotAbsError [f1; f0] [f1; f1]) = true.
Proof. split; [reflexivity|]. by apply (maxSlotAbsError_bound [f1; f0] [f1; f1] 1 f0 f1). Defined.

Lemma exceedsModulusBudget_iff_witness :
  exceedsModulusBudget 1024 5 50 = true <-> (1761 * 1024 < 65536 * (60 + 5 * 50))%Z.
Proof. apply (exceedsModulusBudget_iff 1024 5 50); lia. Defined.

Lemma payload_slots_roundtrip_witness :
  exists slots, PayloadBytesToSlots [Byte.x2a; Byte.xff] 4 = Some slots /\ Z.of_nat (length slots) = 4%Z /\
    SlotsToPayloadBytes slots (Z.of_nat (length [Byte.x2a; Byte.xff])) = inr [Byte.x2a; Byte.xff].
Proof. apply (payload_slots_roundtrip [Byte.x2a; Byte.xff] 4). cbn. lia. Defined.

(** A result that is not a number in every slot has error zero: it passes. *)
Example nan_result_passes : maxSlotAbsError [SpecFloat.S754_nan; SpecFloat.S754_nan] [f1; f1] = f0 /\ fleb f0 (of_ratio 1 100) = true.
Proof. done. Qed.
(** So does a result without slots. *)
Example empty_result_passes : maxSlotAbsError [] [f1; f1] = f0.
Proof. done. Qed.
(** A context handle runs the bridge with the same parameters whatever
    ScalingModSize is; the helper does not. *)
Definition with_bits (p : HelperParams) (bits : Z) : HelperParams := {|
  h_Scheme := h_Scheme p; h_RingDim := h_RingDim p; h_ScalingFactor := h_ScalingFactor p; h_ScalingModSize := bits; h_Depth := h_Depth p |}.
Example scaling_mod_size_ignored {V LS} (L : CLib V LS) p bits keys pk :
  handle_EvalMult (NewContextHandle L (with_bits p bits) keys pk) = handle_EvalMult (NewContextHandle L p keys pk) /\
  ScalingFactor (toContractParams (with_bits (Base (params 1 5)) 40)) = of_Z (2 ^ 40).
Proof. split; reflexivity. Qed.
Example sweep_never_ends : (sweep (params 4294967295 4294967295) (fun _ => ret (f1, false)) 100 tt).1 = Ok None.
Proof. by vm_compute. Qed.
End Witnesses.
