(* ===== verification/HelperSpec.v ===== *)
(** * The helper process does what the bridge does

    A method of the client, run against a helper that is up, returns what the
    bridge operation returns and leaves the helper's bridge in the same state; an
    error or a panic of the bridge is an error of the method.  Key generation
    through the helper is then the key generation of the calibrator. *)
From Stdlib Require Import ZArith NArith Lia String Ascii.
From stdpp Require Import base gmap list strings.
From S2P Require Import Prelude Bytes Encoding.
From S2P Require Import GoFloat GoFmt.
From S2P Require Import Lineage.
From S2P Require Import CGo Bridge BridgeFold BridgeEval Helper HelperClient Calib.

(** ** What encoding/json keeps *)

Definition json_float (x : float64) : bool := is_finite x && SpecFloat.valid_binary prec64 emax64 x.
(** An omitted field reads as zero, whatever its sign was. *)
Definition json_scalar (x : float64) : bool := json_float x && negb (is_zero x && signbit x).
Definition uint_ok (w n : Z) : bool := (0 <=? n)%Z && (n <? 2 ^ w)%Z.

Definition params_ok (p : HelperParams) : bool :=
  json_text (h_Scheme p) && uint_ok 32 (h_RingDim p) && json_scalar (h_ScalingFactor p) && int64_ok (h_ScalingModSize p) &&
  uint_ok 32 (h_Depth p).
Definition bfv_ok (p : BFVContractParams) : bool :=
  uint_ok 32 (bfv_RingDim p) && uint_ok 32 (MultiplicativeDepth p) && uint_ok 64 (PlaintextModulus p) && int64_ok (BatchSize p).
Definition numbers_ok (n : Numbers) : bool :=
  forallb json_float (q_Values n) && forallb int64_ok (q_IntValues n) && int64_ok (q_NSlots n) && json_scalar (q_Scalar n) &&
  forallb json_float (q_Coefficients n) && json_scalar (q_PolyLowerBound n) && json_scalar (q_PolyUpperBound n).
Definition request_ok (r : Request) : Prop :=
  json_text (Op r) = true /\ params_ok (Params r) = true /\ bfv_ok (BFVParams r) = true /\
  (forall m, json_text (text r m) = true) /\ (forall m, Forall (fun s => json_text s = true) (texts r m)) /\
  numbers_ok (numbers r) = true.
(** The client knows no a- and b-vectors of a share. *)
Definition response_ok (res : Response) : Prop :=
  (forall m, json_text (r_text res m) = true) /\ r_text res F_EvalSumShareA = EmptyString /\ r_text res F_EvalSumShareB = EmptyString /\
  forallb int64_ok (r_IntValues res) = true /\ Forall (fun s => json_text s = true) (r_Ciphertexts res).
(** A result the helper can send. *)
Definition sendable (res : Response) : bool := forallb json_float (r_Values res).

Class HelperLaws {Wire} (C : HelperCodec Wire) := {
  request_roundtrip r : request_ok r -> exists w, EncodeRequest r = Ok w /\ DecodeRequest w = Ok r;
  result_roundtrip res : response_ok res -> sendable res = true ->
    exists w, EncodeEnvelope {| Result := Some res; env_Error := EmptyString |} = Ok w /\
              DecodeEnvelope w = Ok {| Result := Some res; env_Error := EmptyString |};
  (** The text of an error may change. *)
  error_roundtrip e : exists w e', EncodeEnvelope {| Result := None; env_Error := e |} = Ok w /\
    DecodeEnvelope w = Ok {| Result := None; env_Error := e' |};
  (** NaN and the infinities have no JSON. *)
  result_unencodable res : sendable res = false ->
    exists e, EncodeEnvelope {| Result := Some res; env_Error := EmptyString |} = Err e
}.

(** ** What a call can return *)

Section Returns.
Context {V LS : Type}.
Notation CM := (M (CState V LS)).

Lemma returns_throw {A} e (P : A -> Prop) : returns (throw e : CM A) P.
Proof. by intros s a s' H. Qed.
Lemma returns_fail {A} e (P : A -> Prop) : returns (fail e : CM A) P.
Proof. by intros s a s' H. Qed.
Lemma returns_panic {A} e (P : A -> Prop) : returns (panic e : CM A) P.
Proof. by intros s a s' H. Qed.
Lemma returns_ret {A} a (P : A -> Prop) : P a -> returns (ret a : CM A) P.
Proof. by intros H s b s' [= <- _]. Qed.
Lemma returns_mono {A} (m : CM A) (P Q : A -> Prop) : (forall a, P a -> Q a) -> returns m P -> returns m Q.
Proof. intros HPQ Hm s a s' H. eapply HPQ, Hm, H. Qed.
Lemma returns_bind {A B} (m : CM A) (k : A -> CM B) P : (forall a, returns (k a) P) -> returns (bind m k) P.
Proof. intros Hk s b s' (a & s1 & _ & H)%bind_Ok_inv. eapply Hk, H. Qed.
Lemma returns_bind_with {A B} (m : CM A) (k : A -> CM B) Q P :
  returns m Q -> (forall a, Q a -> returns (k a) P) -> returns (bind m k) P.
Proof. intros Hm Hk s b s' (a & s1 & H1 & H)%bind_Ok_inv. eapply Hk, H. eapply Hm, H1. Qed.
Lemma returns_bind_none {A B} (m : CM A) (k : A -> CM B) P : returns m (fun _ => False) -> returns (bind m k) P.
Proof. intros Hm. by eapply returns_bind_with. Qed.
Lemma returns_deferring {A} c (m : CM A) P : returns m P -> returns (deferring c m) P.
Proof. intros Hm s a s' (s1 & H & _)%deferring_Ok. eapply Hm, H. Qed.
Lemma returns_with {A} k m (body : handle -> CM A) P : (forall h, returns (body h) P) -> returns (with_handle k m body) P.
Proof. intros Hb. apply returns_bind. intros h. by apply returns_deferring. Qed.
Lemma returns_with_none {A} k m (body : handle -> CM A) P : returns m (fun _ => False) -> returns (with_handle k m body) P.
Proof. intros Hm. by apply returns_bind_none. Qed.
Lemma returns_withs {A} k m (body : list handle -> CM A) P : (forall h, returns (body h) P) -> returns (with_handles k m body) P.
Proof. intros Hb. apply returns_bind. intros h. by apply returns_deferring. Qed.
Lemma returns_withs_none {A} k m (body : list handle -> CM A) P : returns m (fun _ => False) -> returns (with_handles k m body) P.
Proof. intros Hm. by apply returns_bind_none. Qed.
Lemma returns_wrap {A} f (m : CM A) P : returns m P -> returns (wrap_err f m) P.
Proof. intros Hm s a s' H%wrap_err_Ok_inv. eapply Hm, H. Qed.
Lemma returns_keypair {A} (L : CLib V LS) op hs msg (body : handle -> handle -> CM A) P :
  (forall pk sk, returns (body pk sk) P) -> returns (with_keypair L op hs msg body) P.
Proof.
  intros Hb. apply returns_bind. intros [[pk sk]|]; [|apply returns_fail]. by apply returns_deferring, returns_deferring.
Qed.
Lemma returns_collect_none {X} k (f : nat -> X -> CM handle) (bad : X) xs P :
  bad ∈ xs -> (forall i, returns (f i bad) (fun _ => False)) -> returns (collect k f xs) P.
Proof.
  intros Hin Hbad. unfold collect. generalize (@nil handle) as got. generalize 0%nat as i.
  induction xs as [|x xs IH]; intros i got; [by apply not_elem_of_nil in Hin|]. cbn [collect_from].
  apply elem_of_cons in Hin as [<-|Hin].
  - apply returns_bind_none. intros s a s' H%on_error_Ok. eapply Hbad, H.
  - apply returns_bind. intros h. by apply IH.
Qed.

Lemma fold_from_none (L : CLib V LS) ctx accum pks i shares : [] ∈ shares ->
  returns (fold_from L ctx accum pks (fun _ raw => deserializeRotKey L ctx raw) i shares) (fun _ => False).
Proof.
  revert i. induction shares as [|x shares IH]; intros i Hin; [by apply not_elem_of_nil in Hin|]. cbn [fold_from].
  apply elem_of_cons in Hin as [<-|Hin].
  - apply returns_bind_none, returns_bind_none, returns_with. intros pk. apply returns_with_none, returns_bind_none, returns_fail.
  - apply returns_bind. intros _. by apply IH.
Qed.
Lemma combineEvalSum_none (L : CLib V LS) ctx pks shares : [] ∈ shares ->
  returns (combineEvalSumIncremental L ctx pks shares) (fun _ => False).
Proof.
  intros Hin. unfold combineEvalSumIncremental. destruct shares as [|x shares]; [by apply not_elem_of_nil in Hin|].
  cbn [combineEvalSumWith]. apply elem_of_cons in Hin as [<-|Hin].
  - apply returns_with_none, returns_bind_none, returns_with_none, returns_bind_none, returns_fail.
  - apply returns_with. intros a. by apply returns_bind_none, fold_from_none.
Qed.
End Returns.

(** [none] proves that a call without one of its arguments returns nothing. *)
#[export] Hint Unfold requireNonEmptyBytes require encryptIn squaredDistanceIn partialDecryptIn fusePartialsIn evalBinaryCKKS
  with_mult_key with_sum_key with_optional_mult_key evalProductSumIn evalProductSumInContext deserialize_each keyGenNextIn evalKeyRound1LeadIn
  evalKeyRound1ParticipantIn evalKeyRound2ParticipantIn combineEvalKeyRound2In combineEvalMultIn
  deserializePublicKey deserializeCiphertext deserializeSecretKeyShare deserializeEvalMultKey deserializeRotKey
  deserializePublicKeys deserializeEvalMultKeys deserializeRotKeys fail
  DistributedKeyGenNext BFVDistributedKeyGenNext EvalKeyRound1Lead BFVEvalKeyRound1Lead EvalKeyRound1Participant
  BFVEvalKeyRound1Participant EvalKeyRound2Participant BFVEvalKeyRound2Participant CombineEvalKeyRound2 BFVCombineEvalKeyRound2
  CombineEvalKeyRound1 BFVCombineEvalKeyRound1 EncryptCKKSForContract EncryptBFVForContract PartialDecryptCKKSForContract
  PartialDecryptBFVForContract FuseCKKSPartialsForContract FuseBFVPartialsForContract EvalAddCKKSForContract
  EvalSubCKKSForContract EvalMultCKKSForContract EvalConstMultCKKSForContract EvalPolyCKKSForContract
  EvalArgmaxCKKSForContract EvalProductSumBFVForContract : none.

Ltac none_simpl := cbv beta zeta; cbn [is_empty orb negb EvalMultFinal EvalSumFinal]; rewrite ?orb_true_r.
Ltac none_go :=
  none_simpl;
  match goal with
  | |- returns (throw _) _ => apply returns_throw
  | |- returns (panic _) _ => apply returns_panic
  | |- returns (fail_if true _) _ => apply returns_fail
  | |- returns (bind _ _) _ =>
      first [solve [apply returns_bind_none; none_go] | solve [apply returns_bind; intros ?; none_go]]
  | |- returns (with_handle _ _ _) _ =>
      first [solve [apply returns_with_none; none_go] | solve [apply returns_with; intros ?; none_go]]
  | |- returns (with_handles _ _ _) _ =>
      first [solve [apply returns_withs_none; none_go] | solve [apply returns_withs; intros ?; none_go]]
  | |- returns (with_keypair _ _ _ _ _) _ => apply returns_keypair; intros ? ?; none_go
  | |- returns (deferring _ _) _ => apply returns_deferring; none_go
  | |- returns (wrap_err _ _) _ => apply returns_wrap; none_go
  | |- returns (if ?b then _ else _) _ => destruct b; none_go
  | H : ?bad ∈ ?xs |- returns (combineEvalSumIncremental _ _ _ ?xs) _ => exact (combineEvalSum_none _ _ _ _ H)
  | H : ?bad ∈ ?xs |- returns (collect _ _ ?xs) _ => apply (returns_collect_none _ _ bad); [exact H|intros ?; none_go]
  end.
Ltac none := autounfold with none; none_go.

Section None.
Context {V LS : Type} (L : CLib V LS).
Notation CM := (M (CState V LS)).

Notation nothing m := (returns m (fun _ => False)).

Lemma keyGenNext_none p : nothing (DistributedKeyGenNext L p []).
Proof. none. Qed.
Lemma BFVkeyGenNext_none p : nothing (BFVDistributedKeyGenNext L p []).
Proof. none. Qed.
Lemma round1Lead_none p : nothing (EvalKeyRound1Lead L p []).
Proof. none. Qed.
Lemma BFVround1Lead_none p : nothing (BFVEvalKeyRound1Lead L p []).
Proof. none. Qed.
Lemma round1_none p sk mb sb pk : sk = [] \/ mb = [] \/ sb = [] \/ pk = [] -> nothing (EvalKeyRound1Participant L p sk mb sb pk).
Proof. intros [->|[->|[->| ->]]]; none. Qed.
Lemma BFVround1_none p sk mb sb pk : sk = [] \/ mb = [] \/ sb = [] \/ pk = [] -> nothing (BFVEvalKeyRound1Participant L p sk mb sb pk).
Proof. intros [->|[->|[->| ->]]]; none. Qed.
Lemma round2_none p sk j pk l : sk = [] \/ j = [] \/ pk = [] -> nothing (EvalKeyRound2Participant L p sk j pk l).
Proof. intros [->|[->| ->]]; none. Qed.
Lemma BFVround2_none p sk j pk l : sk = [] \/ j = [] \/ pk = [] -> nothing (BFVEvalKeyRound2Participant L p sk j pk l).
Proof. intros [->|[->| ->]]; none. Qed.
Lemma combine1_none p pks ms ss : [] ∈ pks \/ [] ∈ ms \/ [] ∈ ss -> nothing (CombineEvalKeyRound1 L p pks ms ss).
Proof. intros [H|[H|H]]; none. Qed.
Lemma BFVcombine1_none p pks ms ss : [] ∈ pks \/ [] ∈ ms \/ [] ∈ ss -> nothing (BFVCombineEvalKeyRound1 L p pks ms ss).
Proof. intros [H|[H|H]]; none. Qed.
Lemma combine2_none p pk fs sf : pk = [] \/ [] ∈ fs -> nothing (CombineEvalKeyRound2 L p pk fs sf).
Proof. intros [->|H]; none. Qed.
Lemma BFVcombine2_none p pk fs sf : pk = [] \/ [] ∈ fs -> nothing (BFVCombineEvalKeyRound2 L p pk fs sf).
Proof. intros [->|H]; none. Qed.
Lemma encrypt_none p xs : nothing (EncryptCKKSForContract L p [] xs).
Proof. none. Qed.
Lemma BFVencrypt_none p xs : nothing (EncryptBFVForContract L p [] xs).
Proof. none. Qed.
Lemma partial_none p ct sk l : ct = [] \/ sk = [] -> nothing (PartialDecryptCKKSForContract L p ct sk l).
Proof. intros [->| ->]; none. Qed.
Lemma BFVpartial_none p ct sk l : ct = [] \/ sk = [] -> nothing (PartialDecryptBFVForContract L p ct sk l).
Proof. intros [->| ->]; none. Qed.
Lemma fuse_none p ps n : [] ∈ ps -> nothing (FuseCKKSPartialsForContract L p ps n).
Proof. intros H; none. Qed.
Lemma BFVfuse_none p ps n : [] ∈ ps -> nothing (FuseBFVPartialsForContract L p ps n).
Proof. intros H; none. Qed.
Lemma add_none p a b : a = [] \/ b = [] -> nothing (EvalAddCKKSForContract L p a b).
Proof. intros [->| ->]; none. Qed.
Lemma sub_none p a b : a = [] \/ b = [] -> nothing (EvalSubCKKSForContract L p a b).
Proof. intros [->| ->]; none. Qed.
Lemma mult_none p k a b : k = [] \/ a = [] \/ b = [] -> nothing (EvalMultCKKSForContract L p k a b).
Proof. intros [->|[->| ->]]; none. Qed.
Lemma const_mult_none p x : nothing (EvalConstMultCKKSForContract L p [] x).
Proof. none. Qed.
Lemma poly_none p k cs : nothing (EvalPolyCKKSForContract L p k [] cs).
Proof. none. Qed.
Lemma poly_coefficients_none p k ct : nothing (EvalPolyCKKSForContract L p k ct []).
Proof. none. Qed.
Lemma argmax_few p k cts cs : (length cts <? 2)%nat = true \/ (length cs <? 2)%nat = true -> nothing (EvalArgmaxCKKSForContract L p k cts cs).
Proof.
  intros [H|H]; unfold EvalArgmaxCKKSForContract; rewrite H; [none|].
  apply returns_bind. intros _. none.
Qed.
Lemma argmax_none p k cts cs : k = [] \/ [] ∈ cts -> nothing (EvalArgmaxCKKSForContract L p k cts cs).
Proof. intros [->|H]; none. Qed.
Lemma product_sum_none p em es a b n : em = [] \/ es = [] \/ a = [] \/ b = [] ->
  nothing (EvalProductSumBFVForContract L p {| EvalMultFinal := em; EvalSumFinal := es |} a b n).
Proof. intros [->|[->|[->| ->]]]; none. Qed.
End None.

(** ** A method and what it mirrors *)

Definition up {V LS} (s : CState V LS) : Helper V LS := {| bridge := s; alive := true; closed := false |}.

(** A method against a helper that is up, and an operation of its bridge. *)
Definition mirrors {V LS A} (m : M (Helper V LS) A) (d : M (CState V LS) A) : Prop := forall s,
  match d s with
  | (Ok a, s') => m (up s) = (Ok a, up s')
  | _ => exists e h', m (up s) = (Err e, h')
  end.

(** The same results, whatever the errors. *)
Definition okeq {S A} (d1 d2 : M S A) : Prop := forall s a s', d1 s = (Ok a, s') <-> d2 s = (Ok a, s').

Section Mirrors.
Context {V LS : Type}.
Notation CM := (M (CState V LS)).
Notation HM := (M (Helper V LS)).

Lemma okeq_refl {A} (d : CM A) : okeq d d.
Proof. done. Qed.
Lemma okeq_bind {A B} (d : CM A) (k1 k2 : A -> CM B) : (forall a, okeq (k1 a) (k2 a)) -> okeq (bind d k1) (bind d k2).
Proof.
  intros Hk s b s'. unfold bind. destruct (d s) as [[a|e|w] s1]; [apply Hk|done|done].
Qed.

Lemma mirrors_okeq {A} (m : HM A) d1 d2 : okeq d1 d2 -> mirrors m d1 -> mirrors m d2.
Proof.
  intros Heq Hm s. specialize (Hm s). destruct (d2 s) as [[a|e|w] s2] eqn:E2.
  - apply Heq in E2. by rewrite E2 in Hm.
  - destruct (d1 s) as [[a|e1|w] s1] eqn:E1; [|done|done]. apply Heq in E1. congruence.
  - destruct (d1 s) as [[a|e1|w1] s1] eqn:E1; [|done|done]. apply Heq in E1. congruence.
Qed.
Lemma mirrors_ret {A} (a : A) : mirrors (ret a : HM A) (ret a).
Proof. by intros s. Qed.
Lemma mirrors_bind {A B} (P : A -> Prop) (m : HM A) d (k : A -> HM B) (kd : A -> CM B) :
  returns d P -> mirrors m d -> (forall a, P a -> mirrors (k a) (kd a)) -> mirrors (bind m k) (bind d kd).
Proof.
  intros HP Hm Hk s. specialize (Hm s). unfold bind. destruct (d s) as [[a|e|w] s1] eqn:E.
  - rewrite Hm. apply Hk. eapply HP, E.
  - destruct Hm as (e' & h' & ->). eauto.
  - destruct Hm as (e' & h' & ->). eauto.
Qed.
Lemma mirrors_bind_any {A B} (m : HM A) d (k : A -> HM B) (kd : A -> CM B) :
  mirrors m d -> (forall a, mirrors (k a) (kd a)) -> mirrors (bind m k) (bind d kd).
Proof. intros Hm Hk. eapply (mirrors_bind (fun _ => True)); [|done|by intros a _; apply Hk]. by intros s a s' _. Qed.
Lemma mirrors_wrap {A} f g (m : HM A) d : mirrors m d -> mirrors (wrap_err f m) (wrap_err g d).
Proof.
  intros Hm s. specialize (Hm s). unfold wrap_err. destruct (d s) as [[a|e|w] s1].
  - by rewrite Hm.
  - destruct Hm as (e' & h' & ->). eauto.
  - destruct Hm as (e' & h' & ->). eauto.
Qed.
Lemma mirrors_wrap_l {A} f (m : HM A) d : mirrors m d -> mirrors (wrap_err f m) d.
Proof.
  intros Hm s. specialize (Hm s). unfold wrap_err. destruct (d s) as [[a|e|w] s1].
  - by rewrite Hm.
  - destruct Hm as (e' & h' & ->). eauto.
  - destruct Hm as (e' & h' & ->). eauto.
Qed.

Lemma okeq_wrap {A} f (d : CM A) : okeq d (wrap_err f d).
Proof. intros s a s'. unfold wrap_err. by destruct (d s) as [[b|e|w] s1]. Qed.
(** Through a projection of the result. *)
Lemma mirrors_bind_map {A B C} (P : A -> Prop) (g : A -> B) (m : HM B) (d1 d2 : CM A) (k : B -> HM C) (kd : A -> CM C) :
  mirrors m (let! a := d1 in ret (g a)) -> okeq d1 d2 -> returns d1 P -> (forall a, P a -> mirrors (k (g a)) (kd a)) ->
  mirrors (bind m k) (bind d2 kd).
Proof.
  intros Hm Heq HP Hk s. specialize (Hm s). rewrite bind_at in Hm. rewrite !bind_at.
  destruct (d2 s) as [[a|e|w] s1] eqn:E2.
  - apply Heq in E2. rewrite E2 in Hm. cbn in Hm. rewrite Hm. apply Hk. eapply HP, E2.
  - destruct (d1 s) as [[a|e1|w1] s2] eqn:E1; [apply Heq in E1; congruence| |]; destruct Hm as (e' & h' & ->); eauto.
  - destruct (d1 s) as [[a|e1|w1] s2] eqn:E1; [apply Heq in E1; congruence| |]; destruct Hm as (e' & h' & ->); eauto.
Qed.
(** Through a nested sequence. *)
Lemma mirrors_bind_in {A B C} (P : A -> Prop) (m : HM A) (d : CM A) (k : A -> HM C) (kd : A -> CM B) (kd' : B -> CM C) :
  returns d P -> mirrors m d -> (forall a, P a -> mirrors (k a) (bind (kd a) kd')) -> mirrors (bind m k) (bind (bind d kd) kd').
Proof.
  intros HP Hm Hk. apply (mirrors_okeq _ (bind d (fun a => bind (kd a) kd'))); [|by apply (mirrors_bind P)].
  intros s c s'. rewrite !bind_at. by destruct (d s) as [[a|e|w] s1].
Qed.
Lemma returns_something {A} (d : CM A) : returns d (fun _ => True).
Proof. by intros s a s' _. Qed.

(** *** Byte arguments *)

Lemma encodeB64_roundtrip b : base64_DecodeString (of_string (encodeB64 b)) = Some b.
Proof. unfold encodeB64. rewrite of_to_string. apply base64_roundtrip. Qed.
Lemma encodeB64_empty b : String.eqb (encodeB64 b) EmptyString = is_empty b.
Proof. by destruct b as [|x [|y [|z b]]]. Qed.
Lemma client_decode_encode b : client_decodeB64 (encodeB64 b) = (ret b : HM bytes).
Proof.
  unfold client_decodeB64. rewrite encodeB64_empty, encodeB64_roundtrip. by destruct b.
Qed.
Lemma client_decode_all_encode l : client_decode_all (encodeB64 <$> l) = (ret l : HM (list bytes)).
Proof.
  induction l as [|b l IH]; [done|]. cbn [client_decode_all fmap list_fmap]. rewrite client_decode_encode, IH. done.
Qed.

Lemma okeq_arg {A} field b (k : bytes -> CM A) : (b = [] -> returns (k b) (fun _ => False)) ->
  okeq (bind (decodeB64 field (encodeB64 b)) k) (k b).
Proof.
  intros Hk s a s'. unfold decodeB64. rewrite encodeB64_empty, encodeB64_roundtrip. destruct b as [|x b]; [|done].
  cbn [is_empty]. split; [done|]. intros H. by destruct (Hk eq_refl s a s' H).
Qed.
Lemma decode_from_encode field l i : [] ∉ l -> decode_from field i (encodeB64 <$> l) = (ret l : CM (list bytes)).
Proof.
  revert i. induction l as [|b l IH]; intros i Hl; [done|]. apply not_elem_of_cons in Hl as [Hb Hl].
  cbn [decode_from fmap list_fmap]. unfold decodeB64. rewrite encodeB64_empty, encodeB64_roundtrip.
  destruct b as [|x b]; [done|]. cbn [is_empty]. fold (decode_from (V := V) (LS := LS)).
  change (list_fmap bytes string encodeB64 l) with (encodeB64 <$> l). rewrite IH by done. done.
Qed.
Lemma decode_from_missing {A} field l i (k : list bytes -> CM A) : [] ∈ l ->
  returns (bind (decode_from field i (encodeB64 <$> l)) k) (fun _ => False).
Proof.
  intros Hl. apply returns_bind_none. revert i. induction l as [|b l IH]; intros i; [by apply not_elem_of_nil in Hl|].
  cbn [decode_from fmap list_fmap]. apply elem_of_cons in Hl as [<-|Hl].
  - apply returns_bind_none, returns_fail.
  - apply returns_bind. intros raw. apply returns_bind_none. by apply IH.
Qed.
Lemma okeq_args {A} field l (k : list bytes -> CM A) : ([] ∈ l -> returns (k l) (fun _ => False)) ->
  okeq (bind (decodeB64Slice field (encodeB64 <$> l)) k) (k l).
Proof.
  intros Hk. unfold decodeB64Slice. destruct (decide ([] ∈ l)) as [Hin|Hout].
  - intros s a s'. split; intros H; exfalso.
    + eapply (decode_from_missing field l 0 k Hin), H.
    + eapply (Hk Hin), H.
  - by rewrite decode_from_encode.
Qed.
Lemma okeq_map {A B C} (d : CM A) (g : A -> B) (f : B -> C) :
  okeq (let! a := d in ret (f (g a))) (let! b := (let! a := d in ret (g a)) in ret (f b)).
Proof. intros s c s'. rewrite !bind_at. by destruct (d s) as [[a|e|w] s1]. Qed.
Lemma okeq_trans {A} (d1 d2 d3 : CM A) : okeq d1 d2 -> okeq d2 d3 -> okeq d1 d3.
Proof. intros H1 H2 s a s'. rewrite (H1 s a s'). apply H2. Qed.
End Mirrors.

(** ** One call *)

Section Call.
Context {V LS : Type} (L : CLib V LS) (version : string).
Context {Wire : Type} `{HL : HelperLaws Wire}.
Notation CM := (M (CState V LS)).
Notation HM := (M (Helper V LS)).
Notation call := (HelperClient.call L version).
Notation run := (Helper.run L version).

Definition sent (res : Response) : CM Response := if sendable res then ret res else fail "json: unsupported value".

Lemma call_mirrors req : request_ok req -> returns (run req) response_ok ->
  mirrors (call req) (let! res := run req in sent res).
Proof.
  intros Hreq Hres s. destruct (request_roundtrip req Hreq) as (w & Henc & Hdec).
  unfold HelperClient.call, bind, get. cbn [closed up]. rewrite Henc. cbn [alive up]. unfold serve. rewrite Hdec. cbn [bridge up].
  destruct (run req s) as [[res|e|w'] s1] eqn:E.
  - unfold sent. destruct (sendable res) eqn:Hs.
    + destruct (result_roundtrip res (Hres _ _ _ E) Hs) as (reply & -> & Hreply). unfold with_bridge, ret. cbn [bridge closed up].
      by rewrite Hreply.
    + destruct (result_unencodable res Hs) as (e & ->). unfold with_bridge, throw. cbn. eauto.
  - destruct (error_roundtrip (Lineage.Error e)) as (reply & e' & -> & Hreply). unfold with_bridge. cbn [bridge closed up]. rewrite Hreply.
    cbn [env_Error Result]. destruct (negb (String.eqb e' "")); unfold throw; eauto.
  - unfold with_bridge, throw. cbn. eauto.
Qed.

(** The whole method: the helper runs [d] and answers with [resp]. *)
Lemma method_sends {A B} req (d : CM A) (resp : A -> Response) (g : A -> B) (dec : Response -> HM B) :
  request_ok req -> okeq (run req) (let! a := d in ret (resp a)) ->
  returns d (fun a => response_ok (resp a) /\ dec (resp a) = ret (g a)) ->
  mirrors (let! res := call req in dec res) (let! a := d in if sendable (resp a) then ret (g a) else fail "json: unsupported value").
Proof.
  intros Hreq Hrun Hd.
  assert (Hok : returns (run req) response_ok).
  { intros s res s' H. apply Hrun in H. apply bind_Ok_inv in H as (a & s1 & H1 & [= <- _]). by apply (Hd _ _ _ H1). }
  pose proof (call_mirrors req Hreq Hok) as Hc. intros s. specialize (Hc s). rewrite bind_at in Hc. rewrite !bind_at.
  assert (Hr := Hrun s). rewrite bind_at in Hr.
  destruct (d s) as [[a|e|w] s1] eqn:Ed.
  - destruct (proj2 (Hr (resp a) s1) eq_refl). rewrite (proj2 (Hr (resp a) s1) eq_refl) in Hc.
    unfold sent in Hc. destruct (sendable (resp a)).
    + rewrite Hc. destruct (Hd _ _ _ Ed) as [_ ->]. done.
    + destruct Hc as (e & h' & ->). unfold fail, throw. eauto.
  - destruct (run req s) as [[res|e1|w1] s2]; [by destruct (Hr res s2) as [H _]; specialize (H eq_refl)| |];
      destruct Hc as (e2 & h' & ->); eauto.
  - destruct (run req s) as [[res|e1|w1] s2]; [by destruct (Hr res s2) as [H _]; specialize (H eq_refl)| |];
      destruct Hc as (e2 & h' & ->); eauto.
Qed.
Lemma method_maps {A B} req (d : CM A) (resp : A -> Response) (g : A -> B) (dec : Response -> HM B) :
  request_ok req -> okeq (run req) (let! a := d in ret (resp a)) ->
  returns d (fun a => response_ok (resp a) /\ dec (resp a) = ret (g a) /\ sendable (resp a) = true) ->
  mirrors (let! res := call req in dec res) (let! a := d in ret (g a)).
Proof.
  intros Hreq Hrun Hd. apply (mirrors_okeq _ (let! a := d in if sendable (resp a) then ret (g a) else fail "json: unsupported value")).
  - intros s b s'. rewrite !bind_at. destruct (d s) as [[a|e|w] s1] eqn:E; [|done|done].
    by destruct (Hd _ _ _ E) as (_ & _ & ->).
  - apply (method_sends req d resp g dec Hreq Hrun). eapply returns_mono, Hd. naive_solver.
Qed.
Lemma method_mirrors {A} req (d : CM A) (resp : A -> Response) (dec : Response -> HM A) :
  request_ok req -> okeq (run req) (let! a := d in ret (resp a)) ->
  returns d (fun a => response_ok (resp a) /\ dec (resp a) = ret a /\ sendable (resp a) = true) ->
  mirrors (let! res := call req in dec res) d.
Proof.
  intros Hreq Hrun Hd. eapply mirrors_okeq, (method_maps req d resp id dec Hreq Hrun Hd).
  intros s a s'. rewrite bind_at. by destruct (d s) as [[b|e|w] s1].
Qed.
End Call.

(** ** The methods *)

(** Requests are text, and so are responses. *)
Lemma member_of_json l m : Forall (fun p => json_text p.2 = true) l -> json_text (member_of EmptyString l m) = true.
Proof.
  intros Hl. unfold member_of. destruct (find _ l) as [p|] eqn:E; [|done].
  apply find_some in E as [Hin _]. rewrite Forall_forall in Hl. by apply Hl, list_elem_of_In.
Qed.
Lemma fill_ok r ts ls n : request_ok r -> numbers_ok n = true -> request_ok (fill r ts ls n).
Proof.
  intros (Hop & Hp & Hb & _) Hn. unfold request_ok. cbn [fill Op Params BFVParams text texts numbers]. split_and!; try done.
  - intros m. apply member_of_json, Forall_fmap, Forall_true. intros p. apply base64_json_text.
  - intros m. unfold list_member_of. destruct (find _ ls); [|by constructor]. apply Forall_fmap, Forall_true.
    intros b. apply base64_json_text.
Qed.
Lemma ckks_ok op p : json_text op = true -> params_ok p = true -> request_ok (ckks op p).
Proof. intros Hop Hp. unfold request_ok. cbn [ckks Op Params BFVParams text texts numbers]. by repeat split. Qed.
Lemma bfv_request_ok op p : json_text op = true -> bfv_ok p = true -> request_ok (bfv op p).
Proof. intros Hop Hp. unfold request_ok. cbn [bfv Op Params BFVParams text texts numbers]. by repeat split. Qed.
(** The answer with the given byte members. *)
Definition answer (l : list (Member * bytes)) : Response := response ((fun p => (p.1, encodeB64 p.2)) <$> l).
Definition plain_member (m : Member) : bool := match m with F_EvalSumShareA | F_EvalSumShareB => false | _ => true end.
Lemma text_ok l ints cts res : r_text res = member_of EmptyString ((fun p => (p.1, encodeB64 p.2)) <$> l) ->
  forallb (fun p : Member * bytes => plain_member p.1) l = true -> r_IntValues res = ints -> r_Ciphertexts res = encodeB64 <$> cts ->
  forallb int64_ok ints = true -> response_ok res.
Proof.
  intros Hf Hl <- Hcts Hints. unfold response_ok. rewrite Hf, Hcts.
  assert (Habsent : forall m, plain_member m = false -> member_of EmptyString ((fun p => (p.1, encodeB64 p.2)) <$> l) m = EmptyString).
  { intros m Hm. unfold member_of. destruct (find _ _) as [p|] eqn:E; [|done].
    apply find_some in E as [Hin Heq%bool_decide_eq_true]. apply list_elem_of_In, list_elem_of_fmap in Hin as (q & -> & Hq).
    cbn [fst] in Heq. rewrite forallb_forall in Hl. apply list_elem_of_In, Hl in Hq. congruence. }
  split_and!; [|by apply Habsent|by apply Habsent|done|].
  - intros m. apply member_of_json, Forall_fmap, Forall_true. intros p. apply base64_json_text.
  - apply Forall_fmap, Forall_true. intros c. apply base64_json_text.
Qed.
Lemma answer_ok l : forallb (fun p => plain_member p.1) l = true -> response_ok (answer l).
Proof. intros Hl. by eapply (text_ok l [] []). Qed.

(** The arguments of a handler decode to what the method encoded. *)
Ltac missing := repeat first [congruence|by apply returns_bind_none; eauto 6|apply returns_bind; intros ?].
Ltac handled :=
  repeat first
    [ eapply okeq_trans; [apply okeq_arg; cbn [snd]; intros ->; solve [missing]|]
    | eapply okeq_trans; [apply okeq_args; cbn [snd]; intros ?; solve [missing]|]
    | apply okeq_refl ].

Section Handlers.
Context {V LS : Type} (L : CLib V LS) (version : string).
Context {Wire : Type} `{HL : HelperLaws Wire}.
Notation CM := (M (CState V LS)).
Notation HM := (M (Helper V LS)).
Notation nothing m := (returns m (fun _ => False)).
Notation run := (Helper.run L version).

Lemma okeq_fail_if {A} b msg (k d : CM A) : (b = true -> nothing d) -> okeq k d -> okeq (fail_if b msg ;;; k) d.
Proof.
  intros Hd Hk. destruct b; [|exact Hk]. intros s a s'. split; [done|]. intros H. by destruct (Hd eq_refl _ _ _ H).
Qed.

(** What the method reads from the answer. *)
Lemma read_answer l m p : find (fun q => bool_decide (q.1 = m)) l = Some p ->
  client_decodeB64 (r_text (answer l) m) = (ret p.2 : HM bytes).
Proof.
  intros Hf. enough (r_text (answer l) m = encodeB64 p.2) as ->; [apply client_decode_encode|].
  cbn [answer response r_text]. unfold member_of. induction l as [|q l IH]; [done|]. cbn [find fmap list_fmap fst] in *.
  destruct (bool_decide (q.1 = m)); [by injection Hf as ->|by apply IH].
Qed.
Ltac sent_back :=
  intros ? a ? _; split_and!; [by apply answer_ok|repeat (erewrite read_answer by reflexivity); by destruct a|done].
Context (r : Request) (Hr : request_ok r).
Notation answers op := (forall ts ls n, run (fill r ts ls n) = op (fill r ts ls n)).

Lemma keyShare_answer (a : DistributedKeyShare) :
  response_ok (keyShareResponse a) /\ decodeKeyShare (keyShareResponse a) = (ret a : HM _) /\ sendable (keyShareResponse a) = true.
Proof.
  split_and!; [| |done].
  - by apply (text_ok [(F_PublicKey, PublicKey a); (F_SecretKeyShare, SecretKeyShare a)] [] []).
  - unfold decodeKeyShare. change (r_text (keyShareResponse a) F_PublicKey) with (encodeB64 (PublicKey a)).
    change (r_text (keyShareResponse a) F_SecretKeyShare) with (encodeB64 (SecretKeyShare a)).
    rewrite !client_decode_encode. by destruct a.
Qed.
Lemma keygenNext_mirrors next prev : nothing (next []) -> answers (fun q => op_keygen_next q next) ->
  mirrors (keygenNext L version r prev) (next prev).
Proof.
  intros Hnone Hrun. eapply (method_mirrors L version _ (next prev) keyShareResponse); [by apply fill_ok| |].
  - rewrite Hrun. unfold op_keygen_next. handled.
  - intros s a s' _. apply keyShare_answer.
Qed.
Lemma round1Lead_mirrors lead sk : nothing (lead []) -> answers (fun q => op_round1_lead q lead) ->
  mirrors (evalKeyRound1Lead L version r sk) (lead sk).
Proof.
  intros Hnone Hrun. eapply (method_mirrors L version _ (lead sk)
    (fun a => answer [(F_EvalMultBase, EvalMultBase a); (F_EvalSumBase, EvalSumBase a)])); [by apply fill_ok| |].
  - rewrite Hrun. unfold op_round1_lead. handled.
  - sent_back.
Qed.
Lemma round1_mirrors participant sk mb sb pk :
  (forall a b c d, a = [] \/ b = [] \/ c = [] \/ d = [] -> nothing (participant a b c d)) ->
  answers (fun q => op_round1_participant q participant) ->
  mirrors (evalKeyRound1Participant L version r sk mb sb pk) (participant sk mb sb pk).
Proof.
  intros Hnone Hrun. eapply (method_mirrors L version _ (participant sk mb sb pk)
    (fun a => answer [(F_EvalMultShare, EvalMultSwitchShare a); (F_EvalSumShare, EvalSumShare a)])); [by apply fill_ok| |].
  - rewrite Hrun. unfold op_round1_participant. handled.
  - sent_back.
Qed.
Lemma combine1_mirrors combine pks ms ss :
  (forall a b c, [] ∈ a \/ [] ∈ b \/ [] ∈ c -> nothing (combine a b c)) -> answers (fun q => op_combine_round1 q combine) ->
  mirrors (combineEvalKeyRound1 L version r pks ms ss) (combine pks ms ss).
Proof.
  intros Hnone Hrun. eapply (method_mirrors L version _ (combine pks ms ss)
    (fun a => answer [(F_EvalMultJoined, EvalMultJoined a); (F_EvalSumFinal, joined_EvalSumFinal a)])); [by apply fill_ok| |].
  - rewrite Hrun. unfold op_combine_round1. handled.
  - sent_back.
Qed.

(** A method whose result is one byte field. *)
Lemma call_bytes_mirrors req (d : CM bytes) m : request_ok req -> plain_member m = true ->
  okeq (run req) (let! a := d in ret (answer [(m, a)])) -> mirrors (call_bytes L version req m) d.
Proof.
  intros Hreq Hm Hrun. apply (method_mirrors L version _ d (fun a => answer [(m, a)]) _ Hreq Hrun).
  intros s a s' _. split_and!; [by apply answer_ok; cbn; rewrite Hm| |done].
  eapply (read_answer _ m (m, a)). cbn. by rewrite bool_decide_true.
Qed.
Lemma round2_mirrors participant sk joined pk lead :
  (forall a b c l, a = [] \/ b = [] \/ c = [] -> nothing (participant a b c l)) -> answers (fun q => op_round2_participant q participant) ->
  mirrors (evalKeyRound2Participant L version r sk joined pk lead)
    (let! share := participant sk joined pk lead in ret (EvalMultFinalShare share)).
Proof.
  intros Hnone Hrun. apply call_bytes_mirrors; [by apply fill_ok|done|].
  rewrite Hrun. unfold op_round2_participant. handled.
  apply (okeq_map _ EvalMultFinalShare (fun a => answer [(F_EvalMultFinalShare, a)])).
Qed.
Lemma combine2_mirrors combine pk fs sf :
  (forall a b c, a = [] \/ [] ∈ b -> nothing (combine a b c)) -> answers (fun q => op_combine_round2 q combine) -> sf <> [] ->
  mirrors (combineEvalKeyRound2 L version r pk fs sf) (let! key := combine pk fs sf in ret (EvalMultFinal key)).
Proof.
  intros Hnone Hrun Hsf. apply (method_maps L version _ (combine pk fs sf)
    (fun a => answer [(F_EvalMultFinal, EvalMultFinal a); (F_EvalSumFinal, EvalSumFinal a)])); [by apply fill_ok| |].
  - rewrite Hrun. unfold op_combine_round2. handled.
  - sent_back.
Qed.
Lemma partial_mirrors decrypt ct sk lead :
  (forall a b l, a = [] \/ b = [] -> nothing (decrypt a b l)) -> answers (fun q => op_partial_decrypt q decrypt) ->
  mirrors (partialDecrypt L version r ct sk lead) (decrypt ct sk lead).
Proof.
  intros Hnone Hrun. apply call_bytes_mirrors; [by apply fill_ok|done|].
  rewrite Hrun. unfold op_partial_decrypt. handled.
Qed.
Lemma encrypt_mirrors encrypt joint n : numbers_ok n = true ->
  nothing (encrypt []) -> run (fill r [(F_JointPublicKey, joint)] [] n) = op_encrypt (fill r [(F_JointPublicKey, joint)] [] n) encrypt ->
  mirrors (call_bytes L version (fill r [(F_JointPublicKey, joint)] [] n) F_Ciphertext) (encrypt joint).
Proof.
  intros Hn Hnone Hrun. apply call_bytes_mirrors; [by apply fill_ok|done|]. rewrite Hrun. unfold op_encrypt. handled.
Qed.
Lemma binary_mirrors fn k a b : (forall a b, a = [] \/ b = [] -> nothing (fn a b)) -> answers (fun q => runEvalBinary q fn) ->
  mirrors (call_bytes L version (fill r [(F_EvalKeys, k); (F_CiphertextA, a); (F_CiphertextB, b)] [] no_numbers) F_Ciphertext) (fn a b).
Proof.
  intros Hnone Hrun. apply call_bytes_mirrors; [by apply fill_ok|done|]. rewrite Hrun. unfold runEvalBinary. handled.
Qed.
End Handlers.

Section Methods.
Context {V LS : Type} (L : CLib V LS) (version : string).
Context {Wire : Type} `{HL : HelperLaws Wire}.
Notation CM := (M (CState V LS)).
Notation HM := (M (Helper V LS)).

Lemma ckks_fill_ok op p ts ls n : json_text op = true -> params_ok p = true -> numbers_ok n = true -> request_ok (fill (ckks op p) ts ls n).
Proof. intros Hop Hp Hn. by apply fill_ok, Hn; apply ckks_ok. Qed.

Lemma eval_mult_mirrors p k a b : params_ok p = true ->
  mirrors (client_EvalMult L version p k a b) (EvalMultCKKSForContract L (toContractParams p) k a b).
Proof.
  intros Hp. pose proof (mult_none L (toContractParams p)) as Hnone. unfold client_EvalMult, evalBinary.
  apply (call_bytes_mirrors L version); [by apply ckks_fill_ok|done|].
  change (Helper.run L version ?q) with (op_eval_mult L q (toContractParams p)). unfold op_eval_mult. handled.
Qed.
Lemma eval_const_mult_mirrors p ct x : params_ok p = true -> json_scalar x = true ->
  mirrors (client_EvalConstMult L version p ct x) (EvalConstMultCKKSForContract L (toContractParams p) ct x).
Proof.
  intros Hp Hx. pose proof (const_mult_none L (toContractParams p)) as Hnone. unfold client_EvalConstMult.
  apply (call_bytes_mirrors L version); [apply ckks_fill_ok; [done..|]|done|].
  { unfold numbers_ok. cbn. by rewrite Hx. }
  change (Helper.run L version ?q) with (op_eval_const_mult L q (toContractParams p)). unfold op_eval_const_mult. handled.
Qed.
Definition poly_json (c : EvalPolyParams) : bool :=
  forallb json_float (Coefficients c) && json_scalar (LowerBound c) && json_scalar (UpperBound c).
Lemma poly_numbers_ok c : poly_json c = true -> numbers_ok (with_poly c) = true.
Proof.
  unfold poly_json, numbers_ok. cbn. intros ((Hc & Hl)%andb_prop & Hu)%andb_prop. by rewrite Hc, Hl, Hu.
Qed.
Lemma eval_poly_mirrors p k ct c : params_ok p = true -> poly_json c = true -> k <> [] ->
  mirrors (client_EvalPoly L version p k ct c) (EvalPolyCKKSForContract L (toContractParams p) k ct (Coefficients c)).
Proof.
  intros Hp Hc Hk. pose proof (poly_none L (toContractParams p)) as Hnone. unfold client_EvalPoly.
  apply (call_bytes_mirrors L version); [by apply ckks_fill_ok, poly_numbers_ok|done|].
  change (Helper.run L version ?q) with (op_eval_poly L q (toContractParams p)). unfold op_eval_poly. handled.
  apply okeq_fail_if; [|handled]. intros Hempty. apply returns_bind_none. cbn in Hempty.
  destruct (Coefficients c); [apply poly_coefficients_none|done].
Qed.
Lemma argmax_mirrors p k cts c : params_ok p = true -> poly_json c = true ->
  mirrors (client_Argmax L version p k cts c) (EvalArgmaxCKKSForContract L (toContractParams p) k cts (Coefficients c)).
Proof.
  intros Hp Hc. pose proof (argmax_none L (toContractParams p)) as Hnone. unfold client_Argmax.
  apply (method_mirrors L version _ _ (fun masks => {| r_text := fun _ => EmptyString; r_Lead := None; r_Values := [];
    r_IntValues := []; r_Ciphertexts := encodeB64 <$> masks |})); [by apply ckks_fill_ok, poly_numbers_ok| |].
  - change (Helper.run L version ?q) with (op_argmax L q (toContractParams p)). unfold op_argmax. handled.
    apply okeq_fail_if; [intros H|handled; apply okeq_fail_if; [intros H|handled]];
      apply returns_bind_none, argmax_few; [left|by right]. by rewrite <- (length_fmap encodeB64 cts).
  - intros s masks s' _. split_and!; [by apply (text_ok [] [] masks)|apply client_decode_all_encode|done].
Qed.
Lemma slots_numbers_ok n : int64_ok n = true -> numbers_ok (with_slots n) = true.
Proof. intros Hn. unfold numbers_ok. cbn -[int64_ok]. by rewrite Hn. Qed.
Lemma product_sum_mirrors p em es a b n : bfv_ok p = true -> int64_ok n = true ->
  mirrors (BFVEvalProductSum L version p em es a b n)
    (EvalProductSumBFVForContract L (toBFVContractParams p) {| EvalMultFinal := em; EvalSumFinal := es |} a b n).
Proof.
  intros Hp Hn. pose proof (product_sum_none L (toBFVContractParams p)) as Hnone. unfold BFVEvalProductSum.
  apply (call_bytes_mirrors L version); [apply fill_ok; [by apply bfv_request_ok|by apply slots_numbers_ok]|done|].
  change (Helper.run L version ?q) with (op_bfv_eval_product_sum L q (toBFVContractParams p)). unfold op_bfv_eval_product_sum. handled.
Qed.

(** Slots the helper can send. *)
Definition finite_slots (m : CM (list float64)) : CM (list float64) :=
  let! values := m in if forallb json_float values then ret values else fail "json: unsupported value".
Lemma fuse_mirrors p partials n : params_ok p = true -> int64_ok n = true ->
  mirrors (FusePartials L version p partials n) (finite_slots (FuseCKKSPartialsForContract L (toContractParams p) partials n)).
Proof.
  intros Hp Hn. pose proof (fuse_none L (toContractParams p)) as Hnone. unfold FusePartials.
  apply (method_sends L version _ _ (fun values => {| r_text := fun _ => EmptyString; r_Lead := None; r_Values := values;
    r_IntValues := []; r_Ciphertexts := [] |}) id); [by apply ckks_fill_ok, slots_numbers_ok| |].
  - change (Helper.run L version ?q) with (op_fuse_partials L q (toContractParams p)). unfold op_fuse_partials. handled.
  - intros s values s' _. split; [by apply (text_ok [] [] [])|done].
Qed.
Lemma bfv_fuse_mirrors p partials n : bfv_ok p = true -> int64_ok n = true ->
  (forall op hs, returns (c_ints L op hs) (fun r => forall l, r = Some l -> forallb int64_ok l = true)) ->
  mirrors (BFVFusePartials L version p partials n) (FuseBFVPartialsForContract L (toBFVContractParams p) partials n).
Proof.
  intros Hp Hn Hlib. pose proof (BFVfuse_none L (toBFVContractParams p)) as Hnone. unfold BFVFusePartials.
  apply (method_mirrors L version _ _ (fun values => {| r_text := fun _ => EmptyString; r_Lead := None; r_Values := [];
    r_IntValues := values; r_Ciphertexts := [] |})); [apply fill_ok; [by apply bfv_request_ok|by apply slots_numbers_ok]| |].
  - change (Helper.run L version ?q) with (op_bfv_fuse_partials L q (toBFVContractParams p)). unfold op_bfv_fuse_partials. handled.
  - apply (returns_mono _ (fun values => forallb int64_ok values = true)).
    { intros values Hv. split_and!; [by apply (text_ok [] values [])|done|done]. }
    unfold FuseBFVPartialsForContract, fusePartialsIn. apply returns_bind; intros _. apply returns_bind; intros _.
    apply returns_with; intros ctx. apply returns_withs; intros hs. apply returns_bind; intros _.
    unfold slots. eapply returns_bind_with; [apply Hlib|]. intros [l|] Hl; [|apply returns_fail].
    apply returns_ret. specialize (Hl l eq_refl). rewrite forallb_forall in Hl |- *.
    intros x Hx. apply Hl. rewrite <- (take_drop (Z.to_nat n) l). apply in_or_app. by left.
Qed.
End Methods.

(** ** Every method *)

Section Mirrored.
Context {V LS : Type} (L : CLib V LS) (version : string).
Context {Wire : Type} `{HL : HelperLaws Wire}.
Notation CM := (M (CState V LS)).
Notation HM := (M (Helper V LS)).
Notation cc := toContractParams.
Notation bc := toBFVContractParams.
Notation ver := version.
Implicit Types (p : HelperParams) (q : BFVContractParams).

(** The library fills an array of int64_t. *)
Definition library_int64 : Prop :=
  forall op hs, returns (c_ints L op hs) (fun r => forall l, r = Some l -> forallb int64_ok l = true).

(** The methods of the client and what they stand for.  The helper insists on an
    evaluation key for a polynomial and on an eval-sum key to keep. *)
Inductive mirrored : forall {A}, HM A -> CM A -> Prop :=
| M_KeygenFirst p : params_ok p = true -> mirrored (KeygenFirst L ver p) (DistributedKeyGenFirst L (cc p))
| M_KeygenNext p prev : params_ok p = true -> mirrored (KeygenNext L ver p prev) (DistributedKeyGenNext L (cc p) prev)
| M_Round1Lead p sk : params_ok p = true -> mirrored (client_EvalKeyRound1Lead L ver p sk) (EvalKeyRound1Lead L (cc p) sk)
| M_Round1 p sk mb sb pk : params_ok p = true ->
    mirrored (client_EvalKeyRound1Participant L ver p sk mb sb pk) (EvalKeyRound1Participant L (cc p) sk mb sb pk)
| M_Combine1 p pks ms ss : params_ok p = true ->
    mirrored (client_CombineEvalKeyRound1 L ver p pks ms ss) (CombineEvalKeyRound1 L (cc p) pks ms ss)
| M_Round2 p sk joined pk lead : params_ok p = true ->
    mirrored (client_EvalKeyRound2Participant L ver p sk joined pk lead)
      (let! share := EvalKeyRound2Participant L (cc p) sk joined pk lead in ret (EvalMultFinalShare share))
| M_Combine2 p pk fs sf : params_ok p = true -> sf <> [] ->
    mirrored (client_CombineEvalKeyRound2 L ver p pk fs sf)
      (let! key := CombineEvalKeyRound2 L (cc p) pk fs sf in ret (EvalMultFinal key))
| M_Encrypt p pk values : params_ok p = true -> forallb json_float values = true ->
    mirrored (EncryptProfile L ver p pk values) (EncryptCKKSForContract L (cc p) pk values)
| M_PartialDecrypt p ct sk lead : params_ok p = true ->
    mirrored (client_PartialDecrypt L ver p ct sk lead) (PartialDecryptCKKSForContract L (cc p) ct sk lead)
| M_Fuse p partials n : params_ok p = true -> int64_ok n = true ->
    mirrored (FusePartials L ver p partials n) (finite_slots (FuseCKKSPartialsForContract L (cc p) partials n))
| M_EvalAdd p k a b : params_ok p = true -> mirrored (client_EvalAdd L ver p k a b) (EvalAddCKKSForContract L (cc p) a b)
| M_EvalSub p k a b : params_ok p = true -> mirrored (client_EvalSub L ver p k a b) (EvalSubCKKSForContract L (cc p) a b)
| M_EvalMult p k a b : params_ok p = true -> mirrored (client_EvalMult L ver p k a b) (EvalMultCKKSForContract L (cc p) k a b)
| M_EvalConstMult p ct x : params_ok p = true -> json_scalar x = true ->
    mirrored (client_EvalConstMult L ver p ct x) (EvalConstMultCKKSForContract L (cc p) ct x)
| M_EvalPoly p k ct c : params_ok p = true -> poly_json c = true -> k <> [] ->
    mirrored (client_EvalPoly L ver p k ct c) (EvalPolyCKKSForContract L (cc p) k ct (Coefficients c))
| M_Argmax p k cts c : params_ok p = true -> poly_json c = true ->
    mirrored (client_Argmax L ver p k cts c) (EvalArgmaxCKKSForContract L (cc p) k cts (Coefficients c))
| M_BFVKeygenFirst q : bfv_ok q = true -> mirrored (BFVKeygenFirst L ver q) (BFVDistributedKeyGenFirst L (bc q))
| M_BFVKeygenNext q prev : bfv_ok q = true -> mirrored (BFVKeygenNext L ver q prev) (BFVDistributedKeyGenNext L (bc q) prev)
| M_BFVRound1Lead q sk : bfv_ok q = true -> mirrored (client_BFVEvalKeyRound1Lead L ver q sk) (BFVEvalKeyRound1Lead L (bc q) sk)
| M_BFVRound1 q sk mb sb pk : bfv_ok q = true ->
    mirrored (client_BFVEvalKeyRound1Participant L ver q sk mb sb pk) (BFVEvalKeyRound1Participant L (bc q) sk mb sb pk)
| M_BFVCombine1 q pks ms ss : bfv_ok q = true ->
    mirrored (client_BFVCombineEvalKeyRound1 L ver q pks ms ss) (BFVCombineEvalKeyRound1 L (bc q) pks ms ss)
| M_BFVRound2 q sk joined pk lead : bfv_ok q = true ->
    mirrored (client_BFVEvalKeyRound2Participant L ver q sk joined pk lead)
      (let! share := BFVEvalKeyRound2Participant L (bc q) sk joined pk lead in ret (EvalMultFinalShare share))
| M_BFVCombine2 q pk fs sf : bfv_ok q = true -> sf <> [] ->
    mirrored (client_BFVCombineEvalKeyRound2 L ver q pk fs sf)
      (let! key := BFVCombineEvalKeyRound2 L (bc q) pk fs sf in ret (EvalMultFinal key))
| M_BFVEncrypt q pk values : bfv_ok q = true -> forallb int64_ok values = true ->
    mirrored (BFVEncryptIntVector L ver q pk values) (EncryptBFVForContract L (bc q) pk values)
| M_BFVPartialDecrypt q ct sk lead : bfv_ok q = true ->
    mirrored (client_BFVPartialDecrypt L ver q ct sk lead) (PartialDecryptBFVForContract L (bc q) ct sk lead)
| M_BFVFuse q partials n : bfv_ok q = true -> int64_ok n = true ->
    mirrored (BFVFusePartials L ver q partials n) (FuseBFVPartialsForContract L (bc q) partials n)
| M_BFVProductSum q em es a b n : bfv_ok q = true -> int64_ok n = true ->
    mirrored (BFVEvalProductSum L ver q em es a b n)
      (EvalProductSumBFVForContract L (bc q) {| EvalMultFinal := em; EvalSumFinal := es |} a b n).

Lemma keygenFirst_mirrors r d : request_ok r -> Helper.run L ver r = (let! a := d in ret (keyShareResponse a)) ->
  mirrors (let! resp := HelperClient.call L ver r in decodeKeyShare resp) d.
Proof.
  intros Hr Hrun. apply (method_mirrors L ver r d keyShareResponse _ Hr); [by rewrite Hrun|].
  intros s a s' _. apply keyShare_answer.
Qed.
Lemma values_numbers_ok values ints : forallb json_float values = true -> forallb int64_ok ints = true ->
  numbers_ok (with_values values ints) = true.
Proof. intros Hv Hi. unfold numbers_ok. cbn -[int64_ok json_float forallb]. by rewrite Hv, Hi. Qed.

Hint Resolve ckks_ok bfv_request_ok : core.

Lemma mirrored_mirrors {A} (m : HM A) (d : CM A) : library_int64 -> mirrored m d -> mirrors m d.
Proof.
  intros Hints Hm. destruct Hm;
    solve [ apply keygenFirst_mirrors; [auto|reflexivity]
          | apply (keygenNext_mirrors L ver); [auto|first [apply keyGenNext_none|apply BFVkeyGenNext_none]|done]
          | apply (round1Lead_mirrors L ver); [auto|first [apply round1Lead_none|apply BFVround1Lead_none]|done]
          | apply (round1_mirrors L ver); [auto|first [apply round1_none|apply BFVround1_none]|done]
          | apply (combine1_mirrors L ver); [auto|first [apply combine1_none|apply BFVcombine1_none]|done]
          | apply (round2_mirrors L ver); [auto|first [apply round2_none|apply BFVround2_none]|done]
          | apply (combine2_mirrors L ver); [auto|first [apply combine2_none|apply BFVcombine2_none]|done|done]
          | apply (encrypt_mirrors L ver (ckks _ p)) with (encrypt := fun pk => EncryptCKKSForContract L (cc p) pk values);
              [auto|by apply values_numbers_ok|apply encrypt_none|reflexivity]
          | apply (encrypt_mirrors L ver (bfv _ q)) with (encrypt := fun pk => EncryptBFVForContract L (bc q) pk values);
              [auto|by apply values_numbers_ok|apply BFVencrypt_none|reflexivity]
          | apply (partial_mirrors L ver); [auto|first [apply partial_none|apply BFVpartial_none]|done]
          | by apply fuse_mirrors
          | apply (binary_mirrors L ver (ckks "eval_add" p)); [by apply ckks_ok|apply add_none|done]
          | apply (binary_mirrors L ver (ckks "eval_sub" p)); [by apply ckks_ok|apply sub_none|done]
          | by apply eval_mult_mirrors
          | by apply eval_const_mult_mirrors
          | by apply eval_poly_mirrors
          | by apply argmax_mirrors
          | by apply bfv_fuse_mirrors
          | by apply product_sum_mirrors ].
Qed.

(** A program over the methods, and the same program over the bridge. *)
Inductive program : forall {A}, HM A -> CM A -> Prop :=
| P_method {A} (m : HM A) (d : CM A) : mirrored m d -> program m d
| P_ret {A} (a : A) : program (ret a : HM A) (ret a)
| P_throw {A} e e' : program (throw e : HM A) (throw e')
| P_wrap {A} f f' (m : HM A) (d : CM A) : program m d -> program (wrap_err f m) (wrap_err f' d)
| P_bind {A B} (P : A -> Prop) (m : HM A) (d : CM A) (k : A -> HM B) (kd : A -> CM B) :
    program m d -> returns d P -> (forall a, P a -> program (k a) (kd a)) -> program (bind m k) (bind d kd).

(** C23. A program that uses the helper client, run against a helper process that
    is up, gives exactly what the same program gives when each method is the
    bridge operation it stands for, and leaves the helper's bridge, and the
    handles live in it, as that program leaves them; where the operations fail or
    panic, the program ends with an error.  For parameters, slots and counts
    that encoding/json carries. *)
Theorem helper_mirrors_bridge {A} (m : HM A) (d : CM A) : library_int64 -> program m d -> mirrors m d.
Proof.
  intros Hints Hm. induction Hm as [A m d Hm|A a|A e e'|A f f' m d _ IH|A B P m d k kd _ IH HP _ IHk].
  - by apply mirrored_mirrors.
  - apply mirrors_ret.
  - intros s. unfold throw. eauto.
  - by apply mirrors_wrap.
  - by apply (mirrors_bind P).
Qed.

(** *** Key generation *)

(** The chain over the bridge, its evaluation keys made as the calibrator makes
    them. *)
Fixpoint direct_shares (params : ContractParams) (prev : DistributedKeyShare) (more : nat) : CM (list DistributedKeyShare) :=
  match more with
  | O => ret []
  | S more' =>
      let! share := DistributedKeyGenNext L params (PublicKey prev) in
      let! shares := direct_shares params share more' in
      ret (share :: shares)
  end.
Definition direct_chain (params : ContractParams) (n : Z) : CM EvalKeyBundle :=
  if (n <? 2)%Z then fail "n must be >= 2" else
  let! s0 := DistributedKeyGenFirst L params in
  let! others := direct_shares params s0 (Z.to_nat n - 1) in
  let! keys := buildJointEvalMultN2 L params (s0 :: others) in
  ret {| bundle_PublicKey := last_key s0 others; bundle_EvalKeys := EvalMultFinal keys;
         bundle_EvalSumKeys := EvalSumFinal keys; KeyShares := s0 :: others |}.

Lemma keyShare_lead lead pk sk : returns (keyShare L lead pk sk) (fun share => Lead share = lead).
Proof. unfold keyShare. repeat (apply returns_bind; intros ?). by apply returns_ret. Qed.
Lemma first_leads params : returns (DistributedKeyGenFirst L params) (fun share => Lead share = true).
Proof. apply returns_with. intros ctx. apply returns_keypair. intros pk sk. apply keyShare_lead. Qed.
Lemma next_follows params prev : returns (DistributedKeyGenNext L params prev) (fun share => Lead share = false).
Proof.
  apply returns_bind. intros _. apply returns_with. intros ctx. apply returns_with. intros h. apply returns_keypair.
  intros pk sk. apply keyShare_lead.
Qed.
Lemma direct_shares_follow params prev more : returns (direct_shares params prev more) (Forall (fun share => Lead share = false)).
Proof.
  revert prev. induction more as [|more IH]; intros prev; cbn [direct_shares]; [by apply returns_ret|].
  eapply returns_bind_with; [apply next_follows|]. intros share Hs. eapply returns_bind_with; [apply IH|]. intros shares Hss.
  apply returns_ret. by constructor.
Qed.
Lemma combine2_keeps params pk fs sf : returns (CombineEvalKeyRound2 L params pk fs sf) (fun key => EvalSumFinal key = sf).
Proof.
  apply returns_bind. intros _. apply returns_with. intros ctx. apply returns_with. intros h. apply returns_withs. intros hs.
  apply returns_bind. intros _. apply returns_with. intros final. apply returns_bind. intros bs. by apply returns_ret.
Qed.

(** The serialization of a rotation key holds at least its header. *)
Definition library_serializes : Prop := forall h, returns (serializeRotKey L h) (fun raw => raw <> []).
Lemma combine1_nonempty params pks ms ss : library_serializes ->
  returns (CombineEvalKeyRound1 L params pks ms ss) (fun combined => joined_EvalSumFinal combined <> []).
Proof.
  intros Hlib. apply returns_bind. intros _. apply returns_with. intros ctx. unfold combineEvalMultIn.
  apply returns_withs. intros hpks. apply returns_withs. intros hms. do 2 (apply returns_bind; intros _).
  apply returns_with. intros joined. apply returns_bind. intros mult.
  apply (returns_bind_with _ _ (fun sum => sum <> [])); [|intros sum Hsum; by apply returns_ret].
  unfold combineEvalSumIncremental, combineEvalSumWith. destruct ss; [apply returns_panic|].
  apply returns_with. intros accum. apply returns_bind. intros _. apply Hlib.
Qed.

Lemma next_shares_mirrors what op params next prev slot more :
  (forall k, mirrors (next k) (DistributedKeyGenNext L params k)) ->
  mirrors (next_shares (V := V) (LS := LS) what op next prev slot more) (direct_shares params prev more).
Proof.
  intros Hnext. revert prev slot. induction more as [|more IH]; intros prev slot; cbn [next_shares direct_shares]; [apply mirrors_ret|].
  apply mirrors_bind_any; [by apply mirrors_wrap_l|]. intros share. apply mirrors_bind_any; [apply IH|]. intros shares. apply mirrors_ret.
Qed.
Lemma round1_shares_mirrors what op m d slot i shares :
  (forall share, mirrors (m share) (d share)) ->
  mirrors (round1_shares (V := V) (LS := LS) what op m slot shares) (joint_round1 d i shares).
Proof.
  intros Hm. revert slot i. induction shares as [|share shares IH]; intros slot i; cbn [round1_shares joint_round1]; [apply mirrors_ret|].
  apply mirrors_bind_any; [by apply mirrors_wrap|]. intros ps. apply mirrors_bind_any; [apply IH|]. intros pss. apply mirrors_ret.
Qed.
Lemma round2_shares_mirrors what op m d slot i shares :
  (forall share lead, mirrors (m share lead) (let! r2 := d share lead in ret (EvalMultFinalShare r2))) ->
  (forall j share, shares !! j = Some share -> Lead share = (slot + j =? 0)%nat) ->
  mirrors (round2_shares (V := V) (LS := LS) what op m slot shares) (joint_round2 (fun share => d share (Lead share)) i shares).
Proof.
  intros Hm. revert slot i. induction shares as [|share shares IH]; intros slot i Hlead; cbn [round2_shares joint_round2]; [apply mirrors_ret|].
  pose proof (Hlead 0%nat share eq_refl) as H0. rewrite Nat.add_0_r in H0. rewrite <- H0.
  eapply (mirrors_bind_map (fun _ => True)); [apply mirrors_wrap_l, Hm|apply okeq_wrap|apply returns_something|].
  intros r2 _. apply mirrors_bind_any; [|intros finals; apply mirrors_ret]. apply IH. intros j other Hj.
  rewrite (Hlead (S j) other Hj). by rewrite Nat.add_succ_comm.
Qed.

(** Key generation through the helper is key generation on the bridge with
    the evaluation keys the calibrator makes: for any number of parties, the
    methods that [KeygenChain] calls give the bundle of the in-process chain, and
    where that fails so does [KeygenChain].  It needs the helper to be up, the
    parameters to be carried by encoding/json, and a rotation key's
    serialization not to be empty, which the helper refuses. *)
Lemma KeygenChain_direct p n : library_int64 -> library_serializes -> params_ok p = true ->
  mirrors (KeygenChain L ver p n) (direct_chain (cc p) n).
Proof.
  intros Hints Hlib Hp. pose proof (fun A m d => @mirrored_mirrors A m d Hints) as Hm.
  unfold KeygenChain, keygenChain, direct_chain. destruct (n <? 2)%Z; [intros s; unfold fail, throw; eauto|].
  apply (mirrors_bind (fun s0 => Lead s0 = true)); [apply first_leads|by apply mirrors_wrap_l, Hm; constructor|]. intros s0 Hs0.
  apply (mirrors_bind (Forall (fun share => Lead share = false))); [apply direct_shares_follow| |].
  { apply next_shares_mirrors. intros k. by apply Hm; constructor. }
  intros others Hothers. unfold buildJointEvalMultN2.
  assert (last (s0 :: others) = Some (default s0 (last others))) as -> by (rewrite last_cons; by destruct (last others)).
  fold (last_key s0 others). apply (mirrors_bind_in (fun _ => True)); [apply returns_something|by apply mirrors_wrap, Hm; constructor|].
  intros lead _. apply (mirrors_bind_in (fun _ => True)); [apply returns_something| |].
  { apply round1_shares_mirrors. intros share. by apply Hm; constructor. }
  intros r1 _. apply (mirrors_bind_in (fun combined => joined_EvalSumFinal combined <> [])).
  { by apply returns_wrap, combine1_nonempty. }
  { by apply mirrors_wrap, Hm; constructor. }
  intros combined Hsf. apply (mirrors_bind_in (fun _ => True)); [apply returns_something| |].
  { apply (round2_shares_mirrors _ _ _ (fun share lead => EvalKeyRound2Participant L (cc p) (SecretKeyShare share)
      (EvalMultJoined combined) (last_key s0 others) lead)); [intros share l; by apply Hm; constructor|].
    intros [|j] share; cbn; [by intros [= <-]|]. intros Hj. eapply Forall_lookup_1 in Hothers; done. }
  intros fs _. eapply (mirrors_bind_map (fun key => EvalSumFinal key = joined_EvalSumFinal combined));
    [apply mirrors_wrap_l, Hm; by constructor|apply okeq_wrap|apply combine2_keeps|].
  intros key Hkey. rewrite Hkey. apply mirrors_ret.
Qed.
End Mirrored.

(** ** Instances *)

(** A codec that keeps the objects and refuses what JSON has no form for. *)
Definition Text : Type := Request + HelperEnvelope.
Definition envelope_sendable (env : HelperEnvelope) : bool :=
  match Result env with Some res => sendable res | None => true end.
#[export] Instance text_codec : HelperCodec Text := {
  EncodeRequest r := Ok (inl r);
  DecodeRequest w := match w with inl r => Ok r | inr _ => Err (ErrorsNew "json: cannot unmarshal") end;
  EncodeEnvelope env := if envelope_sendable env then Ok (inr env) else Err (ErrorsNew "json: unsupported value");
  DecodeEnvelope w := match w with inr env => Ok env | inl _ => Err (ErrorsNew "json: cannot unmarshal") end
}.
#[export] Instance text_codec_laws : HelperLaws text_codec.
Proof.
  constructor.
  - intros r _. by exists (inl r).
  - intros res _ Hs. exists (inr {| Result := Some res; env_Error := EmptyString |}). cbn. by rewrite Hs.
  - intros e. by exists (inr {| Result := None; env_Error := e |}), e.
  - intros res Hs. exists (ErrorsNew "json: unsupported value"). cbn. by rewrite Hs.
Qed.

Module Witnesses.
Import Scripted.

(** Serializations begin with a header. *)
Definition headed : CLib bytes Script := {|
  lib_new := lib_new toy; lib_new2 := lib_new2 toy; lib_array := lib_array toy; lib_status := lib_status toy;
  lib_update := lib_update toy;
  lib_buffer := lib_buffer toy;
  lib_floats := fun _ _ ls => scripted [pos_inf] ls; lib_ints := lib_ints toy; lib_fuse := lib_fuse toy;
  buffer_bytes := cons Byte.x07; cstring := cstring toy |}.

Lemma headed_int64 : library_int64 headed.
Proof.
  intros op hs s r s' H l Hl. unfold c_ints, c_call in H. apply bind_Ok_inv in H as (vs & s1 & _ & H). cbn in H.
  unfold scripted in H. destruct (answer (lib_state s1)) as [b ls]. destruct b; injection H as <- _; [|done]. by injection Hl as <-.
Qed.
Lemma headed_buffer (data : option handle) : returns (copyCBytes headed data) (fun raw => data <> None -> raw <> []).
Proof.
  intros s raw s' H Hdata. destruct data as [h|]; [|done]. apply bind_Ok_inv in H as (vs & s1 & Hvs & [= <- _]).
  unfold fetch in Hvs. cbn in Hvs. destruct (lookup_kind _ _); [|done]. by injection Hvs as <- _.
Qed.
Lemma headed_serializes : library_serializes headed.
Proof.
  intros h. apply (returns_bind_with _ _ (fun data => data <> None)).
  - intros s data s' H. apply bind_Ok_inv in H as (r & s1 & H1 & H). unfold c_call in H1.
    apply bind_Ok_inv in H1 as (vs & s2 & _ & H1). cbn in H1. destruct (answer (lib_state s2)) as [b ls]. injection H1 as <- _.
    destruct b; [|done]. by apply bind_Ok_inv in H as (hb & s3 & _ & [= <- _]).
  - intros data Hdata. apply returns_deferring. eapply returns_mono, headed_buffer. cbn. naive_solver.
Qed.
Definition some : bytes := [Byte.x2a].
Definition params : HelperParams := {|
  h_Scheme := EmptyString; h_RingDim := 16384; h_ScalingFactor := f0; h_ScalingModSize := 50; h_Depth := 3 |}.

Lemma KeygenChain_direct_witness :
  exists bundle s', KeygenChain headed "v1.5.1" params 3 (up (start [])) = (Ok bundle, up s') /\
    length (KeyShares bundle) = 3%nat /\ kinds s' = ∅.
Proof.
  pose proof (KeygenChain_direct headed "v1.5.1" params 3 headed_int64 headed_serializes eq_refl (start [])) as H.
  destruct (direct_chain headed (toContractParams params) 3 (start [])) as [[bundle|e|w] s'] eqn:E;
    vm_compute in E; [|discriminate E|discriminate E].
  exists bundle, s'. split; [exact H|]. injection E as <- <-. split; [reflexivity|]. vm_compute. reflexivity.
Defined.

(** A session: encryption, a partial decryption and its fusion. *)
Definition bfv_params : BFVContractParams := {|
  bfv_RingDim := 32768; MultiplicativeDepth := 2; PlaintextModulus := 65537; BatchSize := 0 |}.
Definition client_session : M (Helper bytes Script) (list Z) :=
  let! ct := BFVEncryptIntVector headed "v1.5.1" bfv_params some [1%Z] in
  let! partial := client_BFVPartialDecrypt headed "v1.5.1" bfv_params ct some true in
  BFVFusePartials headed "v1.5.1" bfv_params [partial] 1.
Definition bridge_session : M (CState bytes Script) (list Z) :=
  let! ct := EncryptBFVForContract headed (toBFVContractParams bfv_params) some [1%Z] in
  let! partial := PartialDecryptBFVForContract headed (toBFVContractParams bfv_params) ct some true in
  FuseBFVPartialsForContract headed (toBFVContractParams bfv_params) [partial] 1.
Lemma helper_mirrors_bridge_witness : exists s', client_session (up (start [])) = (Ok [1%Z], up s') /\ kinds s' = ∅.
Proof.
  assert (Hp : program headed "v1.5.1" client_session bridge_session).
  { apply (P_bind _ _ (fun _ => True)); [by apply P_method; constructor|apply returns_something|]. intros ct _.
    apply (P_bind _ _ (fun _ => True)); [by apply P_method; constructor|apply returns_something|]. intros partial _.
    by apply P_method; constructor. }
  pose proof (helper_mirrors_bridge headed "v1.5.1" client_session bridge_session headed_int64 Hp (start [])) as H.
  destruct (bridge_session (start [])) as [[l|e|w] s'] eqn:E; vm_compute in E; [|discriminate E|discriminate E].
  injection E as <- <-. eexists. split; [exact H|vm_compute; reflexivity].
Defined.

(** Slots that are not finite: the helper ends, and so does the client. *)
Example helper_ends :
  exists e e' h', FusePartials headed "v1.5.1" params [some] 1 (up (start [])) = (Err e, h') /\ alive h' = false /\
    Version headed "v1.5.1" h' = (Err e', h').
Proof. do 3 eexists. repeat split; vm_compute; reflexivity. Qed.
(** The range of a polynomial is sent and not read. *)
Example eval_poly_range coefficients ct keys low high low' high' : run headed "v1.5.1"
    (fill (ckks "eval_poly" params) [(F_EvalKeys, keys); (F_Ciphertext, ct)] []
       (with_poly {| Coefficients := coefficients; LowerBound := low; UpperBound := high |})) =
  run headed "v1.5.1" (fill (ckks "eval_poly" params) [(F_EvalKeys, keys); (F_Ciphertext, ct)] []
       (with_poly {| Coefficients := coefficients; LowerBound := low'; UpperBound := high' |})).
Proof. reflexivity. Qed.
(** The native Chebyshev sharpening has no coefficients, which the helper refuses. *)
Example SharpenChebyshev_refused : exists e h',
  client_EvalPoly headed "v1.5.1" params some some (SharpenChebyshev (of_Z (-1)) f1 9) (up (start [])) = (Err e, h').
Proof. do 2 eexists. vm_compute. reflexivity. Qed.
(** A constant polynomial needs no key on the bridge, and one through the helper. *)
Example EvalPoly_constant : (exists ct s', EvalPolyCKKSForContract headed (toContractParams params) [] some [f1] (start []) = (Ok ct, s')) /\
  exists e h', client_EvalPoly headed "v1.5.1" params [] some {| Coefficients := [f1]; LowerBound := f0; UpperBound := f0 |}
                 (up (start [])) = (Err e, h').
Proof. split; do 2 eexists; vm_compute; reflexivity. Qed.
End Witnesses.
