(* ===== verification/HelperMain.v ===== *)
(** * The helper as a program (cmd/openfhe-contract-helper/main.go)

    The command line, the loop of the daemon over its standard input, and the
    single request of a call without it. *)
From Stdlib Require Import ZArith NArith Lia String Ascii.
From stdpp Require Import base gmap list strings.
From S2P Require Import Prelude Bytes.
From S2P Require Import GoFloat GoFmt.
From S2P Require Import Lineage.
From S2P Require Import CGo Bridge Helper.

Inductive Mode := Daemon | ShowVersion | OneShot.
(** The first argument that is known decides; the others are ignored. *)
Fixpoint mode_of (args : list string) : Mode :=
  match args with
  | [] => OneShot
  | arg :: args' =>
      if String.eqb arg "--daemon" then Daemon
      else if String.eqb arg "--version" || String.eqb arg "-v" then ShowVersion
      else mode_of args'
  end.

Section Main.
Context {V LS : Type} (L : CLib V LS) (OpenFHEVersion : string) {Wire : Type} `{C : HelperCodec Wire}.
(** encoding/json on a response outside an envelope, and on the version. *)
Context (EncodeResponse : Response -> Outcome Wire) (version_line : string -> Wire).
Notation HS := (Helper V LS).
Local Open Scope string_scope.

(** What the process prints, how it ends (the text of [fail], or that of a
    panic), and the state of its bridge. *)
Record Printed := { stdout : list Wire; failure : option GoError; left_ : CState V LS }.

Definition decode_request (w : Wire) : GoError + Request :=
  match DecodeRequest w with
  | Ok req => inr req
  | Err e => inl (Errorf [T "decode request: "; W e])
  | Panic why => inl (ErrorsNew why)
  end.
Definition encoded {A} (encode : A -> Outcome Wire) (x : A) : GoError + Wire :=
  match encode x with
  | Ok w => inr w
  | Err e => inl (Errorf [T "encode response: "; W e])
  | Panic why => inl (ErrorsNew why)
  end.

(** [runDaemon]: the values of the input, up to the end of file. *)
Fixpoint runDaemon (input : list Wire) (s : CState V LS) : Printed :=
  match input with
  | [] => {| stdout := []; failure := None; left_ := s |}
  | w :: input' =>
      match decode_request w with
      | inl e => {| stdout := []; failure := Some e; left_ := s |}
      | inr req =>
          match run L OpenFHEVersion req s with
          | (Panic why, s') => {| stdout := []; failure := Some (ErrorsNew why); left_ := s' |}
          | (o, s') =>
              let envelope := match o with
                | Ok res => {| Result := Some res; env_Error := "" |}
                | Err e => {| Result := None; env_Error := Error e |}
                | Panic why => {| Result := None; env_Error := why |}
                end in
              match encoded EncodeEnvelope envelope with
              | inl e => {| stdout := []; failure := Some e; left_ := s' |}
              | inr reply =>
                  let rest := runDaemon input' s' in
                  {| stdout := reply :: stdout rest; failure := failure rest; left_ := left_ rest |}
              end
          end
      end
  end.

(** A single request; an input without one is an error. *)
Definition run_one_shot (input : list Wire) (s : CState V LS) : Printed :=
  match input with
  | [] => {| stdout := []; failure := Some (Errorf [T "decode request: "; T "EOF"]); left_ := s |}
  | w :: _ =>
      match decode_request w with
      | inl e => {| stdout := []; failure := Some e; left_ := s |}
      | inr req =>
          match run L OpenFHEVersion req s with
          | (Ok res, s') =>
              match encoded EncodeResponse res with
              | inl e => {| stdout := []; failure := Some e; left_ := s' |}
              | inr reply => {| stdout := [reply]; failure := None; left_ := s' |}
              end
          | (Err e, s') => {| stdout := []; failure := Some (Errorf [W e]); left_ := s' |}
          | (Panic why, s') => {| stdout := []; failure := Some (ErrorsNew why); left_ := s' |}
          end
      end
  end.

Definition main (args : list string) (input : list Wire) (s : CState V LS) : Printed :=
  match mode_of args with
  | Daemon => runDaemon input s
  | ShowVersion => {| stdout := [version_line OpenFHEVersion]; failure := None; left_ := s |}
  | OneShot => run_one_shot input s
  end.

(** ** The daemon is what the client talks to *)

(** The replies the client reads, one [serve] per request, as long as the process
    is up. *)
Fixpoint serve_all (input : list Wire) (h : HS) : list Wire * HS :=
  match input with
  | [] => ([], h)
  | w :: input' =>
      match serve L OpenFHEVersion w h with
      | (Ok (Some reply), h') => let '(replies, h'') := serve_all input' h' in (reply :: replies, h'')
      | (_, h') => ([], h')
      end
  end.

(** The daemon prints the replies of [serve] in order, leaves the same bridge, and
    stops with a failure exactly when [serve] finds the process ended. *)
Lemma runDaemon_serves input h : alive h = true ->
  stdout (runDaemon input (bridge h)) = (serve_all input h).1 /\ left_ (runDaemon input (bridge h)) = bridge (serve_all input h).2 /\
  (failure (runDaemon input (bridge h)) = None <-> alive (serve_all input h).2 = true).
Proof.
  revert h. induction input as [|w input IH]; intros h Hup; [by cbn|]. cbn [runDaemon serve_all]. unfold serve, decode_request.
  destruct (DecodeRequest w) as [req|e|why]; [|by cbn..].
  destruct (run L OpenFHEVersion req (bridge h)) as [[res|e|why] s]; cbv zeta; unfold encoded; [| |by cbn].
  all: destruct (EncodeEnvelope _) as [reply|e'|why]; [|by cbn..].
  all: specialize (IH (with_bridge h s true) eq_refl); cbn [bridge with_bridge] in IH;
    destruct (serve_all input (with_bridge h s true)) as [replies h']; cbn [fst snd stdout left_ failure] in IH |- *;
    destruct IH as (-> & -> & ?); done.
Qed.

(** A single request prints the result that the daemon would put into its
    envelope, and leaves the same bridge. *)
Lemma one_shot_result w s req res s' reply :
  decode_request w = inr req -> run L OpenFHEVersion req s = (Ok res, s') -> EncodeResponse res = Ok reply ->
  run_one_shot [w] s = {| stdout := [reply]; failure := None; left_ := s' |} /\
  forall env, EncodeEnvelope {| Result := Some res; env_Error := "" |} = Ok env ->
    runDaemon [w] s = {| stdout := [env]; failure := None; left_ := s' |}.
Proof.
  intros Hd Hr He. unfold run_one_shot, runDaemon. rewrite Hd, Hr. unfold encoded. rewrite He. split; [done|]. intros env Henv. by rewrite Henv.
Qed.
End Main.
