(* ===== verification/Apps.v ===== *)
(** * What the example applications share

    The sealed-bid auction, ride sharing and the recurring ranking collect one
    message of each participant per phase, run an encrypted argmax and a
    threshold decryption through the helper client, and sign a transcript.  The
    bodies of their hooks are the same up to names, which are arguments here.
    The helper client is part of the state a hook runs on, beside the lineage
    store.  encoding/json and the order of a range over a map are parameters. *)
From Stdlib Require Import ZArith NArith Lia String Ascii Strings.Byte.
From stdpp Require Import base gmap list strings sorting.
From S2P Require Import Prelude Bytes Encoding.
From S2P Require Import GoFloat GoFmt.
From S2P Require Import CGo Bridge BridgeEval Helper HelperClient HelperSpec.
From S2P Require Import Sign.
From S2P Require Import Lineage.
From S2P Require Import Context.
From S2P Require Import Pipeline.
From S2P Require Import Runner.
From S2P Require Import RunnerSpec.
From S2P Require Import RunnerFrame.
From S2P Require Import Defaults.

(** ** The helper beside the store *)

#[export] Instance store_and_Store {S T} `{Store S} : Store (S * T) := {
  Append n := fun st => let '(o, s') := Append n st.1 in (o, (s', st.2));
  Get r st := Get r st.1;
  WalkSession sid st := WalkSession sid st.1
}.
#[export] Program Instance store_and_Laws {S T} `{SL : StoreLaws S} : StoreLaws (S * T) := {
  store_inv st := store_inv st.1
}.
Next Obligation. intros S T HS SL n [s t] Hs. cbn in *. pose proof (append_inv n s Hs). by destruct (Append n s). Qed.
Next Obligation. intros S T HS SL n [s t] Hs Hn. cbn in *. pose proof (append_new n s Hs Hn). by destruct (Append n s). Qed.
Next Obligation. intros S T HS SL n m [s t] Hs Hg. cbn in *. by rewrite (append_dup n m s Hs Hg). Qed.
Next Obligation. intros S T HS SL n [s t] h Hs Hn. cbn in *. pose proof (append_frame n s h Hs Hn). by destruct (Append n s). Qed.
Next Obligation. intros S T HS SL h [s t] n Hs Hg. cbn in *. by eapply get_hash. Qed.
Next Obligation. intros S T HS SL sid [s t] n Hs Hw. cbn in *. by apply walk_sound. Qed.

(** A call on the helper client from a hook. *)
Definition on_helper {S T A} (m : M T A) : M (HookState (S * T)) A := fun hs =>
  let '(o, t) := m (env_store hs.2).2 in (o, (hs.1, set_store hs.2 ((env_store hs.2).1, t))).

(** ** Values of the context *)

Definition asAnyMap : TypeAssert (list (string * Any)) := fun v =>
  match v with AMap ty m => if String.eqb ty "map[string]interface {}" then Some m else None | _ => None end.
Definition AnyMap (m : list (string * Any)) : Any := AMap "map[string]interface {}" m.
(** [%T]. *)
Definition type_name (v : Any) : string :=
  match v with
  | ANil => "<nil>" | ABool _ => "bool" | AInt _ => "int" | AInt32 _ => "int32" | AInt64 _ => "int64"
  | AUint _ => "uint" | AUint32 _ => "uint32" | AUint64 _ => "uint64" | AFloat32 _ => "float32" | AFloat64 _ => "float64"
  | AString _ => "string" | ABytes _ => "[]uint8" | AStrings _ => "[]string" | AMapBytes _ => "map[string][]uint8"
  | ASlice ty _ | AMap ty _ | AStruct ty _ => ty
  end.

(** A map with string keys, by the encoding of its elements. *)
Definition any_map {A} (ty : string) (enc : A -> Any) (m : gmap string A) : Any := AMap ty (prod_map id enc <$> map_to_list m).
Definition as_map {A} (ty : string) (dec : Any -> option A) : TypeAssert (gmap string A) := fun v =>
  match v with
  | AMap ty' l => if String.eqb ty' ty then list_to_map <$> mapM (fun kv => x ← dec kv.2; Some (kv.1, x)) l else None
  | _ => None
  end.
Lemma mapM_inverse {A B} (f : A -> B) (g : B -> option A) l : (forall a, g (f a) = Some a) -> mapM g (f <$> l) = Some l.
Proof. intros Hg. induction l as [|a l IH]; [done|]. cbn. rewrite Hg. cbn. change (mapM g (f <$> l)) with (mapM g (f <$> l)). by rewrite IH. Qed.
Lemma map_value {A} ty (enc : A -> Any) dec m : (forall a, dec (enc a) = Some a) -> as_map ty dec (any_map ty enc m) = Some m.
Proof.
  intros Hd. unfold any_map, as_map. rewrite String.eqb_refl.
  rewrite (mapM_inverse (prod_map id enc)); [cbn; by rewrite list_to_map_to_list|]. intros [k a]. cbn. by rewrite Hd.
Qed.

(** encoding/json: the string members with the given names of an object, an
    absent one being empty; the argmax envelope; a [map[string]any]. *)
Class AppCodec := {
  Unmarshal_strings : list string -> bytes -> Outcome (string -> string);
  Marshal_masks : list string -> list string -> Outcome bytes;
  Marshal_map : list (string * Any) -> option bytes
}.

(** The number of a float conversion that does not fit, which depends on the
    machine. *)
Class FloatConversion := { uint32_of : float64 -> Z; int_of : float64 -> Z }.
Definition to_uint32 `{FloatConversion} (x : float64) : Z :=
  match ftrunc x with
  | Some n => if (0 <=? n)%Z && (n <? 2 ^ 32)%Z then n else uint32_of x
  | None => uint32_of x
  end.
Definition to_int `{FloatConversion} (x : float64) : Z :=
  match ftrunc x with
  | Some n => if int64_ok n then n else int_of x
  | None => int_of x
  end.

(** [sort.Strings] of the keys of a map. *)
Definition sorted_keys {A} (m : gmap string A) : list string := merge_sort String.le (map_to_list m).*1.
(** [crypto_ctx[k]] as a uint32; one of the readers has no case for an int32. *)
Definition as_uint32 `{FloatConversion} (int32_too : bool) (contract : list (string * Any)) (k : string) : Outcome Z :=
  match assoc k contract with
  | None => Err (Errorf [T "crypto_ctx."; T k; T " missing"])
  | Some v =>
      match v with
      | AInt n | AInt64 n => Ok (n mod 2 ^ 32)%Z
      | AInt32 n => if int32_too then Ok (n mod 2 ^ 32)%Z else Err (Errorf [T "crypto_ctx."; T k; T " has type "; T (type_name v)])
      | AUint32 n => Ok n
      | AFloat64 x => Ok (to_uint32 x)
      | _ => Err (Errorf [T "crypto_ctx."; T k; T " has type "; T (type_name v)])
      end
  end.
(** [crypto_ctx[k]] as an int, zero when it is absent or of another type. *)
Definition as_int `{FloatConversion} (sized_too : bool) (contract : list (string * Any)) (k : string) : Z :=
  match assoc k contract with
  | Some (AInt n) => n
  | Some (AInt32 n) | Some (AInt64 n) => if sized_too then n else 0
  | Some (AFloat64 x) => to_int x
  | _ => 0
  end.
Definition contract_params (ring_dim depth scaling_mod_size : Z) : HelperParams := {|
  h_Scheme := EmptyString; h_RingDim := ring_dim; h_ScalingFactor := f0; h_ScalingModSize := scaling_mod_size; h_Depth := depth |}.
(** [name] is the identifier of the key in the error texts. *)
Definition contract_of (key name unexpected : string) (c : SessionContext) : Outcome (list (string * Any)) :=
  match ctx_Get key c with
  | None => Err (Errorf [T name; T " missing"])
  | Some v =>
      match asAnyMap v with
      | None => Err (Errorf [T name; T unexpected; T (type_name v)])
      | Some contract => Ok contract
      end
  end.
Definition read_params `{FloatConversion} (int32_too sized_too : bool) (contract : Outcome (list (string * Any))) : Outcome HelperParams :=
  match contract with
  | Err e => Err e
  | Panic w => Panic w
  | Ok contract =>
      match as_uint32 int32_too contract "ring_dim" with
      | Ok ringDim =>
          match as_uint32 int32_too contract "depth" with
          | Ok depth => Ok (contract_params ringDim depth (as_int sized_too contract "scaling_mod_size"))
          | Err e => Err e
          | Panic w => Panic w
          end
      | Err e => Err e
      | Panic w => Panic w
      end
  end.

(** ** Payloads *)

Section Payloads.
Context `{AppCodec}.
(** The text of the error of [hex.DecodeString]. *)
Context (hex_error : string -> GoError).
Definition hex_DecodeString (s : string) : Outcome bytes :=
  match hex_decode s with Some b => Ok b | None => Err (hex_error s) end.

Definition decode_ciphertext (field : string) (raw : bytes) : Outcome bytes :=
  match Unmarshal_strings [field] raw with
  | Err e => Err e
  | Panic w => Panic w
  | Ok msg => if String.eqb (msg field) EmptyString then Err (Errorf [T field; T " is empty"]) else hex_DecodeString (msg field)
  end.
Definition decodePartialCiphertext (missing : string) (raw : bytes) : Outcome bytes :=
  match Unmarshal_strings ["partial_ct"; "partial"]%string raw with
  | Err e => Err e
  | Panic w => Panic w
  | Ok msg =>
      let field := if String.eqb (msg "partial_ct"%string) EmptyString then msg "partial"%string else msg "partial_ct"%string in
      if String.eqb field EmptyString then Err (Errorf [T missing]) else hex_DecodeString field
  end.

(** [cts[i]] for the keys of [msgs] in the order [keys]. *)
Fixpoint decode_all (wrap : string -> GoError -> GoError) (decode : bytes -> Outcome bytes) (msgs : list (string * bytes))
    : Outcome (list bytes) :=
  match msgs with
  | [] => Ok []
  | (from, raw) :: msgs' =>
      match decode raw with
      | Err e => Err (wrap from e)
      | Panic w => Panic w
      | Ok ct =>
          match decode_all wrap decode msgs' with
          | Ok cts => Ok (ct :: cts)
          | o => o
          end
      end
  end.
(** The messages in the order of their senders' names. *)
Definition sorted_messages (m : gmap string bytes) : list (string * bytes) := (fun k => (k, default [] (m !! k))) <$> sorted_keys m.

Definition signTranscript (t : list (string * Any)) : string :=
  hex_encode (sha256 (default [] (Marshal_map (filter (fun kv => kv.1 <> "signature"%string) t)))).
End Payloads.

(** *** What the readers of payloads promise, without the readers

    [carries fields raw ct]: among the members [fields] of the object [raw]
    the first that is not empty is the hexadecimal text of [ct].
    [in_name_order m l]: [l] has every message of [m] once, and the names of
    its senders increase strictly, byte by byte. *)
Definition carries `{AppCodec} (fields : list string) (raw ct : bytes) : Prop :=
  exists msg text, Unmarshal_strings fields raw = Ok msg /\
    head (filter (fun s => s <> EmptyString) (msg <$> fields)) = Some text /\ hex_decode text = Some ct.
Definition name_before (a b : string) : Prop := String.compare a b = Lt.
Definition in_name_order (m : gmap string bytes) (l : list (string * bytes)) : Prop :=
  l ≡ₚ map_to_list m /\ StronglySorted name_before l.*1.

Lemma hex_DecodeString_iff hex_error text ct : hex_DecodeString hex_error text = Ok ct <-> hex_decode text = Some ct.
Proof. unfold hex_DecodeString. destruct (hex_decode text); split; congruence. Qed.
Lemma decode_ciphertext_iff `{AppCodec} hex_error field raw ct :
  decode_ciphertext hex_error field raw = Ok ct <-> carries [field] raw ct.
Proof.
  unfold decode_ciphertext, carries. destruct (Unmarshal_strings [field] raw) as [msg|er|w]; cycle 1.
  1-2: split; [done|by intros (? & ? & ? & _)].
  destruct (String.eqb_spec (msg field) EmptyString) as [He|He].
  - split; [done|]. intros (? & text & [= <-] & Hh & _). cbn in Hh. by rewrite decide_False in Hh by naive_solver.
  - rewrite hex_DecodeString_iff. split.
    + intros Hd. exists msg, (msg field). split; [done|]. split; [|done]. cbn. by rewrite decide_True.
    + intros (? & text & [= <-] & Hh & Hd). cbn in Hh. rewrite decide_True in Hh by done. by injection Hh as ->.
Qed.
Lemma decodePartialCiphertext_iff `{AppCodec} hex_error missing raw ct :
  decodePartialCiphertext hex_error missing raw = Ok ct <-> carries ["partial_ct"; "partial"]%string raw ct.
Proof.
  unfold decodePartialCiphertext, carries. destruct (Unmarshal_strings _ raw) as [msg|er|w]; cycle 1.
  1-2: split; [done|by intros (? & ? & ? & _)].
  assert (Hhead : forall o, (exists msg' text, Ok msg = Ok msg' /\
      head (filter (fun s => s <> EmptyString) (msg' <$> ["partial_ct"; "partial"]%string)) = Some text /\ hex_decode text = o) <->
    exists text, head (filter (fun s => s <> EmptyString) [msg "partial_ct"; msg "partial"]%string) = Some text /\ hex_decode text = o).
  { intros o. split; [by intros (? & text & [= <-] & Hh); exists text|]. intros (text & Hh). by exists msg, text. }
  rewrite Hhead. clear Hhead. rewrite !filter_cons, filter_nil.
  destruct (String.eqb_spec (msg "partial_ct"%string) EmptyString) as [H1|H1]; [rewrite decide_False by naive_solver|rewrite decide_True by done].
  - destruct (String.eqb_spec (msg "partial"%string) EmptyString) as [H2|H2]; [rewrite decide_False by naive_solver|rewrite decide_True by done].
    + split; [done|by intros (? & ? & _)].
    + rewrite hex_DecodeString_iff. cbn. split; [by eexists|]. by intros (? & [= <-] & ?).
  - destruct (String.eqb_spec (msg "partial_ct"%string) EmptyString) as [?|_]; [done|].
    rewrite hex_DecodeString_iff. cbn. split; [by eexists|]. by intros (? & [= <-] & ?).
Qed.
Lemma decode_all_iff wrap decode msgs cts :
  decode_all wrap decode msgs = Ok cts <-> Forall2 (fun m ct => decode m.2 = Ok ct) msgs cts.
Proof.
  revert cts. induction msgs as [|[from raw] msgs IH]; intros cts; cbn.
  { split; [intros [= <-]; constructor|by inversion 1]. }
  destruct (decode raw) as [ct|er|w] eqn:E; cycle 1.
  1-2: split; [done|]; inversion 1; subst; cbn in *; congruence.
  split.
  - destruct (decode_all wrap decode msgs) as [cts'|er|w] eqn:El; [|done|done]. intros [= <-]. constructor; [done|]. by apply IH.
  - intros Hf. apply Forall2_cons_inv_l in Hf as (ct' & cts' & Hct & Hcts & ->). cbn in Hct. rewrite E in Hct. injection Hct as <-.
    apply IH in Hcts. by rewrite Hcts.
Qed.

Lemma sorted_messages_names m : (sorted_messages m).*1 = sorted_keys m.
Proof. unfold sorted_messages. rewrite <- list_fmap_compose. apply list_fmap_id. Qed.
Lemma sorted_messages_perm m : sorted_messages m ≡ₚ map_to_list m.
Proof.
  unfold sorted_messages, sorted_keys. rewrite merge_sort_Permutation, <- list_fmap_compose.
  rewrite <- (list_fmap_id (map_to_list m)) at 2.
  match goal with |- ?l ≡ₚ ?l' => enough (l = l') as -> by done end. apply Forall_fmap_ext_1, Forall_forall.
  intros [k b] Hkb%elem_of_map_to_list. cbn. by rewrite Hkb.
Qed.
Lemma name_before_strict l : NoDup l -> StronglySorted String.le l -> StronglySorted name_before l.
Proof.
  intros Hnd Hs. induction Hs as [|x l Hs IH Hx]; [constructor|]. apply NoDup_cons in Hnd as [Hnotin Hnd].
  constructor; [by apply IH|]. rewrite Forall_forall in Hx |- *. intros y Hy. specialize (Hx y Hy).
  unfold name_before. unfold String.le, String.leb in Hx. destruct (String.compare x y) eqn:E; [|done|done].
  apply String.compare_eq_iff in E as ->. done.
Qed.

Lemma name_before_le l : StronglySorted name_before l -> StronglySorted String.le l.
Proof.
  induction 1 as [|x l Hs IH Hx]; [constructor|]. constructor; [done|]. eapply Forall_impl; [exact Hx|].
  intros y Hy. unfold name_before in Hy. unfold String.le, String.leb. by rewrite Hy.
Qed.
Lemma sorted_messages_order m : in_name_order m (sorted_messages m).
Proof.
  split; [apply sorted_messages_perm|]. rewrite sorted_messages_names. apply name_before_strict.
  - unfold sorted_keys. rewrite merge_sort_Permutation. apply NoDup_fst_map_to_list.
  - apply (StronglySorted_merge_sort String.le).
Qed.
(** There is one such order. *)
Lemma in_name_order_unique m l : in_name_order m l -> l = sorted_messages m.
Proof.
  intros [Hp Hs]. destruct (sorted_messages_order m) as [Hp' Hs'].
  assert (Hk : l.*1 = (sorted_messages m).*1).
  { apply (StronglySorted_unique String.le); [by apply name_before_le..|]. by rewrite Hp, Hp'. }
  assert (Hall : forall l', l' ≡ₚ map_to_list m -> l' = (fun k => (k, default [] (m !! k))) <$> l'.*1); cycle 1.
  { rewrite (Hall l Hp), (Hall _ Hp'). by rewrite Hk. }
  intros l' Hl'. rewrite <- list_fmap_compose. rewrite <- (list_fmap_id l') at 1. apply Forall_fmap_ext_1, Forall_forall.
  intros [k b] Hkb. rewrite Hl' in Hkb. apply elem_of_map_to_list in Hkb. cbn. by rewrite Hkb.
Qed.

(** ** Hooks *)

Definition inline_phase {S} (name entry exit : string) (consumes : list string) (req prov : ContextSchema)
    (enter : M (HookState S) unit) (onMessage : string -> string -> bytes -> M (HookState S) unit)
    (complete : SessionContext -> bool) (exit_hook : M (HookState S) unit) : Phase S := {|
  Name := name; Lifetime := LifetimePerSession; RunsAt := RunsAtInline; EntryState := entry; ExitState := exit;
  InternalStates := []; ConsumedMessageTypes := consumes; Requires := req; Provides := prov;
  Enter := enter; OnMessage := onMessage; CheckComplete := complete; Exit := exit_hook |}.

Definition accumulate {S} (bucket : string) (_ from : string) (payload : bytes) : M (HookState S) unit :=
  modify_ctx (AccumulateMessage bucket from payload).
(** One message of each participant. *)
Definition quorum (participants bucket : string) (c : SessionContext) : bool :=
  match TryGet asStrings participants c with
  | None => false
  | Some ps => QuorumReached bucket (Z.of_nat (length ps)) c
  end.
(** Keys that the trigger has set before. *)
Definition pre_shared (pk ek : string) (c : SessionContext) : bool :=
  match TryGet asBytes pk c, TryGet asBytes ek c with
  | Some p, Some e => (0 <? length p)%nat && (0 <? length e)%nat
  | _, _ => false
  end.

Section Hooks.
Context {S V LS : Type} (L : CLib V LS) (OpenFHEVersion : string) {Wire : Type} `{C : HelperCodec Wire}.
Context `{J : AppCodec}.
Notation AS := (S * Helper V LS)%type.
Notation AM := (M (HookState AS)).
Local Open Scope string_scope.

Definition set_keys (pk shares ek : string) (k : bytes) (s : gmap string bytes) (e : bytes) : AM unit :=
  modify_ctx (ctx_Set pk (ABytes k)) ;;; modify_ctx (ctx_Set shares (AMapBytes s)) ;;; modify_ctx (ctx_Set ek (ABytes e)).

(** [helper] says whether the phase has a client; [name] is the identifier of
    the participants key in the error text. *)
Definition keygen_Exit (bucket participants name pk shares ek : string) (read : SessionContext -> Outcome HelperParams)
    (helper : bool) : AM unit :=
  let! c := get_ctx in
  let received := AccumulatedMessages bucket c in
  if pre_shared pk ek c then modify_ctx (ctx_Set shares (AMapBytes received))
  else if negb helper then set_keys pk shares ek (of_string "stub-collective-pk") received (of_string "stub-eval-keys")
  else
    let ps := default [] (TryGet asStrings participants c) in
    if (length ps =? 0)%nat then throw (Errorf [T "PhaseKeygen: "; T name; T " is missing or empty"]) else
    let! params := wrap_err (fun e => Errorf [T "PhaseKeygen: "; W e]) (lift_outcome (read c)) in
    let! bundle := wrap_err (fun e => Errorf [T "PhaseKeygen: helper.KeygenChain: "; W e])
      (on_helper (KeygenChain L OpenFHEVersion params (Z.of_nat (length ps)))) in
    set_keys pk shares ek (bundle_PublicKey bundle) received (bundle_EvalKeys bundle).

Definition stub_winner (m : gmap string bytes) : bytes :=
  of_string "stub-winner-of-" ++ [byte_of_N (Z.to_N (Z.of_nat (size m) mod 256))].

(** [what] is the phase in the error texts, [name] the identifier of the key of
    the evaluation keys, [item] what a message carries. *)
Definition argmax_Enter (what name item marshal bucket ek out : string) (read : SessionContext -> Outcome HelperParams)
    (decode : bytes -> Outcome bytes) (helper : option EvalPolyParams) : AM unit :=
  let! c := get_ctx in
  let received := AccumulatedMessages bucket c in
  match helper with
  | None => modify_ctx (ctx_Set out (ABytes (stub_winner received)))
  | Some sharpening =>
      let! params := lift_outcome (read c) in
      let evalKeys := default [] (TryGet asBytes ek c) in
      if (length evalKeys =? 0)%nat then throw (Errorf [T what; T ": "; T name; T " is missing or empty"]) else
      let! cts := lift_outcome (decode_all (fun from e => Errorf [T what; T ": decode "; T item; T " from "; T from; T ": "; W e])
        decode (sorted_messages received)) in
      let! masks := wrap_err (fun e => Errorf [T what; T ": helper.Argmax: "; W e])
        (on_helper (client_Argmax L OpenFHEVersion params evalKeys cts sharpening)) in
      let! body := wrap_err (fun e => Errorf [T what; T marshal; W e])
        (lift_outcome (Marshal_masks (sorted_keys received) (hex_encode <$> masks))) in
      modify_ctx (ctx_Set out (ABytes body))
  end.

(** [outcome] gives the cleartext result: without a client, or of the first
    slot; and of the number of partials. *)
Definition decrypt_Exit (what bucket out : string) (range : gmap string bytes -> list (string * bytes))
    (read : SessionContext -> Outcome HelperParams) (decode : bytes -> Outcome bytes) (nSlots : Z) (helper : bool)
    (outcome : option float64 -> nat -> list (string * Any)) : AM unit :=
  let! c := get_ctx in
  let partials := AccumulatedMessages bucket c in
  if negb helper then modify_ctx (ctx_Set out (AnyMap (outcome None (size partials)))) else
  let! params := wrap_err (fun e => Errorf [T what; T ": "; W e]) (lift_outcome (read c)) in
  let! raw := lift_outcome (decode_all (fun _ e => Errorf [T what; T ": decode partial: "; W e]) decode (range partials)) in
  let! values := wrap_err (fun e => Errorf [T what; T ": fuse: "; W e]) (on_helper (FusePartials L OpenFHEVersion params raw nSlots)) in
  modify_ctx (ctx_Set out (AnyMap (outcome (Some (hd f0 values)) (size partials)))).

(** The transcript carries the result under [field]. *)
Definition transcript_of (field by_whom : string) (sid : string) (result : Any) : list (string * Any) :=
  let t := [("session_id", AString sid); (field, result); ("settlement_by", AString by_whom)] in
  (t ++ [("signature", AString (signTranscript t))])%list.
Definition settle_transcript (result out field by_whom : string) : AM unit :=
  modify_ctx (fun c => ctx_Set out (AnyMap (transcript_of field by_whom (ctxSessionID c) (default ANil (ctx_Get result c)))) c).
End Hooks.

(** ** One step of a runner without lineage *)

Section Steps.
Context {S : Type} `{Store S}.
Context (r : SessionRunner S) (Hplain : runner_lineage r = None).
Implicit Types (p q : Phase S) (c : SessionContext) (e : Env S).

Definition at_phase p (entered : bool) c : sessionTracker S :=
  {| tr_ctx := c; tr_state := EntryState p; tr_current := Some p; tr_entered := entered |}.
Definition ended (entered : bool) c : sessionTracker S :=
  {| tr_ctx := c; tr_state := StateNone; tr_current := None; tr_entered := entered |}.

Lemma step_to p q c e entered : ExitState p <> StateNone -> byEntryState r !! ExitState p = Some q -> EntryState q = ExitState p ->
  advance_step r (at_phase p entered c, e) =
  match Exit p (c, e) with
  | (Ok _, (c1, e1)) =>
      match Enter q (c1, e1) with
      | (Ok _, (c2, e2)) => (Ok (if (0 <? length (ConsumedMessageTypes q))%nat then Some true
                                 else if negb (CheckComplete q c2) then Some true else None), (at_phase q true c2, e2))
      | (Err er, (c2, e2)) => (Err (wrap_phase q ": Enter: " er), (at_phase q false c2, e2))
      | (Panic w, (c2, e2)) => (Panic w, (at_phase q false c2, e2))
      end
  | (Err er, (c1, e1)) => (Err (wrap_phase p ": Exit: " er), (at_phase p entered c1, e1))
  | (Panic w, (c1, e1)) => (Panic w, (at_phase p entered c1, e1))
  end.
Proof.
  intros Hx Hq He. unfold advance_step. rewrite (bind_Ok get _ _ _ _ eq_refl). cbn [fst at_phase tr_current].
  unfold bind at 1, wrap_err at 1, run_hook at 1. cbn [fst snd at_phase tr_ctx].
  destruct (Exit p (c, e)) as [[u|er|w] [c1 e1]]; [|done|done].
  unfold bind at 1, wrap_err at 1, run_hook at 1. cbn [with_ctx fst snd tr_ctx].
  unfold commitPhaseOutputsIfEnabled. rewrite Hplain. cbn [ret with_ctx].
  destruct (String.eqb_spec (ExitState p) StateNone) as [?|_]; [done|]. rewrite Hq.
  unfold bind at 1, set_position, modify. cbn [fst snd tr_ctx].
  unfold bind at 1, wrap_err at 1, run_hook at 1. cbn [fst snd tr_ctx with_ctx tr_state tr_current tr_entered].
  unfold at_phase. rewrite He.
  destruct (Enter q (c1, e1)) as [[u2|er|w] [c2 e2]]; [|done|done].
  unfold bind at 1, set_entered, modify. cbn [fst snd tr_ctx tr_state tr_current tr_entered with_ctx].
  unfold bind, get. cbn [fst snd tr_ctx]. destruct (0 <? _)%nat; [done|]. by destruct (negb _).
Qed.
Lemma step_end p c e entered : ExitState p = StateNone -> Exit p = ret tt ->
  advance_step r (at_phase p entered c, e) = (Ok (Some true), (ended entered c, e)).
Proof.
  intros Hx Hp. unfold advance_step. rewrite (bind_Ok get _ _ _ _ eq_refl). cbn [fst at_phase tr_current].
  rewrite Hx, Hp. unfold bind at 1, wrap_err at 1, run_hook at 1. cbn [fst snd at_phase tr_ctx ret].
  unfold bind at 1, wrap_err at 1, run_hook at 1. unfold commitPhaseOutputsIfEnabled. rewrite Hplain. by cbn.
Qed.

(** A phase that collects one message of each participant. *)
Record collects p (ty participants bucket : string) : Prop := {
  collects_type : phaseConsumes p ty = true;
  collects_key : participants <> bucket;
  collects_message : OnMessage p = accumulate bucket;
  collects_complete : CheckComplete p = quorum participants bucket
}.
Lemma quorum_after participants bucket from payload c ps : participants <> bucket ->
  TryGet asStrings participants c = Some ps -> let raw := <[from := payload]> (AccumulatedMessages bucket c) in
  quorum participants bucket (AccumulateMessage bucket from payload c) = negb (size raw <? length ps)%nat.
Proof.
  intros Hne Hps raw. unfold quorum.
  assert (TryGet asStrings participants (AccumulateMessage bucket from payload c) = Some ps) as ->.
  { rewrite <- Hps. unfold TryGet, ctx_Get, AccumulateMessage, ctx_Update, with_values. cbn [values]. by rewrite lookup_insert_ne. }
  unfold QuorumReached. rewrite MessageCount_size, AccumulatedMessages_accumulate. fold raw.
  rewrite <- Nat.leb_antisym. destruct (Nat.leb_spec (length ps) (size raw)); [apply Z.leb_le|apply Z.leb_gt]; lia.
Qed.
(** A message that is read as [x] waits for the others, or is the last one and
    the session advances. *)
Lemma collect_decoded p ty participants bucket sid from payload x st entered c ps : phaseConsumes p ty = true ->
  participants <> bucket -> (forall hs, OnMessage p ty from payload hs = accumulate bucket ty from x hs) ->
  CheckComplete p = quorum participants bucket ->
  sessions st !! sid = Some (at_phase p entered c) -> TryGet asStrings participants c = Some ps ->
  let c' := AccumulateMessage bucket from x c in let raw := <[from := x]> (AccumulatedMessages bucket c) in
  HandleMessage r sid ty from payload st =
  let '(o, (t', e')) := if (size raw <? length ps)%nat then (Ok false, (at_phase p entered c', rs_env st))
                        else advance r (at_phase p entered c', rs_env st) in
  (o, set_env (set_sessions st (<[sid := t']> (sessions st))) e').
Proof.
  intros Hty Hne Hon Hcheck Ht Hps c' raw. unfold HandleMessage, with_tracker. rewrite Ht. unfold handle. rewrite bind_at.
  assert (deliver ty from payload (at_phase p entered c, rs_env st) =
    (Ok (negb (size raw <? length ps)%nat), (at_phase p entered c', rs_env st))) as ->.
  { unfold deliver. rewrite (bind_Ok get _ _ _ _ eq_refl). cbn [fst at_phase tr_current]. rewrite Hty. cbn [negb].
    unfold bind at 1, wrap_err, run_hook. rewrite Hon, Hcheck. unfold accumulate, modify_ctx. cbn [fst snd tr_ctx with_ctx].
    unfold bind, get, ret. cbn [fst snd tr_ctx with_ctx at_phase tr_state tr_current tr_entered].
    by rewrite (quorum_after participants bucket from x c ps Hne Hps). }
  by destruct (size raw <? length ps)%nat.
Qed.
Lemma collect_outcome p ty participants bucket sid from payload st entered c ps : collects p ty participants bucket ->
  sessions st !! sid = Some (at_phase p entered c) -> TryGet asStrings participants c = Some ps ->
  let c' := AccumulateMessage bucket from payload c in let raw := <[from := payload]> (AccumulatedMessages bucket c) in
  HandleMessage r sid ty from payload st =
  let '(o, (t', e')) := if (size raw <? length ps)%nat then (Ok false, (at_phase p entered c', rs_env st))
                        else advance r (at_phase p entered c', rs_env st) in
  (o, set_env (set_sessions st (<[sid := t']> (sessions st))) e').
Proof.
  intros [Hty Hne Hon Hcheck]. apply collect_decoded; [done|done| |done]. intros hs. by rewrite Hon.
Qed.
(** A message that is refused leaves the session as it was. *)
Lemma refused_outcome p ty sid from payload st entered c (o : Outcome bytes) : phaseConsumes p ty = true ->
  match o with
  | Err er => forall hs, OnMessage p ty from payload hs = (Err er, hs)
  | Panic w => forall hs, OnMessage p ty from payload hs = (Panic w, hs)
  | Ok _ => False
  end ->
  sessions st !! sid = Some (at_phase p entered c) ->
  let result := HandleMessage r sid ty from payload st in
  sessions result.2 = sessions st /\ rs_env result.2 = rs_env st /\
  match o with Panic w => result.1 = Panic w | _ => exists er, result.1 = Err er end.
Proof.
  intros Hty Hon Ht result. unfold result, HandleMessage, with_tracker. rewrite Ht. unfold handle. rewrite bind_at.
  assert (deliver ty from payload (at_phase p entered c, rs_env st) =
    (match o with Ok _ => Ok false | Err er => Err (wrap_phase p ": OnMessage: " er) | Panic w => Panic w end, (at_phase p entered c, rs_env st))) as ->.
  { unfold deliver. rewrite (bind_Ok get _ _ _ _ eq_refl). cbn [fst at_phase tr_current]. rewrite Hty. cbn [negb].
    unfold bind at 1, wrap_err, run_hook. by destruct o as [?|er|w]; [|rewrite Hon..]. }
  destruct o as [?|er|w]; [done|..]; (split; [by apply insert_id|split; [done|by eauto]]).
Qed.

(** *** A round of messages *)

(** One message after the other, whatever each returns. *)
Definition feed (sid ty : string) (msgs : list (string * bytes)) st : RunnerState S :=
  foldl (fun st m => (HandleMessage r sid ty m.1 m.2 st).2) st msgs.
Lemma accumulate_all_key key bucket msgs c : bucket <> key -> ctx_Get key (accumulate_all bucket msgs c) = ctx_Get key c.
Proof.
  intros Hne. revert c. induction msgs as [|m msgs IH]; intros c; [done|]. cbn [accumulate_all foldl].
  fold (accumulate_all bucket msgs (AccumulateMessage bucket m.1 m.2 c)). rewrite IH. by apply key_accumulate.
Qed.
Lemma insert_all_size {A} (l : list (string * A)) : NoDup l.*1 -> size (insert_all l ∅) = length l.
Proof. intros Hnd. by rewrite <- size_dom, insert_all_dom, dom_empty_L, union_empty_l_L, size_list_to_set, length_fmap. Qed.
(** Until the last of them the session waits. *)
Lemma collect_waits p ty participants bucket sid st entered c ps msgs : collects p ty participants bucket ->
  sessions st !! sid = Some (at_phase p entered c) -> TryGet asStrings participants c = Some ps ->
  AccumulatedMessages bucket c = ∅ -> NoDup msgs.*1 -> (length msgs < length ps)%nat ->
  sessions (feed sid ty msgs st) = <[sid := at_phase p entered (accumulate_all bucket msgs c)]> (sessions st) /\
  rs_env (feed sid ty msgs st) = rs_env st.
Proof.
  intros Hp Ht Hps Hempty. induction msgs as [|[from payload] msgs IH] using rev_ind; intros Hnd Hlen.
  { split; [by rewrite insert_id|done]. }
  rewrite fmap_app in Hnd. apply NoDup_app in Hnd as Hnd'. destruct Hnd' as (Hnd' & _). rewrite length_app in Hlen. cbn in Hlen.
  destruct IH as [Hs He]; [done|lia|]. unfold feed. rewrite foldl_app. cbn [foldl fst snd]. fold (feed sid ty msgs st).
  rewrite (collect_outcome p ty participants bucket sid from payload (feed sid ty msgs st) entered (accumulate_all bucket msgs c) ps Hp);
    [|rewrite Hs; apply lookup_insert_eq|unfold TryGet; rewrite accumulate_all_key by (intros Hb; by destruct (collects_key _ _ _ _ Hp)); done].
  rewrite accumulate_all_messages, Hempty.
  assert (size (<[from := payload]> (insert_all msgs ∅)) = length msgs + 1)%nat as ->.
  { change (<[from := payload]> (insert_all msgs ∅)) with (insert_all [(from, payload)] (insert_all msgs ∅)). rewrite <- insert_all_app.
    rewrite insert_all_size by by rewrite fmap_app. by rewrite length_app. }
  assert ((length msgs + 1 <? length ps)%nat = true) as -> by (apply Nat.ltb_lt; lia).
  cbn [fst snd sessions set_env set_sessions rs_env]. rewrite Hs, He, insert_insert_eq. split; [|done].
  f_equal. unfold accumulate_all. by rewrite foldl_app.
Qed.
(** The last one of a full round finds every other one there. *)
Record last_of_round (bucket : string) (msgs : list (string * bytes)) c c' (from : string) (payload : bytes) : Prop := {
  last_context : AccumulateMessage bucket from payload c' = accumulate_all bucket msgs c;
  last_messages : <[from := payload]> (AccumulatedMessages bucket c') = insert_all msgs ∅;
  last_keys key : bucket <> key -> ctx_Get key c' = ctx_Get key c
}.
Lemma collect_round p ty participants bucket sid st entered c ps msgs : collects p ty participants bucket ->
  sessions st !! sid = Some (at_phase p entered c) -> TryGet asStrings participants c = Some ps -> ps <> [] ->
  AccumulatedMessages bucket c = ∅ -> NoDup msgs.*1 -> length msgs = length ps ->
  exists st' c' from payload, feed sid ty msgs st = (HandleMessage r sid ty from payload st').2 /\
    sessions st' = <[sid := at_phase p entered c']> (sessions st) /\ rs_env st' = rs_env st /\
    TryGet asStrings participants c' = Some ps /\ last_of_round bucket msgs c c' from payload /\ size (insert_all msgs ∅) = length ps.
Proof.
  intros Hp Ht Hps Hne Hempty Hnd Hlen. destruct msgs as [|[from payload] msgs _] using rev_ind; [by destruct ps|].
  rewrite length_app in Hlen. cbn in Hlen. pose proof Hnd as Hnd'. rewrite fmap_app in Hnd'. apply NoDup_app in Hnd' as (Hnd' & _).
  destruct (collect_waits p ty participants bucket sid st entered c ps msgs) as [Hs He]; [done..|lia|].
  exists (feed sid ty msgs st), (accumulate_all bucket msgs c), from, payload. split; [|split; [done|split; [done|]]].
  { unfold feed. by rewrite foldl_app. }
  split. { unfold TryGet. by rewrite accumulate_all_key by (intros Hb; by destruct (collects_key _ _ _ _ Hp)). }
  split; [|by rewrite insert_all_size by done; rewrite length_app; cbn].
  split.
  - unfold accumulate_all. by rewrite foldl_app.
  - rewrite accumulate_all_messages, Hempty, insert_all_app. done.
  - intros key. apply accumulate_all_key.
Qed.
End Steps.

(** ** The helper in a hook *)

Section Helped.
Context {S : Type} `{Store S} {V LS : Type} (L : CLib V LS) (OpenFHEVersion : string) {Wire : Type} `{C : HelperCodec Wire}.
Context `{J : AppCodec}.
Notation AS := (S * Helper V LS)%type.
Implicit Types (c : SessionContext) (e : Env AS) (h : Helper V LS).

Definition helper_of e : Helper V LS := (env_store e).2.
Definition set_helper e h : Env AS := set_store e ((env_store e).1, h).

Lemma on_helper_run {A} (m : M (Helper V LS) A) c e :
  on_helper m (c, e) = ((m (helper_of e)).1, (c, set_helper e (m (helper_of e)).2)).
Proof. unfold on_helper, helper_of, set_helper. cbn [fst snd]. by destruct (m (env_store e).2). Qed.

(** With keys set before, only the shares are kept. *)
Lemma keygen_Exit_pre_shared bucket participants name pk shares ek read helper c e : pre_shared pk ek c = true ->
  keygen_Exit L OpenFHEVersion bucket participants name pk shares ek read helper (c, e) =
  (Ok tt, (ctx_Set shares (AMapBytes (AccumulatedMessages bucket c)) c, e)).
Proof. intros Hk. unfold keygen_Exit, get_ctx, bind. cbn [fst snd]. by rewrite Hk. Qed.

(** What decoding gives does not depend on how its errors are wrapped. *)
Lemma decode_all_wrap wrap decode l :
  match decode_all (fun _ er => er) decode l with
  | Ok cts => decode_all wrap decode l = Ok cts
  | Err _ => exists er, decode_all wrap decode l = Err er
  | Panic w => decode_all wrap decode l = Panic w
  end.
Proof.
  induction l as [|[from raw] l IH]; cbn [decode_all]; [done|]. destruct (decode raw) as [ct|er|w]; [|by eexists|done].
  destruct (decode_all (fun _ er => er) decode l) as [cts|er|w]; [by rewrite IH| |by rewrite IH].
  destruct IH as [er' ->]. by eexists.
Qed.

(** A hook, down to the outcomes of what it calls. *)
Ltac runs hook body := try eexists; unfold hook, body, get_ctx, bind, wrap_err, lift_outcome; cbn [fst snd negb].
Lemma decrypt_Exit_run what bucket out range read decode nSlots outcome c e :
  let partials := AccumulatedMessages bucket c in
  let exit := decrypt_Exit L OpenFHEVersion what bucket out range read decode nSlots true outcome (c, e) in
  match read c, decode_all (fun _ er => er) decode (range partials) with
  | Ok params, Ok cts =>
      match FusePartials L OpenFHEVersion params cts nSlots (helper_of e) with
      | (Ok values, h) => exit = (Ok tt, (ctx_Set out (AnyMap (outcome (Some (hd f0 values)) (size partials))) c, set_helper e h))
      | (Err _, h) => exists er, exit = (Err er, (c, set_helper e h))
      | (Panic w, h) => exit = (Panic w, (c, set_helper e h))
      end
  | Panic w, _ | Ok _, Panic w => exit = (Panic w, (c, e))
  | _, _ => exists er, exit = (Err er, (c, e))
  end.
Proof.
  intros partials exit. pose proof (decode_all_wrap (fun _ er => Errorf [T what; T ": decode partial: "; W er]) decode (range partials)) as Hd.
  destruct (read c) as [params|er|w] eqn:Er; [|destruct (decode_all _ _ _)|destruct (decode_all _ _ _)];
    try (runs exit (@decrypt_Exit); rewrite Er; reflexivity).
  destruct (decode_all (fun _ er => er) decode (range partials)) as [cts|er|w]; [|destruct Hd as [er' Hd]|];
    try (runs exit (@decrypt_Exit); fold partials; rewrite Er, Hd; reflexivity).
  destruct (FusePartials L OpenFHEVersion params cts nSlots (helper_of e)) as [[values|er|w] h] eqn:Ef;
    runs exit (@decrypt_Exit); fold partials; rewrite Er, Hd, on_helper_run, Ef; reflexivity.
Qed.

(** Whether the scoring gets as far as the helper, and what it asks it. *)
Definition argmax_args (read : SessionContext -> Outcome HelperParams) (decode : bytes -> Outcome bytes) (bucket ek : string) c :
    option (HelperParams * bytes * list bytes) :=
  match read c, TryGet asBytes ek c, decode_all (fun _ er => er) decode (sorted_messages (AccumulatedMessages bucket c)) with
  | Ok params, Some (b :: evalKeys), Ok cts => Some (params, b :: evalKeys, cts)
  | _, _, _ => None
  end.
Lemma argmax_args_iff read decode bucket ek c params evalKeys cts :
  argmax_args read decode bucket ek c = Some (params, evalKeys, cts) <->
  read c = Ok params /\ TryGet asBytes ek c = Some evalKeys /\ evalKeys <> [] /\
  Forall2 (fun m ct => decode m.2 = Ok ct) (sorted_messages (AccumulatedMessages bucket c)) cts.
Proof.
  rewrite <- (decode_all_iff (fun _ er => er)). unfold argmax_args.
  destruct (read c) as [p|er|w]; [|naive_solver..]. destruct (TryGet asBytes ek c) as [[|b k]|]; [naive_solver| |naive_solver].
  destruct (decode_all _ _ _) as [l|er|w]; naive_solver.
Qed.
Definition no_panic {A} (o : Outcome A) : Prop := forall w, o <> Panic w.
Lemma contract_of_no_panic key name unexpected c : no_panic (contract_of key name unexpected c).
Proof. unfold contract_of. by destruct (ctx_Get key c) as [v|]; [destruct (asAnyMap v)|]. Qed.
Lemma as_uint32_no_panic `{FloatConversion} int32_too contract k : no_panic (as_uint32 int32_too contract k).
Proof. unfold as_uint32. destruct (assoc k contract) as [[]|]; try done. by destruct int32_too. Qed.
Lemma read_params_no_panic `{FloatConversion} int32_too sized_too o : no_panic o -> no_panic (read_params int32_too sized_too o).
Proof.
  intros Ho. destruct o as [contract|er|w]; [|done|by destruct (Ho w)]. cbn.
  pose proof (as_uint32_no_panic int32_too contract) as Hn.
  destruct (as_uint32 int32_too contract "ring_dim") eqn:E1; [|done|by destruct (Hn _ _ E1)].
  destruct (as_uint32 int32_too contract "depth") eqn:E2; [done|done|by destruct (Hn _ _ E2)].
Qed.
Lemma decode_ciphertext_no_panic hex_error field raw : no_panic (Unmarshal_strings [field] raw) ->
  no_panic (decode_ciphertext hex_error field raw).
Proof.
  intros Hj. unfold decode_ciphertext, hex_DecodeString. destruct (Unmarshal_strings _ _) as [msg|er|w]; [|done|by destruct (Hj w)].
  destruct (String.eqb _ _); [done|]. by destruct (hex_decode _).
Qed.
Lemma decodePartialCiphertext_no_panic hex_error missing raw : no_panic (Unmarshal_strings ["partial_ct"; "partial"]%string raw) ->
  no_panic (decodePartialCiphertext hex_error missing raw).
Proof.
  intros Hj. unfold decodePartialCiphertext, hex_DecodeString. destruct (Unmarshal_strings _ _) as [msg|er|w]; [|done|by destruct (Hj w)].
  destruct (String.eqb (msg "partial_ct"%string) _), (String.eqb (msg _) _); try done; by destruct (hex_decode _).
Qed.
Lemma decode_all_no_panic wrap decode l : (forall raw, no_panic (decode raw)) -> no_panic (decode_all wrap decode l).
Proof.
  intros Hd. induction l as [|[from raw] l IH]; [done|]. cbn. pose proof (Hd raw) as Hraw.
  destruct (decode raw) as [ct|er|w]; [|done|by destruct (Hraw w)]. destruct (decode_all wrap decode l) as [cts|er|w]; [done|done|].
  by destruct (IH w).
Qed.
Lemma set_helper_same e : set_helper e (helper_of e) = e.
Proof. unfold set_helper, helper_of. by destruct e as [[s h] clock ticks]. Qed.

Lemma argmax_Enter_run what name item marshal bucket ek out read decode sharpening c e :
  no_panic (read c) -> no_panic (decode_all (fun _ er => er) decode (sorted_messages (AccumulatedMessages bucket c))) ->
  (forall ks ms, no_panic (Marshal_masks ks ms)) ->
  let enter := argmax_Enter L OpenFHEVersion what name item marshal bucket ek out read decode (Some sharpening) (c, e) in
  match argmax_args read decode bucket ek c with
  | None => exists er, enter = (Err er, (c, e))
  | Some (params, evalKeys, cts) =>
      match client_Argmax L OpenFHEVersion params evalKeys cts sharpening (helper_of e) with
      | (Ok masks, h) =>
          match Marshal_masks (sorted_keys (AccumulatedMessages bucket c)) (hex_encode <$> masks) with
          | Ok body => enter = (Ok tt, (ctx_Set out (ABytes body) c, set_helper e h))
          | _ => exists er, enter = (Err er, (c, set_helper e h))
          end
      | (Err _, h) => exists er, enter = (Err er, (c, set_helper e h))
      | (Panic w, h) => enter = (Panic w, (c, set_helper e h))
      end
  end.
Proof.
  intros Hr Hdp Hm enter. unfold argmax_args.
  pose proof (decode_all_wrap (fun from er => Errorf [T what; T ": decode "; T item; T " from "; T from; T ": "; W er]) decode
    (sorted_messages (AccumulatedMessages bucket c))) as Hd.
  destruct (read c) as [params|er|w] eqn:Er; [|runs enter (@argmax_Enter); by rewrite Er|by destruct (Hr w)].
  destruct (TryGet asBytes ek c) as [[|b evalKeys]|] eqn:Ek;
    [runs enter (@argmax_Enter); by rewrite Er, Ek| |runs enter (@argmax_Enter); by rewrite Er, Ek].
  destruct (decode_all (fun _ er => er) decode _) as [cts|er|w]; [|destruct Hd as [er' Hd]|by destruct (Hdp w)];
    [|runs enter (@argmax_Enter); rewrite Er, Ek; cbn [default length Nat.eqb]; by rewrite Hd].
  destruct (client_Argmax L OpenFHEVersion params (b :: evalKeys) cts sharpening (helper_of e)) as [[masks|er|w] h] eqn:Ea;
    [destruct (Marshal_masks _ _) as [body|er|w] eqn:Ej; [| |by destruct (Hm _ _ w Ej)]| |];
    runs enter (@argmax_Enter); rewrite Er, Ek, Hd; cbn [default id length Nat.eqb];
    rewrite on_helper_run, Ea; cbn [fst snd]; rewrite ?Ej; reflexivity.
Qed.

(** A session left in a known place, with a known helper. *)
Ltac leaves h same := eexists _, h; split; [reflexivity|]; split; [cbn; by rewrite ?same|]; by eauto.

(** *** Decryption and settlement *)

Context (r : SessionRunner AS) (Hplain : runner_lineage r = None).
Implicit Types (p q : Phase AS).

(** [q] follows [p] and is left at once. *)
Record passes p q : Prop := {
  passes_exit : ExitState p <> StateNone;
  passes_entry : byEntryState r !! ExitState p = Some q;
  passes_state : EntryState q = ExitState p
}.
Record immediate q : Prop := {
  immediate_types : ConsumedMessageTypes q = [];
  immediate_complete : CheckComplete q = (fun _ => true);
  immediate_exit : Exit q = ret tt
}.

(** The last partial decryption, on every branch: settled with the first slot of
    the fusion, or refused with the session as it was before it. *)
Lemma decrypt_settles p q ty participants what bucket out range read decode nSlots outcome settlement field by_whom
    sid from payload st entered c ps :
  collects p ty participants bucket -> passes p q -> immediate q -> ExitState q = StateNone -> 2 <= hopCap r ->
  Exit p = decrypt_Exit L OpenFHEVersion what bucket out range read decode nSlots true outcome ->
  Enter q = settle_transcript out settlement field by_whom ->
  sessions st !! sid = Some (at_phase p entered c) -> TryGet asStrings participants c = Some ps ->
  let c' := AccumulateMessage bucket from payload c in let raw := <[from := payload]> (AccumulatedMessages bucket c) in
  (length ps <= size raw)%nat ->
  let result := HandleMessage r sid ty from payload st in let h0 := helper_of (rs_env st) in
  exists t' h', sessions result.2 = <[sid := t']> (sessions st) /\ rs_env result.2 = set_helper (rs_env st) h' /\
  match read c', decode_all (fun _ er => er) decode (range raw) with
  | Ok params, Ok cts =>
      match FusePartials L OpenFHEVersion params cts nSlots h0 with
      | (Ok values, h) =>
          let price := AnyMap (outcome (Some (hd f0 values)) (size raw)) in
          result.1 = Ok true /\ h' = h /\
          t' = ended true (ctx_Set settlement (AnyMap (transcript_of field by_whom (ctxSessionID c') price)) (ctx_Set out price c'))
      | (Err _, h) => (exists er, result.1 = Err er) /\ h' = h /\ t' = at_phase p entered c'
      | (Panic w, h) => result.1 = Panic w /\ h' = h /\ t' = at_phase p entered c'
      end
  | Panic w, _ | Ok _, Panic w => result.1 = Panic w /\ h' = h0 /\ t' = at_phase p entered c'
  | _, _ => (exists er, result.1 = Err er) /\ h' = h0 /\ t' = at_phase p entered c'
  end.
Proof.
  intros Hp Hpq Hq Hend Hhops Hexit Henter Ht Hps c' raw Hlen result h0.
  assert (Hraw : AccumulatedMessages bucket c' = raw) by apply AccumulatedMessages_accumulate.
  pose proof (decrypt_Exit_run what bucket out range read decode nSlots outcome c' (rs_env st)) as Hrun. cbn zeta in Hrun.
  rewrite Hraw in Hrun. fold h0 in Hrun.
  unfold result. rewrite (collect_outcome r p ty participants bucket sid from payload st entered c ps Hp Ht Hps). fold c' raw.
  assert ((size raw <? length ps)%nat = false) as -> by (apply Nat.ltb_ge; lia).
  unfold advance. destruct (hopCap r) as [|[|hops]]; [lia..|]. cbn [advance_loop].
  rewrite bind_at, (step_to r Hplain p q) by apply Hpq. rewrite Hexit.
  assert (Hsame : set_helper (rs_env st) h0 = rs_env st) by apply set_helper_same.
  destruct (read c') as [params|er|w]; [|destruct Hrun as [er' ->]; leaves h0 Hsame
                                        |rewrite Hrun; leaves h0 Hsame].
  destruct (decode_all _ decode (range raw)) as [cts|er|w]; [|destruct Hrun as [er' ->]; leaves h0 Hsame|rewrite Hrun; leaves h0 Hsame].
  destruct (FusePartials L OpenFHEVersion params cts nSlots h0) as [[slots|er|w] h];
    [rewrite Hrun|destruct Hrun as [er' ->]; leaves h Hsame|rewrite Hrun; leaves h Hsame].
  rewrite Henter. unfold settle_transcript, modify_ctx. cbn [fst snd].
  rewrite (immediate_types _ Hq), (immediate_complete _ Hq). cbn [length Nat.ltb Nat.leb negb].
  rewrite bind_at, (step_end r Hplain q) by (done || apply Hq). unfold ret. cbn [fst snd].
  eexists _, h. split; [reflexivity|]. split; [reflexivity|]. split; [done|]. split; [done|].
  unfold ctx_Get at 1, ctx_Set at 3, with_values. cbn [values ctxSessionID]. by rewrite lookup_insert_eq.
Qed.

(** *** Submission and scoring *)

Definition submit_Exit {T} (bucket out : string) : M (HookState T) unit :=
  modify_ctx (fun c => ctx_Set out (AMapBytes (AccumulatedMessages bucket c)) c).

(** The last submission, on every branch: scored and waiting for the partial
    decryptions, or left in the scoring phase. *)
Lemma submission_scores p q d ty participants bucket bids what name item marshal ek out read decode sharpening
    sid from payload st entered c ps :
  collects p ty participants bucket -> passes p q -> passes q d -> immediate q -> ConsumedMessageTypes d <> [] -> 2 <= hopCap r ->
  Exit p = submit_Exit bucket bids -> bids <> bucket -> Enter d = ret tt ->
  Enter q = argmax_Enter L OpenFHEVersion what name item marshal bucket ek out read decode (Some sharpening) ->
  (forall c, no_panic (read c)) -> (forall l, no_panic (decode_all (fun _ er => er) decode l)) -> (forall ks ms, no_panic (Marshal_masks ks ms)) ->
  sessions st !! sid = Some (at_phase p entered c) -> TryGet asStrings participants c = Some ps ->
  let raw := <[from := payload]> (AccumulatedMessages bucket c) in
  let c1 := ctx_Set bids (AMapBytes raw) (AccumulateMessage bucket from payload c) in
  (length ps <= size raw)%nat ->
  let result := HandleMessage r sid ty from payload st in let h0 := helper_of (rs_env st) in
  exists t' h', sessions result.2 = <[sid := t']> (sessions st) /\ rs_env result.2 = set_helper (rs_env st) h' /\
  match argmax_args read decode bucket ek c1 with
  | None => (exists er, result.1 = Err er) /\ h' = h0 /\ t' = at_phase q false c1
  | Some (params, evalKeys, cts) =>
      match client_Argmax L OpenFHEVersion params evalKeys cts sharpening h0 with
      | (Ok masks, h) =>
          match Marshal_masks (sorted_keys raw) (hex_encode <$> masks) with
          | Ok body => result.1 = Ok true /\ h' = h /\ t' = at_phase d true (ctx_Set out (ABytes body) c1)
          | _ => (exists er, result.1 = Err er) /\ h' = h /\ t' = at_phase q false c1
          end
      | (Err _, h) => (exists er, result.1 = Err er) /\ h' = h /\ t' = at_phase q false c1
      | (Panic w, h) => result.1 = Panic w /\ h' = h /\ t' = at_phase q false c1
      end
  end.
Proof.
  intros Hp Hpq Hqd Hq Hd Hhops Hexit Hne Hdecrypt Henter Hread Hdecode Hmarshal Ht Hps raw c1 Hlen result h0.
  assert (Hraw : AccumulatedMessages bucket c1 = raw).
  { unfold c1, AccumulatedMessages at 1, ctx_Get, ctx_Set, with_values. cbn [values]. rewrite lookup_insert_ne by done.
    apply (AccumulatedMessages_accumulate bucket from payload c). }
  pose proof (argmax_Enter_run what name item marshal bucket ek out read decode sharpening c1 (rs_env st) (Hread c1)
    (Hdecode _) Hmarshal) as Hrun. cbn zeta in Hrun. rewrite Hraw in Hrun. fold h0 in Hrun.
  unfold result. rewrite (collect_outcome r p ty participants bucket sid from payload st entered c ps Hp Ht Hps). fold raw.
  assert ((size raw <? length ps)%nat = false) as -> by (apply Nat.ltb_ge; lia).
  unfold advance. destruct (hopCap r) as [|[|hops]]; [lia..|]. cbn [advance_loop].
  rewrite bind_at, (step_to r Hplain p q) by apply Hpq. rewrite Hexit. unfold submit_Exit, modify_ctx. cbn [fst snd].
  rewrite AccumulatedMessages_accumulate. fold raw c1. rewrite Henter.
  assert (Hsame : set_helper (rs_env st) h0 = rs_env st) by apply set_helper_same.
  destruct (argmax_args read decode bucket ek c1) as [[[params evalKeys] cts]|]; [|destruct Hrun as [er' ->]; leaves h0 Hsame].
  destruct (client_Argmax L OpenFHEVersion params evalKeys cts sharpening h0) as [[masks|er|w] h];
    [|destruct Hrun as [er' ->]; leaves h Hsame|rewrite Hrun; leaves h Hsame].
  destruct (Marshal_masks (sorted_keys raw) (hex_encode <$> masks)) as [body|er|w];
    [rewrite Hrun|destruct Hrun as [er' ->]; leaves h Hsame|destruct Hrun as [er' ->]; leaves h Hsame].
  rewrite (immediate_types _ Hq), (immediate_complete _ Hq). cbn [length Nat.ltb Nat.leb negb].
  rewrite bind_at, (step_to r Hplain q d) by apply Hqd. rewrite (immediate_exit _ Hq). rewrite Hdecrypt. unfold ret. cbn [fst snd].
  destruct (ConsumedMessageTypes d) as [|ty' tys]; [done|]. unfold ret. cbn [length Nat.ltb Nat.leb fst snd].
  eexists _, h. split; [reflexivity|]. split; [reflexivity|]. by split_and!.
Qed.
End Helped.

(** ** The keys a hook leaves alone *)

Section Frames.
Context {S : Type} `{Store S} {V LS : Type} (L : CLib V LS) (OpenFHEVersion : string) {Wire : Type} `{C : HelperCodec Wire}.
Context `{J : AppCodec}.
Notation AS := (S * Helper V LS)%type.
Context (key : string) (v : option Any).
Notation keeps_key := (hook_keeps (S := AS) (fun c => ctx_Get key c = v)).

Lemma no_hook_keeps : keeps_key (ret tt).
Proof. apply keeps_ret. Qed.
Lemma set_keeps k x : k <> key -> keeps_key (modify_ctx (ctx_Set k x)).
Proof. intros Hk. apply modify_keeps_key. intros c. by apply key_set. Qed.
Lemma accumulate_keeps_key bucket ty from payload : bucket <> key -> keeps_key (accumulate bucket ty from payload).
Proof. intros Hk. apply modify_keeps_key. intros c. by apply key_accumulate. Qed.
Lemma submit_keeps bucket out : out <> key -> keeps_key (submit_Exit bucket out).
Proof. intros Hk. apply modify_keeps_key. intros c. by apply key_set. Qed.
Lemma settle_keeps result out field by_whom : out <> key -> keeps_key (settle_transcript result out field by_whom).
Proof. intros Hk. apply modify_keeps_key. intros c. by apply key_set. Qed.
Lemma helper_keeps {A} (m : M (Helper V LS) A) : keeps (fun hs : HookState AS => ctx_Get key hs.1 = v) (on_helper m).
Proof. intros [c e] Hc. by rewrite on_helper_run. Qed.
Lemma argmax_keeps what name item marshal bucket ek out read decode helper : out <> key ->
  keeps_key (argmax_Enter L OpenFHEVersion what name item marshal bucket ek out read decode helper).
Proof.
  intros Hk. apply get_ctx_keeps_key. intros c _. destruct helper as [sharpening|]; [|by apply set_keeps].
  apply keeps_bind; [apply lift_keeps_key|]. intros params. apply keeps_if; [apply keeps_throw|].
  apply keeps_bind; [apply lift_keeps_key|]. intros cts. apply keeps_bind; [apply keeps_wrap, helper_keeps|]. intros masks.
  apply keeps_bind; [apply keeps_wrap, lift_keeps_key|]. intros body. by apply set_keeps.
Qed.
Lemma decrypt_keeps what bucket out range read decode nSlots helper outcome : out <> key ->
  keeps_key (decrypt_Exit L OpenFHEVersion what bucket out range read decode nSlots helper outcome).
Proof.
  intros Hk. apply get_ctx_keeps_key. intros c _. apply keeps_if; [by apply set_keeps|].
  apply keeps_bind; [apply keeps_wrap, lift_keeps_key|]. intros params. apply keeps_bind; [apply lift_keeps_key|]. intros raw.
  apply keeps_bind; [apply keeps_wrap, helper_keeps|]. intros slots. by apply set_keeps.
Qed.
End Frames.
#[export] Hint Resolve no_hook_keeps set_keeps accumulate_keeps_key submit_keeps settle_keeps argmax_keeps decrypt_keeps : ares.

(** ** A codec, a library and sessions, for examples *)

Module AppToys.
Import InMemory Scripted.
Local Open Scope string_scope.
(** A payload is the text of each of its members. *)
#[export] Instance toy_json : AppCodec := {
  Unmarshal_strings _ raw := Ok (fun _ => to_string raw);
  Marshal_masks ks ms := Ok (of_string (String.concat "," (ks ++ ms)%list));
  Marshal_map m := Some (of_string (String.concat "," m.*1))
}.
#[export] Instance toy_conversion : FloatConversion := { uint32_of _ := 0%Z; int_of _ := 0%Z }.
Definition no_hex (s : string) : GoError := ErrorsNew "encoding/hex: invalid byte".
Definition sharpening : EvalPolyParams := {| Coefficients := [f0; f1]; LowerBound := f0; UpperBound := f1 |}.
Notation AS := (InMemoryStore * Helper bytes Script)%type.
Definition state_at (p : Phase AS) (c : SessionContext) : RunnerState AS := {|
  sessions := {["s" := at_phase p true c]};
  rs_env := {| env_store := (NewInMemoryStore, up (start [])); env_clock := Z.of_nat; env_ticks := 0 |}; fired := []; hookPanicLog := [] |}.
Lemma toy_json_ok ks raw : no_panic (Unmarshal_strings ks raw).
Proof. done. Qed.
Lemma toy_masks_ok ks ms : no_panic (Marshal_masks ks ms).
Proof. done. Qed.
Lemma at_start p c : sessions (state_at p c) !! "s" = Some (at_phase p true c).
Proof. apply lookup_insert_eq. Qed.
End AppToys.
