(* ===== verification/Voting.v ===== *)
(** * A worked application: weighted voting (examples/voting)

    The phases of the voting example over the framework's runner, and what a
    ballot does to a session: it is counted, or the session waits, or the last
    ballot takes it through the tally to the signed transcript.  encoding/json
    and the orders of the two ranges over maps are parameters. *)
From Stdlib Require Import ZArith NArith Lia String Ascii Strings.Byte.
From stdpp Require Import base gmap list strings pretty sorting relations.
From S2P Require Import Prelude Bytes.
From S2P Require Import GoFloat GoFmt.
From S2P Require Import Sign.
From S2P Require Import Lineage.
From S2P Require Import Context.
From S2P Require Import Pipeline.
From S2P Require Import Runner.
From S2P Require Import Defaults.
From S2P Require Import RunnerSpec.
From S2P Require Import Anon.
From S2P Require Import Apps.

(** ** Keys, ballots, tallies (states.go) *)

Definition CtxVoteParticipants : string := "vote.participants".
Definition CtxVoteBallots : string := "vote.ballots".
Definition CtxVoteTally : string := "vote.tally".
Definition CtxVoteTranscript : string := "vote.transcript".
Definition bucketBallots : string := "vote.bucket.ballots".

Record Ballot := { Voter : string; Choice : Z; Weight : float64 }.
Record Tally := { Totals : gmap Z float64; TotalBallots : Z; WinnerChoice : Z; WinnerWeight : float64 }.

(** The context holds them as values of their Go types; a map with integer keys
    as the list of its entries. *)
Definition any_ballot (b : Ballot) : Any :=
  AStruct "Ballot" [("voter", AString (Voter b)); ("choice", AInt (Choice b)); ("weight", AFloat64 (Weight b))]%string.
Definition as_ballot (v : Any) : option Ballot :=
  match v with
  | AStruct _ [(_, AString v); (_, AInt c); (_, AFloat64 w)] => Some {| Voter := v; Choice := c; Weight := w |}
  | _ => None
  end.
Definition any_ballots : gmap string Ballot -> Any := any_map "map[string]Ballot" any_ballot.
Definition asBallots : TypeAssert (gmap string Ballot) := as_map "map[string]Ballot" as_ballot.

Definition any_total (kv : Z * float64) : Any := AStruct "" [("key", AInt kv.1); ("value", AFloat64 kv.2)]%string.
Definition as_total (v : Any) : option (Z * float64) :=
  match v with AStruct _ [(_, AInt c); (_, AFloat64 w)] => Some (c, w) | _ => None end.
Definition any_tally (t : Tally) : Any :=
  AStruct "Tally" [("totals", ASlice "map[int]float64" (any_total <$> map_to_list (Totals t)));
    ("total_ballots", AInt (TotalBallots t)); ("winner_choice", AInt (WinnerChoice t)); ("winner_weight", AFloat64 (WinnerWeight t))]%string.
Definition asTally : TypeAssert Tally := fun v =>
  match v with
  | AStruct ty [(_, ASlice _ l); (_, AInt n); (_, AInt c); (_, AFloat64 w)] =>
      if String.eqb ty "Tally" then
        totals ← mapM as_total l;
        Some {| Totals := list_to_map totals; TotalBallots := n; WinnerChoice := c; WinnerWeight := w |}
      else None
  | _ => None
  end.

(** ** The tally *)

Definition add_ballot (totals : gmap Z float64) (b : Ballot) : gmap Z float64 :=
  <[Choice b := fadd (default f0 (totals !! Choice b)) (Weight b)]> totals.
Definition total (totals : gmap Z float64) (c : Z) : float64 := default f0 (totals !! c).
(** [choices[0]] panics on an empty list. *)
Definition pick_winner (totals : gmap Z float64) : Outcome Z :=
  match merge_sort Z.le (map_to_list totals).*1 with
  | [] => Panic "runtime error: index out of range [0] with length 0"
  | c0 :: rest => Ok (foldl (fun winner c => if fgtb (total totals c) (total totals winner) then c else winner) c0 rest)
  end.
Definition tally_of (ballots : list Ballot) : Outcome Tally :=
  let totals := foldl add_ballot ∅ ballots in
  match pick_winner totals with
  | Ok winner => Ok {| Totals := totals; TotalBallots := Z.of_nat (length ballots); WinnerChoice := winner;
                       WinnerWeight := total totals winner |}
  | Err e => Err e
  | Panic w => Panic w
  end.

(** ** The phases (phases.go) *)

Section Phases.
Context {S : Type} `{Store S}.
Context (json_Unmarshal : bytes -> Outcome (Z * float64)) (json_Marshal : Tally -> Outcome bytes).
(** The transcript object over the tally's text and the hash. *)
Context (json_transcript : bytes -> string -> bytes).
Context (range : gmap string bytes -> list (string * bytes)) (range_ballots : gmap string Ballot -> list (string * Ballot)).

Definition PhaseInvite : Phase S :=
  inline_phase "vote-invitation" StateInviting StateLocked [] []
    [(CtxVoteParticipants, key_type "[]string" false []); (CtxParticipants, key_type "[]string" false []);
     (anon_CtxParticipants, key_type "[]string" false [])]
    no_hook no_message (fun _ => true) no_hook.

(** A weight that is not positive counts as one. *)
Definition ballot_of (voter : string) (cw : Z * float64) : Ballot :=
  {| Voter := voter; Choice := cw.1; Weight := if fleb cw.2 f0 then f1 else cw.2 |}.
Fixpoint parse_ballots (raw : list (string * bytes)) (parsed : gmap string Ballot) : Outcome (gmap string Ballot) :=
  match raw with
  | [] => Ok parsed
  | (voter, payload) :: raw' =>
      match json_Unmarshal payload with
      | Err e => Err (Errorf [T "PhaseSubmitVote: decode ballot from "; T voter; T ": "; W e])
      | Panic w => Panic w
      | Ok cw => parse_ballots raw' (<[voter := ballot_of voter cw]> parsed)
      end
  end.
Definition submit_Exit : M (HookState S) unit :=
  let! c := get_ctx in
  let! parsed := lift_outcome (parse_ballots (range (AccumulatedMessages bucketBallots c)) ∅) in
  modify_ctx (ctx_Set CtxVoteBallots (any_ballots parsed)).
Definition PhaseSubmitVoteAt (entry : SessionState) : Phase S :=
  inline_phase "vote-submit" entry StateScoring ["vote.ballot"%string]
    [(CtxVoteParticipants, key_type "[]string" true [])] [(CtxVoteBallots, key_type "map[string]Ballot" false [])]
    no_hook (accumulate bucketBallots) (quorum CtxVoteParticipants bucketBallots) submit_Exit.
Definition PhaseSubmitVote : Phase S := PhaseSubmitVoteAt StateGossip.

Definition tally_Enter : M (HookState S) unit :=
  let! c := get_ctx in
  let! ballots := lift_outcome (MustGet asBallots CtxVoteBallots c) in
  let! t := lift_outcome (tally_of (range_ballots ballots).*2) in
  modify_ctx (ctx_Set CtxVoteTally (any_tally t)).
Definition PhaseTally : Phase S :=
  inline_phase "vote-tally" StateScoring StateDecrypting []
    [(CtxVoteBallots, key_type "map[string]Ballot" true [])] [(CtxVoteTally, key_type "Tally" false [])]
    tally_Enter no_message (fun _ => true) no_hook.

Definition settle_Enter : M (HookState S) unit :=
  let! c := get_ctx in
  let! t := lift_outcome (MustGet asTally CtxVoteTally c) in
  let! body := wrap_err (fun e => Errorf [T "PhaseSettle: marshal tally: "; W e]) (lift_outcome (json_Marshal t)) in
  modify_ctx (ctx_Set CtxVoteTranscript (ABytes (json_transcript body (hex_encode (sha256 body))))).
Definition PhaseSettle : Phase S :=
  inline_phase "vote-settle" StateDecrypting StateNone []
    [(CtxVoteTally, key_type "Tally" true [])] [(CtxVoteTranscript, key_type "[]byte" false [])]
    settle_Enter no_message (fun _ => true) no_hook.

(** ** The pipelines (runner.go) *)

Definition voting_phases : list (Phase S) := [PhaseInvite; PlaintextKeygen; PhaseSubmitVote; PhaseTally; PhaseSettle].
Definition Pipeline : Outcome (SessionRunner S) := Compose voting_phases.
Definition PipelineWithLineage (signer : Signer) (peerVerifiers : gmap string Signer) : Outcome (SessionRunner S) :=
  ComposeWith voting_phases [WithSigner signer; WithPeerVerifiers peerVerifiers].

Context (slot_Unmarshal : bytes -> Outcome SlotEntry) (slots_Marshal : list SlotEntry -> Outcome bytes).
Definition shuffle_phases : list (Phase S) :=
  [PhaseInvite; PlaintextKeygen; PhaseGShuffle; PhaseGVerify slot_Unmarshal slots_Marshal range StateSubmitting;
   PhaseSubmitVoteAt StateSubmitting; PhaseTally; PhaseSettle].
Definition PipelineWithShuffle (signer : Signer) (peerVerifiers : gmap string Signer) : Outcome (SessionRunner S) :=
  ComposeWith shuffle_phases [WithSigner signer; WithPeerVerifiers peerVerifiers].

Lemma voting_composes : Pipeline = Ok (pipeline_runner voting_phases).
Proof. reflexivity. Qed.
Lemma voting_valid : pipeline_valid voting_phases.
Proof. by apply (Compose_run voting_phases (pipeline_runner voting_phases)). Qed.
Lemma shuffle_composes signer peers : peers <> ∅ ->
  exists r, PipelineWithShuffle signer peers = Ok r /\ phases r = shuffle_phases.
Proof.
  intros Hp. unfold PipelineWithShuffle, ComposeWith. cbn [foldl WithSigner WithPeerVerifiers o_signer o_peerVerifiers].
  destruct (Nat.eqb_spec (size peers) 0) as [Hs|Hs]; [by apply map_size_empty_inv in Hs|]. rewrite andb_false_r.
  change (Compose shuffle_phases) with (Ok (pipeline_runner shuffle_phases)). by eexists.
Qed.
End Phases.

(** ** Values *)

Lemma ballots_value m : asBallots (any_ballots m) = Some m.
Proof. apply map_value. by intros []. Qed.
Lemma tally_value t : asTally (any_tally t) = Some t.
Proof.
  unfold any_tally, asTally. change (String.eqb "Tally" "Tally") with true. cbn iota.
  rewrite (mapM_inverse any_total as_total) by (by intros []). cbn. rewrite list_to_map_to_list. by destruct t.
Qed.

(** ** The winner *)

(** Of the choices seen so far, the first of the heaviest. *)
Definition leads (totals : gmap Z float64) (seen : list Z) (w : Z) : Prop :=
  w ∈ seen /\ forall c, c ∈ seen -> fleb (total totals c) (total totals w) = true /\ ((c < w)%Z -> fltb (total totals c) (total totals w) = true).
Lemma leads_fold totals seen rest w : (forall c, c ∈ seen ++ rest -> is_nan (total totals c) = false) ->
  StronglySorted Z.lt rest -> (forall c d, c ∈ seen -> d ∈ rest -> (c < d)%Z) -> leads totals seen w ->
  leads totals (seen ++ rest) (foldl (fun winner c => if fgtb (total totals c) (total totals winner) then c else winner) w rest).
Proof.
  revert seen w. induction rest as [|x rest IH]; intros seen w Hnan Hsort Hlt [Hw Hlead]; cbn [foldl]; [by rewrite app_nil_r|].
  apply StronglySorted_inv in Hsort as [Hsort Hx]. rewrite Forall_forall in Hx.
  rewrite cons_middle, app_assoc. apply IH; [by rewrite <- app_assoc|done| |].
  { intros c d [Hc|Hc]%elem_of_app Hd; [by apply Hlt; [|right]|]. apply list_elem_of_singleton in Hc as ->. by apply Hx. }
  assert (Hnx : is_nan (total totals x) = false) by (apply Hnan; set_solver).
  unfold fgtb. change SpecFloat.SFltb with fltb. destruct (fltb (total totals w) (total totals x)) eqn:E.
  - split; [set_solver|]. intros c [Hc|Hc]%elem_of_app.
    + destruct (Hlead c Hc) as [Hle _]. assert (fltb (total totals c) (total totals x) = true) as Hcx by by eapply fleb_fltb_trans.
      split; [by apply fltb_fleb|done].
    + apply list_elem_of_singleton in Hc as ->. split; [by apply fleb_refl|lia].
  - split; [set_solver|]. intros c [Hc|Hc]%elem_of_app; [by apply Hlead|]. apply list_elem_of_singleton in Hc as ->.
    split; [apply fltb_false_fleb; [done|apply Hnan; set_solver|done]|]. intros Hxw.
    assert (w < x)%Z by (apply Hlt; [done|by left]). lia.
Qed.

Lemma choices_sorted (totals : gmap Z float64) : StronglySorted Z.lt (merge_sort Z.le (map_to_list totals).*1).
Proof.
  assert (Hnd : NoDup (merge_sort Z.le (map_to_list totals).*1)).
  { rewrite merge_sort_Permutation. apply NoDup_fst_map_to_list. }
  assert (Hs : StronglySorted Z.le (merge_sort Z.le (map_to_list totals).*1)) by (apply (StronglySorted_merge_sort Z.le)).
  induction Hs as [|c l Hs IH Hc]; [constructor|]. apply NoDup_cons in Hnd as [Hnotin Hnd]. constructor; [by apply IH|].
  rewrite Forall_forall in Hc |- *. intros d Hd. assert (c <> d) by (intros ->; done). specialize (Hc d Hd). lia.
Qed.
Lemma pick_winner_leads totals : (forall c, is_nan (total totals c) = false) -> totals <> ∅ ->
  exists w, pick_winner totals = Ok w /\ is_Some (totals !! w) /\ forall c x, totals !! c = Some x ->
    fleb x (total totals w) = true /\ ((c < w)%Z -> fltb x (total totals w) = true).
Proof.
  intros Hnan Hne. unfold pick_winner. pose proof (choices_sorted totals) as Hs.
  assert (Hin : forall c, c ∈ merge_sort Z.le (map_to_list totals).*1 <-> is_Some (totals !! c)).
  { intros c. rewrite merge_sort_Permutation, list_elem_of_fmap. split.
    - intros ([c' x] & -> & Hx%elem_of_map_to_list). by eexists.
    - intros [x Hx]. exists (c, x). by rewrite elem_of_map_to_list. }
  destruct (merge_sort Z.le (map_to_list totals).*1) as [|c0 rest] eqn:E.
  { exfalso. apply Hne, map_eq. intros c. rewrite lookup_empty. destruct (totals !! c) eqn:Ec; [|done].
    assert (c ∈ []) as Hc by (apply Hin; by eexists). by apply elem_of_nil in Hc. }
  apply StronglySorted_inv in Hs as [Hs Hc0]. rewrite Forall_forall in Hc0.
  eexists. split; [done|]. destruct (leads_fold totals [c0] rest c0) as [Hw Hlead].
  - intros c _. apply Hnan.
  - done.
  - intros c d Hc Hd. apply list_elem_of_singleton in Hc as ->. by apply Hc0.
  - split; [by left|]. intros c Hc. apply list_elem_of_singleton in Hc as ->. split; [by apply fleb_refl|lia].
  - split; [by apply Hin|]. intros c x Hx. assert (Hc : c ∈ [c0] ++ rest) by (apply Hin; by eexists).
    destruct (Hlead c Hc) as [H1 H2]. assert (total totals c = x) as Htc by (unfold total; by rewrite Hx).
    rewrite Htc in H1, H2. done.
Qed.

Lemma totals_nonneg ballots totals : (forall b, b ∈ ballots -> nonneg (Weight b) = true) ->
  (forall c, nonneg (total totals c) = true) -> forall c, nonneg (total (foldl add_ballot totals ballots) c) = true.
Proof.
  revert totals. induction ballots as [|b ballots IH]; intros totals Hb Ht; cbn [foldl]; [done|].
  apply IH; [intros b' Hb'; apply Hb; by right|]. intros c. unfold total, add_ballot.
  destruct (decide (c = Choice b)) as [->|Hc]; [rewrite lookup_insert_eq|by rewrite lookup_insert_ne by done; apply Ht].
  cbn. apply fadd_nonneg; [apply Ht|apply Hb; by left].
Qed.

(** What the tally ought to be, from the ballots alone: a choice has a total if
    a ballot names it, the sum of the weights of those ballots from zero, in
    the order of the list. *)
Definition votes_for (choice : Z) (cast : list Ballot) : list float64 :=
  Weight <$> filter (fun b => Choice b = choice) cast.
Definition summed (weights : list float64) : option float64 :=
  match weights with [] => None | _ => Some (foldl fadd f0 weights) end.
Lemma foldl_add_ballot cast totals choice : foldl add_ballot totals cast !! choice =
  match votes_for choice cast with [] => totals !! choice | ws => Some (foldl fadd (total totals choice) ws) end.
Proof.
  revert totals. induction cast as [|b cast IH]; intros totals; [done|]. cbn [foldl]. rewrite IH.
  unfold votes_for. rewrite filter_cons. unfold total, add_ballot. destruct (decide (Choice b = choice)) as [<-|Hc].
  - rewrite lookup_insert_eq. cbn [fmap list_fmap]. by destruct (Weight <$> filter _ cast).
  - by rewrite lookup_insert_ne.
Qed.
Lemma totals_summed cast choice : foldl add_ballot ∅ cast !! choice = summed (votes_for choice cast).
Proof. rewrite foldl_add_ballot. unfold total. rewrite lookup_empty. by destruct (votes_for choice cast). Qed.

(** ** What a ballot does *)

Section Ballots.
Context {S : Type} `{Store S}.
Context (json_Unmarshal : bytes -> Outcome (Z * float64)) (json_Marshal : Tally -> Outcome bytes).
Context (json_transcript : bytes -> string -> bytes).
Context (range : gmap string bytes -> list (string * bytes)) (range_ballots : gmap string Ballot -> list (string * Ballot)).
Context (Hrange : forall m, range m ≡ₚ map_to_list m) (Hballots : forall m, range_ballots m ≡ₚ map_to_list m).
Context (Hjson : forall p w, json_Unmarshal p <> Panic w).

Definition decode (p : bytes) : option (Z * float64) := match json_Unmarshal p with Ok cw => Some cw | _ => None end.
Definition decodes (kv : string * bytes) : bool := match decode kv.2 with Some _ => true | None => false end.
(** The ballots of the messages that decode, one for each voter. *)
Definition ballots_of (raw : gmap string bytes) : gmap string Ballot := map_imap (fun v p => ballot_of v <$> decode p) raw.
Notation parse := (parse_ballots json_Unmarshal).

Lemma parse_lookup l acc m : NoDup l.*1 -> parse l acc = Ok m -> forall v,
  m !! v = match (list_to_map l : gmap string bytes) !! v with Some p => ballot_of v <$> decode p | None => acc !! v end.
Proof.
  revert acc. induction l as [|[voter p] l IH]; intros acc Hnd Hp v; cbn in *; [by injection Hp as ->|].
  apply NoDup_cons in Hnd as [Hnotin Hnd]. unfold decode. destruct (json_Unmarshal p) as [cw|e|w] eqn:E; [|done|done].
  rewrite (IH _ Hnd Hp v). destruct (decide (v = voter)) as [->|Hv].
  - rewrite lookup_insert_eq, lookup_insert_eq, E, not_elem_of_list_to_map_1 by done. done.
  - rewrite !lookup_insert_ne by done. done.
Qed.
Lemma parse_total l acc : (forall kv, kv ∈ l -> is_Some (decode kv.2)) -> exists m, parse l acc = Ok m.
Proof.
  revert acc. induction l as [|[voter p] l IH]; intros acc Hl; cbn; [by eexists|].
  destruct (Hl (voter, p)) as [cw Hcw]; [by left|]. unfold decode in Hcw. cbn in Hcw. destruct (json_Unmarshal p); [|done|done].
  apply IH. intros kv Hkv. apply Hl. by right.
Qed.
Lemma parse_refuses l acc kv : kv ∈ l -> decode kv.2 = None -> exists e, parse l acc = Err e.
Proof.
  revert acc. induction l as [|[voter p] l IH]; intros acc Hin Hkv; [by apply elem_of_nil in Hin|]. cbn.
  destruct (json_Unmarshal p) as [cw|e|w] eqn:E; [|by eexists|by destruct (Hjson p w)].
  apply elem_of_cons in Hin as [->|Hin]; [|by apply IH]. unfold decode in Hkv. cbn in Hkv. by rewrite E in Hkv.
Qed.
Lemma parse_range raw :
  if forallb decodes (map_to_list raw) then parse (range raw) ∅ = Ok (ballots_of raw)
  else exists e, parse (range raw) ∅ = Err e.
Proof.
  assert (Hnd : NoDup (range raw).*1) by (rewrite (Hrange raw); apply NoDup_fst_map_to_list).
  destruct (forallb _ _) eqn:E.
  - rewrite forallb_forall in E. destruct (parse_total (range raw) ∅) as [m Hm].
    { intros kv Hkv. rewrite (Hrange raw) in Hkv. apply list_elem_of_In, E in Hkv. unfold decodes in Hkv.
      destruct (decode kv.2); [by eexists|done]. }
    rewrite Hm. f_equal. apply map_eq. intros v. rewrite (parse_lookup _ _ _ Hnd Hm).
    rewrite (list_to_map_proper (range raw) (map_to_list raw)); [|done|apply Hrange].
    rewrite list_to_map_to_list. unfold ballots_of. rewrite map_lookup_imap. by destruct (raw !! v).
  - assert (exists kv, kv ∈ map_to_list raw /\ decode kv.2 = None) as (kv & Hin & Hkv).
    { clear Hrange. induction (map_to_list raw) as [|kv l IH]; [done|]. cbn in E. unfold decodes at 1 in E. destruct (decode kv.2) as [cw|] eqn:Ek.
      - destruct (IH E) as (kv' & ? & ?). exists kv'. split; [by right|done].
      - exists kv. split; [by left|done]. }
    eapply parse_refuses; [|exact Hkv]. by rewrite (Hrange raw).
Qed.

(** *** The runner *)

Notation ps := (voting_phases json_Unmarshal json_Marshal json_transcript range range_ballots).
Notation submit := (PhaseSubmitVote (S := S) json_Unmarshal range).
Notation tally := (PhaseTally (S := S) range_ballots).
Notation settle := (PhaseSettle (S := S) json_Marshal json_transcript).
Notation runner := (pipeline_runner ps).
Implicit Types (c : SessionContext) (t : sessionTracker S) (e : Env S).

Definition with_ballots c (m : gmap string Ballot) : SessionContext := ctx_Set CtxVoteBallots (any_ballots m) c.
Definition with_tally c (tl : Tally) : SessionContext := ctx_Set CtxVoteTally (any_tally tl) c.
Definition with_transcript c (body : bytes) : SessionContext :=
  ctx_Set CtxVoteTranscript (ABytes (json_transcript body (hex_encode (sha256 body)))) c.

Lemma tally_Enter_run c e m tl : tally_of (range_ballots m).*2 = Ok tl ->
  tally_Enter range_ballots (with_ballots c m, e) = (Ok tt, (with_tally (with_ballots c m) tl, e)).
Proof.
  intros Ht. unfold tally_Enter. rewrite (bind_Ok get_ctx _ _ _ _ eq_refl). cbn [fst].
  unfold MustGet, ctx_Get, with_ballots, ctx_Set, with_values. cbn [values]. rewrite lookup_insert_eq, ballots_value.
  unfold lift_outcome. erewrite bind_Ok by reflexivity. rewrite Ht. by erewrite bind_Ok by reflexivity.
Qed.
Lemma settle_Enter_run c e tl : settle_Enter json_Marshal json_transcript (with_tally c tl, e) =
  match json_Marshal tl with
  | Ok body => (Ok tt, (with_transcript (with_tally c tl) body, e))
  | Err er => (Err (Errorf [T "PhaseSettle: marshal tally: "; W er]), (with_tally c tl, e))
  | Panic w => (Panic w, (with_tally c tl, e))
  end.
Proof.
  unfold settle_Enter. rewrite (bind_Ok get_ctx _ _ _ _ eq_refl). cbn [fst].
  unfold MustGet, ctx_Get, with_tally, ctx_Set, with_values. cbn [values]. rewrite lookup_insert_eq, tally_value.
  unfold lift_outcome. erewrite bind_Ok by reflexivity. unfold bind, wrap_err. by destruct (json_Marshal tl).
Qed.

(** From a complete submission phase to the end. *)
Lemma cascade entered c e tl : let raw := AccumulatedMessages bucketBallots c in
  parse (range raw) ∅ = Ok (ballots_of raw) -> tally_of (range_ballots (ballots_of raw)).*2 = Ok tl ->
  let c' := with_tally (with_ballots c (ballots_of raw)) tl in
  advance runner (at_phase submit entered c, e) =
  match json_Marshal tl with
  | Ok body => (Ok true, (ended true (with_transcript c' body), e))
  | Err er => (Err (wrap_phase settle ": Enter: " (Errorf [T "PhaseSettle: marshal tally: "; W er])), (at_phase settle false c', e))
  | Panic w => (Panic w, (at_phase settle false c', e))
  end.
Proof.
  intros raw Hparse Htl c'. unfold advance. change (hopCap runner) with 6. cbn [advance_loop].
  rewrite bind_at, (step_to runner eq_refl submit tally) by done.
  assert (Exit submit (c, e) = (Ok tt, (with_ballots c (ballots_of raw), e))) as ->.
  { cbn [Exit PhaseSubmitVote PhaseSubmitVoteAt inline_phase]. unfold submit_Exit. rewrite (bind_Ok get_ctx _ _ _ _ eq_refl). cbn [fst].
    unfold lift_outcome. fold raw. rewrite Hparse. by erewrite bind_Ok by reflexivity. }
  change (Enter tally) with (tally_Enter (S := S) range_ballots). rewrite (tally_Enter_run _ _ _ _ Htl).
  cbn [length ConsumedMessageTypes CheckComplete PhaseTally inline_phase Nat.ltb Nat.leb negb].
  rewrite bind_at, (step_to runner eq_refl tally settle) by done. change (Exit tally) with (no_hook (S := S)). cbn [no_hook ret].
  change (Enter settle) with (settle_Enter (S := S) json_Marshal json_transcript). fold c'. unfold c' at 1. rewrite settle_Enter_run.
  destruct (json_Marshal tl) as [body|er|w]; [|done|done].
  cbn [length ConsumedMessageTypes CheckComplete PhaseSettle inline_phase Nat.ltb Nat.leb negb].
  by rewrite bind_at, (step_end runner eq_refl settle).
Qed.

Lemma submit_collects : collects submit "vote.ballot" CtxVoteParticipants bucketBallots.
Proof. done. Qed.

(** What [json.Unmarshal] gives: a weight is never NaN. *)
Context (Hnumber : forall p cw, json_Unmarshal p = Ok cw -> is_nan cw.2 = false).
Lemma ballot_weight v cw : is_nan cw.2 = false -> nonneg (Weight (ballot_of v cw)) = true.
Proof.
  intros Hn. cbn. destruct (fleb cw.2 f0) eqn:E; [done|]. by apply fltb_nonneg, fleb_false_fltb.
Qed.
Lemma ballots_of_size raw : (forall kv, kv ∈ map_to_list raw -> decodes kv = true) -> size (ballots_of raw) = size raw.
Proof.
  intros Hall. rewrite <- !size_dom. f_equal. apply set_eq. intros v. rewrite !elem_of_dom. unfold ballots_of. rewrite map_lookup_imap.
  destruct (raw !! v) as [p|] eqn:E; [|by cbn; split; intros [? ?]]. cbn. apply elem_of_map_to_list, Hall in E. unfold decodes in E. cbn in E.
  destruct (decode p); [|done]. split; intros _; by eexists.
Qed.
Lemma totals_keep ballots totals choice : is_Some (totals !! choice) -> is_Some (foldl add_ballot totals ballots !! choice).
Proof.
  revert totals. induction ballots as [|b ballots IH]; intros totals Hc; cbn [foldl]; [done|]. apply IH. unfold add_ballot.
  destruct (decide (choice = Choice b)) as [->|Hne]; [rewrite lookup_insert_eq; by eexists|by rewrite lookup_insert_ne].
Qed.
Lemma ballots_weights raw b : b ∈ (range_ballots (ballots_of raw)).*2 -> nonneg (Weight b) = true.
Proof.
  intros ([v b'] & -> & Hb)%list_elem_of_fmap. rewrite (Hballots (ballots_of raw)) in Hb. apply elem_of_map_to_list in Hb.
  unfold ballots_of in Hb. rewrite map_lookup_imap in Hb. destruct (raw !! v) as [p|]; [|done]. cbn in Hb. unfold decode in Hb.
  destruct (json_Unmarshal p) as [cw|e|w] eqn:E; [|done|done]. injection Hb as <-. eapply ballot_weight, Hnumber, E.
Qed.
Lemma tally_exists raw : raw <> ∅ -> (forall kv, kv ∈ map_to_list raw -> decodes kv = true) ->
  exists tl, tally_of (range_ballots (ballots_of raw)).*2 = Ok tl /\
    Totals tl = foldl add_ballot ∅ (range_ballots (ballots_of raw)).*2 /\ TotalBallots tl = Z.of_nat (size raw) /\
    Totals tl !! WinnerChoice tl = Some (WinnerWeight tl) /\
    forall choice weight, Totals tl !! choice = Some weight ->
      fleb weight (WinnerWeight tl) = true /\ ((choice < WinnerChoice tl)%Z -> fltb weight (WinnerWeight tl) = true).
Proof.
  intros Hraw Hall. set (ballots := (range_ballots (ballots_of raw)).*2). set (totals := foldl add_ballot ∅ ballots).
  assert (Hlen : length ballots = size raw).
  { unfold ballots. by rewrite length_fmap, (Hballots (ballots_of raw)), length_map_to_list, ballots_of_size. }
  assert (Hnn : forall choice, nonneg (total totals choice) = true).
  { apply totals_nonneg; [apply ballots_weights|]. intros choice. unfold total. by rewrite lookup_empty. }
  destruct (pick_winner_leads totals) as (w & Hw & [x Hx] & Hlead).
  - intros choice. by apply nonneg_not_nan.
  - intros Hempty. destruct ballots as [|b ballots'] eqn:E; [symmetry in Hlen; by apply map_size_empty_inv in Hlen|].
    destruct (totals_keep ballots' (add_ballot ∅ b) (Choice b)) as [x Hx]; [unfold add_ballot; rewrite lookup_insert_eq; by eexists|].
    unfold totals in Hempty. cbn [foldl] in Hempty. rewrite Hempty in Hx. by rewrite lookup_empty in Hx.
  - unfold tally_of. fold ballots totals. rewrite Hw. eexists. split; [done|]. cbn [Totals TotalBallots WinnerChoice WinnerWeight].
    split_and!; [done|by rewrite Hlen| |done]. unfold total. by rewrite Hx.
Qed.

(** The ballots a tally is made of: one for each sender, its choice and its
    weight decoded from the sender's message, a weight of zero or less read as one. *)
Lemma ballots_of_spec raw v b : ballots_of raw !! v = Some b <->
  exists p choice w, raw !! v = Some p /\ json_Unmarshal p = Ok (choice, w) /\
    b = {| Voter := v; Choice := choice; Weight := if fleb w f0 then f1 else w |}.
Proof.
  unfold ballots_of, decode. rewrite map_lookup_imap. destruct (raw !! v) as [p|]; cbn; [|by split; [done|intros (? & ? & ? & [=] & _)]].
  destruct (json_Unmarshal p) as [[choice w]|e|w] eqn:E; cbn; split; try done.
  - intros [= <-]. by exists p, choice, w.
  - intros (? & ? & ? & [= <-] & E' & ->). rewrite E in E'. by injection E' as <- <-.
  - intros (? & ? & ? & [= <-] & E' & ->). by rewrite E in E'.
  - intros (? & ? & ? & [= <-] & E' & ->). by rewrite E in E'.
Qed.

(** A session in its submission phase with the participants known. *)
Context (Hmarshal : forall tl w, json_Marshal tl <> Panic w).

(** C35. What a ballot does to a voting session, on every branch.  The ballot of a
    sender replaces an earlier one.  Until there are as many senders as
    participants the session waits; a ballot that does not decode is refused when
    the last one arrives, and the session stays, with every ballot; else the
    session runs through the tally and the transcript to its end in the same
    call, or stops before the transcript when the tally has no JSON.  The ballots
    tallied are one for each sender, with the choice and the weight of the
    sender's message, a weight of zero or less counted as one.  A choice has a
    total exactly when a ballot names it, and the total is the sum of the weights
    of the ballots that name it, in the order the range over the ballots visits
    them; the winner is a choice with a total, no choice has a greater total, and
    every lower choice has a smaller one. *)
Theorem ballot_outcome sid from payload st entered c participants :
  sessions st !! sid = Some (at_phase submit entered c) -> TryGet asStrings CtxVoteParticipants c = Some participants ->
  let c' := AccumulateMessage bucketBallots from payload c in
  let raw := <[from := payload]> (AccumulatedMessages bucketBallots c) in
  let result := HandleMessage runner sid "vote.ballot" from payload st in
  exists t', sessions result.2 = <[sid := t']> (sessions st) /\ AccumulatedMessages bucketBallots c' = raw /\
  if (size raw <? length participants)%nat then result.1 = Ok false /\ t' = at_phase submit entered c'
  else if negb (forallb decodes (map_to_list raw)) then (exists er, result.1 = Err er) /\ t' = at_phase submit entered c'
  else exists ballots tl,
    (forall v b, ballots !! v = Some b <-> exists p choice w, raw !! v = Some p /\
      json_Unmarshal p = Ok (choice, w) /\
      b = {| Voter := v; Choice := choice; Weight := if fleb w f0 then f1 else w |}) /\
    size ballots = size raw /\ TotalBallots tl = Z.of_nat (size raw) /\
    (forall choice, Totals tl !! choice = summed (votes_for choice (range_ballots ballots).*2)) /\
    Totals tl !! WinnerChoice tl = Some (WinnerWeight tl) /\
    (forall choice weight, Totals tl !! choice = Some weight ->
      fleb weight (WinnerWeight tl) = true /\ ((choice < WinnerChoice tl)%Z -> fltb weight (WinnerWeight tl) = true)) /\
    let c2 := with_tally (with_ballots c' ballots) tl in
    match json_Marshal tl with
    | Ok body => result.1 = Ok true /\
        t' = ended true (with_transcript c2 body)
    | _ => (exists er, result.1 = Err er) /\ t' = at_phase settle false c2
    end.
Proof.
  intros Ht Hpart c' raw result.
  assert (Hraw : AccumulatedMessages bucketBallots c' = raw) by apply AccumulatedMessages_accumulate.
  unfold result. rewrite (collect_outcome runner submit "vote.ballot" CtxVoteParticipants bucketBallots sid from payload st entered c participants
    submit_collects Ht Hpart). fold c' raw. destruct (size raw <? length participants)%nat.
  { eexists. split; [done|]. split; [done|]. by split. }
  pose proof (parse_range raw) as Hparse. destruct (forallb decodes (map_to_list raw)) eqn:Hall; cbn [negb].
  - rewrite forallb_forall in Hall. destruct (tally_exists raw) as (tl & Htl & Htot & Hcount & Hwin & Hlead).
    { intros Hempty. assert (raw !! from = None) as Hf by (by rewrite Hempty, lookup_empty). unfold raw in Hf. by rewrite lookup_insert_eq in Hf. }
    { intros kv Hkv. by apply Hall, list_elem_of_In. }
    pose proof (cascade entered c' (rs_env st) tl) as Hc. cbn zeta in Hc. rewrite Hraw in Hc. rewrite (Hc Hparse Htl).
    destruct (json_Marshal tl) as [body|er|w] eqn:Ej; [| |by destruct (Hmarshal tl w)].
    all: eexists; split; [done|]; split; [done|]; exists (ballots_of raw), tl.
    all: split; [apply ballots_of_spec|]; split; [by apply ballots_of_size; intros kv Hkv; apply Hall, list_elem_of_In|].
    all: split; [done|]; split; [intros choice; rewrite Htot; apply totals_summed|]; split; [done|]; split; [done|].
    all: rewrite Ej; cbn zeta; split; [|done]; by try eexists.
  - destruct Hparse as [er Her].
    assert (advance runner (at_phase submit entered c', rs_env st) =
      (Err (wrap_phase submit ": Exit: " er), (at_phase submit entered c', rs_env st))) as ->.
    { unfold advance. change (hopCap runner) with 6. cbn [advance_loop]. rewrite bind_at, (step_to runner eq_refl submit tally) by done.
      assert (Exit submit (c', rs_env st) = (Err er, (c', rs_env st))) as ->; [|done].
      cbn [Exit PhaseSubmitVote PhaseSubmitVoteAt inline_phase]. unfold submit_Exit. rewrite (bind_Ok get_ctx _ _ _ _ eq_refl).
      cbn [fst]. rewrite Hraw. unfold lift_outcome. by rewrite bind_at, Her. }
    eexists. split; [done|]. split; [done|]. split; [by eexists|done].
Qed.
End Ballots.

Module VotingWitnesses.
Import InMemory.

(** A ballot as two bytes, the choice and the weight. *)
Definition toy_Unmarshal (p : bytes) : Outcome (Z * float64) :=
  match p with
  | [choice; weight] => Ok (Z.of_N (Byte.to_N choice), of_Z (Z.of_N (Byte.to_N weight)))
  | _ => Err (ErrorsNew "unexpected end of JSON input")
  end.
Definition toy_Marshal (tl : Tally) : Outcome bytes :=
  if is_finite (WinnerWeight tl) then Ok (of_string (fmt_int (WinnerChoice tl))) else Err (ErrorsNew "json: unsupported value").
Definition toy_transcript (body : bytes) (hash : string) : bytes := body ++ of_string hash.
Notation toy_runner := (pipeline_runner (S := InMemoryStore) (voting_phases toy_Unmarshal toy_Marshal toy_transcript map_to_list map_to_list)).
Notation toy_submit := (PhaseSubmitVote (S := InMemoryStore) toy_Unmarshal map_to_list).

Definition one_vote : SessionContext :=
  AccumulateMessage bucketBallots "alice" [Byte.x01; Byte.x03]
    (ctx_Set CtxVoteParticipants (AStrings ["alice"; "bob"]%string) (NewSessionContext "s")).
Definition voting_state : RunnerState InMemoryStore := {|
  sessions := {["s"%string := at_phase toy_submit true one_vote]};
  rs_env := {| env_store := NewInMemoryStore; env_clock := Z.of_nat; env_ticks := 0 |}; fired := []; hookPanicLog := [] |}.

Lemma toy_number p cw : toy_Unmarshal p = Ok cw -> is_nan cw.2 = false.
Proof. destruct p as [|a [|w [|? ?]]]; intros [= <-]. apply binary_normalize_not_nan. Qed.
Lemma toy_no_panic p w : toy_Unmarshal p <> Panic w.
Proof. by destruct p as [|a [|b [|? ?]]]. Qed.
Lemma toy_marshal_no_panic tl w : toy_Marshal tl <> Panic w.
Proof. unfold toy_Marshal. by destruct (is_finite _). Qed.

Definition vote (voter : string) (choice weight : Z) : Ballot := {| Voter := voter; Choice := choice; Weight := of_Z weight |}.
(** The second ballot ends the session.  Its sender is not a participant, and
    its weight goes to the choice of the first. *)
Definition both_votes : gmap string bytes :=
  <["mallory"%string := [Byte.x01; Byte.x09]]> (AccumulatedMessages bucketBallots one_vote).
Definition second_vote : Outcome bool * RunnerState InMemoryStore :=
  HandleMessage toy_runner "s" "vote.ballot" "mallory" [Byte.x01; Byte.x09] voting_state.
Lemma ballot_outcome_witness :
  second_vote.1 = Ok true /\
  exists t' (ballots : gmap string Ballot) tl, sessions second_vote.2 = <["s"%string := t']> (sessions voting_state) /\ tr_current t' = None /\
    size ballots = 2 /\ TotalBallots tl = 2%Z /\ WinnerChoice tl = 1%Z /\ WinnerWeight tl = of_Z 12 /\
    Totals tl !! 1%Z = summed (votes_for 1 (map_to_list ballots).*2).
Proof.
  assert (Ht : sessions voting_state !! "s"%string = Some (at_phase toy_submit true one_vote)) by apply lookup_insert_eq.
  assert (Hp : TryGet asStrings CtxVoteParticipants one_vote = Some ["alice"; "bob"]%string) by (vm_compute; reflexivity).
  assert (Hsize : (size both_votes <? length ["alice"; "bob"]%string)%nat = false) by (vm_compute; reflexivity).
  assert (Hall : forallb (decodes toy_Unmarshal) (map_to_list both_votes) = true) by (vm_compute; reflexivity).
  assert (Hres : second_vote.1 = Ok true) by (vm_compute; reflexivity).
  pose proof (ballot_outcome toy_Unmarshal toy_Marshal toy_transcript map_to_list map_to_list
    (fun m => reflexivity (map_to_list m)) (fun m => reflexivity (map_to_list m)) toy_no_panic toy_number toy_marshal_no_panic
    "s" "mallory" [Byte.x01; Byte.x09] voting_state true one_vote ["alice"; "bob"]%string Ht Hp) as Hout.
  cbv zeta in Hout. fold both_votes second_vote in Hout. rewrite Hsize, Hall in Hout. cbn [negb] in Hout.
  destruct Hout as (t' & Hs & _ & ballots & tl & Hb & Hsz & Hn & Htot & Hwin & _ & Hend).
  assert (ballots = ballots_of toy_Unmarshal both_votes) as ->.
  { apply map_eq. intros v. apply option_eq. intros b. rewrite Hb. symmetry. apply ballots_of_spec. }
  assert (HL : (map_to_list (ballots_of toy_Unmarshal both_votes)).*2 = [vote "mallory" 1 9; vote "alice" 1 3])
    by (vm_compute; reflexivity).
  assert (Hc : WinnerChoice tl = 1%Z /\ Some (WinnerWeight tl) = Some (of_Z 12)).
  { rewrite <- Hwin, (Htot (WinnerChoice tl)), HL. unfold votes_for. rewrite !filter_cons. cbn [Choice vote].
    destruct (decide (1%Z = WinnerChoice tl)) as [<-|Hne].
    - split; [reflexivity|vm_compute; reflexivity].
    - exfalso. rewrite Htot, HL in Hwin. unfold votes_for in Hwin. rewrite !filter_cons in Hwin. cbn [Choice vote] in Hwin.
      destruct (decide (1%Z = WinnerChoice tl)) as [He|_]; [by destruct Hne|discriminate Hwin]. }
  destruct Hc as [Hc Hw]. split; [exact Hres|]. exists t', (ballots_of toy_Unmarshal both_votes), tl.
  split; [exact Hs|]. split.
  { destruct (toy_Marshal tl) as [body|er|w].
    - destruct Hend as [_ ->]. reflexivity.
    - destruct Hend as [[er' Her] _]. rewrite Hres in Her. discriminate Her.
    - destruct Hend as [[er' Her] _]. rewrite Hres in Her. discriminate Her. }
  split_and!; [exact Hsz|exact Hn|exact Hc|by injection Hw|apply Htot].
Defined.

(** The order in which a range visits the ballots decides the winner. *)
Definition in_one_order : list Ballot :=
  [vote "alice" 0 1; vote "bob" 0 1; vote "carol" 0 9007199254740992; vote "dave" 1 9007199254740994].
Definition in_another : list Ballot :=
  [vote "carol" 0 9007199254740992; vote "alice" 0 1; vote "bob" 0 1; vote "dave" 1 9007199254740994].
Definition winner_of (o : Outcome Tally) : option Z := match o with Ok tl => Some (WinnerChoice tl) | _ => None end.
Example winner_depends_on_order :
  in_one_order ≡ₚ in_another /\ winner_of (tally_of in_one_order) = Some 0%Z /\ winner_of (tally_of in_another) = Some 1%Z.
Proof.
  split; [|by vm_compute]. unfold in_one_order, in_another.
  transitivity [vote "alice" 0 1; vote "carol" 0 9007199254740992; vote "bob" 0 1; vote "dave" 1 9007199254740994].
  - constructor. apply perm_swap.
  - apply perm_swap.
Qed.
(** A tally without ballots panics: [AdvanceToState] past the submission. *)
Example no_ballots : exists w, (AdvanceToState toy_runner "s" StateDecrypting
  {| sessions := {["s"%string := at_phase toy_submit true (NewSessionContext "s")]};
     rs_env := rs_env voting_state; fired := []; hookPanicLog := [] |}).1 = Panic w.
Proof. eexists. vm_compute. reflexivity. Qed.
End VotingWitnesses.
