(* ===== verification/Auction.v ===== *)
(** * The sealed-bid auction (examples/sealed_bid_auction)

    Its phases and pipelines, over the hooks of [Apps]; what the last bid and the
    last partial decryption do to a session on every branch; and the winning
    price as the bridge computes it. *)
From Stdlib Require Import ZArith NArith Lia String Ascii Strings.Byte.
From stdpp Require Import base gmap list strings sorting.
From S2P Require Import Prelude Bytes Encoding.
From S2P Require Import GoFloat GoFmt.
From S2P Require Import CGo Bridge BridgeEval BridgeFuse Helper HelperClient HelperSpec.
From S2P Require Import Sign.
From S2P Require Import Lineage.
From S2P Require Import Context.
From S2P Require Import Pipeline.
From S2P Require Import Runner.
From S2P Require Import RunnerSpec.
From S2P Require Import Defaults.
From S2P Require Import Apps.

(** ** States and keys (states.go) *)

Definition StateAuctionInviting : SessionState := "AUCTION_INVITING".
Definition StateAuctionLocked : SessionState := "AUCTION_LOCKED".
Definition StateAuctionBidding : SessionState := "AUCTION_BIDDING".
Definition StateAuctionScoring : SessionState := "AUCTION_SCORING".
Definition StateAuctionDecrypting : SessionState := "AUCTION_DECRYPTING".
Definition StateAuctionSettled : SessionState := "AUCTION_SETTLED".

Definition CtxAuctionParticipants : string := "auction.participants".
Definition CtxAuctionCryptoContract : string := "auction.crypto_ctx".
Definition CtxAuctionCollectivePublicKey : string := "auction.collective_pk".
Definition CtxAuctionSecretShares : string := "auction.secret_shares".
Definition CtxAuctionEvalKeys : string := "auction.eval_keys".
Definition CtxAuctionBids : string := "auction.bids".
Definition CtxAuctionCipherWinnerBid : string := "auction.ct_winner_bid".
Definition CtxAuctionWinnerBid : string := "auction.winner_bid".
Definition CtxAuctionSettlement : string := "auction.settlement".
Definition bucketKeygenShares : string := "auction.bucket.keygen_shares".
Definition bucketScalarBids : string := "auction.bucket.scalar_bids".
Definition bucketDecryptPartials : string := "auction.bucket.decrypt_partials".

(** ** Phases (phases.go) *)

Section Auction.
Context {S : Type} `{Store S} {V LS : Type} (L : CLib V LS) (OpenFHEVersion : string) {Wire : Type} `{C : HelperCodec Wire}.
Context `{J : AppCodec} `{F : FloatConversion} (hex_error : string -> GoError) (range : gmap string bytes -> list (string * bytes)).
Notation AS := (S * Helper V LS)%type.
Local Open Scope string_scope.

Definition PhaseInvitation : Phase AS :=
  inline_phase "auction-invitation" StateAuctionInviting StateAuctionLocked [] []
    [(CtxAuctionParticipants, key_type "[]string" false []);
     (CtxAuctionCryptoContract, key_type "OpenFHEContract" false
       [("depth", AInt 10); ("ring_dim", AInt 2048); ("scaling_mod_size", AInt 40)])]
    no_hook no_message (fun _ => true) no_hook.

Definition readContractParams (c : SessionContext) : Outcome HelperParams :=
  read_params true true (contract_of CtxAuctionCryptoContract "CtxAuctionCryptoContract" " has unexpected type " c).

(** [helper]: the phase has a client. *)
Definition PhaseKeygen (helper : bool) : Phase AS :=
  inline_phase "auction-keygen" StateAuctionLocked StateAuctionBidding ["auction.keygen.share"]
    [(CtxAuctionParticipants, key_type "[]string" true []);
     (CtxAuctionCryptoContract, key_type "OpenFHEContract" true [("depth_min", AInt 4)])]
    [(CtxAuctionCollectivePublicKey, key_type "[]byte" false []);
     (CtxAuctionSecretShares, key_type "map[string][]byte" false []);
     (CtxAuctionEvalKeys, key_type "OpenFHEEvalKeys" false [])]
    no_hook (accumulate bucketKeygenShares) (quorum CtxAuctionParticipants bucketKeygenShares)
    (keygen_Exit L OpenFHEVersion bucketKeygenShares CtxAuctionParticipants "CtxAuctionParticipants"
      CtxAuctionCollectivePublicKey CtxAuctionSecretShares CtxAuctionEvalKeys readContractParams helper).

Definition PhaseScalarBid : Phase AS :=
  inline_phase "auction-scalar-bid" StateAuctionBidding StateAuctionScoring ["auction.bid"]
    [(CtxAuctionParticipants, key_type "[]string" true []);
     (CtxAuctionCollectivePublicKey, key_type "[]byte" true []);
     (CtxAuctionCryptoContract, key_type "OpenFHEContract" true [])]
    [(CtxAuctionBids, key_type "map[string][]byte" false [])]
    no_hook (accumulate bucketScalarBids) (quorum CtxAuctionParticipants bucketScalarBids)
    (submit_Exit bucketScalarBids CtxAuctionBids).

Definition decodeBidCiphertext : bytes -> Outcome bytes := decode_ciphertext hex_error "bid_ct".

(** [helper]: the client's sharpening polynomial, when there is a client. *)
Definition PhaseArgmax (helper : option EvalPolyParams) : Phase AS :=
  inline_phase "auction-argmax-scoring" StateAuctionScoring StateAuctionDecrypting []
    [(CtxAuctionParticipants, key_type "[]string" true []);
     (CtxAuctionCryptoContract, key_type "OpenFHEContract" true [("depth_min", AInt 8)]);
     (CtxAuctionEvalKeys, key_type "OpenFHEEvalKeys" true []);
     (CtxAuctionBids, key_type "map[string][]byte" true [])]
    [(CtxAuctionCipherWinnerBid, key_type "[]byte" false [])]
    (argmax_Enter L OpenFHEVersion "PhaseArgmax" "CtxAuctionEvalKeys" "bid" ": marshal envelope: " bucketScalarBids
      CtxAuctionEvalKeys CtxAuctionCipherWinnerBid readContractParams decodeBidCiphertext helper)
    no_message (fun _ => true) no_hook.

Definition decodePartial : bytes -> Outcome bytes :=
  decodePartialCiphertext hex_error "no partial_ct or partial field in decrypt-partial payload".
Definition winner_bid (price : option float64) (num_partials : nat) : list (string * Any) :=
  match price with
  | None => [("winner", AString "stub-winner"); ("price", AInt 0); ("num_partials", AInt (Z.of_nat num_partials))]
  | Some x => [("winner", AString "bidder-determined-by-mask"); ("price", AFloat64 x); ("num_partials", AInt (Z.of_nat num_partials))]
  end.
Definition PhaseDecrypt (helper : bool) : Phase AS :=
  inline_phase "auction-threshold-decrypt" StateAuctionDecrypting StateAuctionSettled ["auction.decrypt.partial"]
    [(CtxAuctionParticipants, key_type "[]string" true []);
     (CtxAuctionSecretShares, key_type "map[string][]byte" true []);
     (CtxAuctionCipherWinnerBid, key_type "[]byte" true [])]
    [(CtxAuctionWinnerBid, key_type "WinnerBid" false [])]
    no_hook (accumulate bucketDecryptPartials) (quorum CtxAuctionParticipants bucketDecryptPartials)
    (decrypt_Exit L OpenFHEVersion "PhaseDecrypt" bucketDecryptPartials CtxAuctionWinnerBid range readContractParams
      decodePartial 1 helper winner_bid).

Definition PhaseSettlement : Phase AS :=
  inline_phase "auction-settlement" StateAuctionSettled StateNone []
    [(CtxAuctionWinnerBid, key_type "WinnerBid" true [])]
    [(CtxAuctionSettlement, key_type "SignedTranscript" false [])]
    (settle_transcript CtxAuctionWinnerBid CtxAuctionSettlement "winner" "auctioneer") no_message (fun _ => true) no_hook.

(** ** Pipelines (runner.go) *)

Definition auction_phases (helper : option EvalPolyParams) : list (Phase AS) :=
  let client := bool_decide (is_Some helper) in
  [PhaseInvitation; PhaseKeygen client; PhaseScalarBid; PhaseArgmax helper; PhaseDecrypt client; PhaseSettlement].
Definition Pipeline : Outcome (SessionRunner AS) := Compose (auction_phases None).
Definition PipelineWithHelper (sharpening : EvalPolyParams) : Outcome (SessionRunner AS) := Compose (auction_phases (Some sharpening)).
Definition PipelineWithLineage (signer : Signer) (peerVerifiers : gmap string Signer) : Outcome (SessionRunner AS) :=
  ComposeWith (auction_phases None) [WithSigner signer; WithPeerVerifiers peerVerifiers].
Definition PipelineWithLineageAndHelper (sharpening : EvalPolyParams) (signer : Signer) (peerVerifiers : gmap string Signer) :
    Outcome (SessionRunner AS) :=
  ComposeWith (auction_phases (Some sharpening)) [WithSigner signer; WithPeerVerifiers peerVerifiers].

Lemma auction_composes : Pipeline = Ok (pipeline_runner (auction_phases None)).
Proof. reflexivity. Qed.
Lemma auction_helper_composes sharpening :
  PipelineWithHelper sharpening = Ok (pipeline_runner (auction_phases (Some sharpening))).
Proof. reflexivity. Qed.

(** ** What a message does *)

Context (Hjson : forall ks raw, no_panic (Unmarshal_strings ks raw)) (Hmasks : forall ks ms, no_panic (Marshal_masks ks ms)).
Context (sharpening : EvalPolyParams).
Notation runner := (pipeline_runner (auction_phases (Some sharpening))).
Notation bidding := (PhaseScalarBid).
Notation scoring := (PhaseArgmax (Some sharpening)).
Notation decrypting := (PhaseDecrypt true).

Lemma readContractParams_no_panic c : no_panic (readContractParams c).
Proof. apply read_params_no_panic, contract_of_no_panic. Qed.

(** The last bid, down to the outcomes of the contract, the decoding and the helper. *)
Lemma last_bid sid from payload st entered c ps :
  sessions st !! sid = Some (at_phase bidding entered c) -> TryGet asStrings CtxAuctionParticipants c = Some ps ->
  let raw := <[from := payload]> (AccumulatedMessages bucketScalarBids c) in
  let c1 := ctx_Set CtxAuctionBids (AMapBytes raw) (AccumulateMessage bucketScalarBids from payload c) in
  (length ps <= size raw)%nat ->
  let result := HandleMessage runner sid "auction.bid" from payload st in
  exists t' h, sessions result.2 = <[sid := t']> (sessions st) /\ rs_env result.2 = set_helper (rs_env st) h /\
  match argmax_args readContractParams decodeBidCiphertext bucketScalarBids CtxAuctionEvalKeys c1 with
  | None => (exists er, result.1 = Err er) /\ h = helper_of (rs_env st) /\ t' = at_phase scoring false c1
  | Some (params, evalKeys, cts) =>
      match client_Argmax L OpenFHEVersion params evalKeys cts sharpening (helper_of (rs_env st)) with
      | (Ok masks, h') =>
          match Marshal_masks (sorted_keys raw) (hex_encode <$> masks) with
          | Ok body => result.1 = Ok true /\ h = h' /\ t' = at_phase decrypting true (ctx_Set CtxAuctionCipherWinnerBid (ABytes body) c1)
          | _ => (exists er, result.1 = Err er) /\ h = h' /\ t' = at_phase scoring false c1
          end
      | (Err _, h') => (exists er, result.1 = Err er) /\ h = h' /\ t' = at_phase scoring false c1
      | (Panic w, h') => result.1 = Panic w /\ h = h' /\ t' = at_phase scoring false c1
      end
  end.
Proof.
  intros Ht Hps raw c1 Hlen.
  apply (submission_scores L OpenFHEVersion runner eq_refl bidding scoring decrypting "auction.bid" CtxAuctionParticipants bucketScalarBids
    CtxAuctionBids "PhaseArgmax" "CtxAuctionEvalKeys" "bid" ": marshal envelope: " CtxAuctionEvalKeys CtxAuctionCipherWinnerBid
    readContractParams decodeBidCiphertext sharpening sid from payload st entered c ps); try done.
  - unfold hopCap. cbn. lia.
  - apply readContractParams_no_panic.
  - intros l. apply decode_all_no_panic. intros b. by apply decode_ciphertext_no_panic.
Qed.

(** The arguments of the argmax, without the code's own reader of a bid. *)
Lemma bid_args c1 raw params evalKeys cts : AccumulatedMessages bucketScalarBids c1 = raw ->
  argmax_args readContractParams decodeBidCiphertext bucketScalarBids CtxAuctionEvalKeys c1 = Some (params, evalKeys, cts) <->
  readContractParams c1 = Ok params /\ TryGet asBytes CtxAuctionEvalKeys c1 = Some evalKeys /\ evalKeys <> [] /\
  Forall2 (fun m ct => carries ["bid_ct"] m.2 ct) (sorted_messages raw) cts.
Proof.
  intros Hraw. rewrite argmax_args_iff, Hraw.
  assert (Forall2 (fun m ct => decodeBidCiphertext m.2 = Ok ct) (sorted_messages raw) cts <->
    Forall2 (fun m ct => carries ["bid_ct"] m.2 ct) (sorted_messages raw) cts) as ->; [|done].
  split; intros Hf; (eapply Forall2_impl; [exact Hf|]); intros m ct; apply decode_ciphertext_iff.
Qed.

(** C31. What a bid does to an auction with a helper, on every branch.  It
    replaces an earlier bid of its sender; until there are as many senders as
    bidders the session waits.  The last one closes the bidding.  The bids are
    taken in the strictly increasing order of their senders' names, each once:
    when the contract and the evaluation keys are there and the member bid_ct of
    every bid is the hexadecimal text of a ciphertext, the helper's argmax is
    called with those ciphertexts in that order, and the session goes on to the
    decryption with the envelope of the names in that order and the masks in
    theirs; if something is missing or malformed the helper is not called.  In
    that case, or when the helper fails or the envelope has no JSON, the session is
    left in the scoring phase, where it refuses every later message. *)
Theorem bid_outcome sid from payload st entered c ps :
  sessions st !! sid = Some (at_phase bidding entered c) -> TryGet asStrings CtxAuctionParticipants c = Some ps ->
  let raw := <[from := payload]> (AccumulatedMessages bucketScalarBids c) in
  let c' := AccumulateMessage bucketScalarBids from payload c in
  let c1 := ctx_Set CtxAuctionBids (AMapBytes raw) c' in
  let result := HandleMessage runner sid "auction.bid" from payload st in
  exists t' h, sessions result.2 = <[sid := t']> (sessions st) /\ rs_env result.2 = set_helper (rs_env st) h /\
  if (size raw <? length ps)%nat then result.1 = Ok false /\ t' = at_phase bidding entered c' /\ h = helper_of (rs_env st)
  else exists order, order ≡ₚ map_to_list raw /\ StronglySorted (fun a b => String.compare a b = Lt) order.*1 /\
    (t' = at_phase scoring false c1 -> forall ty from' payload', exists er,
      errors_Is er ErrPermanent_msg = true /\ HandleMessage runner sid ty from' payload' result.2 = (Err er, result.2)) /\
    (forall params evalKeys cts, readContractParams c1 = Ok params ->
      TryGet asBytes CtxAuctionEvalKeys c1 = Some evalKeys -> evalKeys <> [] ->
      Forall2 (fun m ct => carries ["bid_ct"] m.2 ct) order cts ->
      match client_Argmax L OpenFHEVersion params evalKeys cts sharpening (helper_of (rs_env st)) with
      | (Ok masks, h') =>
          h = h' /\
          match Marshal_masks order.*1 (hex_encode <$> masks) with
          | Ok body => result.1 = Ok true /\ t' = at_phase decrypting true (ctx_Set CtxAuctionCipherWinnerBid (ABytes body) c1)
          | _ => (exists er, result.1 = Err er) /\ t' = at_phase scoring false c1
          end
      | (Err _, h') => h = h' /\ (exists er, result.1 = Err er) /\ t' = at_phase scoring false c1
      | (Panic w, h') => h = h' /\ result.1 = Panic w /\ t' = at_phase scoring false c1
      end) /\
    (~ (exists params evalKeys cts, readContractParams c1 = Ok params /\
        TryGet asBytes CtxAuctionEvalKeys c1 = Some evalKeys /\ evalKeys <> [] /\
        Forall2 (fun m ct => carries ["bid_ct"] m.2 ct) order cts) ->
      (exists er, result.1 = Err er) /\ h = helper_of (rs_env st) /\ t' = at_phase scoring false c1).
Proof.
  intros Ht Hps raw c' c1 result. destruct (size raw <? length ps)%nat eqn:Hlen.
  - unfold result. rewrite (collect_outcome runner bidding "auction.bid" CtxAuctionParticipants bucketScalarBids sid from payload st entered c ps)
      by done. fold raw c'. rewrite Hlen. eexists _, (helper_of (rs_env st)). split; [reflexivity|]. split; [by rewrite set_helper_same|done].
  - apply Nat.ltb_ge in Hlen.
    destruct (last_bid sid from payload st entered c ps Ht Hps Hlen) as (t' & h & Hs & He & Hcase).
    fold result in Hs, He. exists t', h. split; [exact Hs|]. split; [exact He|].
    destruct (sorted_messages_order raw) as [Hperm Hsort]. exists (sorted_messages raw). split; [exact Hperm|]. split; [exact Hsort|].
    split; [intros -> ty from' payload'; eapply HandleMessage_unconsumed; [rewrite Hs; apply lookup_insert_eq|reflexivity|by apply not_elem_of_nil]|].
    fold raw c' c1 result in Hcase.
    assert (Hraw : AccumulatedMessages bucketScalarBids c1 = raw).
    { unfold c1, AccumulatedMessages at 1, ctx_Get, ctx_Set, with_values. cbn [values]. rewrite lookup_insert_ne by done.
      apply (AccumulatedMessages_accumulate bucketScalarBids from payload c). }
    rewrite sorted_messages_names. split.
    + intros params evalKeys cts Hp Hk Hne Hcts.
      rewrite (proj2 (bid_args c1 raw params evalKeys cts Hraw) (conj Hp (conj Hk (conj Hne Hcts)))) in Hcase.
      destruct (client_Argmax _ _ _ _ _ _ _) as [[masks|er|w] h']; [|naive_solver|naive_solver].
      destruct (Marshal_masks _ _) as [body|er|w]; naive_solver.
    + intros Hnone. destruct (argmax_args _ _ _ _ _) as [[[params evalKeys] cts]|] eqn:Ea; [|done].
      apply (bid_args c1 raw) in Ea; [|done]. destruct Hnone. eauto.
Qed.

Lemma decodePartial_no_panic b : no_panic (decodePartial b).
Proof. by apply decodePartialCiphertext_no_panic. Qed.
Definition price_of (values : list float64) (partials : gmap string bytes) : Any :=
  AnyMap (winner_bid (Some (hd f0 values)) (size partials)).
(** The session after the settlement. *)
Definition settled (values : list float64) (partials : gmap string bytes) (c : SessionContext) : sessionTracker AS :=
  ended true (ctx_Set CtxAuctionSettlement
    (AnyMap (transcript_of "winner" "auctioneer" (ctxSessionID c) (price_of values partials)))
    (ctx_Set CtxAuctionWinnerBid (price_of values partials) c)).

Lemma last_partial sid from payload st entered c ps :
  sessions st !! sid = Some (at_phase decrypting entered c) -> TryGet asStrings CtxAuctionParticipants c = Some ps ->
  let raw := <[from := payload]> (AccumulatedMessages bucketDecryptPartials c) in
  let c' := AccumulateMessage bucketDecryptPartials from payload c in
  (length ps <= size raw)%nat ->
  let result := HandleMessage runner sid "auction.decrypt.partial" from payload st in
  exists t' h, sessions result.2 = <[sid := t']> (sessions st) /\ rs_env result.2 = set_helper (rs_env st) h /\
  match readContractParams c', decode_all (fun _ er => er) decodePartial (range raw) with
  | Ok params, Ok cts =>
      let '(o, h') := FusePartials L OpenFHEVersion params cts 1 (helper_of (rs_env st)) in
      h = h' /\ match o with
      | Ok values => result.1 = Ok true /\ t' = settled values raw c'
      | Err _ => (exists er, result.1 = Err er) /\ t' = at_phase decrypting entered c'
      | Panic w => result.1 = Panic w /\ t' = at_phase decrypting entered c'
      end
  | _, _ => (exists er, result.1 = Err er) /\ t' = at_phase decrypting entered c' /\ h = helper_of (rs_env st)
  end.
Proof.
  intros Ht Hps raw c' Hlen result.
  destruct (decrypt_settles L OpenFHEVersion runner eq_refl decrypting PhaseSettlement "auction.decrypt.partial" CtxAuctionParticipants "PhaseDecrypt"
    bucketDecryptPartials CtxAuctionWinnerBid range readContractParams decodePartial 1 winner_bid CtxAuctionSettlement "winner" "auctioneer"
    sid from payload st entered c ps) as (t' & h & Hs & He & Hcase); try done.
  { unfold hopCap. cbn. lia. }
  exists t', h. fold result in Hs, He. split; [exact Hs|]. split; [exact He|]. fold raw c' in Hcase. cbn zeta in Hcase. fold result in Hcase.
  pose proof (readContractParams_no_panic c') as Hr.
  assert (Hd : no_panic (decode_all (fun _ er => er) decodePartial (range raw))) by apply decode_all_no_panic, decodePartial_no_panic.
  destruct (readContractParams c') as [params|er|w]; [|naive_solver|by destruct (Hr w)].
  destruct (decode_all _ decodePartial (range raw)) as [cts|er|w]; [|naive_solver|by destruct (Hd w)].
  destruct (FusePartials _ _ _ _ _ _) as [[values|er|w] h']; naive_solver.
Qed.

(** What a partial decryption does to an auction with a helper, on every
    branch.  It replaces an earlier one of its sender; until there are as many
    senders as bidders the session waits.  The last one settles it: the partials are
    fused, the first slot is the price, and the transcript over the session, the
    result and the settler carries the hash of itself.  When the contract is not
    readable, a partial is malformed or the helper fails, the message is kept, the
    session stays in its phase and a later partial tries again. *)
Lemma partial_outcome sid from payload st entered c ps :
  sessions st !! sid = Some (at_phase decrypting entered c) -> TryGet asStrings CtxAuctionParticipants c = Some ps ->
  let raw := <[from := payload]> (AccumulatedMessages bucketDecryptPartials c) in
  let c' := AccumulateMessage bucketDecryptPartials from payload c in
  let result := HandleMessage runner sid "auction.decrypt.partial" from payload st in
  exists t' h, sessions result.2 = <[sid := t']> (sessions st) /\ rs_env result.2 = set_helper (rs_env st) h /\
  if (size raw <? length ps)%nat then result.1 = Ok false /\ t' = at_phase decrypting entered c' /\ h = helper_of (rs_env st)
  else match readContractParams c', decode_all (fun _ er => er) decodePartial (range raw) with
  | Ok params, Ok cts =>
      let '(o, h') := FusePartials L OpenFHEVersion params cts 1 (helper_of (rs_env st)) in
      h = h' /\ match o with
      | Ok values => result.1 = Ok true /\ t' = settled values raw c'
      | Err _ => (exists er, result.1 = Err er) /\ t' = at_phase decrypting entered c'
      | Panic w => result.1 = Panic w /\ t' = at_phase decrypting entered c'
      end
  | _, _ => (exists er, result.1 = Err er) /\ t' = at_phase decrypting entered c' /\ h = helper_of (rs_env st)
  end.
Proof.
  intros Ht Hps raw c' result. destruct (size raw <? length ps)%nat eqn:Hlen.
  - unfold result. rewrite (collect_outcome runner decrypting "auction.decrypt.partial" CtxAuctionParticipants bucketDecryptPartials
      sid from payload st entered c ps) by done. fold raw c'. rewrite Hlen.
    eexists _, (helper_of (rs_env st)). split; [reflexivity|]. split; [by rewrite set_helper_same|done].
  - apply Nat.ltb_ge in Hlen. by apply (last_partial sid from payload st entered c ps).
Qed.

(** Against a helper that is up, the price of the auction is the first slot
    the bridge recovers from the decoded partials: when the fusion of the bridge
    gives finite values, the last partial settles the auction with the first of
    them and leaves the helper with the bridge in the state of that fusion. *)
Lemma auction_price `{HL : !HelperLaws C} sid from payload st entered c ps params cts s values s' :
  sessions st !! sid = Some (at_phase decrypting entered c) -> TryGet asStrings CtxAuctionParticipants c = Some ps ->
  let raw := <[from := payload]> (AccumulatedMessages bucketDecryptPartials c) in
  let c' := AccumulateMessage bucketDecryptPartials from payload c in
  (length ps <= size raw)%nat -> readContractParams c' = Ok params -> params_ok params = true ->
  decode_all (fun _ er => er) decodePartial (range raw) = Ok cts ->
  helper_of (rs_env st) = up s ->
  FuseCKKSPartialsForContract L (toContractParams params) cts 1 s = (Ok values, s') -> forallb json_float values = true ->
  let result := HandleMessage runner sid "auction.decrypt.partial" from payload st in
  result.1 = Ok true /\ sessions result.2 = <[sid := settled values raw c']> (sessions st) /\ helper_of (rs_env result.2) = up s'.
Proof.
  intros Ht Hps raw c' Hlen Hread Hok Hcts Hup Hfuse Hfinite result.
  destruct (last_partial sid from payload st entered c ps Ht Hps Hlen) as (t' & h & Hs & He & Hcase).
  fold raw c' result in Hcase, Hs, He. rewrite Hread, Hcts, Hup in Hcase.
  pose proof (fuse_mirrors L OpenFHEVersion params cts 1 Hok eq_refl s) as Hm. unfold finite_slots in Hm.
  rewrite (bind_Ok _ _ _ _ _ Hfuse), Hfinite in Hm. unfold ret in Hm. rewrite Hm in Hcase. destruct Hcase as (-> & Hres & ->).
  split; [done|]. split; [done|]. by rewrite He.
Qed.
End Auction.

Module AuctionWitnesses.
Import InMemory Scripted AppToys.
Local Open Scope string_scope.


Notation toy_phases := (auction_phases (S := InMemoryStore) toy "v1.5.1" no_hex map_to_list (Some sharpening)).
Notation toy_runner := (pipeline_runner toy_phases).
Notation toy_bidding := (PhaseScalarBid (S := InMemoryStore) (V := bytes) (LS := Script)).
Notation toy_decrypting := (PhaseDecrypt (S := InMemoryStore) toy "v1.5.1" no_hex map_to_list true).

Definition contract : list (string * Any) := [("ring_dim", AInt 2048); ("depth", AInt 10)].
Definition opened : SessionContext :=
  ctx_Set CtxAuctionEvalKeys (ABytes [Byte.x01]) (ctx_Set CtxAuctionCryptoContract (AnyMap contract)
    (ctx_Set CtxAuctionParticipants (AStrings ["alice"; "bob"]) (NewSessionContext "s"))).
Definition one_bid : SessionContext := AccumulateMessage bucketScalarBids "bob" (of_string "0a") opened.
Definition one_partial : SessionContext := AccumulateMessage bucketDecryptPartials "bob" (of_string "0a") opened.

(** The second bid closes the bidding, with the masks beside the names: alice
    before bob, though bob has bid first. *)
Definition both_bids : gmap string bytes := <["alice" := of_string "0b"]> (AccumulatedMessages bucketScalarBids one_bid).
Definition second_bid := HandleMessage toy_runner "s" "auction.bid" "alice" (of_string "0b") (state_at toy_bidding one_bid).
Lemma bid_outcome_witness :
  second_bid.1 = Ok true /\
  exists t' (masks : list bytes), sessions second_bid.2 = <["s" := t']> (sessions (state_at toy_bidding one_bid)) /\ tr_state t' = StateAuctionDecrypting /\
    length masks = 2%nat /\
    ctx_Get CtxAuctionCipherWinnerBid (tr_ctx t') = Some (ABytes (of_string (String.concat "," (["alice"; "bob"] ++ (hex_encode <$> masks))%list))).
Proof.
  pose proof (bid_outcome toy "v1.5.1" no_hex map_to_list toy_json_ok toy_masks_ok sharpening "s" "alice" (of_string "0b")
    (state_at toy_bidding one_bid) true one_bid ["alice"; "bob"] (at_start _ _) eq_refl) as Hout. cbv zeta in Hout.
  fold both_bids second_bid in Hout. destruct Hout as (t' & h & Hs & _ & Hcase).
  assert (Hsize : (size both_bids <? length ["alice"; "bob"])%nat = false) by (vm_compute; reflexivity).
  rewrite Hsize in Hcase. destruct Hcase as (order & Hperm & Hsort & _ & Hcase & _).
  assert (order = [("alice", of_string "0b"); ("bob", of_string "0a")]) as ->.
  { rewrite (in_name_order_unique both_bids order (conj Hperm Hsort)). vm_compute. reflexivity. }
  specialize (Hcase (contract_params 2048 10 0) [Byte.x01] [[Byte.x0b]; [Byte.x0a]]).
  change (helper_of _) with (up (start [])) in Hcase.
  set (m := client_Argmax _ _ _ _ _ _ _) in Hcase. assert (Hm : match m with (Ok l, _) => length l = 2%nat | _ => False end) by (vm_compute; reflexivity).
  clearbody m. destruct m as [[masks|er|w] h']; [|destruct Hm|destruct Hm].
  destruct Hcase as (_ & Hres & ->); [vm_compute; reflexivity|vm_compute; reflexivity|discriminate| |].
  { repeat constructor; eexists (fun _ => _), _; (split; [reflexivity|]); split; vm_compute; reflexivity. }
  split; [exact Hres|]. eexists _, masks. split; [exact Hs|]. split; [reflexivity|]. split; [exact Hm|]. apply lookup_insert_eq.
Defined.

(** The second partial settles the auction at the price of the first slot. *)
Definition partials : gmap string bytes := <["alice" := of_string "0b"]> (AccumulatedMessages bucketDecryptPartials one_partial).
Definition both_partials : SessionContext := AccumulateMessage bucketDecryptPartials "alice" (of_string "0b") one_partial.
Definition cts : list bytes := [[Byte.x0b]; [Byte.x0a]].
Lemma both_count : (size partials <? 2)%nat = false.
Proof. vm_compute. reflexivity. Qed.
Lemma both_params : readContractParams both_partials = Ok (contract_params 2048 10 0).
Proof. vm_compute. reflexivity. Qed.
Lemma both_decode : decode_all (fun _ er => er) (decodePartial no_hex) (map_to_list partials) = Ok cts.
Proof. vm_compute. reflexivity. Qed.
Definition fused := FuseCKKSPartialsForContract toy (toContractParams (contract_params 2048 10 0)) cts 1 (start []).
Lemma fused_value : fused.1 = Ok [f1].
Proof. vm_compute. reflexivity. Qed.

Lemma partial_outcome_witness :
  exists t', sessions (HandleMessage toy_runner "s" "auction.decrypt.partial" "alice" (of_string "0b") (state_at toy_decrypting one_partial)).2
    = <["s" := t']> (sessions (state_at toy_decrypting one_partial)) /\ t' = settled [f1] partials both_partials.
Proof.
  pose proof (partial_outcome toy "v1.5.1" no_hex map_to_list toy_json_ok sharpening "s" "alice" (of_string "0b")
    (state_at toy_decrypting one_partial) true one_partial ["alice"; "bob"] (at_start _ _) eq_refl) as Hout. cbv zeta in Hout.
  fold partials both_partials in Hout. change (length ["alice"; "bob"]) with 2%nat in Hout.
  rewrite both_count, both_params, both_decode in Hout. destruct Hout as (t' & h & Hs & _ & Hcase).
  change (helper_of _) with (up (V := bytes) (start [])) in Hcase.
  set (m := FusePartials _ _ _ _ _ _) in Hcase.
  assert (Hm : m.1 = Ok [f1]) by (vm_compute; reflexivity). clearbody m. destruct m as [o h']. cbn [fst] in Hm. rewrite Hm in Hcase.
  exists t'. split; [exact Hs|]. exact (proj2 (proj2 Hcase)).
Defined.

Lemma auction_price_witness :
  (HandleMessage toy_runner "s" "auction.decrypt.partial" "alice" (of_string "0b") (state_at toy_decrypting one_partial)).1 = Ok true /\
  sessions (HandleMessage toy_runner "s" "auction.decrypt.partial" "alice" (of_string "0b") (state_at toy_decrypting one_partial)).2
    = <["s" := settled [f1] partials both_partials]> (sessions (state_at toy_decrypting one_partial)).
Proof.
  pose proof fused_value as Hf. destruct fused as [o s'] eqn:E. cbn [fst] in Hf. rewrite Hf in E.
  pose proof (auction_price toy "v1.5.1" no_hex map_to_list toy_json_ok sharpening "s" "alice" (of_string "0b")
    (state_at toy_decrypting one_partial) true one_partial ["alice"; "bob"] (contract_params 2048 10 0) cts (start []) [f1] s'
    (at_start _ _) eq_refl (proj1 (Nat.ltb_ge _ _) both_count) both_params eq_refl both_decode eq_refl E eq_refl) as (H1 & H2 & _).
  split; [exact H1|exact H2].
Defined.
End AuctionWitnesses.
