(* ===== verification/RideShare.v ===== *)
(** * Ride sharing (examples/ride_share)

    Its phases and pipelines, over the hooks of [Apps]; what the last bid and the
    last partial decryption do to a session; and the two readers of the contract,
    which do not agree. *)
From Stdlib Require Import ZArith NArith Lia String Ascii Strings.Byte.
From stdpp Require Import base gmap list strings sorting.
From S2P Require Import Prelude Bytes Encoding.
From S2P Require Import GoFloat GoFmt.
From S2P Require Import CGo Bridge BridgeEval Helper HelperClient HelperSpec.
From S2P Require Import Sign.
From S2P Require Import Lineage.
From S2P Require Import Context.
From S2P Require Import Pipeline.
From S2P Require Import Runner.
From S2P Require Import RunnerSpec.
From S2P Require Import RunnerFrame.
From S2P Require Import Defaults.
From S2P Require Import Apps.

(** ** States and keys (states.go) *)

Definition StateInvite : SessionState := "RIDE_INVITE".
Definition StateKeygen : SessionState := "RIDE_KEYGEN".
Definition StateSubmit : SessionState := "RIDE_SUBMIT".
Definition StateScore : SessionState := "RIDE_SCORE".
Definition StateDecrypt : SessionState := "RIDE_DECRYPT".
Definition StateSettle : SessionState := "RIDE_SETTLE".

Definition CtxParticipants : string := "ride.participants".
Definition CtxRoles : string := "ride.roles".
Definition CtxCryptoContract : string := "ride.crypto_ctx".
Definition CtxCollectivePK : string := "ride.collective_pk".
Definition CtxSecretShares : string := "ride.secret_shares".
Definition CtxEvalKeys : string := "ride.eval_keys".
Definition CtxBids : string := "ride.bids".
Definition CtxWinner : string := "ride.ct_winner".
Definition CtxResult : string := "ride.result".
Definition CtxSettlement : string := "ride.settlement".
Definition bucketKeygenShares : string := "ride.bucket.keygen_shares".
Definition bucketBids : string := "ride.bucket.bids".
Definition bucketDecryptPartials : string := "ride.bucket.decrypt_partials".

(** ** The contract (phases.go) *)

Section Contract.
Context `{F : FloatConversion}.
Definition readRideContractParams (c : SessionContext) : Outcome HelperParams :=
  read_params true false (contract_of CtxCryptoContract "CtxCryptoContract" " has type " c).

(** Zero for an absent entry and for a type that is not listed. *)
Definition asFloat (m : list (string * Any)) (key : string) : float64 :=
  match assoc key m with
  | Some (AFloat64 x) => x
  | Some (AInt n) | Some (AInt64 n) => of_Z n
  | _ => f0
  end.
Definition readContractParams (c : SessionContext) : Outcome HelperParams :=
  match contract_of CtxCryptoContract "CtxCryptoContract" " has type " c with
  | Ok contract => Ok (contract_params (to_uint32 (asFloat contract "ring_dim")) (to_uint32 (asFloat contract "depth"))
                                       (to_int (asFloat contract "scaling_mod_size")))
  | Err e => Err e
  | Panic w => Panic w
  end.
End Contract.

(** ** Phases *)

Section RideShare.
Context {S : Type} `{Store S} {V LS : Type} (L : CLib V LS) (OpenFHEVersion : string) {Wire : Type} `{C : HelperCodec Wire}.
Context `{J : AppCodec} `{F : FloatConversion} (hex_error : string -> GoError) (range : gmap string bytes -> list (string * bytes)).
Notation AS := (S * Helper V LS)%type.
Local Open Scope string_scope.

Definition PhaseInvite : Phase AS :=
  inline_phase "ride-invite" StateInvite StateKeygen [] []
    [(CtxParticipants, key_type "[]string" false []); (CtxRoles, key_type "map[string]string" false []);
     (CtxCryptoContract, key_type "OpenFHEContract" false
       [("depth", AInt 12); ("ring_dim", AInt 2048); ("scaling_mod_size", AInt 40)])]
    no_hook no_message (fun _ => true) no_hook.

Definition PhaseKeygen (helper : bool) : Phase AS :=
  inline_phase "ride-keygen" StateKeygen StateSubmit ["ride.keygen.share"]
    [(CtxParticipants, key_type "[]string" true []);
     (CtxCryptoContract, key_type "OpenFHEContract" true [("depth_min", AInt 4)])]
    [(CtxCollectivePK, key_type "[]byte" false []); (CtxSecretShares, key_type "map[string][]byte" false []);
     (CtxEvalKeys, key_type "OpenFHEEvalKeys" false [])]
    no_hook (accumulate bucketKeygenShares) (quorum CtxParticipants bucketKeygenShares)
    (keygen_Exit L OpenFHEVersion bucketKeygenShares CtxParticipants "CtxParticipants" CtxCollectivePK CtxSecretShares CtxEvalKeys
      readRideContractParams helper).

Definition PhaseSubmit : Phase AS :=
  inline_phase "ride-submit" StateSubmit StateScore ["ride.bid"; "ride.request"]
    [(CtxParticipants, key_type "[]string" true []); (CtxRoles, key_type "map[string]string" true []);
     (CtxCollectivePK, key_type "[]byte" true []); (CtxCryptoContract, key_type "OpenFHEContract" true [])]
    [(CtxBids, key_type "RideShareBids" false [])]
    no_hook (accumulate bucketBids) (quorum CtxParticipants bucketBids) (submit_Exit bucketBids CtxBids).

Definition decodeRideBid : bytes -> Outcome bytes := decode_ciphertext hex_error "bid_ct".

Definition PhaseScore (helper : option EvalPolyParams) : Phase AS :=
  inline_phase "ride-score" StateScore StateDecrypt []
    [(CtxParticipants, key_type "[]string" true []); (CtxCryptoContract, key_type "OpenFHEContract" true []);
     (CtxEvalKeys, key_type "OpenFHEEvalKeys" true []); (CtxBids, key_type "RideShareBids" true [])]
    [(CtxWinner, key_type "[]byte" false [])]
    (argmax_Enter L OpenFHEVersion "PhaseScore" "CtxEvalKeys" "bid" ": marshal envelope: " bucketBids CtxEvalKeys CtxWinner
      readRideContractParams decodeRideBid helper)
    no_message (fun _ => true) no_hook.

Definition decodePartial : bytes -> Outcome bytes :=
  decodePartialCiphertext hex_error "no partial_ct or partial field in decrypt-partial payload".
Definition ride_result (price : option float64) (_ : nat) : list (string * Any) :=
  match price with
  | None => [("agreed_price", AInt 0); ("driver_id", AString "stub-driver"); ("rider_id", AString "stub-rider")]
  | Some x => [("agreed_price", AFloat64 x); ("driver_id", AString "winner-determined-by-mask"); ("rider_id", AString "stub-rider")]
  end.
Definition PhaseDecrypt (helper : bool) : Phase AS :=
  inline_phase "ride-decrypt" StateDecrypt StateSettle ["ride.decrypt.partial"]
    [(CtxParticipants, key_type "[]string" true []); (CtxSecretShares, key_type "map[string][]byte" true []);
     (CtxWinner, key_type "[]byte" true [])]
    [(CtxResult, key_type "RideShareResult" false [])]
    no_hook (accumulate bucketDecryptPartials) (quorum CtxParticipants bucketDecryptPartials)
    (decrypt_Exit L OpenFHEVersion "PhaseDecrypt" bucketDecryptPartials CtxResult range readContractParams decodePartial 3 helper ride_result).

Definition PhaseSettle : Phase AS :=
  inline_phase "ride-settle" StateSettle StateNone []
    [(CtxResult, key_type "RideShareResult" true [])] [(CtxSettlement, key_type "SignedTranscript" false [])]
    (settle_transcript CtxResult CtxSettlement "result" "rideshare") no_message (fun _ => true) no_hook.

(** ** Pipelines (runner.go) *)

Definition ride_phases (helper : option EvalPolyParams) : list (Phase AS) :=
  let client := bool_decide (is_Some helper) in
  [PhaseInvite; PhaseKeygen client; PhaseSubmit; PhaseScore helper; PhaseDecrypt client; PhaseSettle].
Definition Pipeline : Outcome (SessionRunner AS) := Compose (ride_phases None).
Definition PipelineWithHelper (sharpening : EvalPolyParams) : Outcome (SessionRunner AS) := Compose (ride_phases (Some sharpening)).
Definition PipelineWithLineage (signer : Signer) (peerVerifiers : gmap string Signer) : Outcome (SessionRunner AS) :=
  ComposeWith (ride_phases None) [WithSigner signer; WithPeerVerifiers peerVerifiers].
Definition PipelineWithLineageAndHelper (sharpening : EvalPolyParams) (signer : Signer) (peerVerifiers : gmap string Signer) :
    Outcome (SessionRunner AS) :=
  ComposeWith (ride_phases (Some sharpening)) [WithSigner signer; WithPeerVerifiers peerVerifiers].

Lemma ride_composes helper : Compose (ride_phases helper) = Ok (pipeline_runner (ride_phases helper)).
Proof. reflexivity. Qed.

(** ** The last messages *)

Context (Hjson : forall ks raw, no_panic (Unmarshal_strings ks raw)) (Hmasks : forall ks ms, no_panic (Marshal_masks ks ms)).
Context (sharpening : EvalPolyParams).
Notation runner := (pipeline_runner (ride_phases (Some sharpening))).
Notation args := (argmax_args readRideContractParams decodeRideBid bucketBids CtxEvalKeys).

Lemma readRideContractParams_no_panic c : no_panic (readRideContractParams c).
Proof. apply read_params_no_panic, contract_of_no_panic. Qed.

(** The last bid or request takes the session to the argmax over what every
    sender has sent. *)
Lemma ride_scores ty sid from payload st entered c ps : ty ∈ ["ride.bid"; "ride.request"] ->
  sessions st !! sid = Some (at_phase PhaseSubmit entered c) -> TryGet asStrings CtxParticipants c = Some ps ->
  let raw := <[from := payload]> (AccumulatedMessages bucketBids c) in
  let c1 := ctx_Set CtxBids (AMapBytes raw) (AccumulateMessage bucketBids from payload c) in
  (length ps <= size raw)%nat ->
  let result := HandleMessage runner sid ty from payload st in
  exists t' h, sessions result.2 = <[sid := t']> (sessions st) /\ rs_env result.2 = set_helper (rs_env st) h /\
  match args c1 with
  | None => (exists er, result.1 = Err er) /\ h = helper_of (rs_env st) /\ t' = at_phase (PhaseScore (Some sharpening)) false c1
  | Some (params, evalKeys, cts) =>
      match client_Argmax L OpenFHEVersion params evalKeys cts sharpening (helper_of (rs_env st)) with
      | (Ok masks, h') =>
          match Marshal_masks (sorted_keys raw) (hex_encode <$> masks) with
          | Ok body => result.1 = Ok true /\ h = h' /\ t' = at_phase (PhaseDecrypt true) true (ctx_Set CtxWinner (ABytes body) c1)
          | _ => (exists er, result.1 = Err er) /\ h = h' /\ t' = at_phase (PhaseScore (Some sharpening)) false c1
          end
      | (Err _, h') => (exists er, result.1 = Err er) /\ h = h' /\ t' = at_phase (PhaseScore (Some sharpening)) false c1
      | (Panic w, h') => result.1 = Panic w /\ h = h' /\ t' = at_phase (PhaseScore (Some sharpening)) false c1
      end
  end.
Proof.
  intros Hty Ht Hps raw c1 Hlen.
  apply (submission_scores L OpenFHEVersion runner eq_refl PhaseSubmit (PhaseScore (Some sharpening)) (PhaseDecrypt true) ty CtxParticipants
    bucketBids CtxBids "PhaseScore" "CtxEvalKeys" "bid" ": marshal envelope: " CtxEvalKeys CtxWinner readRideContractParams decodeRideBid
    sharpening sid from payload st entered c ps); try done.
  - split; [|done|done|done]. unfold phaseConsumes. by repeat (apply elem_of_cons in Hty as [->|Hty]; [done|]); apply elem_of_nil in Hty.
  - unfold hopCap. cbn. lia.
  - apply readRideContractParams_no_panic.
  - intros l. apply decode_all_no_panic. intros b. by apply decode_ciphertext_no_panic.
Qed.
(** The roles have no part in it: the request of the rider is scored with the
    bids of the drivers. *)
Lemma roles_ignored v c : args (ctx_Set CtxRoles v c) = args c.
Proof.
  unfold argmax_args, readRideContractParams, contract_of, AccumulatedMessages, TryGet, ctx_Get, ctx_Set, with_values. cbn [values].
  by rewrite !lookup_insert_ne by done.
Qed.

Lemma ride_readContractParams_no_panic c : no_panic (readContractParams c).
Proof.
  pose proof (contract_of_no_panic CtxCryptoContract "CtxCryptoContract" " has type " c) as Hc. unfold readContractParams.
  destruct (contract_of _ _ _ _) as [m|er|w]; [done|done|by destruct (Hc w)].
Qed.
(** The last partial decryption settles the ride at the price of the first of
    three slots, or the session stays for another try. *)
Lemma ride_settles sid from payload st entered c ps :
  sessions st !! sid = Some (at_phase (PhaseDecrypt true) entered c) -> TryGet asStrings CtxParticipants c = Some ps ->
  let raw := <[from := payload]> (AccumulatedMessages bucketDecryptPartials c) in
  let c' := AccumulateMessage bucketDecryptPartials from payload c in
  (length ps <= size raw)%nat ->
  let result := HandleMessage runner sid "ride.decrypt.partial" from payload st in
  exists t' h, sessions result.2 = <[sid := t']> (sessions st) /\ rs_env result.2 = set_helper (rs_env st) h /\
  match readContractParams c', decode_all (fun _ er => er) decodePartial (range raw) with
  | Ok params, Ok cts =>
      let '(o, h') := FusePartials L OpenFHEVersion params cts 3 (helper_of (rs_env st)) in
      h = h' /\ match o with
      | Ok values =>
          let price := AnyMap (ride_result (Some (hd f0 values)) (size raw)) in result.1 = Ok true /\
          t' = ended true (ctx_Set CtxSettlement (AnyMap (transcript_of "result" "rideshare" (ctxSessionID c') price)) (ctx_Set CtxResult price c'))
      | Err _ => (exists er, result.1 = Err er) /\ t' = at_phase (PhaseDecrypt true) entered c'
      | Panic w => result.1 = Panic w /\ t' = at_phase (PhaseDecrypt true) entered c'
      end
  | _, _ => (exists er, result.1 = Err er) /\ t' = at_phase (PhaseDecrypt true) entered c' /\ h = helper_of (rs_env st)
  end.
Proof.
  intros Ht Hps raw c' Hlen result.
  destruct (decrypt_settles L OpenFHEVersion runner eq_refl (PhaseDecrypt true) PhaseSettle "ride.decrypt.partial" CtxParticipants "PhaseDecrypt"
    bucketDecryptPartials CtxResult range readContractParams decodePartial 3 ride_result CtxSettlement "result" "rideshare"
    sid from payload st entered c ps) as (t' & h & Hs & He & Hcase); try done.
  { unfold hopCap. cbn. lia. }
  exists t', h. fold result in Hs, He. split; [exact Hs|]. split; [exact He|]. fold raw c' in Hcase. cbn zeta in Hcase. fold result in Hcase.
  pose proof (ride_readContractParams_no_panic c') as Hr.
  assert (Hd : no_panic (decode_all (fun _ er => er) decodePartial (range raw))).
  { apply decode_all_no_panic. intros b. by apply decodePartialCiphertext_no_panic. }
  destruct (readContractParams c') as [params|er|w]; [|naive_solver|by destruct (Hr w)].
  destruct (decode_all _ decodePartial (range raw)) as [cts|er|w]; [|naive_solver|by destruct (Hd w)].
  destruct (FusePartials _ _ _ _ _ _) as [[values|er|w] h']; naive_solver.
Qed.

(** The reader of the contract at the decryption, entry by entry. *)
Lemma readContractParams_iff c params : readContractParams c = Ok params <->
  exists contract, ctx_Get CtxCryptoContract c = Some (AnyMap contract) /\
    params = {| h_Scheme := EmptyString; h_RingDim := to_uint32 (asFloat contract "ring_dim"); h_ScalingFactor := f0;
                h_ScalingModSize := to_int (asFloat contract "scaling_mod_size"); h_Depth := to_uint32 (asFloat contract "depth") |}.
Proof.
  unfold readContractParams, contract_of. destruct (ctx_Get CtxCryptoContract c) as [v|]; [|split; [done|by intros (? & ? & _)]].
  destruct (asAnyMap v) as [m|] eqn:E; cycle 1.
  { split; [done|]. by intros (m & [= ->] & _). }
  assert (v = AnyMap m) as ->.
  { destruct v; try done. cbn in E. destruct (String.eqb_spec ty "map[string]interface {}") as [->|]; [|done]. by injection E as ->. }
  split; [intros [= <-]; by exists m|]. intros (m' & [= <-] & ->). reflexivity.
Qed.

(** C32. What a partial decryption does to a ride with a helper, on every branch.
    It replaces an earlier one of its sender; until there are as many senders as
    participants the session waits.  When the last one is there, the contract is a
    map and every partial carries a ciphertext (the hexadecimal text of its member
    partial_ct or, when that is empty, of its member partial), the helper is asked
    for three slots of the fusion, with the ring dimension, the depth and the
    scaling size of the contract.  What it gives settles the ride in the same call:
    the agreed price is the first of the values, zero if there is none; the result
    names the driver and the rider by fixed texts, whoever took part; and the
    transcript over the session, this result and the settler carries the SHA-256 of
    its own JSON.  If the contract or a partial cannot be read the helper is not
    called; then, and when the helper fails, the session stays in its phase with the
    new partial, and a later one tries again. *)
Theorem ride_outcome sid from payload st entered c ps :
  sessions st !! sid = Some (at_phase (PhaseDecrypt true) entered c) -> TryGet asStrings CtxParticipants c = Some ps ->
  let raw := <[from := payload]> (AccumulatedMessages bucketDecryptPartials c) in
  let c' := AccumulateMessage bucketDecryptPartials from payload c in
  let result := HandleMessage runner sid "ride.decrypt.partial" from payload st in
  exists t' h, sessions result.2 = <[sid := t']> (sessions st) /\ rs_env result.2 = set_helper (rs_env st) h /\
  if (size raw <? length ps)%nat then result.1 = Ok false /\ t' = at_phase (PhaseDecrypt true) entered c' /\ h = helper_of (rs_env st)
  else
    (forall contract cts, ctx_Get CtxCryptoContract c = Some (AnyMap contract) ->
      Forall2 (fun m ct => carries ["partial_ct"; "partial"] m.2 ct) (range raw) cts ->
      let params := {| h_Scheme := EmptyString; h_RingDim := to_uint32 (asFloat contract "ring_dim"); h_ScalingFactor := f0;
                       h_ScalingModSize := to_int (asFloat contract "scaling_mod_size"); h_Depth := to_uint32 (asFloat contract "depth") |} in
      let '(o, h') := FusePartials L OpenFHEVersion params cts 3 (helper_of (rs_env st)) in
      h = h' /\ match o with
      | Ok values => result.1 = Ok true /\
          let price := match values with x :: _ => x | [] => f0 end in
          let deal := AnyMap [("agreed_price", AFloat64 price); ("driver_id", AString "winner-determined-by-mask");
                              ("rider_id", AString "stub-rider")] in
          let record := [("session_id", AString (ctxSessionID c)); ("result", deal); ("settlement_by", AString "rideshare")] in
          let signature := hex_encode (sha256 (default [] (Marshal_map record))) in
          t' = ended true (ctx_Set CtxSettlement (AnyMap (record ++ [("signature", AString signature)])%list) (ctx_Set CtxResult deal c'))
      | Err _ => (exists er, result.1 = Err er) /\ t' = at_phase (PhaseDecrypt true) entered c'
      | Panic w => result.1 = Panic w /\ t' = at_phase (PhaseDecrypt true) entered c'
      end) /\
    (~ (exists contract cts, ctx_Get CtxCryptoContract c = Some (AnyMap contract) /\
        Forall2 (fun m ct => carries ["partial_ct"; "partial"] m.2 ct) (range raw) cts) ->
      (exists er, result.1 = Err er) /\ t' = at_phase (PhaseDecrypt true) entered c' /\ h = helper_of (rs_env st)).
Proof.
  intros Ht Hps raw c' result. destruct (size raw <? length ps)%nat eqn:Hlen.
  - unfold result. rewrite (collect_outcome runner (PhaseDecrypt true) "ride.decrypt.partial" CtxParticipants bucketDecryptPartials
      sid from payload st entered c ps) by done. fold raw c'. rewrite Hlen.
    eexists _, (helper_of (rs_env st)). split; [reflexivity|]. split; [by rewrite set_helper_same|done].
  - apply Nat.ltb_ge in Hlen.
    destruct (ride_settles sid from payload st entered c ps Ht Hps Hlen) as (t' & h & Hs & He & Hcase).
    fold raw c' result in Hs, He, Hcase. exists t', h. split; [exact Hs|]. split; [exact He|].
    assert (Hctx : ctx_Get CtxCryptoContract c' = ctx_Get CtxCryptoContract c) by (by apply key_accumulate).
    assert (Hcts : forall cts, decode_all (fun _ er => er) decodePartial (range raw) = Ok cts <->
      Forall2 (fun m ct => carries ["partial_ct"; "partial"] m.2 ct) (range raw) cts).
    { intros cts. rewrite decode_all_iff.
      split; intros Hf; (eapply Forall2_impl; [exact Hf|]); intros m ct; apply decodePartialCiphertext_iff. }
    split.
    + intros contract cts Hc Hf params. apply Hcts in Hf.
      assert (readContractParams c' = Ok params) as Hp by (apply readContractParams_iff; exists contract; by rewrite Hctx).
      rewrite Hp, Hf in Hcase. exact Hcase.
    + intros Hnone. destruct (readContractParams c') as [params|er|w] eqn:Ep; [|done..].
      apply readContractParams_iff in Ep as (contract & Hc & _). rewrite Hctx in Hc.
      destruct (decode_all _ decodePartial (range raw)) as [cts|er|w] eqn:Ed; [|done..].
      destruct Hnone. exists contract, cts. split; [done|]. by apply Hcts.
Qed.
End RideShare.

(** ** The two readers *)

Module RideWitnesses.
#[export] Instance zero_conversion : FloatConversion := { uint32_of _ := 0%Z; int_of _ := 0%Z }.
Definition with_contract (m : list (string * Any)) : SessionContext := ctx_Set CtxCryptoContract (AnyMap m) (NewSessionContext "s").
(** Scoring takes a uint32 or an int32; decryption reads them as zero. *)
Example readers_disagree_on_types : let c := with_contract [("ring_dim", AUint32 2048); ("depth", AInt32 12)]%string in
  readRideContractParams c = Ok (contract_params 2048 12 0) /\ readContractParams c = Ok (contract_params 0 0 0).
Proof. split; vm_compute; reflexivity. Qed.
(** Scoring refuses a contract without a ring dimension; decryption reads zero. *)
Example readers_disagree_on_absence : let c := with_contract [("depth", AInt 12)]%string in
  (exists er, readRideContractParams c = Err er) /\ readContractParams c = Ok (contract_params 0 12 0).
Proof. split; [eexists|]; vm_compute; reflexivity. Qed.
(** And a 64-bit scaling size the other way round. *)
Example readers_disagree_on_scaling : let c := with_contract [("ring_dim", AInt 2048); ("depth", AInt 12); ("scaling_mod_size", AInt64 40)]%string in
  readRideContractParams c = Ok (contract_params 2048 12 0) /\ readContractParams c = Ok (contract_params 2048 12 40).
Proof. split; vm_compute; reflexivity. Qed.
End RideWitnesses.

(** ** A ride *)

Module RideRun.
Import InMemory Scripted AppToys.
Local Open Scope string_scope.

Notation toy_ride := (pipeline_runner (ride_phases (S := InMemoryStore) toy "v1.5.1" no_hex map_to_list (Some sharpening))).
Notation toy_submit := (PhaseSubmit (S := InMemoryStore) (V := bytes) (LS := Script)).
Notation toy_decrypt := (PhaseDecrypt (S := InMemoryStore) toy "v1.5.1" no_hex map_to_list true).

Definition ride_opened : SessionContext :=
  ctx_Set CtxEvalKeys (ABytes [Byte.x01]) (ctx_Set CtxCryptoContract (AnyMap [("ring_dim", AInt 2048); ("depth", AInt 10)])
    (ctx_Set CtxParticipants (AStrings ["rider"; "driver"]) (NewSessionContext "s"))).
Definition one_ride_bid : SessionContext := AccumulateMessage bucketBids "driver" (of_string "0a") ride_opened.
Definition one_ride_partial : SessionContext := AccumulateMessage bucketDecryptPartials "driver" (of_string "0a") ride_opened.

(** The request of the rider closes the submissions: it is scored with the bid of
    the driver. *)
Example request_scored : let result := HandleMessage toy_ride "s" "ride.request" "rider" (of_string "0b") (state_at toy_submit one_ride_bid) in
  result.1 = Ok true /\ tr_state <$> sessions result.2 !! "s" = Some StateDecrypt.
Proof. by vm_compute. Qed.

(** The partial of the rider settles the ride: at one, the toy bridge's slot. *)
Definition last_ride_partial :=
  HandleMessage toy_ride "s" "ride.decrypt.partial" "rider" (of_string "0b") (state_at toy_decrypt one_ride_partial).
Definition ride_partials : gmap string bytes := <["rider" := of_string "0b"]> (AccumulatedMessages bucketDecryptPartials one_ride_partial).
Lemma ride_outcome_witness :
  last_ride_partial.1 = Ok true /\
  exists t', sessions last_ride_partial.2 = <["s" := t']> (sessions (state_at toy_decrypt one_ride_partial)) /\ tr_current t' = None /\
    ctx_Get CtxResult (tr_ctx t') = Some (AnyMap [("agreed_price", AFloat64 f1); ("driver_id", AString "winner-determined-by-mask");
      ("rider_id", AString "stub-rider")]).
Proof.
  pose proof (ride_outcome toy "v1.5.1" no_hex map_to_list toy_json_ok sharpening "s" "rider" (of_string "0b")
    (state_at toy_decrypt one_ride_partial) true one_ride_partial ["rider"; "driver"] (at_start _ _) eq_refl) as Hout.
  cbv zeta in Hout. fold ride_partials last_ride_partial in Hout. destruct Hout as (t' & h & Hs & _ & Hcase).
  assert (Hb : (size ride_partials <? length ["rider"; "driver"])%nat = false) by (vm_compute; reflexivity). rewrite Hb in Hcase.
  destruct Hcase as [Hcase _]. specialize (Hcase [("ring_dim", AInt 2048); ("depth", AInt 10)]).
  assert (Hm : map_to_list ride_partials = [("rider", of_string "0b"); ("driver", of_string "0a")]) by (vm_compute; reflexivity).
  rewrite Hm in Hcase. specialize (Hcase [[Byte.x0b]; [Byte.x0a]]).
  change (helper_of _) with (up (V := bytes) (start [])) in Hcase.
  set (m := FusePartials _ _ _ _ _ _) in Hcase. assert (Hf : match m with (Ok (x :: _), _) => x = f1 | _ => False end) by (vm_compute; reflexivity).
  clearbody m. destruct m as [[[|x values]|er|w] h']; [destruct Hf| |destruct Hf|destruct Hf]. rewrite Hf in Hcase.
  destruct Hcase as (_ & Hres & ->); [reflexivity| |].
  { repeat constructor; eexists (fun _ => _), _; (split; [reflexivity|]); split; vm_compute; reflexivity. }
  split; [exact Hres|]. eexists. split; [exact Hs|]. split; reflexivity.
Defined.
End RideRun.
