(* ===== verification/Cohort.v ===== *)
(** * The recurring ranking (examples/recurring_cohort_ranking)

    A cohort forms its keys once and ranks with them every week.  The phases and
    pipelines of both runners, over the hooks of [Apps]; how the formation ends;
    and that a week ranks under the keys the formation left. *)
From Stdlib Require Import ZArith NArith Lia String Ascii Strings.Byte.
From stdpp Require Import base gmap list strings sorting.
From S2P Require Import Prelude Bytes Encoding.
From S2P Require Import GoFloat GoFmt.
From S2P Require Import CGo Bridge BridgeEval Helper HelperClient HelperSpec.
From S2P Require Import Sign.
From S2P Require Import Lineage.
From S2P Require Import Context.
From S2P Require Import Pipeline.
From S2P Require Import Runner.
From S2P Require Import RunnerSpec.
From S2P Require Import RunnerFrame.
From S2P Require Import Defaults.
From S2P Require Import Apps.

(** ** States and keys (states.go) *)

Definition StateCohortForming : SessionState := "COHORT_FORMING".
Definition StateCohortKeygen : SessionState := "COHORT_KEYGEN".
Definition StateCohortSealed : SessionState := "COHORT_SEALED".
Definition StateRankingInviting : SessionState := "RANKING_INVITING".
Definition StateRankingLocked : SessionState := "RANKING_LOCKED".
Definition StateRankingBidding : SessionState := "RANKING_BIDDING".
Definition StateRankingScoring : SessionState := "RANKING_SCORING".
Definition StateRankingDecrypt : SessionState := "RANKING_DECRYPT".
Definition StateRankingSettled : SessionState := "RANKING_SETTLED".

Definition CtxParticipants : string := "ranking.participants".
Definition CtxCohortID : string := "ranking.cohort_id".
Definition CtxCryptoContract : string := "ranking.crypto_ctx".
Definition CtxCollectivePK : string := "ranking.collective_pk".
Definition CtxSecretShares : string := "ranking.secret_shares".
Definition CtxEvalKeys : string := "ranking.eval_keys".
Definition CtxRatings : string := "ranking.ratings".
Definition CtxWinnerRating : string := "ranking.ct_winner".
Definition CtxWinner : string := "ranking.winner".
Definition CtxTranscript : string := "ranking.transcript".
Definition bucketCohortKeygenShares : string := "cohort.bucket.keygen_shares".
Definition bucketRatings : string := "ranking.bucket.ratings".
Definition bucketDecryptPartials : string := "ranking.bucket.decrypt_partials".

(** ** Phases (phases.go) *)

Definition per_cohort {S} (p : Phase S) : Phase S := {|
  Name := Name p; Lifetime := LifetimePerCohort; RunsAt := RunsAt p; EntryState := EntryState p; ExitState := ExitState p;
  InternalStates := InternalStates p; ConsumedMessageTypes := ConsumedMessageTypes p; Requires := Requires p; Provides := Provides p;
  Enter := Enter p; OnMessage := OnMessage p; CheckComplete := CheckComplete p; Exit := Exit p |}.

Section Cohort.
Context {S : Type} `{Store S} {V LS : Type} (L : CLib V LS) (OpenFHEVersion : string) {Wire : Type} `{C : HelperCodec Wire}.
Context `{J : AppCodec} `{F : FloatConversion} (hex_error : string -> GoError) (range : gmap string bytes -> list (string * bytes)).
Notation AS := (S * Helper V LS)%type.
Notation AM := (M (HookState AS)).
Local Open Scope string_scope.

Definition PhaseCohortForm : Phase AS := per_cohort
  (inline_phase "cohort-form" StateCohortForming StateCohortKeygen [] []
    [(CtxParticipants, key_type "[]string" false []); (CtxCohortID, key_type "string" false [])]
    no_hook no_message (fun _ => true) no_hook).

Definition readCohortContractParams (c : SessionContext) : Outcome HelperParams :=
  read_params false false (contract_of CtxCryptoContract "CtxCryptoContract" " has type " c).

Definition cohort_contract (depth ring_dim : Z) : Any := AnyMap [("depth", AInt depth); ("ring_dim", AInt ring_dim)].
(** [if !ctx.Has(CtxCryptoContract)]. *)
Definition set_contract_if_absent (depth ring_dim : Z) : AM unit :=
  modify_ctx (fun c => if ctx_Has CtxCryptoContract c then c else ctx_Set CtxCryptoContract (cohort_contract depth ring_dim) c).
Definition default_params : HelperParams := contract_params 2048 10 50.

Definition cohort_keygen_Exit (helper : bool) : AM unit :=
  let! c := get_ctx in
  let received := AccumulatedMessages bucketCohortKeygenShares c in
  if pre_shared CtxCollectivePK CtxEvalKeys c then
    modify_ctx (ctx_Set CtxSecretShares (AMapBytes received)) ;;; set_contract_if_absent 10 2048
  else if negb helper then
    set_keys CtxCollectivePK CtxSecretShares CtxEvalKeys (of_string "stub-collective-pk") received (of_string "stub-eval-keys") ;;;
    modify_ctx (ctx_Set CtxCryptoContract (cohort_contract 10 2048))
  else
    let ps := default [] (TryGet asStrings CtxParticipants c) in
    if (length ps =? 0)%nat then throw (Errorf [T "PhaseCohortKeygen: CtxParticipants is missing or empty"]) else
    let params := match readCohortContractParams c with Ok params => params | _ => default_params end in
    let! bundle := wrap_err (fun e => Errorf [T "PhaseCohortKeygen: helper.KeygenChain: "; W e])
      (on_helper (KeygenChain L OpenFHEVersion params (Z.of_nat (length ps)))) in
    set_keys CtxCollectivePK CtxSecretShares CtxEvalKeys (bundle_PublicKey bundle) received (bundle_EvalKeys bundle) ;;;
    set_contract_if_absent (h_Depth params) (h_RingDim params).

Definition preshared : list (string * Any) := [("topology", AString "preshared")].
Definition PhaseCohortKeygen (helper : bool) : Phase AS := per_cohort
  (inline_phase "cohort-keygen" StateCohortKeygen StateCohortSealed ["cohort.keygen.share"]
    [(CtxParticipants, key_type "[]string" true [])]
    [(CtxCollectivePK, key_type "[]byte" false preshared); (CtxSecretShares, key_type "map[string][]byte" false preshared);
     (CtxEvalKeys, key_type "OpenFHEEvalKeys" false []);
     (CtxCryptoContract, key_type "OpenFHEContract" false [("depth", AInt 10); ("ring_dim", AInt 2048)])]
    no_hook (accumulate bucketCohortKeygenShares) (quorum CtxParticipants bucketCohortKeygenShares) (cohort_keygen_Exit helper)).

Definition PhaseRankingInvitation : Phase AS :=
  inline_phase "ranking-invitation" StateRankingInviting StateRankingLocked []
    [(CtxParticipants, key_type "[]string" true [])] [(CtxParticipants, key_type "[]string" false [])]
    no_hook no_message (fun _ => true) no_hook.

Fixpoint require_keys (keys : list string) (phase : string) (c : SessionContext) : AM unit :=
  match keys with
  | [] => ret tt
  | key :: keys' => if ctx_Has key c then require_keys keys' phase c else throw (MissingContextError key phase)
  end.
Definition lookup_Enter : AM unit :=
  let! c := get_ctx in require_keys [CtxCollectivePK; CtxSecretShares; CtxEvalKeys] "ranking-key-lookup" c.
Definition PhasePreSharedKeyLookup : Phase AS := per_cohort
  (inline_phase "ranking-key-lookup" StateRankingLocked StateRankingBidding []
    [(CtxCollectivePK, key_type "[]byte" true []); (CtxSecretShares, key_type "map[string][]byte" true []);
     (CtxEvalKeys, key_type "OpenFHEEvalKeys" true [])] []
    lookup_Enter no_message (fun _ => true) no_hook).

Definition PhaseSubmitRating : Phase AS :=
  inline_phase "ranking-submit-rating" StateRankingBidding StateRankingScoring ["ranking.rating"]
    [(CtxParticipants, key_type "[]string" true [])] [(CtxRatings, key_type "map[string][]byte" false [])]
    no_hook (accumulate bucketRatings) (quorum CtxParticipants bucketRatings) (submit_Exit bucketRatings CtxRatings).

Definition decodeRatingCiphertext : bytes -> Outcome bytes := decode_ciphertext hex_error "rating_ct".
Definition PhaseArgmaxScoring (helper : option EvalPolyParams) : Phase AS :=
  inline_phase "ranking-argmax-scoring" StateRankingScoring StateRankingDecrypt []
    [(CtxParticipants, key_type "[]string" true []);
     (CtxCryptoContract, key_type "OpenFHEContract" true [("depth_min", AInt 8)]);
     (CtxEvalKeys, key_type "OpenFHEEvalKeys" true []); (CtxRatings, key_type "map[string][]byte" true [])]
    [(CtxWinnerRating, key_type "[]byte" false [])]
    (argmax_Enter L OpenFHEVersion "PhaseArgmaxScoring" "CtxEvalKeys" "rating" ": marshal: " bucketRatings CtxEvalKeys CtxWinnerRating
      readCohortContractParams decodeRatingCiphertext helper)
    no_message (fun _ => true) no_hook.

Definition decodePartial : bytes -> Outcome bytes := decodePartialCiphertext hex_error "no partial_ct or partial field".
Definition winner_rating (rating : option float64) (_ : nat) : list (string * Any) :=
  match rating with
  | None => [("winner_rating", AInt 0); ("winner_id", AString "stub-cohort-winner")]
  | Some x => [("winner_rating", AFloat64 x); ("winner_id", AString "winner-determined-by-mask")]
  end.
Definition PhaseThresholdDecrypt (helper : bool) : Phase AS :=
  inline_phase "ranking-threshold-decrypt" StateRankingDecrypt StateRankingSettled ["ranking.decrypt.partial"]
    [(CtxParticipants, key_type "[]string" true []); (CtxSecretShares, key_type "map[string][]byte" true []);
     (CtxWinnerRating, key_type "[]byte" true [])]
    [(CtxWinner, key_type "WinnerRating" false [])]
    no_hook (accumulate bucketDecryptPartials) (quorum CtxParticipants bucketDecryptPartials)
    (decrypt_Exit L OpenFHEVersion "PhaseThresholdDecrypt" bucketDecryptPartials CtxWinner range readCohortContractParams decodePartial 1
      helper winner_rating).

Definition PhaseSettleRanking : Phase AS :=
  inline_phase "ranking-settle" StateRankingSettled StateNone []
    [(CtxWinner, key_type "WinnerRating" true [])] [(CtxTranscript, key_type "SignedTranscript" false [])]
    (settle_transcript CtxWinner CtxTranscript "winner" "cohort") no_message (fun _ => true) no_hook.

(** ** Pipelines (runner.go) *)

Definition formation_phases (helper : bool) : list (Phase AS) := [PhaseCohortForm; PhaseCohortKeygen helper].
Definition FormationPipeline : Outcome (SessionRunner AS) := Compose (formation_phases false).
Definition FormationPipelineWithHelper : Outcome (SessionRunner AS) := Compose (formation_phases true).
Definition FormationPipelineWithLineage (signer : Signer) (peerVerifiers : gmap string Signer) : Outcome (SessionRunner AS) :=
  ComposeWith (formation_phases false) [WithSigner signer; WithPeerVerifiers peerVerifiers].
Definition FormationPipelineWithLineageAndHelper (signer : Signer) (peerVerifiers : gmap string Signer) : Outcome (SessionRunner AS) :=
  ComposeWith (formation_phases true) [WithSigner signer; WithPeerVerifiers peerVerifiers].

Definition weekly_phases (helper : option EvalPolyParams) : list (Phase AS) :=
  [PhaseRankingInvitation; PhasePreSharedKeyLookup; PhaseSubmitRating; PhaseArgmaxScoring helper;
   PhaseThresholdDecrypt (bool_decide (is_Some helper)); PhaseSettleRanking].
Definition WeeklyPipeline : Outcome (SessionRunner AS) := Compose (weekly_phases None).
Definition WeeklyPipelineWithHelper (sharpening : EvalPolyParams) : Outcome (SessionRunner AS) := Compose (weekly_phases (Some sharpening)).
Definition WeeklyPipelineWithLineage (signer : Signer) (peerVerifiers : gmap string Signer) : Outcome (SessionRunner AS) :=
  ComposeWith (weekly_phases None) [WithSigner signer; WithPeerVerifiers peerVerifiers].
Definition WeeklyPipelineWithLineageAndHelper (sharpening : EvalPolyParams) (signer : Signer) (peerVerifiers : gmap string Signer) :
    Outcome (SessionRunner AS) :=
  ComposeWith (weekly_phases (Some sharpening)) [WithSigner signer; WithPeerVerifiers peerVerifiers].

(** ** The weekly service (cmd/session-service/main.go) *)

Definition stateWeeklySeeded : SessionState := "WEEKLY_SEEDED".
Definition weeklyKeySeeder : Phase AS := per_cohort
  (inline_phase "weekly-key-seeder" stateWeeklySeeded StateRankingInviting [] []
    [(CtxParticipants, key_type "[]string" false []); (CtxCollectivePK, key_type "[]byte" false preshared);
     (CtxSecretShares, key_type "map[string][]byte" false preshared); (CtxEvalKeys, key_type "OpenFHEEvalKeys" false []);
     (CtxCryptoContract, key_type "OpenFHEContract" false [("depth", AInt 30); ("ring_dim", AInt 16384)])]
    no_hook no_message (fun _ => true) no_hook).
(** The decryption is the stub one whether or not there is a helper. *)
Definition service_weekly_phases (helper : option EvalPolyParams) : list (Phase AS) :=
  [weeklyKeySeeder; PhaseRankingInvitation; PhasePreSharedKeyLookup; PhaseSubmitRating; PhaseArgmaxScoring helper;
   PhaseThresholdDecrypt false; PhaseSettleRanking].
Definition service_sharpening : EvalPolyParams :=
  {| Coefficients := [of_ratio 1 2; of_ratio 3 4; f0; of_ratio (-1) 4]; LowerBound := of_Z (-1); UpperBound := f1 |}.
Definition buildRunner (mode : string) (helper : bool) : Outcome (SessionRunner AS) :=
  if String.eqb mode "formation" then (if helper then FormationPipelineWithHelper else FormationPipeline)
  else if String.eqb mode "weekly" then
    match Compose (service_weekly_phases (if helper then Some service_sharpening else None)) with
    | Err e => Err (Errorf [T "build weekly pipeline: "; W e])
    | o => o
    end
  else Err (Errorf [T "unknown COHORT_MODE "; Q mode; T " (want formation|weekly)"]).

(** ** Which pipelines compose *)

Lemma formation_composes helper : Compose (formation_phases helper) = Ok (pipeline_runner (formation_phases helper)).
Proof. by destruct helper. Qed.
(** The lookup requires the keys, and the weekly pipeline itself provides none
    of them: every one of its constructors fails. *)
Lemma weekly_refused sharpening signer peers : peers <> ∅ ->
  (exists e, WeeklyPipeline = Err e) /\ (exists e, WeeklyPipelineWithHelper sharpening = Err e) /\
  (exists e, WeeklyPipelineWithLineage signer peers = Err e) /\ (exists e, WeeklyPipelineWithLineageAndHelper sharpening signer peers = Err e).
Proof.
  intros Hp. split; [by eexists|]. split; [by eexists|].
  unfold WeeklyPipelineWithLineage, WeeklyPipelineWithLineageAndHelper, ComposeWith.
  cbn [foldl WithSigner WithPeerVerifiers o_signer o_peerVerifiers].
  destruct (Nat.eqb_spec (size peers) 0) as [Hs|Hs]; [by apply map_size_empty_inv in Hs|]. rewrite andb_false_r. split; by eexists.
Qed.
Lemma service_weekly_composes helper : Compose (service_weekly_phases helper) = Ok (pipeline_runner (service_weekly_phases helper)).
Proof. by destruct helper. Qed.

(** ** How the formation ends *)

(** The context [c1] is [c] with these keys, these shares and this contract, and
    nothing else changed. *)
Record holds_keys (pk ek : bytes) (shares : gmap string bytes) (contract : Any) (c c1 : SessionContext) : Prop := {
  keyed_pk : ctx_Get CtxCollectivePK c1 = Some (ABytes pk);
  keyed_ek : ctx_Get CtxEvalKeys c1 = Some (ABytes ek);
  keyed_shares : ctx_Get CtxSecretShares c1 = Some (AMapBytes shares);
  keyed_contract : ctx_Get CtxCryptoContract c1 = Some contract;
  keyed_rest key : key ∉ [CtxCollectivePK; CtxEvalKeys; CtxSecretShares; CtxCryptoContract] -> ctx_Get key c1 = ctx_Get key c
}.
(** The contract of the context, or one of this depth and ring dimension. *)
Definition contract_or (depth ring_dim : Z) c : Any :=
  default (AnyMap [("depth", AInt depth); ("ring_dim", AInt ring_dim)]) (ctx_Get CtxCryptoContract c).

Lemma holds_keys_set_contract depth ring_dim pk ek shares c c1 : ctx_Get CtxCryptoContract c1 = ctx_Get CtxCryptoContract c ->
  (forall contract, holds_keys pk ek shares contract c (ctx_Set CtxCryptoContract contract c1)) ->
  holds_keys pk ek shares (contract_or depth ring_dim c) c
    (if ctx_Has CtxCryptoContract c1 then c1 else ctx_Set CtxCryptoContract (cohort_contract depth ring_dim) c1).
Proof.
  clear hex_error range. intros Hsame Hk. unfold contract_or, ctx_Has. unfold ctx_Get in Hsame. unfold ctx_Get at 1. rewrite <- Hsame.
  case_bool_decide as Hs; cycle 1.
  { destruct (values c1 !! CtxCryptoContract) eqn:E; [by destruct Hs|]. apply Hk. }
  destruct Hs as [v Hv]. rewrite Hv. destruct (Hk v) as [H1 H2 H3 _ H5].
  rewrite !key_set in H1, H2, H3 by done. split; [done|done|done|done|].
  intros key Hkey. rewrite <- H5, key_set; [done| |done]. intros <-. apply Hkey. set_solver.
Qed.

Ltac keyed_set := repeat rewrite key_set by done; first [done | apply key_set_same].
Ltac keyed_rest :=
  repeat (rewrite key_set by (intros <-; match goal with H : _ ∉ _ |- _ => apply H end; set_solver)); done.
Lemma TryGet_bytes key c b : TryGet asBytes key c = Some b -> ctx_Get key c = Some (ABytes b).
Proof. unfold TryGet. destruct (ctx_Get key c) as [[]|]; try done. by intros [= ->]. Qed.
Lemma keygen_shared helper c e pk ek : pre_shared CtxCollectivePK CtxEvalKeys c = true ->
  TryGet asBytes CtxCollectivePK c = Some pk -> TryGet asBytes CtxEvalKeys c = Some ek ->
  exists c1, cohort_keygen_Exit helper (c, e) = (Ok tt, (c1, e)) /\
    holds_keys pk ek (AccumulatedMessages bucketCohortKeygenShares c) (contract_or 10 2048 c) c c1.
Proof.
  clear hex_error range. intros Hk Hpk%TryGet_bytes Hek%TryGet_bytes. unfold cohort_keygen_Exit. rewrite (bind_Ok get_ctx _ _ _ _ eq_refl). cbn [fst]. rewrite Hk.
  unfold set_contract_if_absent, modify_ctx, bind. cbn [fst snd]. eexists. split; [reflexivity|].
  apply holds_keys_set_contract; [by rewrite key_set|]. intros contract. split.
  1-4: keyed_set.
  intros key Hkey. keyed_rest.
Qed.
(** What a first key generation of [c] comes to. *)
Definition keygen_run helper c e (exit : Outcome unit * HookState AS) : Prop :=
  let shares := AccumulatedMessages bucketCohortKeygenShares c in
  let ps := default [] (TryGet asStrings CtxParticipants c) in
  if negb helper then exists c1, exit = (Ok tt, (c1, e)) /\
    holds_keys (of_string "stub-collective-pk") (of_string "stub-eval-keys") shares (cohort_contract 10 2048) c c1
  else if (length ps =? 0)%nat then exists er, exit = (Err er, (c, e))
  else
    let params := match readCohortContractParams c with Ok params => params | _ => contract_params 2048 10 50 end in
    match KeygenChain L OpenFHEVersion params (Z.of_nat (length ps)) (helper_of e) with
    | (Ok bundle, h) => exists c1, exit = (Ok tt, (c1, set_helper e h)) /\
        holds_keys (bundle_PublicKey bundle) (bundle_EvalKeys bundle) shares (contract_or (h_Depth params) (h_RingDim params) c) c c1
    | (Err _, h) => exists er, exit = (Err er, (c, set_helper e h))
    | (Panic w, h) => exit = (Panic w, (c, set_helper e h))
    end.
Lemma keygen_fresh helper c e : pre_shared CtxCollectivePK CtxEvalKeys c = false ->
  keygen_run helper c e (cohort_keygen_Exit helper (c, e)).
Proof.
  clear hex_error range. intros Hk. remember (cohort_keygen_Exit helper (c, e)) as exit eqn:E. unfold cohort_keygen_Exit in E.
  rewrite (bind_Ok get_ctx _ _ _ _ eq_refl) in E. cbn [fst] in E. rewrite Hk in E. unfold keygen_run.
  destruct helper; cbn [negb] in *; cycle 1.
  { unfold set_keys, modify_ctx, bind in E. cbn [fst snd] in E. eexists. split; [exact E|]. split.
    1-4: keyed_set.
    intros key Hkey. keyed_rest. }
  destruct (length _ =? 0)%nat; [by eexists|].
  unfold bind at 1, wrap_err in E. rewrite on_helper_run in E. unfold default_params in E.
  set (params := match readCohortContractParams c with Ok params => params | _ => _ end) in *.
  destruct (KeygenChain _ _ _ _ _) as [[b|er|w] h]; cbn [fst snd] in E; [|by eexists|done].
  unfold set_keys, set_contract_if_absent, modify_ctx, bind in E. cbn [fst snd] in E. eexists. split; [exact E|].
  apply holds_keys_set_contract; [by rewrite !key_set|]. intros contract. split.
  1-4: keyed_set.
  intros key Hkey. keyed_rest.
Qed.

(** The call with the last share, down to the exit hook: no phase claims the
    state after it. *)
Lemma formation_step helper sid from payload st entered c ps :
  sessions st !! sid = Some (at_phase (PhaseCohortKeygen helper) entered c) -> TryGet asStrings CtxParticipants c = Some ps ->
  (size (<[from := payload]> (AccumulatedMessages bucketCohortKeygenShares c)) <? length ps)%nat = false ->
  let c' := AccumulateMessage bucketCohortKeygenShares from payload c in
  let result := HandleMessage (pipeline_runner (formation_phases helper)) sid "cohort.keygen.share" from payload st in
  let '(o, (c1, e1)) := cohort_keygen_Exit helper (c', rs_env st) in
  sessions result.2 = <[sid := at_phase (PhaseCohortKeygen helper) entered c1]> (sessions st) /\ rs_env result.2 = e1 /\
  match o with
  | Ok _ => exists er, result.1 = Err er /\ errors_Is er ErrFrameworkBug_msg = true
  | Err _ => exists er, result.1 = Err er
  | Panic w => result.1 = Panic w
  end.
Proof.
  intros Ht Hps Hlen c' result. unfold result.
  rewrite (collect_outcome _ (PhaseCohortKeygen helper) "cohort.keygen.share" CtxParticipants bucketCohortKeygenShares sid from payload st entered c ps)
    by done. fold c'. rewrite Hlen.
  unfold advance. change (hopCap _) with 3%nat. cbn [advance_loop]. rewrite bind_at.
  destruct (cohort_keygen_Exit helper (c', rs_env st)) as [o [c1 e1]] eqn:Ex.
  assert (Hstep : advance_step (pipeline_runner (formation_phases helper)) (at_phase (PhaseCohortKeygen helper) entered c', rs_env st) =
    (match o with
     | Ok _ => Err (Errorf [W ErrFrameworkBug; T ": no phase claims state "; Q StateCohortSealed; T " (ExitState of "; Q "cohort-keygen"; T ")"])
     | Err er => Err (wrap_phase (PhaseCohortKeygen helper) ": Exit: " er) | Panic w => Panic w end,
     (at_phase (PhaseCohortKeygen helper) entered c1, e1))).
  { unfold advance_step. rewrite (bind_Ok get _ _ _ _ eq_refl). cbn [fst at_phase tr_current].
    unfold bind at 1, wrap_err at 1, run_hook at 1. cbn [fst snd at_phase tr_ctx].
    change (Exit (PhaseCohortKeygen helper)) with (cohort_keygen_Exit helper). rewrite Ex. by destruct o. }
  rewrite Hstep. by destruct o as [[]|er|w]; cbn; split_and!; eauto.
Qed.

(** C34. What a key share does to the formation of a cohort, on every branch.  It
    waits for as many senders as members.  The last one gives the context its keys:
    the collective and the evaluation key it already has, when neither is empty;
    without a helper, the stub keys; and else the public key and the evaluation keys
    of the helper's key generation chain for as many parties as there are members,
    under the contract of the context, or a ring of 2048 with depth ten when it is
    not readable.  The shares of all senders are stored beside them and the contract
    when there was none (the stub replaces it), and no other key changes.  The call
    fails all the same, as a bug of the framework, and leaves the session in its
    phase: no phase claims the sealed state.  Without members, or when the helper
    fails, the call fails and the context has no new key. *)
Theorem formation_outcome helper sid from payload st entered c ps :
  sessions st !! sid = Some (at_phase (PhaseCohortKeygen helper) entered c) -> TryGet asStrings CtxParticipants c = Some ps ->
  let raw := <[from := payload]> (AccumulatedMessages bucketCohortKeygenShares c) in
  let c' := AccumulateMessage bucketCohortKeygenShares from payload c in
  let result := HandleMessage (pipeline_runner (formation_phases helper)) sid "cohort.keygen.share" from payload st in
  let h0 := helper_of (rs_env st) in
  let sealed_unclaimed := exists er, result.1 = Err er /\ errors_Is er ErrFrameworkBug_msg = true in
  exists c1 h, sessions result.2 = <[sid := at_phase (PhaseCohortKeygen helper) entered c1]> (sessions st) /\
  rs_env result.2 = set_helper (rs_env st) h /\
  if (size raw <? length ps)%nat then result.1 = Ok false /\ c1 = c' /\ h = h0
  else match TryGet asBytes CtxCollectivePK c, TryGet asBytes CtxEvalKeys c with
  | Some ((_ :: _) as pk), Some ((_ :: _) as ek) => sealed_unclaimed /\ h = h0 /\ holds_keys pk ek raw (contract_or 10 2048 c) c' c1
  | _, _ =>
      if negb helper then sealed_unclaimed /\ h = h0 /\
        holds_keys (of_string "stub-collective-pk") (of_string "stub-eval-keys") raw
          (AnyMap [("depth", AInt 10); ("ring_dim", AInt 2048)]) c' c1
      else if (length ps =? 0)%nat then (exists er, result.1 = Err er) /\ c1 = c' /\ h = h0
      else
        let params := match readCohortContractParams c with Ok params => params | _ => contract_params 2048 10 50 end in
        match KeygenChain L OpenFHEVersion params (Z.of_nat (length ps)) h0 with
        | (Ok bundle, h') => sealed_unclaimed /\ h = h' /\
            holds_keys (bundle_PublicKey bundle) (bundle_EvalKeys bundle) raw (contract_or (h_Depth params) (h_RingDim params) c) c' c1
        | (Err _, h') => (exists er, result.1 = Err er) /\ c1 = c' /\ h = h'
        | (Panic w, h') => result.1 = Panic w /\ c1 = c' /\ h = h'
        end
  end.
Proof.
  intros Ht Hps raw c' result h0 bug.
  assert (Hkeep : forall key, bucketCohortKeygenShares <> key -> ctx_Get key c' = ctx_Get key c) by (intros key Hk; by apply key_accumulate).
  assert (Hget : forall key A (f : TypeAssert A), bucketCohortKeygenShares <> key -> TryGet f key c' = TryGet f key c)
    by (intros key A f Hk; unfold TryGet; by rewrite Hkeep).
  assert (Hsame : set_helper (rs_env st) h0 = rs_env st) by apply set_helper_same.
  destruct (size raw <? length ps)%nat eqn:Hlen.
  { exists c', h0. rewrite Hsame. unfold result. rewrite (collect_outcome _ (PhaseCohortKeygen helper) "cohort.keygen.share" CtxParticipants
      bucketCohortKeygenShares sid from payload st entered c ps) by done. fold raw c'. rewrite Hlen.
    by split_and!. }
  pose proof (formation_step helper sid from payload st entered c ps Ht Hps Hlen) as Hstep. cbn zeta in Hstep. fold c' result in Hstep.
  assert (Hk : pre_shared CtxCollectivePK CtxEvalKeys c' = match TryGet asBytes CtxCollectivePK c, TryGet asBytes CtxEvalKeys c with
    | Some (_ :: _), Some (_ :: _) => true | _, _ => false end).
  { unfold pre_shared. rewrite !Hget by done. by destruct (TryGet asBytes CtxCollectivePK c) as [[|]|], (TryGet asBytes CtxEvalKeys c) as [[|]|]. }
  assert (Hraw : AccumulatedMessages bucketCohortKeygenShares c' = raw) by apply AccumulatedMessages_accumulate.
  assert (Hor : forall d n, contract_or d n c' = contract_or d n c) by (intros d n; unfold contract_or; by rewrite Hkeep).
  assert (Hread : readCohortContractParams c' = readCohortContractParams c)
    by (unfold readCohortContractParams, contract_of; by rewrite Hkeep).
  destruct (TryGet asBytes CtxCollectivePK c) as [[|a pk]|] eqn:Epk, (TryGet asBytes CtxEvalKeys c) as [[|b ek]|] eqn:Eek.
  5: { rewrite <- Hget in Epk by done. rewrite <- Hget in Eek by done.
       destruct (keygen_shared helper c' (rs_env st) _ _ Hk Epk Eek) as (c1 & E & Hkeyed).
       rewrite Hraw, Hor in Hkeyed. rewrite E in Hstep. destruct Hstep as (Hs & He & Hbug).
       exists c1, h0. rewrite Hsame. by split_and!. }
  all: pose proof (keygen_fresh helper c' (rs_env st) Hk) as Hrun; unfold keygen_run in Hrun; rewrite Hraw, Hget, Hps, Hread in Hrun by done.
  all: fold h0 in Hrun; cbn [default id] in Hrun; destruct helper; cbn [negb] in Hrun |- *;
    [|destruct Hrun as (c1 & E & Hkeyed); rewrite E in Hstep; destruct Hstep as (Hs & He & Hend); exists c1, h0; rewrite Hsame; by split_and!].
  all: destruct (length ps =? 0)%nat;
    [destruct Hrun as [er E]; rewrite E in Hstep; destruct Hstep as (Hs & He & Hend); exists c', h0; rewrite Hsame; by split_and!|].
  all: destruct (KeygenChain _ _ _ _ h0) as [[keys|er|w] h1];
    [destruct Hrun as (c1 & E & Hkeyed); rewrite Hor in Hkeyed|destruct Hrun as [er' E]|rename Hrun into E].
  all: rewrite E in Hstep; destruct Hstep as (Hs & He & Hend); eexists _, h1; split; [exact Hs|]; by split_and!.
Qed.

(** Once there are keys, a further share changes neither of them. *)
Lemma keys_stay helper c e : pre_shared CtxCollectivePK CtxEvalKeys c = true ->
  exists c1, cohort_keygen_Exit helper (c, e) = (Ok tt, (c1, e)) /\
    ctx_Get CtxCollectivePK c1 = ctx_Get CtxCollectivePK c /\ ctx_Get CtxEvalKeys c1 = ctx_Get CtxEvalKeys c.
Proof.
  intros Hk. unfold cohort_keygen_Exit, set_contract_if_absent, get_ctx, modify_ctx, bind. cbn [fst snd]. rewrite Hk.
  eexists. split; [reflexivity|]. cbn [fst]. destruct (ctx_Has _ _); by rewrite ?key_set.
Qed.

(** ** A week *)

Context (Hjson : forall ks raw, no_panic (Unmarshal_strings ks raw)) (Hmasks : forall ks ms, no_panic (Marshal_masks ks ms)).
Notation week helper := (pipeline_runner (service_weekly_phases helper)).
(** What the cohort hands to its weeks. *)
Definition bundle : list string := [CtxParticipants; CtxCryptoContract; CtxCollectivePK; CtxEvalKeys; CtxSecretShares].

Lemma in_bundle k : bool_decide (k ∈ bundle) = true -> k ∈ bundle.
Proof. by intros Hk%bool_decide_eq_true. Qed.
Lemma week_phase_keeps key v helper p : key ∈ bundle -> p ∈ service_weekly_phases helper -> phase_keeps (fun c => ctx_Get key c = v) p.
Proof.
  intros Hkey Hp. assert (Hne : forall k, bool_decide (k ∈ bundle) = false -> k <> key) by (intros k Hk ->; by apply bool_decide_eq_false in Hk).
  unfold service_weekly_phases in Hp.
  repeat (apply elem_of_cons in Hp as [->|Hp]; [split; [|intros ty from payload|]|]); [..|by apply elem_of_nil in Hp].
  all: cbv [Enter OnMessage Exit per_cohort inline_phase weeklyKeySeeder PhaseRankingInvitation PhasePreSharedKeyLookup PhaseSubmitRating
    PhaseArgmaxScoring PhaseThresholdDecrypt PhaseSettleRanking no_hook no_message]; auto with ares.
  - apply get_ctx_keeps_key. intros c _. cbn [require_keys]. repeat (apply keeps_if; [|apply keeps_throw]). apply no_hook_keeps.
Qed.

Context (sharpening : EvalPolyParams).
Notation runner := (week (Some sharpening)).
Notation scoring := (PhaseArgmaxScoring (Some sharpening)).

Lemma week_built : built runner.
Proof. apply (Compose_built (service_weekly_phases (Some sharpening))). apply service_weekly_composes. Qed.
Lemma week_entry_keeps key v s p : key ∈ bundle -> byEntryState runner !! s = Some p -> phase_keeps (fun c => ctx_Get key c = v) p.
Proof. intros Hkey [[_ Hp]%inlines_elem _]%(built_lookup _ week_built). exact (week_phase_keeps key v (Some sharpening) p Hkey Hp). Qed.
Lemma week_keeps sid ops st t0 key : key ∈ bundle -> sessions st !! sid = Some t0 ->
  (forall p, tr_current t0 = Some p -> p ∈ service_weekly_phases (Some sharpening)) ->
  forall t, sessions (foldl (fun st op => run_session_op runner sid op st) st ops) !! sid = Some t ->
  ctx_Get key (tr_ctx t) = ctx_Get key (tr_ctx t0).
Proof.
  intros Hkey Ht0 Hcur t Ht.
  pose proof (run_session_kept (fun c => ctx_Get key c = ctx_Get key (tr_ctx t0)) runner (fun s p => week_entry_keeps key _ s p Hkey)
    (eq sid) sid ops st) as Hk.
  refine (proj1 (Hk _ sid t eq_refl Ht)). intros sid' t' <- Ht'. assert (t' = t0) as -> by congruence.
  split; [done|]. intros p Hp. exact (week_phase_keeps key _ (Some sharpening) p Hkey (Hcur p Hp)).
Qed.

(** C33. A week ranks under the keys of the cohort.  Whatever has happened to the
    session since it was seeded, its members, contract and keys are the seeded
    ones.  The last rating, when it comes, is scored under them: the argmax gets the
    seeded parameters and evaluation keys and the ratings in the order of the
    members' names; when one of them is missing or malformed, or the helper fails,
    the week stays in its scoring phase. *)
Theorem week_ranks_under_cohort_keys sid ops st t0 entered c from payload ps :
  sessions st !! sid = Some t0 -> (forall p, tr_current t0 = Some p -> p ∈ service_weekly_phases (Some sharpening)) ->
  TryGet asStrings CtxParticipants (tr_ctx t0) = Some ps ->
  let st' := foldl (fun st op => run_session_op runner sid op st) st ops in
  sessions st' !! sid = Some (at_phase PhaseSubmitRating entered c) ->
  let raw := <[from := payload]> (AccumulatedMessages bucketRatings c) in
  (length ps <= size raw)%nat ->
  let result := HandleMessage runner sid "ranking.rating" from payload st' in
  exists t' h, sessions result.2 = <[sid := t']> (sessions st') /\ rs_env result.2 = set_helper (rs_env st') h /\
  (forall k, k ∈ bundle -> ctx_Get k (tr_ctx t') = ctx_Get k (tr_ctx t0)) /\
  match readCohortContractParams (tr_ctx t0), TryGet asBytes CtxEvalKeys (tr_ctx t0),
    decode_all (fun _ er => er) decodeRatingCiphertext (sorted_messages raw) with
  | Ok params, Some (b :: evalKeys), Ok cts =>
      match client_Argmax L OpenFHEVersion params (b :: evalKeys) cts sharpening (helper_of (rs_env st')) with
      | (Ok masks, h') =>
          h = h' /\
          match Marshal_masks (sorted_keys raw) (hex_encode <$> masks) with
          | Ok body => result.1 = Ok true /\ tr_state t' = StateRankingDecrypt /\ ctx_Get CtxWinnerRating (tr_ctx t') = Some (ABytes body)
          | _ => (exists er, result.1 = Err er) /\ tr_state t' = StateRankingScoring
          end
      | (Err _, h') => h = h' /\ (exists er, result.1 = Err er) /\ tr_state t' = StateRankingScoring
      | (Panic w, h') => h = h' /\ result.1 = Panic w /\ tr_state t' = StateRankingScoring
      end
  | _, _, _ => (exists er, result.1 = Err er) /\ h = helper_of (rs_env st') /\ tr_state t' = StateRankingScoring
  end.
Proof.
  intros Ht0 Hcur Hps st' Ht raw Hlen result.
  assert (Hsame : forall k, k ∈ bundle -> ctx_Get k c = ctx_Get k (tr_ctx t0)) by (intros k Hk; exact (week_keeps sid ops st t0 k Hk Ht0 Hcur _ Ht)).
  assert (Hps' : TryGet asStrings CtxParticipants c = Some ps) by (unfold TryGet; by rewrite (Hsame _ (in_bundle CtxParticipants eq_refl))).
  destruct (submission_scores L OpenFHEVersion runner eq_refl PhaseSubmitRating scoring (PhaseThresholdDecrypt false) "ranking.rating"
    CtxParticipants bucketRatings CtxRatings "PhaseArgmaxScoring" "CtxEvalKeys" "rating" ": marshal: " CtxEvalKeys CtxWinnerRating
    readCohortContractParams decodeRatingCiphertext sharpening sid from payload st' entered c ps) as (t' & h & Hs & He & Hcase); try done.
  { unfold hopCap. cbn. lia. }
  { intros c2. apply read_params_no_panic, contract_of_no_panic. }
  { intros l. apply decode_all_no_panic. intros b. by apply decode_ciphertext_no_panic. }
  fold raw result in Hs, He, Hcase. exists t', h. split; [exact Hs|]. split; [exact He|]. split.
  - intros k Hk.
    refine (week_keeps sid (ops ++ [SMessage "ranking.rating" from payload]) st t0 k Hk Ht0 Hcur t' _).
    rewrite foldl_app. cbn [foldl run_session_op]. fold st'. fold result. rewrite Hs. apply lookup_insert_eq.
  - assert (Hread : readCohortContractParams (ctx_Set CtxRatings (AMapBytes raw) (AccumulateMessage bucketRatings from payload c)) =
      readCohortContractParams (tr_ctx t0)).
    { unfold readCohortContractParams, contract_of. rewrite key_set, key_accumulate by done. by rewrite (Hsame _ (in_bundle CtxCryptoContract eq_refl)). }
    assert (Hek : TryGet asBytes CtxEvalKeys (ctx_Set CtxRatings (AMapBytes raw) (AccumulateMessage bucketRatings from payload c)) =
      TryGet asBytes CtxEvalKeys (tr_ctx t0)).
    { unfold TryGet. rewrite key_set, key_accumulate by done. by rewrite (Hsame _ (in_bundle CtxEvalKeys eq_refl)). }
    assert (Hraw : AccumulatedMessages bucketRatings (ctx_Set CtxRatings (AMapBytes raw) (AccumulateMessage bucketRatings from payload c)) = raw).
    { unfold AccumulatedMessages at 1. rewrite key_set by done. apply AccumulatedMessages_accumulate. }
    unfold argmax_args in Hcase. rewrite Hread, Hek, Hraw in Hcase.
    destruct (readCohortContractParams (tr_ctx t0)) as [params|er|w]; [|by destruct Hcase as (Hres & -> & ->)..].
    destruct (TryGet asBytes CtxEvalKeys (tr_ctx t0)) as [[|b ek]|]; [by destruct Hcase as (Hres & -> & ->)| |by destruct Hcase as (Hres & -> & ->)].
    destruct (decode_all _ decodeRatingCiphertext (sorted_messages raw)) as [cts|er|w]; [|by destruct Hcase as (Hres & -> & ->)..].
    destruct (client_Argmax _ _ _ _ _ _ _) as [[masks|er|w] h']; [|by destruct Hcase as (Hres & -> & ->)..].
    destruct (Marshal_masks _ _) as [body|er|w]; destruct Hcase as (Hres & -> & ->); split_and!; try done; [].
    apply lookup_insert_eq.
Qed.
End Cohort.

Module CohortWitnesses.
Import InMemory Scripted AppToys.
Local Open Scope string_scope.

Notation toy_keygen := (PhaseCohortKeygen (S := InMemoryStore) toy "v1.5.1" false).
Notation toy_submit := (PhaseSubmitRating (S := InMemoryStore) (V := bytes) (LS := Script)).
Definition members : SessionContext := ctx_Set CtxParticipants (AStrings ["ann"; "bea"]) (NewSessionContext "s").
Definition one_share : SessionContext := AccumulateMessage bucketCohortKeygenShares "ann" [] members.

(** The last share of a cohort with a helper makes the keys and fails. *)
Notation helped_keygen := (PhaseCohortKeygen (S := InMemoryStore) toy "v1.5.1" true).
Definition last_share :=
  HandleMessage (pipeline_runner (formation_phases toy "v1.5.1" true)) "s" "cohort.keygen.share" "bea" [] (state_at helped_keygen one_share).
Definition made_keys := (KeygenChain toy "v1.5.1" (contract_params 2048 10 50) 2 (up (start []))).1.
Lemma formation_outcome_witness : exists c1 er bundle,
  sessions last_share.2 = <["s" := at_phase helped_keygen true c1]> (sessions (state_at helped_keygen one_share)) /\
  last_share.1 = Err er /\ errors_Is er ErrFrameworkBug_msg = true /\ made_keys = Ok bundle /\
  ctx_Get CtxCollectivePK c1 = Some (ABytes (bundle_PublicKey bundle)) /\ ctx_Get CtxEvalKeys c1 = Some (ABytes (bundle_EvalKeys bundle)).
Proof.
  pose proof (formation_outcome (S := InMemoryStore) toy "v1.5.1" true "s" "bea" [] (state_at helped_keygen one_share) true one_share ["ann"; "bea"]
    (at_start _ _) eq_refl) as Hout. cbv zeta in Hout. fold last_share in Hout. destruct Hout as (c1 & h & Hs & _ & Hcase).
  set (b := (size _ <? _)%nat) in Hcase. assert (Hb : b = false) by (vm_compute; reflexivity). rewrite Hb in Hcase. clear b Hb.
  change (TryGet asBytes CtxCollectivePK one_share) with (@None bytes) in Hcase. cbn [negb length Nat.eqb] in Hcase.
  set (o := readCohortContractParams one_share) in Hcase.
  assert (Ho : match o with Ok params => params | _ => contract_params 2048 10 50 end = contract_params 2048 10 50) by (vm_compute; reflexivity).
  rewrite Ho in Hcase. change (helper_of _) with (up (V := bytes) (start [])) in Hcase. change (Z.of_nat 2) with 2%Z in Hcase.
  assert (Hm : match made_keys with Ok _ => True | _ => False end) by (vm_compute; exact I). unfold made_keys in Hm |- *.
  destruct (KeygenChain _ _ _ 2 _) as [[bundle|er|w] h']; [|destruct Hm|destruct Hm].
  destruct Hcase as ((er & Hres & Her) & _ & Hkeyed). exists c1, er, bundle.
  split_and!; [exact Hs|exact Hres|exact Her|reflexivity|apply Hkeyed|apply Hkeyed].
Defined.

(** The stub keys are those of any cohort. *)
Definition seeded : SessionContext :=
  ctx_Set CtxEvalKeys (ABytes [Byte.x01]) (ctx_Set CtxCryptoContract (cohort_contract 10 2048) members).
Definition one_rating : SessionContext := AccumulateMessage bucketRatings "ann" (of_string "0a") seeded.
Notation toy_week := (pipeline_runner (service_weekly_phases toy "v1.5.1" no_hex map_to_list (Some sharpening))).
Lemma week_ranks_under_cohort_keys_witness : exists t',
  sessions (HandleMessage toy_week "s" "ranking.rating" "bea" (of_string "0b") (state_at toy_submit one_rating)).2
    = <["s" := t']> (sessions (state_at toy_submit one_rating)) /\
  ctx_Get CtxEvalKeys (tr_ctx t') = Some (ABytes [Byte.x01]) /\ tr_state t' = StateRankingDecrypt.
Proof.
  assert (Hlen : (length ["ann"; "bea"] <= size (<["bea" := of_string "0b"]> (AccumulatedMessages bucketRatings one_rating)))%nat)
    by (vm_compute; repeat constructor).
  pose proof (week_ranks_under_cohort_keys toy "v1.5.1" no_hex map_to_list toy_json_ok toy_masks_ok sharpening "s" [] (state_at toy_submit one_rating)
    (at_phase toy_submit true one_rating) true one_rating "bea" (of_string "0b") ["ann"; "bea"] (at_start _ _)) as Hw.
  assert (Hin : forall p, Some toy_submit = Some p -> p ∈ service_weekly_phases toy "v1.5.1" no_hex map_to_list (Some sharpening)).
  { intros p [= <-]. do 3 right. left. }
  specialize (Hw Hin eq_refl (at_start _ _) Hlen). destruct Hw as (t' & h & Hs & _ & Hkeys & Hcase). cbn [foldl] in Hs, Hcase.
  exists t'. split; [exact Hs|]. split; [rewrite (Hkeys _ (in_bundle CtxEvalKeys eq_refl)); vm_compute; reflexivity|].
  set (p := readCohortContractParams _) in Hcase. assert (Hp : p = Ok (contract_params 2048 10 0)) by (vm_compute; reflexivity).
  rewrite Hp in Hcase. clear Hp p. set (k := TryGet _ _ _) in Hcase. assert (Hk : k = Some [Byte.x01]) by (vm_compute; reflexivity).
  rewrite Hk in Hcase. clear Hk k. set (d := decode_all _ _ _) in Hcase. assert (Hd : d = Ok [[Byte.x0a]; [Byte.x0b]]) by (vm_compute; reflexivity).
  rewrite Hd in Hcase. clear Hd d. change (helper_of _) with (up (V := bytes) (start [])) in Hcase.
  set (m := client_Argmax _ _ _ _ _ _ _) in Hcase. assert (Hm : match m with (Ok l, _) => length l = 2%nat | _ => False end) by (vm_compute; reflexivity).
  clearbody m. destruct m as [[masks|er|w] h']; [|destruct Hm|destruct Hm]. exact (proj1 (proj2 (proj2 Hcase))).
Defined.
End CohortWitnesses.
