(* ===== verification/Admission.v ===== *)
(** * Bounded admission (examples/bounded_admission)

    The phases of the example around the bound check of [BoundCheck]: invitation,
    pre-shared keys, the collection of the encrypted inputs and the settlement;
    the handler that records violations; what an input and what a partial
    decryption do to a session on every branch; and the record a round leaves. *)
From Stdlib Require Import ZArith NArith Lia String Ascii Strings.Byte.
From stdpp Require Import base gmap list strings pretty.
From S2P Require Import Prelude Bytes Encoding.
From S2P Require Import GoFloat GoFmt.
From S2P Require Import Sign.
From S2P Require Import Lineage.
From S2P Require Import Context.
From S2P Require Import Pipeline.
From S2P Require Import Runner.
From S2P Require Import RunnerSpec.
From S2P Require Import RunnerFrame.
From S2P Require Import Defaults.
From S2P Require Import BoundCheck.
From S2P Require Import Apps.

(** ** States and keys (states.go) *)

Definition StateInviting : SessionState := "ADMISSION_INVITING".
Definition StateLocked : SessionState := "ADMISSION_LOCKED".
Definition StateSubmitting : SessionState := "ADMISSION_SUBMITTING".
Definition StateChecking : SessionState := "ADMISSION_CHECKING".
Definition StateSettled : SessionState := "ADMISSION_SETTLED".
Definition CtxAdmissionResults : string := "admission.results".
Definition MsgInput : string := "admission.input".
Definition MsgChallenge : string := "bound_check.challenge".
Definition bucketInputs : string := "admission.bucket.inputs".

(** [map[string]string]. *)
Definition any_strings : gmap string string -> Any := any_map "map[string]string" AString.
Definition asStringMap : TypeAssert (gmap string string) := as_map "map[string]string" asString.
(** The results so far, an absent map being the empty one. *)
Definition results_of (c : SessionContext) : gmap string string := default ∅ (TryGet asStringMap CtxAdmissionResults c).

(** ** Phases (phases.go) *)

Definition severity_number (s : Severity) : Z := match s with SeverityOK => 0 | SeveritySoft => 1 | SeverityHard => 2 end.
Definition violation_text (s : Severity) : string := "violation:" +:+ pretty (severity_number s).
Definition record_violation (party : string) (sev : Severity) (c : SessionContext) : SessionContext :=
  ctx_Set CtxAdmissionResults (any_strings (<[party := violation_text sev]> (results_of c))) c.
Definition settle_results (c : SessionContext) : SessionContext := ctx_Set CtxAdmissionResults (any_strings (results_of c)) c.

Section Admission.
Context {S : Type} `{Store S} `{J : AppCodec} (hex_error : string -> GoError).
Context (as_handle : TypeAssert ContextHandle) (as_fuse : TypeAssert Fuse).
Context (json_Unmarshal : bytes -> Outcome (gmap string bytes)).
Context (range : gmap string bytes -> list (string * bytes)) (range_set : gset string -> list string).
Local Open Scope string_scope.

Definition recordingHandler : ViolationHandler S := fun party _ sev => modify_ctx (record_violation party sev).

Definition PhaseInvitation : Phase S :=
  inline_phase "admission-invitation" StateInviting StateLocked [] [] [(CtxParticipants, key_type "[]string" false [])]
    no_hook no_message (fun _ => true) no_hook.

Definition admission_keygen_Exit : M (HookState S) unit :=
  let! c := get_ctx in
  match TryGet asBytes CtxJointPublicKey c with
  | Some _ => ret tt
  | None =>
      modify_ctx (ctx_Set CtxInputDim (AInt 8)) ;;;
      modify_ctx (ctx_Set CtxEvalKeyBundle (ABytes (of_string "stub-eval-key-bundle"))) ;;;
      modify_ctx (ctx_Set CtxJointPublicKey (ABytes (of_string "stub-joint-public-key")))
  end.
Definition PhaseKeygen : Phase S :=
  inline_phase "admission-keygen" StateLocked StateSubmitting [] []
    [(CtxInputDim, key_type "int" false []); (CtxEvalKeyBundle, key_type "[]byte" false []);
     (CtxJointPublicKey, key_type "[]byte" false [])]
    no_hook no_message (fun _ => true) admission_keygen_Exit.

Definition decode_input (from : string) (payload : bytes) : Outcome bytes :=
  match Unmarshal_strings ["enc_x"] payload with
  | Err e => Err (Errorf [T "decode "; T from; T " admission.input: "; W e])
  | Panic w => Panic w
  | Ok msg =>
      match hex_DecodeString hex_error (msg "enc_x") with
      | Err e => Err (Errorf [T "decode enc_x hex from "; T from; T ": "; W e])
      | o => o
      end
  end.
Definition input_OnMessage (ty from : string) (payload : bytes) : M (HookState S) unit :=
  let! encX := lift_outcome (decode_input from payload) in accumulate bucketInputs ty from encX.
Definition PhaseSubmitInput : Phase S :=
  inline_phase "admission-submit-input" StateSubmitting StateChecking [MsgInput]
    [(CtxParticipants, key_type "[]string" true [])] [(CtxEncryptedInputs, key_type "map[string][]byte" false [])]
    no_hook input_OnMessage (quorum CtxParticipants bucketInputs) (submit_Exit bucketInputs CtxEncryptedInputs).

Definition PhaseSettle : Phase S :=
  inline_phase "admission-settle" StateSettled StateNone [] [] [(CtxAdmissionResults, key_type "map[string]string" false [])]
    (modify_ctx settle_results) no_message (fun _ => true) no_hook.

(** ** The pipeline (runner.go) *)

(** No process-wide handle or fusion: those of the session are used. *)
Definition admission_check : BoundPhase S :=
  NewPhase (NormCircuit (of_ratio 1 20) 8) (Some recordingHandler) DefaultParams StateChecking StateSettled.
Notation checking := (bound_check_phase as_handle as_fuse json_Unmarshal range range_set admission_check).
Definition admission_phases : list (Phase S) := [PhaseInvitation; PhaseKeygen; PhaseSubmitInput; checking; PhaseSettle].
Definition PipelineWithCrypto : Outcome (SessionRunner S) := Compose admission_phases.

Notation runner := (pipeline_runner admission_phases).
Lemma admission_composes : PipelineWithCrypto = Ok runner.
Proof. reflexivity. Qed.

(** ** What a round leaves *)

Definition recorded (vs : list violation) (c : SessionContext) : SessionContext :=
  foldl (fun c v => record_violation (vParty v) (vSev v) c) c vs.

Lemma results_of_set m c : results_of (ctx_Set CtxAdmissionResults (any_strings m) c) = m.
Proof.
  unfold results_of, TryGet, ctx_Get, ctx_Set, with_values. cbn [values]. rewrite lookup_insert_eq. cbn [mbind option_bind].
  unfold asStringMap, any_strings. by rewrite map_value.
Qed.
Lemma settle_keeps_results c : results_of (settle_results c) = results_of c.
Proof. apply results_of_set. Qed.
Lemma recorded_other vs c party : party ∉ vParty <$> vs -> results_of (recorded vs c) !! party = results_of c !! party.
Proof.
  revert c. induction vs as [|v vs IH]; intros c Hp; [done|]. rewrite fmap_cons in Hp. apply not_elem_of_cons in Hp as [Hne Hp].
  cbn [recorded foldl]. fold (recorded vs (record_violation (vParty v) (vSev v) c)). rewrite IH by done.
  unfold record_violation. rewrite results_of_set. by rewrite lookup_insert_ne.
Qed.
Lemma recorded_party vs c party : party ∈ vParty <$> vs ->
  exists v, v ∈ vs /\ vParty v = party /\ results_of (recorded vs c) !! party = Some (violation_text (vSev v)).
Proof.
  revert c. induction vs as [|v vs IH]; intros c Hp; [by apply elem_of_nil in Hp|]. rewrite fmap_cons in Hp.
  cbn [recorded foldl]. fold (recorded vs (record_violation (vParty v) (vSev v) c)).
  destruct (decide (party ∈ vParty <$> vs)) as [Hin|Hout].
  - destruct (IH (record_violation (vParty v) (vSev v) c) Hin) as (v' & Hv' & Hpv & Hr). exists v'. split; [by right|done].
  - apply elem_of_cons in Hp as [->|Hp]; [|done]. exists v. split; [by left|]. split; [done|].
    rewrite recorded_other by done. unfold record_violation. rewrite results_of_set. apply lookup_insert_eq.
Qed.
Lemma notify_all vs c e : for_each vs (notify admission_check) (c, e) = (Ok tt, (recorded vs c, e)).
Proof.
  revert c. induction vs as [|v vs IH]; intros c; [done|]. cbn [for_each]. unfold bind at 1, notify at 1.
  cbn [admission_check NewPhase handler recordingHandler modify_ctx fst snd]. apply IH.
Qed.

Lemma check_Exit_run c e :
  bound_Exit as_fuse json_Unmarshal range range_set admission_check (c, e) =
  match TryGet as_fuse CtxBoundCheckFuse c with
  | None => (Ok tt, (c, e))
  | Some f =>
      match all_violations json_Unmarshal range range_set admission_check f c with
      | Ok [] => (Ok tt, (c, e))
      | Ok vs => (Err bound_violation, (recorded vs c, e))
      | Err er => (Err er, (c, e))
      | Panic w => (Panic w, (c, e))
      end
  end.
Proof.
  unfold bound_Exit, get_ctx, lift_outcome, bind. cbn [fst snd admission_check NewPhase fuse].
  destruct (TryGet as_fuse CtxBoundCheckFuse c) as [f|]; [|done].
  destruct (all_violations _ _ _ _ _ _) as [[|v vs]|er|w]; [done| |done..]. by rewrite notify_all.
Qed.

(** ** What a message does *)

Lemma decode_input_refused from payload hs ty :
  match decode_input from payload with
  | Ok x => input_OnMessage ty from payload hs = accumulate bucketInputs ty from x hs
  | Err er => input_OnMessage ty from payload hs = (Err er, hs)
  | Panic w => input_OnMessage ty from payload hs = (Panic w, hs)
  end.
Proof. unfold input_OnMessage, lift_outcome, bind. by destruct (decode_input from payload). Qed.

(** What an input does to an admission, on every branch.  A payload that does
    not decode is refused and leaves the session as it was.  Otherwise it
    replaces an earlier one of its sender and waits for as many senders as
    participants; the last one opens the check: the dimension must be that of the
    circuit, and with a handle every party's input is evaluated, and its value and
    its commitment to the session are published; nobody else has an entry.  When an
    evaluation fails the session is left in the check without having entered it. *)
Lemma input_outcome (range_perm : forall m, range m ≡ₚ map_to_list m) sid from payload st entered c ps :
  sessions st !! sid = Some (at_phase PhaseSubmitInput entered c) -> TryGet asStrings CtxParticipants c = Some ps ->
  let result := HandleMessage runner sid MsgInput from payload st in
  match decode_input from payload with
  | Err _ => sessions result.2 = sessions st /\ rs_env result.2 = rs_env st /\ exists er, result.1 = Err er
  | Panic w => sessions result.2 = sessions st /\ rs_env result.2 = rs_env st /\ result.1 = Panic w
  | Ok encX =>
      let raw := <[from := encX]> (AccumulatedMessages bucketInputs c) in
      let c' := AccumulateMessage bucketInputs from encX c in
      let c1 := ctx_Set CtxEncryptedInputs (AMapBytes raw) c' in
      exists t', sessions result.2 = <[sid := t']> (sessions st) /\ rs_env result.2 = rs_env st /\
      if (size raw <? length ps)%nat then result.1 = Ok false /\ t' = at_phase PhaseSubmitInput entered c'
      else
        (result.1 = Ok true /\ TryGet asInt CtxInputDim c = Some 8%Z /\
         match TryGet as_handle CtxBoundCheckHandle c with
         | None => t' = at_phase checking true c1
         | Some h => exists checks commits,
             t' = at_phase checking true (ctx_Set CtxBoundCheckCommitments (AMapBytes commits) (ctx_Set CtxBoundCheckCiphers (AMapBytes checks) c1)) /\
             forall party, match raw !! party with
               | None => checks !! party = None /\ commits !! party = None
               | Some x => exists ec, EvalProductSum h x x 8 = Ok ec /\ checks !! party = Some ec /\
                   commits !! party = Some (check_commitment ec x (ctxSessionID c))
               end
         end) \/
        ((forall b, result.1 <> Ok b) /\ t' = at_phase checking false c1)
  end.
Proof.
  intros Ht Hps result. pose proof (decode_input_refused from payload) as Hon.
  destruct (decode_input from payload) as [encX|er|w].
  2: by apply (refused_outcome runner PhaseSubmitInput MsgInput sid from payload st entered c (Err er)).
  2: by apply (refused_outcome runner PhaseSubmitInput MsgInput sid from payload st entered c (Panic w)).
  intros raw c' c1. unfold result.
  rewrite (collect_decoded runner PhaseSubmitInput MsgInput CtxParticipants bucketInputs sid from payload encX st entered c ps) by done.
  fold raw c'. destruct (size raw <? length ps)%nat; [by eexists|].
  pose proof (step_to runner eq_refl PhaseSubmitInput checking c' (rs_env st) entered) as Hstep. specialize (Hstep ltac:(done) eq_refl eq_refl).
  unfold advance. change (hopCap runner) with 6%nat. cbn [advance_loop]. rewrite bind_at, Hstep. clear Hstep.
  cbn [PhaseSubmitInput inline_phase Exit submit_Exit modify_ctx fst snd]. unfold submit_Exit, modify_ctx. cbn [fst snd].
  assert (AccumulatedMessages bucketInputs c' = raw) as -> by apply AccumulatedMessages_accumulate. fold c1.
  change (Enter checking) with (bound_Enter as_handle range admission_check).
  destruct (bound_Enter as_handle range admission_check (c1, rs_env st)) as [o hs'] eqn:Henter.
  pose proof (bound_Enter_spec as_handle range range_perm admission_check _ _ _ Henter) as Hspec. cbn [fst snd] in Hspec.
  assert (Hkeep : forall A (assert_as : TypeAssert A) k, CtxEncryptedInputs <> k -> bucketInputs <> k ->
    TryGet assert_as k c1 = TryGet assert_as k c).
  { intros A assert_as k H1 H2. unfold TryGet, c1, c'. by rewrite key_set, key_accumulate. }
  destruct o as [u|er|w]; [|subst hs'; eexists; split; [reflexivity|]; split; [done|by right]..].
  destruct Hspec as [(dim & Hdim & -> & _) Hspec]. rewrite Hkeep in Hdim by done.
  assert (effective_handle as_handle admission_check c1 = TryGet as_handle CtxBoundCheckHandle c) as Heff by (apply Hkeep; done).
  rewrite Heff in Hspec. destruct (TryGet as_handle CtxBoundCheckHandle c) as [h|].
  - destruct Hspec as (inputs & checks & commits & Hin & -> & Hparty). cbn [fst snd].
    assert (inputs = raw) as ->.
    { unfold TryGet, c1, ctx_Get, ctx_Set, with_values in Hin. cbn [values] in Hin. rewrite lookup_insert_eq in Hin. by injection Hin. }
    eexists. split; [reflexivity|]. split; [done|]. left. split; [done|]. split; [done|]. by exists checks, commits.
  - subst hs'. cbn [fst snd]. eexists. split; [reflexivity|]. split; [done|]. by left.
Qed.

(** C29. What a partial decryption does to an admission, on every branch.  It
    replaces an earlier one of its sender; until there are as many senders as
    participants the session waits.  The last one settles the session when it has no
    fusion, or when every participant has sent a partial for every ciphertext and
    every value is in the bound; the results are what earlier rounds have recorded.
    When someone is in violation, the round fails as attributable to the
    participants, the session stays in its phase, and each violator, and nobody
    else, gets an entry.  When a message does not decode or the fusion fails the
    session stays as it is. *)
Theorem admission_outcome (range_perm : forall m, range m ≡ₚ map_to_list m) (range_set_perm : forall s, range_set s ≡ₚ elements s)
    sid from payload st entered c ps :
  sessions st !! sid = Some (at_phase checking entered c) -> TryGet asStrings CtxParticipants c = Some ps ->
  let raw := <[from := payload]> (AccumulatedMessages bucketPartials c) in
  let c' := AccumulateMessage bucketPartials from payload c in
  let result := HandleMessage runner sid MsgBoundPartial from payload st in
  exists t', sessions result.2 = <[sid := t']> (sessions st) /\ rs_env result.2 = rs_env st /\
  if (size raw <? length ps)%nat then result.1 = Ok false /\ t' = at_phase checking entered c'
  else match TryGet as_fuse CtxBoundCheckFuse c' with
  | None => result.1 = Ok true /\ t' = ended true (settle_results c')
  | Some f =>
      match all_violations json_Unmarshal range range_set admission_check f c' with
      | Ok [] => cleared json_Unmarshal admission_check f c' /\ result.1 = Ok true /\ t' = ended true (settle_results c')
      | Ok vs =>
          (exists er, result.1 = Err er /\ errors_Is er ErrAppAttributable_msg = true) /\
          (forall v, v ∈ vs <-> in_violation json_Unmarshal admission_check f c' v) /\
          exists c1, t' = at_phase checking entered c1 /\ forall party,
            (party ∈ vParty <$> vs -> exists v, v ∈ vs /\ vParty v = party /\ results_of c1 !! party = Some (violation_text (vSev v))) /\
            (party ∉ vParty <$> vs -> results_of c1 !! party = results_of c' !! party)
      | Err _ => (exists er, result.1 = Err er) /\ t' = at_phase checking entered c'
      | Panic w => result.1 = Panic w /\ t' = at_phase checking entered c'
      end
  end.
Proof.
  intros Ht Hps raw c' result.
  unfold result. rewrite (collect_outcome runner checking MsgBoundPartial CtxParticipants bucketPartials sid from payload st entered c ps) by done.
  fold raw c'. destruct (size raw <? length ps)%nat; [by eexists|].
  pose proof (step_to runner eq_refl checking PhaseSettle c' (rs_env st) entered) as Hstep. specialize (Hstep ltac:(done) ltac:(done) eq_refl).
  unfold advance. change (hopCap runner) with 6%nat. cbn [advance_loop]. rewrite bind_at, Hstep. clear Hstep.
  change (Exit checking (c', rs_env st)) with (bound_Exit as_fuse json_Unmarshal range range_set admission_check (c', rs_env st)).
  rewrite check_Exit_run.
  assert (Hend : forall e, advance_step runner (at_phase PhaseSettle true (settle_results c'), e) = (Ok (Some true), (ended true (settle_results c'), e)))
    by (intros e; by apply (step_end runner eq_refl PhaseSettle)).
  destruct (TryGet as_fuse CtxBoundCheckFuse c') as [f|].
  2: { cbn [PhaseSettle inline_phase Enter modify_ctx fst snd ConsumedMessageTypes CheckComplete length Nat.ltb Nat.leb negb].
       rewrite bind_at, Hend. eexists. split; [reflexivity|]. by split_and!. }
  destruct (all_violations json_Unmarshal range range_set admission_check f c') as [[|v vs]|er|w] eqn:Hv;
    [| |eexists; split; [reflexivity|]; by split_and!; eauto..].
  - cbn [PhaseSettle inline_phase Enter modify_ctx fst snd ConsumedMessageTypes CheckComplete length Nat.ltb Nat.leb negb].
    rewrite bind_at, Hend. eexists. split; [reflexivity|]. split; [done|]. split; [by eapply cleared_iff|done].
  - eexists. split; [reflexivity|]. split; [done|]. split; [eexists; split; reflexivity|]. split.
    { by apply (all_violations_Ok json_Unmarshal range range_set range_perm range_set_perm) in Hv as [_ Hv]. }
    eexists. split; [reflexivity|]. intros party. split; [apply recorded_party|apply recorded_other].
Qed.
End Admission.

(** ** Witnesses *)

Module AdmissionWitnesses.
Import InMemory AppToys.
Local Open Scope string_scope.

(** A handle and a fusion of the session; the fusion is in the bound when every
    partial is the byte 1.  A partial map says the same of both ciphertexts. *)
Definition toy_ContextHandle : ContextHandle :=
  {| EvalMult x y := Ok (x ++ y)%list; EvalSubConst x _ := Ok x; EvalProductSum x _ _ := Ok (Byte.x09 :: x) |}.
Definition toy_as_handle : TypeAssert ContextHandle := fun v => match v with AString "handle" => Some toy_ContextHandle | _ => None end.
Definition toy_fuse : Fuse := fun blobs _ => Ok [if forallb (fun b => bool_decide (b = [Byte.x01])) blobs then f1 else of_Z 5].
Definition toy_as_fuse : TypeAssert Fuse := fun v => match v with AString "fuse" => Some toy_fuse | _ => None end.
Definition toy_partials (raw : bytes) : Outcome (gmap string bytes) := Ok (<["ann" := raw]> {["bea" := raw]}).

Notation toy_phases := (admission_phases (S := InMemoryStore) no_hex toy_as_handle toy_as_fuse toy_partials map_to_list elements).
Notation toy_runner := (pipeline_runner toy_phases).
Notation toy_submit := (PhaseSubmitInput (S := InMemoryStore) no_hex).
Notation toy_checking := (bound_check_phase toy_as_handle toy_as_fuse toy_partials map_to_list elements (admission_check (S := InMemoryStore))).
Definition admission_at (p : Phase InMemoryStore) (c : SessionContext) : RunnerState InMemoryStore := {|
  sessions := {["s" := at_phase p true c]};
  rs_env := {| env_store := NewInMemoryStore; env_clock := Z.of_nat; env_ticks := 0 |}; fired := []; hookPanicLog := [] |}.
Lemma admission_start p c : sessions (admission_at p c) !! "s" = Some (at_phase p true c).
Proof. apply lookup_insert_eq. Qed.
Definition opened : SessionContext :=
  ctx_Set CtxInputDim (AInt 8) (ctx_Set CtxBoundCheckHandle (AString "handle") (ctx_Set CtxBoundCheckFuse (AString "fuse")
    (ctx_Set CtxParticipants (AStrings ["ann"; "bea"]) (NewSessionContext "s")))).
Definition one_input : SessionContext := AccumulateMessage bucketInputs "ann" [Byte.x0a] opened.
Definition one_partial : SessionContext := AccumulateMessage bucketPartials "ann" [Byte.x02] opened.

(** The second input opens the check. *)
Lemma input_outcome_witness : exists t',
  sessions (HandleMessage toy_runner "s" MsgInput "bea" (of_string "0b") (admission_at toy_submit one_input)).2
    = <["s" := t']> (sessions (admission_at toy_submit one_input)) /\
  (tr_state t' = StateChecking /\ TryGet asMapBytes CtxEncryptedInputs (tr_ctx t') = Some (<["bea" := [Byte.x0b]]> {["ann" := [Byte.x0a]]}) \/
   (forall b, (HandleMessage toy_runner "s" MsgInput "bea" (of_string "0b") (admission_at toy_submit one_input)).1 <> Ok b)).
Proof.
  pose proof (input_outcome (S := InMemoryStore) no_hex toy_as_handle toy_as_fuse toy_partials map_to_list elements (fun m => reflexivity (map_to_list m))
    "s" "bea" (of_string "0b") (admission_at toy_submit one_input) true one_input ["ann"; "bea"] (admission_start _ _) eq_refl) as Hout. cbv zeta in Hout.
  set (d := decode_input no_hex "bea" (of_string "0b")) in Hout. assert (Hd : d = Ok [Byte.x0b]) by (vm_compute; reflexivity).
  rewrite Hd in Hout. clear Hd d. destruct Hout as (t' & Hs & _ & Hcase).
  set (k := (_ <? _)%nat) in Hcase. assert (Hk : k = false) by (vm_compute; reflexivity). rewrite Hk in Hcase. clear Hk k.
  exists t'. split; [exact Hs|]. destruct Hcase as [(_ & _ & Hcase)|[Hne _]]; [left|right; exact Hne].
  set (h := TryGet _ _ _) in Hcase. assert (Hh : h = Some toy_ContextHandle) by reflexivity. rewrite Hh in Hcase. clear Hh h.
  destruct Hcase as (checks & commits & Ht & _). rewrite Ht. split; [reflexivity|].
  unfold TryGet. cbn [at_phase tr_ctx]. rewrite (key_set _ CtxBoundCheckCommitments), (key_set _ CtxBoundCheckCiphers) by discriminate.
  vm_compute. reflexivity.
Defined.

(** A partial that is out of the bound: both ciphertexts fuse to five, and both
    participants are recorded. *)
Lemma admission_outcome_witness : exists t',
  sessions (HandleMessage toy_runner "s" MsgBoundPartial "bea" [Byte.x01] (admission_at toy_checking one_partial)).2
    = <["s" := t']> (sessions (admission_at toy_checking one_partial)) /\
  tr_state t' = StateChecking /\ results_of (tr_ctx t') !! "ann" = Some (violation_text SeverityHard).
Proof.
  pose proof (admission_outcome (S := InMemoryStore) no_hex toy_as_handle toy_as_fuse toy_partials map_to_list elements
    (fun m => reflexivity (map_to_list m)) (fun m => reflexivity (elements m))
    "s" "bea" [Byte.x01] (admission_at toy_checking one_partial) true one_partial ["ann"; "bea"] (admission_start _ _) eq_refl) as Hout. cbv zeta in Hout.
  destruct Hout as (t' & Hs & _ & Hcase).
  set (k := (_ <? _)%nat) in Hcase. assert (Hk : k = false) by (vm_compute; reflexivity). rewrite Hk in Hcase. clear Hk k.
  set (f := TryGet _ _ _) in Hcase. assert (Hf : f = Some toy_fuse) by reflexivity. rewrite Hf in Hcase. clear Hf f.
  set (l := all_violations _ _ _ _ _ _) in Hcase.
  assert (Hl : (vParty <$> match l with Ok vs => vs | _ => [] end, (fun v => vSev v) <$> match l with Ok vs => vs | _ => [] end) =
    (["ann"; "bea"], [SeverityHard; SeverityHard])) by (vm_compute; reflexivity).
  clearbody l. destruct l as [[|v1 [|v2 [|v3 vs]]]|er|w]; try discriminate Hl.
  destruct Hcase as (_ & _ & c1 & Ht & Hparty). exists t'. split; [exact Hs|]. rewrite Ht. split; [reflexivity|].
  destruct (Hparty "ann") as [Hin _]. injection Hl as H1 H2 H3 H4. cbn [fmap list_fmap map] in Hin.
  destruct Hin as (v & Hv & _ & Hr); [rewrite H1; left|]. cbn [at_phase tr_ctx]. rewrite Hr. repeat f_equal.
  apply elem_of_cons in Hv as [->|Hv]; [exact H3|]. apply elem_of_cons in Hv as [->|Hv]; [exact H4|]. destruct (not_elem_of_nil _ Hv).
Defined.

(** A violation that a later round clears stays in the results of the session
    that settles; and nobody is ever recorded as admitted. *)
Example cleared_violation_stays :
  let st1 := (HandleMessage toy_runner "s" MsgBoundPartial "bea" [Byte.x01] (admission_at toy_checking one_partial)).2 in
  let st2 := (HandleMessage toy_runner "s" MsgBoundPartial "ann" [Byte.x01] st1).2 in
  (fun t => (tr_state t, map_to_list (results_of (tr_ctx t)))) <$> sessions st2 !! "s"
    = Some (StateNone, [("ann", "violation:2"); ("bea", "violation:2")]).
Proof. vm_compute. reflexivity. Qed.
End AdmissionWitnesses.
