(* ===== verification/Triggers.v ===== *)
(** * The services of the examples (examples/*/cmd/session-service/main.go)

    How each service starts a session from an admin request: the canonical keys,
    the attributes laid over them, the keys decoded from hex, the inner trigger,
    and the walk to the first state that takes messages; and the two hooks that run
    after a dispatch, the onion relay of voting and the challenge of bounded
    admission. *)
From Stdlib Require Import ZArith NArith Lia String Ascii Strings.Byte.
From stdpp Require Import base gmap list strings pretty.
From S2P Require Import Prelude Bytes Encoding.
From S2P Require Import GoFloat GoFmt.
From S2P Require Import CGo Bridge BridgeEval BridgeFuse Helper HelperClient HelperSpec.
From S2P Require Import Sign.
From S2P Require Import Lineage.
From S2P Require Import Context.
From S2P Require Import Pipeline.
From S2P Require Import Runner.
From S2P Require Import RunnerSpec.
From S2P Require Import RunnerFrame.
From S2P Require Import Defaults.
From S2P Require Import BoundCheck.
From S2P Require Import Anon.
From S2P Require Import Hub.
From S2P Require Import Stores.
From S2P Require Import Service.
From S2P Require Import Apps.
From S2P Require Import Voting.
From S2P Require Import Auction.
From S2P Require Import RideShare.
From S2P Require Import Cohort.
From S2P Require Import Admission.

(** ** Triggers *)

Section Triggers.
Context {S : Type} `{Store S} (json_Marshal : WSMessage -> option bytes) (format_time : Z -> string).
Context (hex_error : string -> GoError).
Notation SM := (M (Service S)).
Local Open Scope string_scope.

(** The attributes of the request over the canonical keys. *)
Definition overlay (canonical attrs : list (string * Any)) : gmap string Any := insert_all attrs (insert_all canonical ∅).

Fixpoint decodeHexAttrs (keys : list string) (attrs : gmap string Any) : Outcome (gmap string Any) :=
  match keys with
  | [] => Ok attrs
  | key :: keys' =>
      match attrs !! key with
      | Some (AString s) =>
          if String.eqb s EmptyString then decodeHexAttrs keys' attrs
          else match hex_DecodeString hex_error s with
          | Ok decoded => decodeHexAttrs keys' (<[key := ABytes decoded]> attrs)
          | Err e => Err (Errorf [T "decode "; T key; T " as hex: "; W e])
          | Panic w => Panic w
          end
      | _ => decodeHexAttrs keys' attrs
      end
  end.

(** The order in which the inner trigger ranges over the attributes does not
    matter: their keys are distinct. *)
Definition start_session (sessionID : string) (participants : list string) (canonical : gmap string Any)
    (target : SessionState) (now : Z) : SM unit :=
  Start json_Marshal format_time sessionID participants (map_to_list canonical) now ;;;
  let! svc := get in on_runner (AdvanceToState (svc_runner svc) sessionID target).

Definition crypto_ctx (depth ring_dim : Z) : Any :=
  AnyMap [("depth", AInt depth); ("ring_dim", AInt ring_dim); ("scaling_mod_size", AInt 50)].

Definition auction_Start (depth ring_dim : Z) (sessionID : string) (participants : list string) (attrs : list (string * Any))
    (now : Z) : SM unit :=
  let! canonical := lift_outcome (decodeHexAttrs [CtxAuctionCollectivePublicKey; CtxAuctionEvalKeys]
    (overlay [(CtxAuctionParticipants, AStrings participants); (CtxAuctionCryptoContract, crypto_ctx depth ring_dim)] attrs)) in
  start_session sessionID participants canonical StateAuctionLocked now.

(** The first participant is the rider. *)
Definition defaultRoles (participants : list string) : gmap string string :=
  match participants with
  | [] => ∅
  | p :: ps => foldl (fun roles p => <[p := "driver"]> roles) {[p := "rider"]} ps
  end.
Definition rideShare_Start (depth ring_dim : Z) (sessionID : string) (participants : list string) (attrs : list (string * Any))
    (now : Z) : SM unit :=
  if (length participants <? 2)%nat then
    throw (Errorf [T "ride-share session needs at least 2 participants (1 rider + 1 driver), got "; T (pretty (length participants))])
  else
    let! canonical := lift_outcome (decodeHexAttrs [RideShare.CtxCollectivePK; RideShare.CtxEvalKeys]
      (overlay [(RideShare.CtxParticipants, AStrings participants); (CtxRoles, any_strings (defaultRoles participants));
                (RideShare.CtxCryptoContract, crypto_ctx depth ring_dim)] attrs)) in
    start_session sessionID participants canonical RideShare.StateKeygen now.

Definition formation_Start (depth ring_dim : Z) (sessionID : string) (participants : list string) (attrs : list (string * Any))
    (now : Z) : SM unit :=
  let! canonical := lift_outcome (decodeHexAttrs [Cohort.CtxCollectivePK; Cohort.CtxEvalKeys]
    (overlay [(Cohort.CtxParticipants, AStrings participants); (Cohort.CtxCryptoContract, crypto_ctx depth ring_dim)] attrs)) in
  start_session sessionID participants canonical StateCohortKeygen now.

(** The first key that is absent, in the order of the list. *)
Definition missing_attr (keys : list string) (attrs : gmap string Any) : option string :=
  snd <$> list_find (fun key => attrs !! key = None) keys.
Definition weekly_Start (depth ring_dim : Z) (sessionID : string) (participants : list string) (attrs : list (string * Any))
    (now : Z) : SM unit :=
  match missing_attr [Cohort.CtxCollectivePK; Cohort.CtxSecretShares; Cohort.CtxEvalKeys] (insert_all attrs ∅) with
  | Some key => throw (Errorf [T "weekly trigger: missing required attr "; Q key; T " (load from formation output)"])
  | None =>
      let! canonical := lift_outcome (decodeHexAttrs [Cohort.CtxCollectivePK; Cohort.CtxEvalKeys]
        (overlay [(Cohort.CtxParticipants, AStrings participants); (Cohort.CtxCryptoContract, crypto_ctx depth ring_dim)] attrs)) in
      Start json_Marshal format_time sessionID participants (map_to_list canonical) now ;;;
      let! svc := get in
      wrap_err (fun e => Errorf [T "weekly trigger: advance to bidding: "; W e])
        (on_runner (AdvanceToState (svc_runner svc) sessionID StateRankingBidding))
  end.

Definition voting_Start (sessionID : string) (participants : list string) (attrs : list (string * Any)) (now : Z) : SM unit :=
  if (length participants <? 2)%nat then
    throw (Errorf [T "voting needs at least 2 participants, got "; T (pretty (length participants))])
  else
    start_session sessionID participants
      (overlay [(CtxVoteParticipants, AStrings participants); (Defaults.CtxParticipants, AStrings participants);
                (anon_CtxParticipants, AStrings participants)] attrs)
      StateGossip now.

(** A key of the request in hex, empty when it is absent or not a string. *)
Definition attr_bytes (name : string) (attrs : gmap string Any) : Outcome bytes :=
  match attrs !! name with
  | Some (AString s) =>
      if String.eqb s EmptyString then Ok []
      else match hex_DecodeString hex_error s with
      | Err e => Err (Errorf [T "decode "; T name; T " hex: "; W e])
      | o => o
      end
  | _ => Ok []
  end.
(** The crypto of the session: the handle and the fusion, or nothing in a build
    without OpenFHE. *)
Definition BuildSessionCrypto_stub (ringDim depth dim : Z) (jointPK evalMultFinal evalSumFinal : bytes) : Outcome (option (Any * Any)) := Ok None.

Context `{FloatConversion}.
Definition attr_dim (inDim : Z) (attrs : gmap string Any) : Z :=
  match attrs !! "dim" with Some (AInt n) => n | Some (AFloat64 x) => to_int x | _ => inDim end.
Definition admission_Start (BuildSessionCrypto : Z -> Z -> Z -> bytes -> bytes -> bytes -> Outcome (option (Any * Any)))
    (ringDim depth inDim : Z) (sessionID : string) (participants : list string) (attrs : list (string * Any)) (now : Z) : SM unit :=
  let given := insert_all attrs ∅ in
  let! jointPK := lift_outcome (attr_bytes "collective_pk" given) in
  let! evalMultFinal := lift_outcome (attr_bytes "eval_mult_final" given) in
  let! evalSumFinal := lift_outcome (attr_bytes "eval_sum_final" given) in
  let dim := attr_dim inDim given in
  let present (b : bytes) := (0 <? length b)%nat in
  let canonical := insert_all ([(Defaults.CtxParticipants, AStrings participants); (CtxInputDim, AInt dim)] ++
    (if present jointPK then [(CtxJointPublicKey, ABytes jointPK)] else []) ++
    (if present evalMultFinal then [(CtxEvalKeyBundle, ABytes evalMultFinal)] else []))%list ∅ in
  Start json_Marshal format_time sessionID participants (map_to_list canonical) now ;;;
  (if present jointPK && present evalMultFinal && present evalSumFinal then
     let! svc := get in
     match RunnerSessionContext sessionID (svc_state svc) with
     | None => throw (Errorf [T "session context not found after BeginSession"])
     | Some _ =>
         let! crypto := wrap_err (fun e => Errorf [T "build session crypto: "; W e])
           (lift_outcome (BuildSessionCrypto ringDim depth dim jointPK evalMultFinal evalSumFinal)) in
         match crypto with
         | None => ret tt
         | Some (handle, fuse) => modify (fun svc => set_state svc
             (seed_ctx sessionID [(CtxBoundCheckHandle, handle); (CtxBoundCheckFuse, fuse)] (svc_state svc)))
         end
     end
   else ret tt) ;;;
  let! svc := get in on_runner (AdvanceToState (svc_runner svc) sessionID Admission.StateSubmitting).
End Triggers.

(** ** What runs after a dispatch *)

(** encoding/json on the onion batches and on the challenge. *)
Class WireCodec := {
  Unmarshal_onions : bytes -> Outcome (list string);
  Marshal_onions : list string -> Outcome bytes;
  Marshal_challenge : gmap string string -> gmap string string -> Outcome bytes
}.

Section Hooks.
Context {S : Type} `{Store S} (json_Marshal : WSMessage -> option bytes) (format_time : Z -> string).
Context `{WireCodec} (base64_error : string -> GoError).
Notation SM := (M (Service S)).
Local Open Scope string_scope.

(** A frame of the service to one participant; an error of the hub is logged. *)
Definition send_to (participant ty sessionID : string) (payload : bytes) (now : Z) : SM unit :=
  modify (fun svc => set_hub svc (SendTo json_Marshal format_time participant
    {| Version := EmptyString; Type_ := ty; msgSessionID := sessionID; Seq := 0; Payload := payload;
       Timestamp := EmptyString; msgLineage := None |} now (svc_hub svc)).2).

(** *** The onion relay (voting) *)

(** The first onion of each participant's batch, in the order of the participants. *)
Fixpoint first_onions (participants : list string) (bucket : gmap string bytes) : Outcome (list string) :=
  match participants with
  | [] => Ok []
  | p :: participants' =>
      match bucket !! p with
      | None => Err (Errorf [T "missing onion batch from "; T p])
      | Some raw =>
          match Unmarshal_onions raw with
          | Err e => Err (Errorf [T "decode batch from "; T p; T ": "; W e])
          | Panic w => Panic w
          | Ok [] => Err (Errorf [T "empty onion list from "; T p])
          | Ok (onion :: _) =>
              match base64_DecodeString (of_string onion) with
              | None => Err (Errorf [T "invalid base64 from "; T p; T ": "; W (base64_error onion)])
              | Some _ =>
                  match first_onions participants' bucket with
                  | Ok onions => Ok (onion :: onions)
                  | o => o
                  end
              end
          end
      end
  end.
Definition assembleBatch (participants : list string) (bucket : gmap string bytes) : Outcome bytes :=
  match first_onions participants bucket with
  | Ok onions => Marshal_onions onions
  | Err e => Err e
  | Panic w => Panic w
  end.

Definition index_of (p : string) (participants : list string) : option nat := fst <$> list_find (eq p) participants.

(** The error of the dispatch is not looked at. *)
Definition peelRelayIfNeeded (sessionID msgType from : string) (payload : bytes) (now : Z) : SM unit :=
  let! svc := get in
  match RunnerSessionContext sessionID (svc_state svc) with
  | None => ret tt
  | Some c =>
      match TryGet asStrings anon_CtxParticipants c with
      | None | Some [] => ret tt
      | Some ((first :: _) as participants) =>
          if String.eqb msgType MsgOnionBatch then
            let bucket := AccumulatedOnions c in
            if (size bucket <? length participants)%nat then ret tt
            else match assembleBatch participants bucket with
            | Ok assembled => send_to first MsgPeelForward sessionID assembled now
            | Err _ => ret tt
            | Panic w => panic w
            end
          else if String.eqb msgType MsgPeelForward then
            match index_of from participants with
            | None => ret tt
            | Some k =>
                match participants !! Datatypes.S k with
                | None => ret tt
                | Some nextPeer => send_to nextPeer MsgPeelForward sessionID payload now
                end
            end
          else ret tt
      end
  end.

(** *** The challenge (bounded admission) *)

Definition challenges_sent : string := "_admission_challenges_sent".
(** The hook runs in the goroutine of each connection, with no lock over its
    parts: the test of the flag and what it reads of the context, one frame to a
    participant, the setting of the flag. *)
Definition challenge_check (sessionID : string) (svc : Service S) : Outcome (option (list string * bytes)) :=
  match RunnerSessionContext sessionID (svc_state svc) with
  | None => Ok None
  | Some c =>
      if ctx_Has challenges_sent c then Ok None
      else
        let checks := default ∅ (TryGet asMapBytes CtxBoundCheckCiphers c) in
        if (size checks =? 0)%nat then Ok None
        else
          let commitments := default ∅ (TryGet asMapBytes CtxBoundCheckCommitments c) in
          match Marshal_challenge (hex_encode <$> checks) (hex_encode <$> commitments) with
          | Err _ => Ok None
          | Panic w => Panic w
          | Ok payload => Ok (Some (default [] (TryGet asStrings Defaults.CtxParticipants c), payload))
          end
  end.
Definition challenge_send (sessionID : string) (payload : bytes) (now : Z) (p : string) : SM unit :=
  send_to p MsgChallenge sessionID payload now.
Definition challenge_mark (sessionID : string) : SM unit :=
  modify (fun svc => set_state svc (seed_ctx sessionID [(challenges_sent, ABool true)] (svc_state svc))).
Definition challengeUnicastIfNeeded (sessionID : string) (now : Z) : SM unit :=
  let! svc := get in
  let! todo := lift_outcome (challenge_check sessionID svc) in
  match todo with
  | None => ret tt
  | Some (participants, payload) =>
      for_each participants (challenge_send sessionID payload now) ;;; challenge_mark sessionID
  end.

(** A dispatch of the service followed by its hook, which runs whatever the
    dispatch has returned, unless the frame names no session. *)
Definition dispatch_then (hook : string -> WSMessage -> SM unit) (from : string) (msg : WSMessage) (now : Z) : SM unit :=
  dispatch from msg now ;;; if String.eqb (msgSessionID msg) EmptyString then ret tt else hook from msg.
Definition voting_dispatch (from : string) (msg : WSMessage) (now : Z) : SM unit :=
  dispatch_then (fun from msg => peelRelayIfNeeded (msgSessionID msg) (Type_ msg) from (Payload msg) now) from msg now.
Definition admission_dispatch (from : string) (msg : WSMessage) (now : Z) : SM unit :=
  dispatch_then (fun _ msg => challengeUnicastIfNeeded (msgSessionID msg) now) from msg now.
End Hooks.

(** ** The relay follows the participants *)

Section Relay.
Context {S : Type} `{Store S} (json_Marshal : WSMessage -> option bytes) (format_time : Z -> string).
Context `{WireCodec} (base64_error : string -> GoError).

Lemma index_of_lookup ps k from : NoDup ps -> ps !! k = Some from -> index_of from ps = Some k.
Proof.
  intros Hnd Hk. unfold index_of. assert (list_find (eq from) ps = Some (k, from)) as ->; [|done].
  apply list_find_Some. split_and!; [done|done|]. intros j y Hj Hlt ->. pose proof (NoDup_lookup _ _ _ _ Hnd Hj Hk). lia.
Qed.
(** A peel goes to the participant after its sender; that of the last one, or of
    an outsider, goes nowhere. *)
Lemma relay_peel sid from payload now (svc : Service S) t ps : sessions (svc_state svc) !! sid = Some t ->
  TryGet asStrings anon_CtxParticipants (tr_ctx t) = Some ps -> NoDup ps ->
  peelRelayIfNeeded json_Marshal format_time base64_error sid MsgPeelForward from payload now svc =
  match index_of from ps ≫= fun k => ps !! Datatypes.S k with
  | Some next => send_to json_Marshal format_time next MsgPeelForward sid payload now svc
  | None => (Ok tt, svc)
  end /\
  (forall k, ps !! k = Some from -> index_of from ps = Some k) /\ (from ∉ ps -> index_of from ps = None).
Proof.
  intros Ht Hps Hnd. split; [|split].
  - unfold peelRelayIfNeeded. rewrite (bind_Ok get _ _ _ _ eq_refl). unfold RunnerSessionContext. rewrite Ht. cbn [fmap option_fmap option_map].
    rewrite Hps. change (String.eqb MsgPeelForward MsgOnionBatch) with false. rewrite String.eqb_refl.
    destruct ps as [|first ps]; [done|]. destruct (index_of from (first :: ps)) as [k|]; [|done]. cbn [mbind option_bind].
    by destruct ((first :: ps) !! Datatypes.S k).
  - intros k. by apply index_of_lookup.
  - intros Hout. unfold index_of. destruct (list_find (eq from) ps) as [[k y]|] eqn:Hf; [|done].
    apply list_find_Some in Hf as (Hk & -> & _). destruct Hout. by eapply list_elem_of_lookup_2.
Qed.
(** The batch that starts the peeling: the first onion of every participant, in
    their order; nothing when one is missing, empty or malformed. *)
Lemma first_onions_Ok ps bucket onions : first_onions base64_error ps bucket = Ok onions ->
  Forall2 (fun p onion => exists raw rest, bucket !! p = Some raw /\ Unmarshal_onions raw = Ok (onion :: rest) /\
    is_Some (base64_DecodeString (of_string onion))) ps onions.
Proof.
  revert onions. induction ps as [|p ps IH]; intros onions; cbn [first_onions]; [intros [= <-]; constructor|].
  destruct (bucket !! p) as [raw|] eqn:Hraw; [|done]. destruct (Unmarshal_onions raw) as [[|onion rest]|er|w] eqn:Hu; [done| |done..].
  destruct (base64_DecodeString (of_string onion)) eqn:Hb; [|done].
  destruct (first_onions base64_error ps bucket) as [onions'|er|w]; [|done..]. intros [= <-]. constructor; [|by apply IH].
  exists raw, rest. split_and!; [done|done|by rewrite Hb].
Qed.
End Relay.

(** ** Starting a session *)

Section Started.
Context {S : Type} `{Store S} (json_Marshal : WSMessage -> option bytes) (format_time : Z -> string).
Context (hex_error : string -> GoError).
Implicit Types (svc : Service S) (r : SessionRunner S) (p q : Phase S).

(** The inner trigger seeds the context with exactly the attributes. *)
Lemma seed_values attrs c : values (foldl (fun c kv => ctx_Set kv.1 kv.2 c) c attrs) = insert_all attrs (values c).
Proof. revert c. induction attrs as [|kv l IH]; intros c; [done|]. cbn [foldl]. by rewrite IH. Qed.
Lemma seed_frame attrs c : foldl (fun c kv => ctx_Set kv.1 kv.2 c) c attrs = with_values c (insert_all attrs (values c)).
Proof.
  revert c. induction attrs as [|kv l IH]; intros c; [by destruct c|]. cbn [foldl]. rewrite IH. by destruct c.
Qed.
Lemma insert_all_map (m : gmap string Any) : insert_all (map_to_list m) ∅ = m.
Proof.
  apply map_eq. intros k. destruct (m !! k) as [v|] eqn:Hk.
  - apply insert_all_NoDup; [apply NoDup_fst_map_to_list|by apply elem_of_map_to_list].
  - apply insert_all_None. split; [|done]. intros ([k' v] & -> & Hin%elem_of_map_to_list)%list_elem_of_fmap. cbn in Hk. congruence.
Qed.
Definition seeded sid (canonical : gmap string Any) : SessionContext := with_values (NewSessionContext sid) canonical.

(** A pipeline whose first phase is left at once for [q]. *)
Record opens r p q : Prop := {
  opens_plain : runner_lineage r = None;
  opens_first : byEntryState r !! initialState r = Some p;
  opens_entry : EntryState p = initialState r;
  opens_quiet : Enter p = ret tt /\ Exit p = ret tt /\ InternalStates p = [];
  opens_exit : ExitState p <> StateNone /\ ExitState p <> EntryState p;
  opens_next : byEntryState r !! ExitState p = Some q;
  opens_state : EntryState q = ExitState p;
  opens_enter : Enter q = ret tt;
  opens_hops : 2 <= hopCap r
}.
Lemma walk_opens r p q sid c e : opens r p q ->
  advance_to r sid (ExitState p) (at_phase p true c, e) = (Ok tt, (at_phase q true c, e)).
Proof.
  intros [Hplain Hfirst Hentry (Hin & Hout & Hint) [Hnone Hmove] Hnext Hstate Henter Hhops].
  unfold advance_to. rewrite (bind_Ok get _ _ _ _ eq_refl). cbn [fst at_phase tr_state tr_current].
  destruct (String.eqb_spec (EntryState p) (ExitState p)) as [He|_]; [congruence|]. rewrite Hint. cbn [existsb].
  assert (exists n, hopCap r = Datatypes.S (Datatypes.S n)) as [n ->].
  { destruct (hopCap r) as [|[|n]]; [lia..|by exists n]. }
  cbn [walk_loop]. rewrite (bind_Ok get _ _ _ _ eq_refl). cbn [fst at_phase tr_state].
  destruct (String.eqb_spec (EntryState p) (ExitState p)) as [He|_]; [congruence|].
  assert (walk_step r sid (ExitState p) (at_phase p true c, e) = (Ok tt, (at_phase q true c, e))) as Hstep.
  { unfold walk_step. rewrite (bind_Ok get _ _ _ _ eq_refl). cbn [fst at_phase tr_current].
    unfold wrap_err, run_hook, commitPhaseOutputsIfEnabled. rewrite Hplain, Hout. unfold bind at 1. cbn [ret fst snd tr_ctx with_ctx].
    unfold bind at 1. cbn [ret fst snd tr_ctx with_ctx].
    destruct (String.eqb_spec (ExitState p) StateNone) as [He|_]; [congruence|]. rewrite Hnext, Henter.
    unfold bind, set_position, set_entered, modify. cbn [ret fst snd tr_ctx with_ctx tr_state tr_current tr_entered].
    unfold at_phase. by rewrite Hstate. }
  rewrite (bind_Ok _ _ _ _ _ Hstep). destruct n as [|n]; cbn [walk_loop];
    rewrite (bind_Ok get _ _ _ _ eq_refl); cbn [fst at_phase tr_state]; by rewrite Hstate, String.eqb_refl.
Qed.

Lemma begin_opens r p q sid st : opens r p q ->
  if String.eqb sid EmptyString || bool_decide (is_Some (sessions st !! sid))
  then exists er, BeginSession r sid EmptyString st = (Err er, st)
  else BeginSession r sid EmptyString st = (Ok (NewSessionContext sid),
         set_env (set_sessions st (<[sid := at_phase p true (NewSessionContext sid)]> (sessions st))) (rs_env st)).
Proof.
  intros [Hplain Hfirst Hentry (Hin & _) _ _ _ _ _]. unfold BeginSession.
  destruct (String.eqb sid EmptyString); [by eexists|]. cbn [orb].
  destruct (sessions st !! sid) as [t|]; [by rewrite bool_decide_true by eauto; eexists|].
  rewrite bool_decide_false by (by intros []). rewrite Hfirst, Hplain. unfold run_hook. rewrite Hin.
  cbn [ret fst snd tr_ctx with_ctx tr_state tr_current tr_entered]. unfold at_phase. by rewrite Hentry.
Qed.

(** Starting a session, on every branch. *)
Lemma start_session_outcome p q sid participants canonical now svc : opens (svc_runner svc) p q ->
  let result := start_session json_Marshal format_time sid participants canonical (ExitState p) now svc in
  svc_runner result.2 = svc_runner svc /\ rs_env (svc_state result.2) = rs_env (svc_state svc) /\
  if bool_decide (participants = []) || String.eqb sid EmptyString || bool_decide (is_Some (sessions (svc_state svc) !! sid))
  then (exists er, result.1 = Err er) /\ sessions (svc_state result.2) = sessions (svc_state svc)
  else result.1 = Ok tt /\ sessions (svc_state result.2) = <[sid := at_phase q true (seeded sid canonical)]> (sessions (svc_state svc)).
Proof.
  intros Hopens result. pose proof (begin_opens _ p q sid (svc_state svc) Hopens) as Hbegin.
  unfold result, start_session, Start. destruct participants as [|p0 ps].
  { rewrite bool_decide_true by done. split; [done|]. split; [done|]. split; [by eexists|done]. }
  rewrite (bool_decide_false (p0 :: ps = [])) by done. cbn [orb].
  unfold bind, modify, get, wrap_err, on_runner. cbn [svc_runner svc_state set_started].
  destruct (_ || _).
  { destruct Hbegin as [er ->]. split; [done|]. split; [done|]. split; [by eexists|done]. }
  rewrite Hbegin. cbn [svc_state set_state].
  set (st2 := seed_ctx sid (map_to_list canonical) _).
  assert (Hst2 : sessions st2 = <[sid := at_phase p true (seeded sid canonical)]> (sessions (svc_state svc)) /\ rs_env st2 = rs_env (svc_state svc)).
  { unfold st2, seed_ctx. cbn [sessions set_env set_sessions]. rewrite lookup_insert_eq. cbn [sessions set_sessions set_env rs_env].
    rewrite seed_frame. cbn [values tr_ctx NewSessionContext at_phase]. rewrite insert_all_map, insert_insert_eq. by split. }
  destruct Hst2 as [Hs2 He2].
  assert (Hlook : sessions st2 !! sid = Some (at_phase p true (seeded sid canonical))) by (rewrite Hs2; apply lookup_insert_eq).
  assert (Hadv : AdvanceToState (svc_runner svc) sid (ExitState p) st2 =
    (Ok tt, set_env (set_sessions st2 (<[sid := at_phase q true (seeded sid canonical)]> (sessions st2))) (rs_env st2))).
  { unfold AdvanceToState, with_tracker. rewrite Hlook. by rewrite (walk_opens _ p q sid _ _ Hopens). }
  destruct (String.eqb _ EmptyString); cbn [ret svc_state set_hub set_state set_started svc_runner]; rewrite Hadv; cbn [svc_state set_state fst snd sessions set_env set_sessions rs_env svc_runner set_hub];
    (split; [done|]; split; [done|]; split; [done|]; rewrite Hs2; apply insert_insert_eq).
Qed.

(** What the keys of the request become. *)
Definition decoded_value (keys : list string) (key : string) (v : Any) : Any :=
  match v with
  | AString s => if bool_decide (key ∈ keys) && negb (String.eqb s EmptyString) then ABytes (default [] (hex_decode s)) else v
  | _ => v
  end.
Lemma decodeHexAttrs_Ok keys attrs m : NoDup keys -> decodeHexAttrs hex_error keys attrs = Ok m ->
  forall k, m !! k = decoded_value keys k <$> attrs !! k.
Proof.
  revert attrs. induction keys as [|key keys IH]; intros attrs Hnd Hm k.
  { injection Hm as <-. destruct (attrs !! k) as [[]|]; cbn; try done. }
  apply NoDup_cons in Hnd as [Hkey Hnd]. cbn [decodeHexAttrs] in Hm.
  assert (Hskip : decodeHexAttrs hex_error keys attrs = Ok m -> (forall s, attrs !! key = Some (AString s) -> s = EmptyString) ->
    m !! k = decoded_value (key :: keys) k <$> attrs !! k).
  { intros Hm' Hs. rewrite (IH _ Hnd Hm'). destruct (attrs !! k) as [v|] eqn:Hk; [|done]. cbn [fmap option_fmap option_map].
    f_equal. unfold decoded_value. destruct v as [| | | | | | | | | |s| | | | | |]; try done.
    destruct (decide (k = key)) as [->|Hne]; [|by rewrite (bool_decide_ext (k ∈ key :: keys) (k ∈ keys)) by set_solver].
    by rewrite (Hs s Hk), !andb_false_r. }
  destruct (attrs !! key) as [[| | | | | | | | | |s| | | | | |]|] eqn:Hv; try (by apply Hskip).
  destruct (String.eqb_spec s EmptyString) as [->|Hne]; [by apply Hskip; [|intros ? [= <-]]|].
  unfold hex_DecodeString in Hm. destruct (hex_decode s) as [b|] eqn:Hb; [|done]. rewrite (IH _ Hnd Hm).
  destruct (decide (k = key)) as [->|Hk].
  - rewrite lookup_insert_eq, Hv. cbn [fmap option_fmap option_map decoded_value].
    rewrite bool_decide_true by set_solver. destruct (String.eqb_spec s EmptyString); [done|]. by rewrite Hb.
  - rewrite lookup_insert_ne by done. destruct (attrs !! k) as [v|]; [|done]. cbn [fmap option_fmap option_map]. f_equal.
    unfold decoded_value. by rewrite (bool_decide_ext (k ∈ key :: keys) (k ∈ keys)) by set_solver.
Qed.
Lemma decodeHexAttrs_no_panic keys attrs : no_panic (decodeHexAttrs hex_error keys attrs).
Proof.
  revert attrs. induction keys as [|key keys IH]; intros attrs; [done|]. cbn.
  destruct (attrs !! key) as [[]|]; try done. destruct (String.eqb _ _); [done|]. unfold hex_DecodeString. by destruct (hex_decode _).
Qed.
Lemma overlay_lookup canonical attrs k : NoDup canonical.*1 -> k ∉ attrs.*1 ->
  forall v, (k, v) ∈ canonical -> overlay canonical attrs !! k = Some v.
Proof.
  intros Hnd Hk v Hin. unfold overlay. rewrite <- (insert_all_NoDup canonical ∅ k v Hnd Hin).
  generalize (insert_all canonical ∅). clear -Hk. intros m. revert m.
  induction attrs as [|[k' v'] attrs IH]; intros m; [done|]. apply not_elem_of_cons in Hk as [Hne Hk]. cbn [insert_all foldl fst snd].
  fold (insert_all attrs (<[k' := v']> m)). rewrite IH by done. by rewrite lookup_insert_ne.
Qed.
End Started.

Section AuctionStarted.
Context {S : Type} `{Store S} {V LS : Type} (L : CGo.CLib V LS) (OpenFHEVersion : string) {Wire : Type} `{C : Helper.HelperCodec Wire}.
Context `{J : AppCodec} `{F : FloatConversion} (hex_error : string -> GoError) (range : gmap string bytes -> list (string * bytes)).
Context (json_Marshal : WSMessage -> option bytes) (format_time : Z -> string).
Notation AS := (S * Helper.Helper V LS)%type.
Notation phases helper := (auction_phases (S := S) L OpenFHEVersion hex_error range helper).

(** The canonical keys of an auction and the attributes over them. *)
Definition auction_attrs (depth ring_dim : Z) (participants : list string) (attrs : list (string * Any)) : gmap string Any :=
  overlay [(CtxAuctionParticipants, AStrings participants); (CtxAuctionCryptoContract, crypto_ctx depth ring_dim)] attrs.
Notation bundle_keys := [CtxAuctionCollectivePublicKey; CtxAuctionEvalKeys].

Lemma auction_opens helper :
  opens (pipeline_runner (phases helper)) Auction.PhaseInvitation (Auction.PhaseKeygen L OpenFHEVersion (bool_decide (is_Some helper))).
Proof. split; try reflexivity; [by split_and!|by split|]. unfold hopCap. cbn. lia. Qed.

(** An auction is started by an admin request, on every branch.  When one of
    the two keys is not hex nothing at all happens.  Without bidders, without a
    session name, or for a session that is already there, the request fails and no
    session changes.  Otherwise the session is at the key generation, entered, and
    its context holds exactly the attributes of the request over the canonical
    keys, the two keys decoded; no other session and nothing of the helper or the
    store changes. *)
Lemma auction_started helper depth ring_dim sid participants attrs now (svc : Service AS) :
  svc_runner svc = pipeline_runner (phases helper) ->
  let result := auction_Start json_Marshal format_time hex_error depth ring_dim sid participants attrs now svc in
  match decodeHexAttrs hex_error bundle_keys (auction_attrs depth ring_dim participants attrs) with
  | Ok canonical =>
      (forall k, canonical !! k = decoded_value bundle_keys k <$> auction_attrs depth ring_dim participants attrs !! k) /\
      svc_runner result.2 = svc_runner svc /\ rs_env (svc_state result.2) = rs_env (svc_state svc) /\
      if bool_decide (participants = []) || String.eqb sid EmptyString || bool_decide (is_Some (sessions (svc_state svc) !! sid))
      then (exists er, result.1 = Err er) /\ sessions (svc_state result.2) = sessions (svc_state svc)
      else result.1 = Ok tt /\ sessions (svc_state result.2) =
        <[sid := at_phase (Auction.PhaseKeygen L OpenFHEVersion (bool_decide (is_Some helper))) true (seeded sid canonical)]> (sessions (svc_state svc))
  | _ => (exists er, result.1 = Err er) /\ result.2 = svc
  end.
Proof.
  intros Hr result. unfold result, auction_Start. fold (auction_attrs depth ring_dim participants attrs).
  destruct (decodeHexAttrs hex_error bundle_keys (auction_attrs depth ring_dim participants attrs)) as [canonical|er|w] eqn:Hd.
  - split; [apply (decodeHexAttrs_Ok hex_error); [by apply (bool_decide_unpack _)|done]|]. unfold bind at 1 2 3 4, lift_outcome.
    apply (start_session_outcome json_Marshal format_time Auction.PhaseInvitation). rewrite Hr. apply auction_opens.
  - split; [by eexists|done].
  - by destruct (decodeHexAttrs_no_panic hex_error _ _ _ Hd).
Qed.
End AuctionStarted.

(** ** The challenge is sent once *)

Section Challenge.
Context {S : Type} `{Store S} `{J : AppCodec} `{W : WireCodec} (hex_error : string -> GoError).
Context (as_handle : TypeAssert ContextHandle) (as_fuse : TypeAssert Fuse).
Context (json_Unmarshal : bytes -> Outcome (gmap string bytes)).
Context (range : gmap string bytes -> list (string * bytes)) (range_set : gset string -> list string).
Context (json_Marshal : WSMessage -> option bytes) (format_time : Z -> string).
Notation phases := (admission_phases (S := S) hex_error as_handle as_fuse json_Unmarshal range range_set).
Notation runner := (pipeline_runner phases).

Lemma keeps_sentinel v p : p ∈ phases -> phase_keeps (fun c => ctx_Get challenges_sent c = v) p.
Proof.
  intros Hp. unfold admission_phases in Hp.
  assert (Hset : forall k x, k <> challenges_sent -> hook_keeps (S := S) (fun c => ctx_Get challenges_sent c = v) (modify_ctx (ctx_Set k x))).
  { intros k x Hk. apply modify_keeps_key. intros c. by apply key_set. }
  assert (Hacc : forall bucket ty from payload, bucket <> challenges_sent ->
    hook_keeps (S := S) (fun c => ctx_Get challenges_sent c = v) (accumulate bucket ty from payload)).
  { intros bucket ty from payload Hk. apply modify_keeps_key. intros c. by apply key_accumulate. }
  repeat (apply elem_of_cons in Hp as [->|Hp]; [split; [|intros ty from payload|]|]); [..|by apply elem_of_nil in Hp].
  all: cbv [Enter OnMessage Exit inline_phase bound_check_phase Admission.PhaseInvitation Admission.PhaseKeygen PhaseSubmitInput
    Admission.PhaseSettle no_hook no_message]; try apply keeps_ret.
  - apply get_ctx_keeps_key. intros c _. destruct (TryGet asBytes CtxJointPublicKey c); [apply keeps_ret|].
    apply keeps_bind; [by apply Hset|]. intros _. apply keeps_bind; [by apply Hset|]. intros _. by apply Hset.
  - apply keeps_bind; [apply lift_keeps_key|]. intros x. by apply Hacc.
  - apply modify_keeps_key. intros c. by apply key_set.
  - apply get_ctx_keeps_key. intros c _. destruct (TryGet asInt CtxInputDim c) as [dim|]; [|apply keeps_throw].
    repeat (apply keeps_if; [apply keeps_throw|]). destruct (match _ with Some h => Some h | None => _ end); [|apply keeps_ret].
    destruct (TryGet asMapBytes CtxEncryptedInputs c); [|apply keeps_throw]. apply keeps_bind; [apply lift_keeps_key|]. intros res.
    apply keeps_bind; [by apply Hset|]. intros _. by apply Hset.
  - by apply (Hacc bucketPartials ty from payload).
  - apply get_ctx_keeps_key. intros c _. destruct (match _ with Some f => Some f | None => _ end); [|apply keeps_ret].
    apply keeps_bind; [apply lift_keeps_key|]. intros [|v0 vs]; [apply keeps_ret|]. apply keeps_bind; [|intros _; apply keeps_throw].
    intros [c' e] Hc. cbn in Hc. change (notify admission_check) with (notify (S := S) admission_check). rewrite notify_all. cbn [snd fst].
    revert c' Hc. generalize (v0 :: vs). intros l. induction l as [|v1 l IH]; intros c' Hc; [done|].
    apply (IH (record_violation (vParty v1) (vSev v1) c')). transitivity (ctx_Get challenges_sent c'); [by apply key_set|done].
  - apply modify_keeps_key. intros c. by apply key_set.
Qed.

(** *** Several hooks at once

    A configuration: the service; for each activation of the hook that has passed
    its test the participants it has still to serve, and its payload; and, for the
    statement, what each activation has started with, the frames handed to the hub
    so far, and whether an activation has set the flag. *)
Record Challenges := {
  ch_svc : Service S;
  ch_running : list (list string * bytes);
  ch_started : list (list string * bytes);
  ch_handed : list (string * bytes);
  ch_marked : bool
}.
Definition no_hooks (svc : Service S) : Challenges :=
  {| ch_svc := svc; ch_running := []; ch_started := []; ch_handed := []; ch_marked := false |}.
Definition ch_set_svc c svc : Challenges :=
  {| ch_svc := svc; ch_running := ch_running c; ch_started := ch_started c; ch_handed := ch_handed c; ch_marked := ch_marked c |}.
Definition frames_of (l : list (list string * bytes)) : list (string * bytes) := l ≫= fun todo => (fun p => (p, todo.2)) <$> todo.1.

Section Interleaving.
Context (sid : string).

(** The parts of the hooks of all connections in any order, and between them
    whatever else happens: messages and lineage messages of the session and calls
    of [AdvanceToState], writes of other keys of its context or changes of its place
    that another goroutine is in the middle of, and anything that does not concern the
    session, such as frames, connections, sweeps and other sessions. *)
Inductive ch_step : Challenges -> Challenges -> Prop :=
| ch_check c todo : challenge_check sid (ch_svc c) = Ok (Some todo) ->
    ch_step c {| ch_svc := ch_svc c; ch_running := ch_running c ++ [todo]; ch_started := ch_started c ++ [todo];
                 ch_handed := ch_handed c; ch_marked := ch_marked c |}
| ch_send c before p ps payload after now : ch_running c = before ++ (p :: ps, payload) :: after ->
    ch_step c {| ch_svc := (challenge_send json_Marshal format_time sid payload now p (ch_svc c)).2;
                 ch_running := before ++ (ps, payload) :: after; ch_started := ch_started c;
                 ch_handed := ch_handed c ++ [(p, payload)]; ch_marked := ch_marked c |}
| ch_mark c before payload after : ch_running c = before ++ ([], payload) :: after ->
    ch_step c {| ch_svc := (challenge_mark sid (ch_svc c)).2; ch_running := before ++ after; ch_started := ch_started c;
                 ch_handed := ch_handed c; ch_marked := true |}
| ch_session c op :
    ch_step c (ch_set_svc c (set_state (ch_svc c) (run_session_op runner sid op (svc_state (ch_svc c)))))
| ch_write c t t' : sessions (svc_state (ch_svc c)) !! sid = Some t -> tracker_ok runner t' ->
    ctx_Get challenges_sent (tr_ctx t') = ctx_Get challenges_sent (tr_ctx t) ->
    ch_step c (ch_set_svc c (set_state (ch_svc c)
      (set_sessions (svc_state (ch_svc c)) (<[sid := t']> (sessions (svc_state (ch_svc c)))))))
| ch_other c svc' : svc_runner svc' = svc_runner (ch_svc c) ->
    sessions (svc_state svc') !! sid = sessions (svc_state (ch_svc c)) !! sid -> ch_step c (ch_set_svc c svc').

(** The session is there, at a phase of the pipeline, and once an activation has
    set the flag it stays set. *)
Record ch_ok c : Prop := {
  ch_tracker : exists t, sessions (svc_state (ch_svc c)) !! sid = Some t /\ tracker_ok runner t /\
    (ch_marked c = true -> ctx_Get challenges_sent (tr_ctx t) = Some (ABool true));
  ch_frames : ch_handed c ++ frames_of (ch_running c) ≡ₚ frames_of (ch_started c)
}.

Lemma tracker_phase t p : tracker_ok runner t -> tr_current t = Some p -> p ∈ phases.
Proof. unfold tracker_ok. intros Hok Hp. rewrite Hp in Hok. destruct Hok as [[_ Hin]%inlines_elem _]. exact Hin. Qed.
Lemma runner_ok : built runner.
Proof. by apply (Compose_built phases). Qed.
Lemma session_op_keeps op (st : RunnerState S) t : sessions st !! sid = Some t -> tracker_ok runner t ->
  exists t', sessions (run_session_op runner sid op st) !! sid = Some t' /\ tracker_ok runner t' /\
    ctx_Get challenges_sent (tr_ctx t') = ctx_Get challenges_sent (tr_ctx t).
Proof.
  intros Ht Hok.
  assert (Hl : local runner sid st (run_session_op runner sid op st)).
  { pose proof runner_ok. destruct op; [by apply HandleMessage_local|by apply HandleLineageMessage_local|by apply AdvanceToState_local]. }
  destruct Hl as (_ & Hl & _). destruct (Hl t Ht Hok) as (t' & Ht' & Hok' & _). exists t'. split; [done|]. split; [done|].
  set (v := ctx_Get challenges_sent (tr_ctx t)).
  assert (Hkeep : all_kept (fun c => ctx_Get challenges_sent c = v) (eq sid) (foldl (fun st op => run_session_op runner sid op st) st [op])).
  { apply run_session_kept. { intros s p [[_ Hp]%inlines_elem _]%(built_lookup _ runner_ok). by apply keeps_sentinel. }
    intros sid' t0 <- Ht0. rewrite Ht in Ht0. injection Ht0 as <-. split; [done|]. intros p Hp. by apply keeps_sentinel, (tracker_phase t p Hok Hp). }
  by apply (Hkeep sid t' eq_refl).
Qed.
Lemma frames_of_app l l' : frames_of (l ++ l') = frames_of l ++ frames_of l'.
Proof. apply bind_app. Qed.

Lemma seed_sentinel (st : RunnerState S) t : sessions st !! sid = Some t ->
  sessions (seed_ctx sid [(challenges_sent, ABool true)] st) !! sid = Some (with_ctx t (ctx_Set challenges_sent (ABool true) (tr_ctx t))).
Proof. intros Ht. unfold seed_ctx. rewrite Ht. apply lookup_insert_eq. Qed.

Lemma ch_step_ok c c' : ch_step c c' -> ch_ok c -> ch_ok c'.
Proof.
  intros Hstep [(t & Ht & Hok & Hm) Hf]. destruct Hstep as [c todo _|c before p ps payload after now Hr|c before payload after Hr|c op
    |c t0 t' Ht0 Hok' Hsame|c svc' _ Hsame]; cbn [ch_svc ch_running ch_handed ch_started ch_marked ch_set_svc] in *.
  - split; [by exists t|]. cbn. by rewrite !frames_of_app, app_assoc, Hf.
  - split; [by exists t|]. cbn. rewrite <- Hf, Hr, !frames_of_app, <- app_assoc. f_equiv. cbn.
    by rewrite <- Permutation_middle.
  - split; cbn.
    + eexists. split; [by apply seed_sentinel|]. split; [exact Hok|]. intros _. apply key_set_same.
    + by rewrite <- Hf, Hr, !frames_of_app.
  - destruct (session_op_keeps op _ t Ht Hok) as (t' & Ht' & Hok' & Hs). split; [|exact Hf]. exists t'. split_and!; [done|done|].
    intros Hmark. rewrite Hs. by apply Hm.
  - split; [|exact Hf]. exists t'. split; [apply lookup_insert_eq|]. split; [done|]. intros Hmark. rewrite Hsame.
    assert (t0 = t) as -> by congruence. by apply Hm.
  - split; [|exact Hf]. exists t. cbn. by rewrite Hsame.
Qed.
Lemma ch_steps_ok c c' : rtc ch_step c c' -> ch_ok c -> ch_ok c'.
Proof. induction 1; [done|]. intros Hc. eauto using ch_step_ok. Qed.
Lemma marked_check c : ch_ok c -> ch_marked c = true -> challenge_check sid (ch_svc c) = Ok None.
Proof.
  intros [(t & Ht & _ & Hm) _] Hmark. specialize (Hm Hmark). unfold challenge_check, RunnerSessionContext. rewrite Ht.
  cbn [fmap option_fmap option_map]. unfold ctx_Has. unfold ctx_Get in Hm. by rewrite bool_decide_true by (rewrite Hm; eauto).
Qed.
Lemma marked_starts c c' : rtc ch_step c c' -> ch_ok c -> ch_marked c = true -> ch_started c' = ch_started c /\ ch_marked c' = true.
Proof.
  induction 1 as [c|c c1 c' Hstep Hrest IH]; [done|]. intros Hok Hm.
  assert (H1 : ch_started c1 = ch_started c /\ ch_marked c1 = true).
  { destruct Hstep; cbn in *; try done. rewrite marked_check in *; by auto. }
  destruct H1 as [<- Hm1]. apply IH; [by eapply ch_step_ok|done].
Qed.

(** One hook at a time. *)
Definition alone_step a b : Prop := ch_step a b /\ length (ch_running b) <= 1.
Lemma alone_starts c c' : rtc alone_step c c' -> ch_ok c ->
  (ch_started c = [] /\ ch_running c = [] \/ (exists todo left, ch_started c = [todo] /\ ch_running c = [left]) \/
   ch_marked c = true /\ length (ch_started c) <= 1) -> length (ch_started c') <= 1.
Proof.
  induction 1 as [c|c c1 c' [Hstep Hal] Hrest IH].
  - intros _ [[-> _]|[(todo & left & -> & _)|[_ H1]]]; cbn; lia.
  - intros Hok Hcase. apply IH; [by eapply ch_step_ok|].
    destruct Hcase as [[Hs Hr]|[(todo & left & Hs & Hr)|[Hm Hl]]]; cycle 2.
    { right. right. destruct (marked_starts c c1) as [-> ->]; [by apply rtc_once|done..]. }
    all: destruct Hstep as [c todo' Hc|c before p ps payload after now Hr'|c before payload after Hr'|c op|c t0 t' _ _ _|c svc' _ _];
      cbn [ch_svc ch_running ch_handed ch_started ch_marked ch_set_svc] in *; rewrite ?Hs, ?Hr in *.
    all: try (by left); try (by right; left; eauto).
    + by destruct before.
    + by destruct before.
    + rewrite length_app in Hal. cbn in Hal. lia.
    + right. left. destruct before as [|? before]; [|by destruct before]. injection Hr' as _ <-. by eexists _, _.
    + right. right. split; [done|]. cbn. lia.
Qed.

(** A hook that nothing interrupts is one of these runs. *)
Lemma sends_run ps payload now c : ch_running c = [(ps, payload)] ->
  exists c', rtc alone_step c c' /\ ch_running c' = [([], payload)] /\
    for_each ps (challenge_send json_Marshal format_time sid payload now) (ch_svc c) = (Ok tt, ch_svc c').
Proof.
  revert c. induction ps as [|p ps IH]; intros c Hr; [by exists c|].
  destruct (IH {| ch_svc := (challenge_send json_Marshal format_time sid payload now p (ch_svc c)).2;
    ch_running := [(ps, payload)]; ch_started := ch_started c; ch_handed := ch_handed c ++ [(p, payload)]; ch_marked := ch_marked c |})
    as (c' & Hrun & Hr' & Hsends); [done|]. exists c'. split_and!; [|done|exact Hsends].
  eapply rtc_l; [|exact Hrun]. split; [by apply (ch_send c [])|done].
Qed.
Lemma hook_run now c : ch_running c = [] -> exists c', rtc alone_step c c' /\ ch_running c' = [] /\
  ch_svc c' = (challengeUnicastIfNeeded json_Marshal format_time sid now (ch_svc c)).2.
Proof.
  intros Hr. unfold challengeUnicastIfNeeded. rewrite (bind_Ok get _ _ _ _ eq_refl). unfold lift_outcome, bind at 1.
  destruct (challenge_check sid (ch_svc c)) as [[[ps payload]|]|er|w] eqn:Hc; [|by exists c..].
  destruct (sends_run ps payload now {| ch_svc := ch_svc c; ch_running := ch_running c ++ [(ps, payload)];
    ch_started := ch_started c ++ [(ps, payload)]; ch_handed := ch_handed c; ch_marked := ch_marked c |}) as (c1 & Hrun & Hr1 & Hsends);
    [by rewrite Hr|].
  eexists. split; [|split; cycle 1].
  - eapply rtc_l; [split; [by apply ch_check|by rewrite Hr]|]. eapply rtc_r; [exact Hrun|]. split; [by apply (ch_mark c1 [] payload [])|cbn; lia].
  - cbn [ch_svc]. by rewrite (bind_Ok _ _ _ _ _ Hsends).
  - done.
Qed.

(** What an activation must find to send, and what it sends. *)
Lemma challenge_check_iff (svc : Service S) ps payload : challenge_check sid svc = Ok (Some (ps, payload)) <->
  exists t checks, sessions (svc_state svc) !! sid = Some t /\ ctx_Get challenges_sent (tr_ctx t) = None /\
    TryGet asMapBytes CtxBoundCheckCiphers (tr_ctx t) = Some checks /\ checks <> ∅ /\
    ps = default [] (TryGet asStrings Defaults.CtxParticipants (tr_ctx t)) /\
    Marshal_challenge (hex_encode <$> checks) (hex_encode <$> default ∅ (TryGet asMapBytes CtxBoundCheckCommitments (tr_ctx t))) = Ok payload.
Proof.
  unfold challenge_check, RunnerSessionContext.
  destruct (sessions (svc_state svc) !! sid) as [t|]; [|by split; [|intros (? & ? & ? & _)]]. cbn [fmap option_fmap option_map].
  assert (Hhas : ctx_Has challenges_sent (tr_ctx t) = negb (bool_decide (ctx_Get challenges_sent (tr_ctx t) = None))).
  { unfold ctx_Has, ctx_Get. by destruct (values (tr_ctx t) !! challenges_sent). }
  rewrite Hhas. case_bool_decide as Hn; cbn [negb]; cycle 1.
  { split; [done|]. by intros (? & ? & [= <-] & ? & _). }
  destruct (TryGet asMapBytes CtxBoundCheckCiphers (tr_ctx t)) as [checks|] eqn:Hc; cbn [default id]; cycle 1.
  { split; [done|]. intros (? & ? & [= <-] & _ & Hc' & _). congruence. }
  destruct (Nat.eqb_spec (size checks) 0) as [Hz|Hz].
  { split; [done|]. intros (? & ? & [= <-] & _ & Hc' & Hne & _). destruct Hne. apply map_size_empty_inv. congruence. }
  destruct (Marshal_challenge _ _) as [body|er|w] eqn:Hm; split; try done.
  - intros [= <- <-]. exists t, checks. split_and!; try done. by intros ->.
  - intros (? & ? & [= <-] & _ & Hc' & _ & -> & Hm'). rewrite Hc in Hc'. injection Hc' as <-. congruence.
  - intros (? & ? & [= <-] & _ & Hc' & _ & _ & Hm'). rewrite Hc in Hc'. injection Hc' as <-. congruence.
  - intros (? & ? & [= <-] & _ & Hc' & _ & _ & Hm'). rewrite Hc in Hc'. injection Hc' as <-. congruence.
Qed.
End Interleaving.

End Challenge.

(** ** Witnesses *)

Module TriggerWitnesses.
Import InMemory AppToys.
Local Open Scope string_scope.

Definition hub_of (ps : list string) : Hub :=
  (run_hub (fun _ => None) (fun b => b) (imap (fun i p => HConnect p "" "" i 0) ps) (NewHub Hub.Witnesses.dev)).2.1.
Definition service_of {S} `{Store S} (r : SessionRunner S) (st : RunnerState S) (ps : list string) : Service S := {|
  svc_cfg := {| Addr := ":8000"; ServiceName := "demo"; cfgSecret := []; cfgAllowDevBypass := true; cfgRunner := Some r; InviteType := "invite";
    cfgEventRing := None; cfgAllowedOrigins := []; MaxWSMessageSize := 0; MaxArtifactSize := 0; hasPostDispatchHook := true |};
  svc_runner := r; svc_state := st; svc_hub := hub_of ps; svc_artifacts := NewArtifactStore; svc_ring := None; startedCount := 0; posted := [] |}.
Definition wire (msg : WSMessage) : option bytes := Some (Payload msg).
Definition clock (now : Z) : string := "".
(** The frames waiting for a client. *)
Definition waiting (p : string) (h : Hub) : list bytes :=
  match clients h !! p ≫= fun id => objects h !! id with Some c => Send c | None => [] end.

(** *** An auction *)

Notation toy_runner := (pipeline_runner (auction_phases (S := InMemoryStore) CGo.Scripted.toy "v1.5.1" no_hex map_to_list (Some sharpening))).
Notation toy_keygen := (Auction.PhaseKeygen (S := InMemoryStore) CGo.Scripted.toy "v1.5.1" true).
Definition empty_state : RunnerState (InMemoryStore * Helper.Helper bytes CGo.Scripted.Script) := {|
  sessions := ∅; rs_env := {| env_store := (NewInMemoryStore, HelperSpec.up (CGo.Scripted.start [])); env_clock := Z.of_nat; env_ticks := 0 |};
  fired := []; hookPanicLog := [] |}.
Definition auction_request : list (string * Any) := [(CtxAuctionCollectivePublicKey, AString "0a"); (CtxAuctionEvalKeys, AString "0b0c")].

Lemma auction_started_witness : exists t,
  sessions (svc_state (auction_Start wire clock no_hex 10 2048 "s" ["alice"; "bob"] auction_request 0 (service_of toy_runner empty_state [])).2)
    = <["s" := t]> ∅ /\ tr_state t = StateAuctionLocked /\ pre_shared CtxAuctionCollectivePublicKey CtxAuctionEvalKeys (tr_ctx t) = true.
Proof.
  pose proof (auction_started CGo.Scripted.toy "v1.5.1" no_hex map_to_list wire clock (Some sharpening) 10 2048 "s" ["alice"; "bob"] auction_request 0
    (service_of toy_runner empty_state []) eq_refl) as Hout. cbv zeta in Hout.
  set (d := decodeHexAttrs _ _ _) in Hout.
  assert (Hd : match d with Ok m => pre_shared CtxAuctionCollectivePublicKey CtxAuctionEvalKeys (seeded "s" m) | _ => false end = true)
    by (vm_compute; reflexivity).
  clearbody d. destruct d as [m|er|w]; [|discriminate Hd|discriminate Hd]. destruct Hout as (_ & _ & _ & Hout).
  set (b := bool_decide _ || _ || _) in Hout. assert (Hb : b = false) by (vm_compute; reflexivity). rewrite Hb in Hout. clear Hb b.
  destruct Hout as [_ Hs]. eexists. split; [exact Hs|]. split; [reflexivity|exact Hd].
Defined.

(** *** The challenge *)

#[export] Instance toy_wire : WireCodec := {
  Unmarshal_onions raw := Ok [to_string raw]; Marshal_onions onions := Ok (of_string (String.concat "," onions));
  Marshal_challenge checks commitments := Ok (of_string (String.concat "," (map_to_list checks).*2))
}.
Notation toy_phases := (admission_phases (S := InMemoryStore) no_hex AdmissionWitnesses.toy_as_handle AdmissionWitnesses.toy_as_fuse
  AdmissionWitnesses.toy_partials map_to_list elements).
Definition checked : SessionContext := ctx_Set CtxBoundCheckCiphers (AMapBytes {["ann" := [Byte.x09]]}) AdmissionWitnesses.opened.
Definition checking_service : Service InMemoryStore :=
  service_of (pipeline_runner toy_phases) (AdmissionWitnesses.admission_at (bound_check_phase AdmissionWitnesses.toy_as_handle
    AdmissionWitnesses.toy_as_fuse AdmissionWitnesses.toy_partials map_to_list elements admission_check) checked) ["ann"; "bea"].

(** The hook of the first connection starts and is done; the hook of the second
    finds the flag.  Each participant has its frame. *)
Notation hook := (challengeUnicastIfNeeded wire clock "s" 0).
Notation step := (ch_step no_hex AdmissionWitnesses.toy_as_handle AdmissionWitnesses.toy_as_fuse AdmissionWitnesses.toy_partials
  map_to_list elements wire clock "s").
Lemma checking_tracker : exists t, sessions (svc_state checking_service) !! "s" = Some t /\ tracker_ok (pipeline_runner toy_phases) t.
Proof. eexists. split; [reflexivity|]. split; [|reflexivity]. apply inlines_elem. split; [reflexivity|]. do 3 right. left. Qed.

(** Two hooks that overlap both send: each participant has two frames. *)
Definition todo_of (o : Outcome (option (list string * bytes))) : list string * bytes :=
  match o with Ok (Some todo) => todo | _ => ([], []) end.
Example overlapping_hooks_send_twice : exists c, rtc step (no_hooks checking_service) c /\ length (ch_started c) = 2%nat /\
  waiting "ann" (svc_hub (ch_svc c)) = [of_string "09"; of_string "09"] /\ waiting "bea" (svc_hub (ch_svc c)) = [of_string "09"; of_string "09"].
Proof.
  assert (Hc : challenge_check "s" checking_service = Ok (Some (["ann"; "bea"], of_string "09"))) by (vm_compute; reflexivity).
  eexists. split.
  { eapply rtc_l; [apply ch_check; exact Hc|].
    eapply rtc_l; [apply ch_check; exact Hc|].
    eapply rtc_l; [apply ch_send with (before := []) (now := 0%Z); reflexivity|].
    eapply rtc_l; [apply ch_send with (before := []) (now := 0%Z); reflexivity|].
    eapply rtc_l; [eapply ch_send with (before := [_]) (now := 0%Z); reflexivity|].
    eapply rtc_l; [eapply ch_send with (before := [_]) (now := 0%Z); reflexivity|].
    apply rtc_refl. }
  split; [reflexivity|]. split; vm_compute; reflexivity.
Qed.
(** The phase writes the ciphertexts before the commitments.  A hook in between
    sends the challenge without a commitment, and the flag keeps every later hook
    from sending them. *)
Example challenge_before_commitments :
  todo_of (challenge_check "s" checking_service) = (["ann"; "bea"], of_string "09") /\
  TryGet asMapBytes CtxBoundCheckCommitments checked = None /\
  let after := (hook checking_service).2 in
  let published := set_state after (set_sessions (svc_state after) ((fun t => with_ctx t
    (ctx_Set CtxBoundCheckCommitments (AMapBytes {["ann" := [Byte.x07]]}) (tr_ctx t))) <$> sessions (svc_state after))) in
  challenge_check "s" published = Ok None.
Proof. split; [|split]; vm_compute; reflexivity. Qed.

(** *** The relay *)

(** The runner refuses a peel in the voting phase; the hook relays it all the
    same, to the next participant. *)
Definition peel : WSMessage := {| Version := "1"; Type_ := MsgPeelForward; msgSessionID := "s"; Seq := 1; Payload := [Byte.x07];
  Timestamp := ""; msgLineage := None |}.
Definition voting_session : SessionContext := ctx_Set anon_CtxParticipants (AStrings ["ann"; "bea"]) (NewSessionContext "s").
Notation toy_voting := (pipeline_runner (S := InMemoryStore) (voting_phases VotingWitnesses.toy_Unmarshal VotingWitnesses.toy_Marshal
  VotingWitnesses.toy_transcript map_to_list map_to_list)).
Example refused_peel_is_relayed :
  let svc := service_of toy_voting (AdmissionWitnesses.admission_at (PhaseSubmitVote VotingWitnesses.toy_Unmarshal map_to_list) voting_session) ["ann"; "bea"] in
  let result := voting_dispatch wire clock (fun _ => ErrorsNew "illegal base64 data") "ann" peel 0 svc in
  bool_decide (is_Some ((posted result.2 !! 0%nat) ≫= snd)) = true /\ waiting "bea" (svc_hub result.2) = [[Byte.x07]].
Proof. vm_compute. by split. Qed.
End TriggerWitnesses.
