(* ===== verification/Startup.v ===== *)
(** * Starting the services of the examples (examples/*/cmd/session-service/main.go)

    The environment a service is configured from, the numbers in it, the runner
    with or without the helper process, the service and its trigger: what each
    [main] has built when it calls [Run].  Then what holds of every run of such a
    service. *)
From Stdlib Require Import ZArith NArith Lia String Ascii Strings.Byte.
From stdpp Require Import base gmap list strings pretty.
From S2P Require Import Prelude Bytes Encoding.
From S2P Require Import GoFloat GoFmt.
From S2P Require Import CGo Bridge BridgeEval BridgeFuse Helper HelperClient HelperSpec.
From S2P Require Import Sign.
From S2P Require Import Lineage.
From S2P Require Import Context.
From S2P Require Import Pipeline.
From S2P Require Import Runner.
From S2P Require Import RunnerSpec.
From S2P Require Import Defaults.
From S2P Require Import BoundCheck.
From S2P Require Import Anon.
From S2P Require Import Hub.
From S2P Require Import Stores.
From S2P Require Import Service.
From S2P Require Import Serve.
From S2P Require Import Apps.
From S2P Require Import Voting.
From S2P Require Import Auction.
From S2P Require Import RideShare.
From S2P Require Import Cohort.
From S2P Require Import Admission.
From S2P Require Import Triggers.

(** ** The environment *)

Definition Environ := gmap string string.
(** [os.Getenv]: empty when unset. *)
Definition Getenv (env : Environ) (key : string) : string := default EmptyString (env !! key).
Definition getEnv (env : Environ) (key def : string) : string :=
  let v := Getenv env key in if String.eqb v EmptyString then def else v.

(** *** [strconv.Atoi] *)

Inductive NumError := ErrSyntax | ErrRange.
Definition digit_of (c : ascii) : option Z :=
  let d := (Z.of_N (N_of_ascii c) - 48)%Z in if (0 <=? d)%Z && (d <=? 9)%Z then Some d else None.
Definition max_uint64 : Z := 2 ^ 64 - 1.
(** [ParseUint] in base ten, from the value [n] of the digits before. *)
Fixpoint parse_digits (n : Z) (s : string) : Z * option NumError :=
  match s with
  | EmptyString => (n, None)
  | String c s' =>
      match digit_of c with
      | None => (0%Z, Some ErrSyntax)
      | Some d =>
          if (max_uint64 / 10 + 1 <=? n)%Z || (max_uint64 <? 10 * n + d)%Z then (max_uint64, Some ErrRange)
          else parse_digits (10 * n + d) s'
      end
  end.
Definition ParseUint (s : string) : Z * option NumError :=
  if String.eqb s EmptyString then (0%Z, Some ErrSyntax) else parse_digits 0 s.
(** The value comes with the error: zero for a syntax error, the nearest integer
    for one of range. *)
Definition Atoi (s : string) : Z * option NumError :=
  match s with
  | EmptyString => (0%Z, Some ErrSyntax)
  | String c rest =>
      let neg := Ascii.eqb c "-" in
      let '(un, e) := ParseUint (if neg || Ascii.eqb c "+" then rest else s) in
      match e with
      | Some ErrSyntax => (0%Z, Some ErrSyntax)
      | _ =>
          if negb neg && (2 ^ 63 <=? un)%Z then ((2 ^ 63 - 1)%Z, Some ErrRange)
          else if neg && (2 ^ 63 <? un)%Z then ((- 2 ^ 63)%Z, Some ErrRange)
          else (if neg then (- un)%Z else un, None)
      end
  end.
(** [n, _ := strconv.Atoi(getEnv(key, def))]. *)
Definition env_int (env : Environ) (key def : string) : Z := (Atoi (getEnv env key def)).1.

(** ** What a [main] builds *)

(** A service with its trigger and the handler of its frames. *)
Record Process (S : Type) := {
  p_service : Service S;
  p_trigger : string -> list string -> list (string * Any) -> Z -> M (Service S) unit;
  p_onMsg : string -> WSMessage -> Z -> M (Service S) unit
}.
Arguments p_service {S} _.
Arguments p_trigger {S} _.
Arguments p_onMsg {S} _.

(** [log.Fatalf] with the text and the error. *)
Definition fatal {A} (text : string) (o : Outcome A) : Outcome A :=
  match o with Err e => Err (Errorf [T text; W e]) | _ => o end.
Definition and_then {A B} (o : Outcome A) (k : A -> Outcome B) : Outcome B :=
  match o with Ok a => k a | Err e => Err e | Panic w => Panic w end.

Section Launch.
Context {S : Type} `{Store S}.
Local Open Scope string_scope.

(** The secret of the tokens; without one, the development bypass. *)
Definition ws_secret (env : Environ) : bytes := of_string (Getenv env "ARES_WS_SECRET").
Definition service_config (env : Environ) (name invite : string) (runner : SessionRunner S) (hook : bool) : Config S := {|
  Addr := ":" +:+ getEnv env "SESSION_PORT" "8000"; ServiceName := name; cfgSecret := ws_secret env;
  cfgAllowDevBypass := is_empty (ws_secret env); cfgRunner := Some runner; InviteType := invite; cfgEventRing := None;
  cfgAllowedOrigins := []; MaxWSMessageSize := 0; MaxArtifactSize := 0; hasPostDispatchHook := hook |}.
(** A runner that has just been composed. *)
Definition new_state (clock : nat -> Z) (store0 : S) : RunnerState S := {|
  sessions := ∅; rs_env := {| env_store := store0; env_clock := clock; env_ticks := 0 |}; fired := []; hookPanicLog := [] |}.
(** The end of every [main], up to [Run]. *)
Definition launch (env : Environ) (text name invite : string) (runner : SessionRunner S) (st : RunnerState S) (hook : bool)
    (trigger : string -> list string -> list (string * Any) -> Z -> M (Service S) unit)
    (onMsg : string -> WSMessage -> Z -> M (Service S) unit) : Outcome (Process S) :=
  and_then (fatal text (NewService (Getenv env "ARES_ENV") (service_config env name invite runner hook) st)) (fun svc =>
  Ok {| p_service := svc; p_trigger := trigger; p_onMsg := onMsg |}).
End Launch.

(** ** Numbers in the environment *)

Lemma parse_digits_pretty x s : (Z.of_N x <= max_uint64)%Z -> parse_digits 0 (pretty_N_go x s) = parse_digits (Z.of_N x) s.
Proof.
  revert s. induction x as [x IH] using (well_founded_induction N.lt_wf_0). intros s Hx.
  assert (x = 0 \/ 0 < x)%N as [->|Hpos] by lia; [by rewrite pretty_N_go_0|].
  assert (Hdiv : (x `div` 10 < x)%N) by (apply N.div_lt; lia).
  rewrite pretty_N_go_step by done. rewrite IH by lia.
  assert (Hd : digit_of (pretty_N_char (x `mod` 10)) = Some (Z.of_N (x `mod` 10))).
  { assert (Hm : (x `mod` 10 < 10)%N) by (apply N.mod_lt; lia). revert Hm. generalize (x `mod` 10)%N. intros r Hm.
    assert (r = 0 \/ r = 1 \/ r = 2 \/ r = 3 \/ r = 4 \/ r = 5 \/ r = 6 \/ r = 7 \/ r = 8 \/ r = 9)%N as Hc by lia.
    destruct Hc as [->|[->|[->|[->|[->|[->|[->|[->|[->| ->]]]]]]]]]; reflexivity. }
  cbn [parse_digits]. rewrite Hd. assert (Hsum : (10 * Z.of_N (x `div` 10) + Z.of_N (x `mod` 10) = Z.of_N x)%Z).
  { pose proof (N.div_mod x 10 ltac:(lia)). lia. }
  rewrite Hsum. destruct (Z.leb_spec (max_uint64 / 10 + 1) (Z.of_N (x `div` 10))) as [Hc|_].
  - exfalso. assert (Z.of_N (x `div` 10) <= max_uint64 / 10)%Z; [|lia]. apply Z.div_le_lower_bound; [lia|].
    pose proof (N2Z.is_nonneg (x `mod` 10)). apply (Z.le_trans _ (Z.of_N x)); [rewrite <- Hsum|done].
    by rewrite <- (Z.add_0_r (10 * _)) at 1; apply Z.add_le_mono_l.
  - by destruct (Z.ltb_spec max_uint64 (Z.of_N x)); [lia|].
Qed.
Lemma ParseUint_pretty x : (Z.of_N x <= max_uint64)%Z -> ParseUint (pretty x) = (Z.of_N x, None).
Proof.
  intros Hx. unfold ParseUint. unfold pretty, pretty_N. destruct (decide (x = 0%N)) as [->|Hne]; [reflexivity|].
  destruct (String.eqb_spec (pretty_N_go x "") EmptyString) as [He|_]; [|by rewrite parse_digits_pretty].
  pose proof (parse_digits_pretty x "" Hx) as Hp. rewrite He in Hp. injection Hp as Hp. lia.
Qed.
(** What [fmt.Sprint] writes for an integer, [Atoi] reads. *)
Lemma Atoi_fmt_int n : (- 2 ^ 63 <= n < 2 ^ 63)%Z -> Atoi (fmt_int n) = (n, None).
Proof.
  intros Hn. unfold fmt_int. assert (Hpos : forall x, (0 <= Z.of_N x < 2 ^ 63)%Z -> Atoi (pretty x) = (Z.of_N x, None)).
  { intros x Hx. assert (Hmax : (Z.of_N x <= max_uint64)%Z) by (unfold max_uint64; lia). pose proof (ParseUint_pretty x Hmax) as Hp.
    destruct (pretty x) as [|c rest] eqn:Ex; [done|]. unfold Atoi.
    assert (Hsign : Ascii.eqb c "-" = false /\ Ascii.eqb c "+" = false).
    { unfold ParseUint in Hp. cbn [String.eqb parse_digits] in Hp. split; [destruct (Ascii.eqb_spec c "-") as [->|]|destruct (Ascii.eqb_spec c "+") as [->|]]; done. }
    destruct Hsign as [-> ->]. cbn [orb]. rewrite Hp. cbn [negb andb]. by destruct (Z.leb_spec (2 ^ 63) (Z.of_N x)); [lia|]. }
  destruct n as [|x|x]; cbn [pretty pretty_Z].
  - reflexivity.
  - apply (Hpos (Npos x)). lia.
  - change (Atoi (String "-" (pretty (Npos x))) = (Z.neg x, None)). unfold Atoi.
    change (Ascii.eqb "-" "-") with true. cbn [orb]. rewrite ParseUint_pretty by (unfold max_uint64; simpl; lia). cbn [negb andb Z.of_N].
    by destruct (Z.ltb_spec (2 ^ 63) (Z.pos x)); [lia|].
Qed.
Lemma env_int_set env key def n : (- 2 ^ 63 <= n < 2 ^ 63)%Z -> env !! key = Some (fmt_int n) -> env_int env key def = n.
Proof.
  intros Hn Hk. pose proof (Atoi_fmt_int n Hn) as Ha. unfold env_int. enough (getEnv env key def = fmt_int n) as -> by by rewrite Ha.
  unfold getEnv, Getenv. rewrite Hk. cbv zeta. change (default EmptyString (Some (fmt_int n))) with (fmt_int n).
  destruct (String.eqb_spec (fmt_int n) EmptyString) as [He|_]; [by rewrite He in Ha|done].
Qed.

(** ** What the applications leave alone *)

Section Careful.
Context {S : Type} `{Store S} (json_Marshal : WSMessage -> option bytes) (format_time : Z -> string) (hex_error base64_error : string -> GoError).
Context `{F : FloatConversion} `{W : WireCodec}.
Notation SM := (M (Service S)).

(** A call on behalf of [from] that does not touch the artifacts. *)
Definition careful (from : option string) {A} (m : SM A) : Prop := blind m /\ speaks_for from m.

Lemma careful_ret from {A} (x : A) : careful from (ret x).
Proof. split; [apply blind_ret|intros svc0; apply keeps_ret]. Qed.
Lemma careful_throw from {A} e : careful from (throw (A := A) e).
Proof. split; [apply blind_throw|intros svc0; apply keeps_throw]. Qed.
Lemma careful_panic from {A} w : careful from (panic (A := A) w).
Proof. split; [apply blind_panic|intros svc0; apply keeps_panic]. Qed.
Lemma careful_lift from {A} (o : Outcome A) : careful from (lift_outcome o).
Proof. split; [done|by intros svc0 svc Hs]. Qed.
Lemma careful_bind from {A B} (m : SM A) (k : A -> SM B) : careful from m -> (forall x, careful from (k x)) -> careful from (bind m k).
Proof. intros [Hb Hs] Hk. split; [apply blind_bind; [done|apply Hk]|apply speaks_for_bind; [done|apply Hk]]. Qed.
Lemma careful_get from {B} (k : Service S -> SM B) :
  (forall svc a, k (set_artifacts svc a) = k svc) -> (forall svc, careful from (k svc)) -> careful from (bind get k).
Proof.
  intros Hk Hc. split; [apply blind_get; [done|apply Hc]|]. apply speaks_for_bind; [intros svc0; apply keeps_get|apply Hc].
Qed.
Lemma careful_wrap from {A} f (m : SM A) : careful from m -> careful from (wrap_err f m).
Proof. intros [Hb Hs]. split; [by apply blind_wrap|intros svc0; by apply keeps_wrap]. Qed.
Lemma careful_runner from {A} (m : M (RunnerState S) A) : careful from (on_runner m).
Proof. split; [apply blind_on_runner|apply speaks_for_runner]. Qed.
Lemma careful_for_each from {A} (l : list A) (body : A -> SM unit) : (forall x, careful from (body x)) -> careful from (for_each l body).
Proof. intros Hb. split; [apply blind_for_each|apply speaks_for_each]; apply Hb. Qed.
Lemma careful_seed from sid attrs : careful from (modify (fun svc => set_state svc (seed_ctx sid attrs (svc_state svc)))).
Proof. split; [by apply blind_modify|by apply speaks_for_quiet]. Qed.
Lemma careful_send from p ty sid payload now : careful from (send_to json_Marshal format_time p ty sid payload now).
Proof. split; [by apply blind_modify|]. apply speaks_for_quiet. intros svc. split; [apply SendTo_quiet|done]. Qed.
Lemma careful_Start sid ps attrs now : careful None (Start json_Marshal format_time sid ps attrs now).
Proof. split; [apply blind_Start|apply Start_speaks]. Qed.
Lemma careful_dispatch from msg now : careful (Some from) (dispatch from msg now).
Proof. split; [apply blind_dispatch|apply dispatch_speaks]. Qed.
Lemma careful_start_session sid ps canonical target now : careful None (start_session json_Marshal format_time sid ps canonical target now).
Proof. apply careful_bind; [apply careful_Start|]. intros _. apply careful_get; [done|]. intros svc. apply careful_runner. Qed.

(** Takes a call apart by the shape of its code. *)
Ltac careful_step :=
  lazymatch goal with
  | |- forall _, _ => intro
  | |- careful _ (ret _) => apply careful_ret
  | |- careful _ (throw _) => apply careful_throw
  | |- careful _ (panic _) => apply careful_panic
  | |- careful _ (lift_outcome _) => apply careful_lift
  | |- careful _ (on_runner _) => apply careful_runner
  | |- careful _ (modify _) => apply careful_seed
  | |- careful _ (send_to _ _ _ _ _ _ _) => apply careful_send
  | |- careful _ (Start _ _ _ _ _ _) => apply careful_Start
  | |- careful _ (dispatch _ _ _) => apply careful_dispatch
  | |- careful _ (start_session _ _ _ _ _ _ _) => apply careful_start_session
  | |- careful _ (bind get _) => apply careful_get; [reflexivity|]
  | |- careful _ (bind _ _) => apply careful_bind
  | |- careful _ (wrap_err _ _) => apply careful_wrap
  | |- careful _ (for_each _ _) => apply careful_for_each
  | |- careful _ (match ?x with _ => _ end) => destruct x
  | |- careful _ (let x := _ in _) => cbv zeta
  end.
Ltac careful := repeat careful_step.

Lemma careful_auction depth ring_dim sid ps attrs now : careful None (auction_Start json_Marshal format_time hex_error depth ring_dim sid ps attrs now).
Proof. unfold auction_Start. careful. Qed.
Lemma careful_ride depth ring_dim sid ps attrs now : careful None (rideShare_Start json_Marshal format_time hex_error depth ring_dim sid ps attrs now).
Proof. unfold rideShare_Start. careful. Qed.
Lemma careful_formation depth ring_dim sid ps attrs now : careful None (formation_Start json_Marshal format_time hex_error depth ring_dim sid ps attrs now).
Proof. unfold formation_Start. careful. Qed.
Lemma careful_weekly depth ring_dim sid ps attrs now : careful None (weekly_Start json_Marshal format_time hex_error depth ring_dim sid ps attrs now).
Proof. unfold weekly_Start. careful. Qed.
Lemma careful_voting sid ps attrs now : careful None (voting_Start json_Marshal format_time sid ps attrs now).
Proof. unfold voting_Start. careful. Qed.
Lemma careful_admission build ringDim depth inDim sid ps attrs now :
  careful None (admission_Start json_Marshal format_time hex_error build ringDim depth inDim sid ps attrs now).
Proof. unfold admission_Start. careful. Qed.
Lemma careful_voting_dispatch from msg now : careful (Some from) (voting_dispatch json_Marshal format_time base64_error from msg now).
Proof. unfold voting_dispatch, dispatch_then, peelRelayIfNeeded. careful. Qed.
Lemma careful_admission_dispatch from msg now : careful (Some from) (admission_dispatch json_Marshal format_time from msg now).
Proof. unfold admission_dispatch, dispatch_then, challengeUnicastIfNeeded, challenge_send, challenge_mark. careful. Qed.
End Careful.

(** ** The services *)

Section Mains.
(** The lineage store, the helper process and its codec, the codecs of the
    applications. *)
Context {S0 : Type} `{S0s : Store S0} {V LS : Type} (L : CLib V LS) (OpenFHEVersion : string) {Wire : Type} `{C : HelperCodec Wire}.
Context `{J : AppCodec} `{F : FloatConversion} `{W : WireCodec} (hex_error base64_error : string -> GoError).
Context (range : gmap string bytes -> list (string * bytes)) (range_ballots : gmap string Ballot -> list (string * Ballot))
  (range_set : gset string -> list string).
Context (json_Marshal : WSMessage -> option bytes) (format_time : Z -> string).
Context (vote_Unmarshal : bytes -> Outcome (Z * float64)) (tally_Marshal : Tally -> Outcome bytes) (json_transcript : bytes -> string -> bytes)
  (slot_Unmarshal : bytes -> Outcome SlotEntry) (slots_Marshal : list SlotEntry -> Outcome bytes).
Context (as_handle : TypeAssert ContextHandle) (as_fuse : TypeAssert Fuse) (partials_Unmarshal : bytes -> Outcome (gmap string bytes)).
Context (BuildSessionCrypto : Z -> Z -> Z -> bytes -> bytes -> bytes -> Outcome (option (Any * Any))).
(** The system: its clock, what starting a program gives, the keys of
    ed25519. *)
Context (clock : nat -> Z) (exec_start : string -> option GoError) (store0 : S0) (bridge0 : CState V LS).
Context (ed_sign : bytes -> bytes -> bytes) (ed_verify : bytes -> bytes -> bytes -> bool) (generated : GoError + bytes * bytes).
Notation AS := (S0 * Helper V LS)%type.
Local Open Scope string_scope.

(** *** The helper *)

Definition no_helper : Helper V LS := {| bridge := bridge0; alive := false; closed := false |}.
(** [helperclient.Start]. *)
Definition start_helper (path : string) : Outcome (Helper V LS) :=
  match exec_start path with
  | Some e => Err (Errorf [T "start helper: "; Prelude.W e])
  | None => Ok (HelperClient.Start L OpenFHEVersion {| bridge := bridge0; alive := true; closed := false |}).2
  end.
(** A runner with the helper, when a path is set, or without. *)
Definition build_with (helperPath : string) (stub real : Outcome (SessionRunner AS)) : Outcome (SessionRunner AS * Helper V LS) :=
  if String.eqb helperPath "" then and_then stub (fun r => Ok (r, no_helper))
  else and_then (start_helper helperPath) (fun h => and_then real (fun r => Ok (r, h))).
Definition buildAuctionRunner (helperPath : string) : Outcome (SessionRunner AS * Helper V LS) :=
  build_with helperPath (Auction.Pipeline L OpenFHEVersion hex_error range)
    (Auction.PipelineWithHelper L OpenFHEVersion hex_error range service_sharpening).
Definition buildRideShareRunner (helperPath : string) : Outcome (SessionRunner AS * Helper V LS) :=
  build_with helperPath (RideShare.Pipeline L OpenFHEVersion hex_error range)
    (RideShare.PipelineWithHelper L OpenFHEVersion hex_error range service_sharpening).

(** *** The five services *)

Definition auction_main (env : Environ) : Outcome (Process AS) :=
  let depth := env_int env "AUCTION_CRYPTO_DEPTH" "12" in
  let ringDim := env_int env "AUCTION_RING_DIM" "2048" in
  and_then (fatal "build auction runner: " (buildAuctionRunner (Getenv env "ARES_HELPER_BINARY"))) (fun '(runner, h) =>
  launch env "build service: " "auction-session-service" "auction.invitation" runner (new_state clock (store0, h)) false
    (auction_Start json_Marshal format_time hex_error depth ringDim) dispatch).

Definition rideShare_main (env : Environ) : Outcome (Process AS) :=
  let depth := env_int env "RIDESHARE_CRYPTO_DEPTH" "12" in
  let ringDim := env_int env "RIDESHARE_RING_DIM" "2048" in
  and_then (fatal "build ride-share runner: " (buildRideShareRunner (Getenv env "ARES_HELPER_BINARY"))) (fun '(runner, h) =>
  launch env "build service: " "rideshare-session-service" "ride.invitation" runner (new_state clock (store0, h)) false
    (rideShare_Start json_Marshal format_time hex_error depth ringDim) dispatch).

(** The trigger and the invitation of a mode; other modes have no runner. *)
Definition cohort_trigger (mode : string) (depth ringDim : Z) :
    (string -> list string -> list (string * Any) -> Z -> M (Service AS) unit) * string :=
  if String.eqb mode "formation" then (formation_Start json_Marshal format_time hex_error depth ringDim, "cohort.formation.invitation")
  else (weekly_Start json_Marshal format_time hex_error depth ringDim, "ranking.invitation").
Definition cohort_main (env : Environ) : Outcome (Process AS) :=
  let mode := getEnv env "COHORT_MODE" "formation" in
  let depth := env_int env "COHORT_CRYPTO_DEPTH" "10" in
  let ringDim := env_int env "COHORT_RING_DIM" "2048" in
  let helperPath := Getenv env "ARES_HELPER_BINARY" in
  let helper := negb (String.eqb helperPath "") in
  and_then (if helper then fatal "start helper: " (start_helper helperPath) else Ok no_helper) (fun h =>
  and_then (fatal ("build runner (" +:+ mode +:+ "): ") (Cohort.buildRunner L OpenFHEVersion hex_error range mode helper)) (fun runner =>
  let '(trigger, inviteType) := cohort_trigger mode depth ringDim in
  launch env "build service: " ("cohort-" +:+ mode +:+ "-service") inviteType runner (new_state clock (store0, h)) false trigger dispatch)).

Definition voting_main (env : Environ) : Outcome (Process AS) :=
  and_then (fatal "voting: signer: " (Ed25519.NewEd25519Signer generated)) (fun key =>
  let signer := Ed25519.signer ed_sign ed_verify key in
  and_then (fatal "voting: build runner: " (Voting.PipelineWithShuffle vote_Unmarshal tally_Marshal json_transcript range range_ballots
    slot_Unmarshal slots_Marshal signer {[Ed25519.Ed25519Algorithm := signer]})) (fun runner =>
  launch env "voting: build service: " "voting-session-service" "vote.invitation" runner (new_state clock (store0, no_helper)) true
    (voting_Start json_Marshal format_time) (voting_dispatch json_Marshal format_time base64_error))).

Definition admission_main (env : Environ) : Outcome (Process AS) :=
  let depth := env_int env "ADMISSION_CRYPTO_DEPTH" "8" in
  let ringDim := env_int env "ADMISSION_RING_DIM" "16384" in
  let inDim := env_int env "ADMISSION_DIM" "8" in
  and_then (fatal "build bounded-admission runner: "
    (PipelineWithCrypto hex_error as_handle as_fuse partials_Unmarshal range range_set)) (fun runner =>
  launch env "build service: " "bounded-admission-session-service" "admission.invitation" runner (new_state clock (store0, no_helper)) true
    (admission_Start json_Marshal format_time hex_error BuildSessionCrypto ringDim depth inDim)
    (admission_dispatch json_Marshal format_time)).

Inductive App := AppAuction | AppRideShare | AppCohort | AppVoting | AppAdmission.
Definition app_main (app : App) : Environ -> Outcome (Process AS) :=
  match app with
  | AppAuction => auction_main
  | AppRideShare => rideShare_main
  | AppCohort => cohort_main
  | AppVoting => voting_main
  | AppAdmission => admission_main
  end.

(** ** Which environments start a service *)

(** No secret, in production. *)
Definition production_bypass (env : Environ) : bool := is_empty (ws_secret env) && String.eqb (Getenv env "ARES_ENV") "production".
Definition helper_starts (env : Environ) : bool :=
  let path := Getenv env "ARES_HELPER_BINARY" in String.eqb path "" || match exec_start path with None => true | Some _ => false end.
Definition known_mode (env : Environ) : bool :=
  let mode := getEnv env "COHORT_MODE" "formation" in String.eqb mode "formation" || String.eqb mode "weekly".
Definition can_start (app : App) (env : Environ) : bool :=
  negb (production_bypass env) &&
  match app with
  | AppAuction | AppRideShare => helper_starts env
  | AppCohort => helper_starts env && known_mode env
  | AppVoting => match generated with inl _ => false | inr _ => true end
  | AppAdmission => true
  end.
(** The phases of its runner. *)
Definition app_phases (app : App) (env : Environ) : list (Phase AS) :=
  let helper := negb (String.eqb (Getenv env "ARES_HELPER_BINARY") "") in
  let sharpening := if helper then Some service_sharpening else None in
  match app with
  | AppAuction => auction_phases L OpenFHEVersion hex_error range sharpening
  | AppRideShare => ride_phases L OpenFHEVersion hex_error range sharpening
  | AppCohort =>
      if String.eqb (getEnv env "COHORT_MODE" "formation") "formation" then formation_phases L OpenFHEVersion helper
      else service_weekly_phases L OpenFHEVersion hex_error range sharpening
  | AppVoting => shuffle_phases vote_Unmarshal tally_Marshal json_transcript range range_ballots slot_Unmarshal slots_Marshal
  | AppAdmission => admission_phases hex_error as_handle as_fuse partials_Unmarshal range range_set
  end.

(** A service at its start: no session, no client, nothing recorded; tokens are
    checked against the secret of the environment. *)
Record ready (env : Environ) (ps : list (Phase AS)) (p : Process AS) : Prop := {
  ready_address : Addr (svc_cfg (p_service p)) = ":" +:+ getEnv env "SESSION_PORT" "8000";
  ready_auth : auth (svc_hub (p_service p)) = {| Secret := ws_secret env; AllowDevBypass := is_empty (ws_secret env) |};
  ready_clients : objects (svc_hub (p_service p)) = ∅;
  ready_sessions : sessions (svc_state (p_service p)) = ∅;
  ready_events : forall sid, events_of (p_service p) sid = [];
  ready_phases : phases (svc_runner (p_service p)) = ps;
  ready_trigger : forall sid ps attrs now, careful None (p_trigger p sid ps attrs now);
  ready_onMsg : forall from msg now, careful (Some from) (p_onMsg p from msg now)
}.

Lemma launch_outcome env text name invite runner h hook trigger onMsg :
  (forall sid ps attrs now, careful None (trigger sid ps attrs now)) -> (forall from msg now, careful (Some from) (onMsg from msg now)) ->
  match launch env text name invite runner (new_state clock (store0, h)) hook trigger onMsg with
  | Ok p => production_bypass env = false /\ ready env (phases runner) p
  | Err _ => production_bypass env = true
  | Panic _ => False
  end.
Proof.
  intros Htrigger HonMsg. unfold launch, NewService, production_bypass. cbn [Addr service_config cfgRunner cfgSecret cfgAllowDevBypass].
  destruct (String.eqb_spec (":" +:+ getEnv env "SESSION_PORT" "8000") EmptyString) as [Ha|_]; [done|].
  assert (Hb : Nat.eqb (length (ws_secret env)) 0 && negb (is_empty (ws_secret env)) = false) by by destruct (ws_secret env).
  rewrite Hb. destruct (is_empty (ws_secret env) && _); [done|]. cbn [fatal and_then]. by split.
Qed.

Lemma build_with_outcome env stub real r0 r1 :
  stub = Ok r0 -> real = Ok r1 ->
  match build_with (Getenv env "ARES_HELPER_BINARY") stub real with
  | Ok (r, h) => helper_starts env = true /\ r = if negb (String.eqb (Getenv env "ARES_HELPER_BINARY") "") then r1 else r0
  | Err _ => helper_starts env = false
  | Panic _ => False
  end.
Proof.
  intros -> ->. unfold build_with, helper_starts, start_helper. cbv zeta. destruct (String.eqb _ ""); [done|].
  by destruct (exec_start _).
Qed.

(** What follows a step that gives a runner. *)
Lemma launched env ok text name invite r h hook trigger onMsg ps :
  ok = true -> phases r = ps ->
  (forall sid ps attrs now, careful None (trigger sid ps attrs now)) -> (forall from msg now, careful (Some from) (onMsg from msg now)) ->
  match launch env text name invite r (new_state clock (store0, h)) hook trigger onMsg with
  | Ok p => negb (production_bypass env) && ok = true /\ ready env ps p
  | Err _ => negb (production_bypass env) && ok = false
  | Panic _ => False
  end.
Proof.
  intros -> <- Ht Hm. pose proof (launch_outcome env text name invite r h hook trigger onMsg Ht Hm) as Ho.
  destruct (launch _ _ _ _ _ _ _ _ _) as [p|e|w]; [|by rewrite Ho|done]. by destruct Ho as [-> ?].
Qed.

(** How a [main] ends, and what it has built: never a panic, and a service only in
    the environments above. *)
Lemma app_main_outcome app env :
  match app_main app env with
  | Ok p => can_start app env = true /\ ready env (app_phases app env) p
  | Err _ => can_start app env = false
  | Panic _ => False
  end.
Proof.
  unfold can_start, app_phases. destruct app; cbn [app_main]; cbv zeta.
  - unfold auction_main, buildAuctionRunner. cbv zeta.
    pose proof (build_with_outcome env _ _ _ _ (auction_composes L OpenFHEVersion hex_error range)
      (auction_helper_composes L OpenFHEVersion hex_error range service_sharpening)) as Hb.
    destruct (build_with _ _ _) as [[r h]|e|w]; cbn [fatal and_then]; [|by rewrite Hb, andb_false_r|done]. destruct Hb as [Hh ->].
    apply launched; [done|by destruct (negb _)|intros; apply careful_auction|intros; apply careful_dispatch].
  - unfold rideShare_main, buildRideShareRunner. cbv zeta.
    pose proof (build_with_outcome env (RideShare.Pipeline L OpenFHEVersion hex_error range)
      (RideShare.PipelineWithHelper L OpenFHEVersion hex_error range service_sharpening) _ _
      (ride_composes L OpenFHEVersion hex_error range None) (ride_composes L OpenFHEVersion hex_error range (Some service_sharpening))) as Hb.
    destruct (build_with _ _ _) as [[r h]|e|w]; cbn [fatal and_then]; [|by rewrite Hb, andb_false_r|done]. destruct Hb as [Hh ->].
    apply launched; [done|by destruct (negb _)|intros; apply careful_ride|intros; apply careful_dispatch].
  - unfold cohort_main, helper_starts, known_mode. cbv zeta. set (path := Getenv env "ARES_HELPER_BINARY"). set (mode := getEnv env "COHORT_MODE" "formation").
    assert (Hh : match (if negb (String.eqb path "") then fatal "start helper: " (start_helper path) else Ok no_helper) with
      | Ok _ => String.eqb path "" || match exec_start path with None => true | Some _ => false end = true
      | Err _ => String.eqb path "" || match exec_start path with None => true | Some _ => false end = false
      | Panic _ => False end).
    { unfold start_helper. destruct (String.eqb path ""); cbn [negb]; [done|]. by destruct (exec_start path). }
    destruct (if negb _ then _ else _) as [h|e|w]; cbn [and_then]; [|by rewrite Hh, andb_false_r|done]. rewrite Hh. cbn [andb].
    unfold Cohort.buildRunner, cohort_trigger. destruct (String.eqb mode "formation") eqn:Ef; cbn [orb].
    + unfold FormationPipelineWithHelper, FormationPipeline. destruct (negb _); rewrite (formation_composes L OpenFHEVersion); cbn [fatal and_then];
        (apply launched; [done|done|intros; apply careful_formation|intros; apply careful_dispatch]).
    + destruct (String.eqb mode "weekly") eqn:Ew; [|by rewrite andb_false_r].
      rewrite (service_weekly_composes L OpenFHEVersion hex_error range). cbn [fatal and_then].
      apply launched; [done|done|intros; apply careful_weekly|intros; apply careful_dispatch].
  - unfold voting_main, Ed25519.NewEd25519Signer. destruct generated as [e|[pub priv]]; cbn [fatal and_then]; [by rewrite andb_false_r|].
    set (signer := Ed25519.signer _ _ _).
    destruct (shuffle_composes (S := AS) vote_Unmarshal tally_Marshal json_transcript range range_ballots slot_Unmarshal slots_Marshal signer
      {[Ed25519.Ed25519Algorithm := signer]} (map_non_empty_singleton _ _)) as (r & -> & Hp). cbn [fatal and_then].
    apply launched; [done|done|intros; apply careful_voting|intros; apply careful_voting_dispatch].
  - unfold admission_main. cbv zeta. rewrite (admission_composes hex_error as_handle as_fuse partials_Unmarshal range range_set). cbn [fatal and_then].
    apply launched; [done|done|intros; apply careful_admission|intros; apply careful_admission_dispatch].
Qed.

(** C36. Exactly the environments that start a service.  A service of the examples
    comes up unless it would run without a secret in production, the helper of an
    auction, a ride share or a cohort cannot be started, the mode of a cohort is
    unknown, or no signing key can be made for a vote; and no [main] panics. *)
Theorem app_main_iff app env :
  ((exists p, app_main app env = Ok p) <->
   (Getenv env "ARES_ENV" = "production" -> ws_secret env <> []) /\
   (app = AppAuction \/ app = AppRideShare \/ app = AppCohort ->
      Getenv env "ARES_HELPER_BINARY" = "" \/ exec_start (Getenv env "ARES_HELPER_BINARY") = None) /\
   (app = AppCohort -> getEnv env "COHORT_MODE" "formation" = "formation" \/ getEnv env "COHORT_MODE" "formation" = "weekly") /\
   (app = AppVoting -> exists key, generated = inr key)) /\
  forall w, app_main app env <> Panic w.
Proof.
  pose proof (app_main_outcome app env) as Ho. split; [|intros w Hw; by rewrite Hw in Ho].
  assert (Hiff : (exists p, app_main app env = Ok p) <-> can_start app env = true).
  { destruct (app_main app env) as [p|e|w]; [|by rewrite Ho; split; [intros [? ?]|]|done]. split; [by destruct Ho|eauto]. }
  rewrite Hiff. unfold can_start, production_bypass, helper_starts, known_mode. cbv zeta. clear Ho Hiff.
  rewrite andb_true_iff, negb_true_iff, andb_false_iff, String.eqb_neq.
  assert (Hsecret : is_empty (ws_secret env) = false \/ Getenv env "ARES_ENV" <> "production" <->
    (Getenv env "ARES_ENV" = "production" -> ws_secret env <> [])).
  { destruct (ws_secret env); simpl; destruct (String.eqb_spec (Getenv env "ARES_ENV") "production"); naive_solver. }
  rewrite Hsecret. apply and_iff_compat_l.
  destruct app; rewrite ?andb_true_iff, ?orb_true_iff, ?String.eqb_eq; destruct (exec_start _); destruct generated; naive_solver.
Qed.

(** ** Every run of a service that has started *)

Context (decode_start : Outcome bytes -> Outcome sessionStartRequest) (json_any : Any -> option string).
Context (json_Unmarshal : bytes -> option WSMessage) (Upgrade : bool -> bool) (flusher : bool).
(** [svc.Run(ctx)]: the log stream is registered without a check. *)
Definition run_app (p : Process AS) (evs : list ServiceEvent) : list Output * option Ending * Service AS :=
  Run decode_start json_any json_Unmarshal Upgrade (p_trigger p) (p_onMsg p) (Some None) flusher evs (p_service p).

(** C14. Only token holders are heard.  In every run of every service of the examples,
    however its requests, frames, disconnections, writes and sweeps interleave, each
    event it has recorded, so each frame its runner was given, is of a pseudonym that
    connected to the WebSocket endpoint with the token the configured secret makes for
    it.  Without a secret the service is not in production. *)
Theorem app_frames_authentic app env p evs : app_main app env = Ok p ->
  forall sid e, e ∈ events_of (run_app p evs).2 sid ->
  exists rq client now, EvHTTP rq client now ∈ evs /\ rq_path rq = ["v2"; "ws"] /\ rq_query rq "pseudonym" = evFrom e /\
    match ws_secret env with
    | [] => Getenv env "ARES_ENV" <> "production"
    | _ => rq_query rq "auth" = GenerateToken {| Secret := ws_secret env; AllowDevBypass := false |} (evFrom e)
    end.
Proof.
  intros Hp sid e Hin. pose proof (app_main_outcome app env) as Ho. rewrite Hp in Ho. destruct Ho as [Hcan Hready].
  apply (run_authentic decode_start json_any json_Unmarshal Upgrade (p_trigger p) (p_onMsg p) (Some None) flusher
    (fun sid ps attrs now => proj2 (ready_trigger _ _ _ Hready sid ps attrs now)) (fun from msg now => proj2 (ready_onMsg _ _ _ Hready from msg now))
    evs (p_service p) (ready_clients _ _ _ Hready) (ready_events _ _ _ Hready)) in Hin as (rq & client & now & Hrq & Hpath & Hq & Hv).
  exists rq, client, now. split_and!; [done..|]. rewrite (ready_auth _ _ _ Hready) in Hv. cbn [Secret] in Hv.
  unfold can_start, production_bypass in Hcan. destruct (ws_secret env) as [|k ks]; [|exact Hv]. intros He. by rewrite He in Hcan.
Qed.

(** C37. Sweeping is not seen.  In every run of every service of the examples the timer
    that sweeps the expired artifacts changes no answer, no frame sent, not how the run
    ends nor the state it leaves, but for artifacts that have expired. *)
Theorem app_sweeps_unseen app env p t evs : app_main app env = Ok p -> clocked t evs ->
  let without := run_app p (List.filter (fun ev => negb (is_sweep ev)) evs) in
  exists a, run_app p evs = (without.1, set_artifacts without.2 a) /\
    forall key now, (clock_end t evs <= now)%Z -> artifact_Get key now a = artifact_Get key now (svc_artifacts without.2).
Proof.
  intros Hp Hc. pose proof (app_main_outcome app env) as Ho. rewrite Hp in Ho. destruct Ho as [_ Hready].
  apply sweeps_unseen; [intros; by apply (ready_trigger _ _ _ Hready)|intros; by apply (ready_onMsg _ _ _ Hready)|done].
Qed.
End Mains.

(** ** Examples *)

Module StartupWitnesses.
Import InMemory AppToys TriggerWitnesses VotingWitnesses AdmissionWitnesses.
Local Open Scope string_scope.

Definition no_crypto (ringDim depth dim : Z) (pk mult sum : bytes) : Outcome (option (Any * Any)) := Ok None.
Definition no_slot (raw : bytes) : Outcome SlotEntry := Err (ErrorsNew "json").
Definition no_slots (l : list SlotEntry) : Outcome bytes := Ok [].
Definition installed (path : string) : option GoError :=
  if String.eqb path "/usr/bin/openfhe-helper" then None else Some (ErrorsNew "no such file or directory").
Definition sign_ (key m : bytes) : bytes := m.
Definition verify_ (key m sig : bytes) : bool := bool_decide (sig = m).
Notation toy_main := (app_main (S0 := InMemoryStore) CGo.Scripted.toy "v1.5.1" no_hex (fun _ => ErrorsNew "illegal base64 data") map_to_list map_to_list
  elements wire clock toy_Unmarshal toy_Marshal toy_transcript no_slot no_slots toy_as_handle toy_as_fuse AdmissionWitnesses.toy_partials no_crypto Z.of_nat installed
  NewInMemoryStore (CGo.Scripted.start []) sign_ verify_ (inr ([], []))).

Definition process_of {S} (o : Outcome (Process S)) (d : Process S) : Process S := match o with Ok p => p | _ => d end.
Definition is_ok {A} (o : Outcome A) : bool := match o with Ok _ => true | _ => false end.
Lemma is_ok_process {S} (o : Outcome (Process S)) d : is_ok o = true -> o = Ok (process_of o d).
Proof. by destruct o. Qed.

(** Which environments start which services. *)
Example production_needs_a_secret :
  (fun app => is_ok (toy_main app {["ARES_ENV" := "production"]})) <$> [AppAuction; AppRideShare; AppCohort; AppVoting; AppAdmission]
    = [false; false; false; false; false] /\
  (fun app => is_ok (toy_main app {["ARES_ENV" := "production"; "ARES_WS_SECRET" := "k"]})) <$> [AppAuction; AppRideShare; AppCohort; AppVoting; AppAdmission]
    = [true; true; true; true; true] /\
  (fun mode => is_ok (toy_main AppCohort {["COHORT_MODE" := mode; "ARES_HELPER_BINARY" := "/usr/bin/openfhe-helper"]})) <$> ["weekly"; "daily"; ""]
    = [true; false; true] /\
  is_ok (toy_main AppAuction {["ARES_HELPER_BINARY" := "/nowhere"]}) = false.
Proof. vm_compute. by split_and!. Qed.

(** A depth that is not a number is the depth zero, and one out of range the
    largest integer; the error is dropped. *)
Example depth_not_a_number :
  let depth v := env_int {["AUCTION_CRYPTO_DEPTH" := v]} "AUCTION_CRYPTO_DEPTH" "12" in
  depth "twelve" = 0%Z /\ depth "12 " = 0%Z /\ depth "-3" = (-3)%Z /\ depth "+7" = 7%Z /\ depth "99999999999999999999x" = (2 ^ 63 - 1)%Z /\ depth "" = 12%Z.
Proof. vm_compute. by split_and!. Qed.

(** *** A run *)

Definition request (method : string) (path : list string) (query : list (string * string)) (body : bytes) : HTTPRequest := {|
  rq_method := method; rq_path := path; rq_query := fun k => default "" ((list_to_map query : gmap string string) !! k); rq_origin := ""; rq_body := Ok body |}.
Definition decode_toy (body : Outcome bytes) : Outcome sessionStartRequest :=
  Ok {| reqSessionID := "s"; reqParticipants := ["ann"; "bea"]; reqAttrs := [] |}.
Definition frame_of (data : bytes) : option WSMessage :=
  Some {| Version := "1"; Type_ := "auction.keygen.share"; msgSessionID := "s"; Seq := 0; Payload := data; Timestamp := ""; msgLineage := None |}.
Definition upgrades (ok : bool) : bool := ok.
Definition no_json (a : Any) : option string := None.

Definition prod_env : Environ := {["ARES_ENV" := "production"; "ARES_WS_SECRET" := "k"]}.
Definition token (p : string) : string := GenerateToken {| Secret := of_string "k"; AllowDevBypass := false |} p.
(** The stored artifact expires after half an hour; the forged token is refused. *)
Definition toy_events : list ServiceEvent := [
  EvHTTP (request "GET" ["v2"; "ws"] [("pseudonym", "ann"); ("auth", token "ann")] []) 1 0;
  EvHTTP (request "GET" ["v2"; "ws"] [("pseudonym", "bea"); ("auth", "forged")] []) 2 1;
  EvHTTP (request "PUT" ["v2"; "artifacts"; "k"] [] [Byte.x01]) 0 2;
  EvHTTP (request "POST" ["admin"; "sessions"] [] []) 0 3;
  EvFrame 1 [Byte.x05] 4;
  EvSweep (60 * minute);
  EvHTTP (request "GET" ["v2"; "artifacts"; "k"] [] []) 0 (61 * minute);
  EvDone None].

Definition dummy : Process AS := {| p_service := service_of (pipeline_runner []) empty_state []; p_trigger := fun _ _ _ _ => ret tt; p_onMsg := fun _ _ _ => ret tt |}.
Definition toy_process : Process AS := process_of (toy_main AppAuction prod_env) dummy.
Lemma toy_started : toy_main AppAuction prod_env = Ok toy_process.
Proof. apply is_ok_process. vm_compute. reflexivity. Qed.
Notation toy_run evs := (run_app decode_toy no_json frame_of upgrades true toy_process evs).

(** The answers: connected, refused, stored, started, expired. *)
Example run_answers :
  (fun o => match o with OAnswer (Answered r) => status r | OAnswer (Upgraded_ _) => 101 | _ => 0 end%Z) <$> (toy_run toy_events).1.1 = [101; 401; 204; 201; 404]%Z /\
  (toy_run toy_events).1.2 = Some (Returned None) /\
  size (entries (svc_artifacts (toy_run toy_events).2)) = 0%nat.
Proof. vm_compute. by split_and!. Qed.

(** The sender of the event that has been recorded has shown its token. *)
Lemma app_frames_authentic_witness : exists e, events_of (toy_run toy_events).2 "s" = [e] /\ evFrom e = "ann" /\
  exists rq client now, EvHTTP rq client now ∈ toy_events /\ rq_query rq "pseudonym" = "ann" /\ rq_query rq "auth" = token "ann".
Proof.
  assert (He : exists e, events_of (toy_run toy_events).2 "s" = [e] /\ evFrom e = "ann") by (vm_compute; eexists; by split).
  destruct He as (e & He & Hfrom). exists e. split; [exact He|]. split; [exact Hfrom|].
  destruct (app_frames_authentic CGo.Scripted.toy "v1.5.1" no_hex (fun _ => ErrorsNew "illegal base64 data") map_to_list map_to_list
    elements wire clock toy_Unmarshal toy_Marshal toy_transcript no_slot no_slots toy_as_handle toy_as_fuse AdmissionWitnesses.toy_partials no_crypto Z.of_nat
    installed NewInMemoryStore (CGo.Scripted.start []) sign_ verify_ (inr ([], [])) decode_toy no_json frame_of upgrades true AppAuction prod_env toy_process
    toy_events toy_started "s" e) as (rq & client & now & Hrq & _ & Hp & Hv).
  { rewrite He. by left. }
  exists rq, client, now. rewrite Hfrom in Hp, Hv. split; [exact Hrq|]. split; [exact Hp|]. exact Hv.
Defined.

Lemma app_sweeps_unseen_witness : exists a,
  toy_run toy_events = ((toy_run (List.filter (fun ev => negb (is_sweep ev)) toy_events)).1,
    set_artifacts (toy_run (List.filter (fun ev => negb (is_sweep ev)) toy_events)).2 a) /\
  artifact_Get "k" (61 * minute) a = None.
Proof.
  destruct (app_sweeps_unseen CGo.Scripted.toy "v1.5.1" no_hex (fun _ => ErrorsNew "illegal base64 data") map_to_list map_to_list
    elements wire clock toy_Unmarshal toy_Marshal toy_transcript no_slot no_slots toy_as_handle toy_as_fuse AdmissionWitnesses.toy_partials no_crypto Z.of_nat
    installed NewInMemoryStore (CGo.Scripted.start []) sign_ verify_ (inr ([], [])) decode_toy no_json frame_of upgrades true AppAuction prod_env toy_process
    0%Z toy_events toy_started) as (a & Hrun & Hreads).
  { repeat split; vm_compute; discriminate. }
  exists a. split; [exact Hrun|]. rewrite (Hreads "k" (61 * minute)%Z); [vm_compute; reflexivity|vm_compute; discriminate].
Defined.
End StartupWitnesses.
