(* ===== verification/Fusion.v ===== *)
(** * The ranking of encrypted inputs, and the payload examples
    (examples/encrypted_input_ranking, examples/blind_bfv_payload_fuse,
    examples/light_bfv_payload_fuse)

    A request that consists of ciphertexts only, its validation, and [Score]: the
    union of comparators of the bridge over the validated request.  Then the two
    payload examples, which fix a profile and commit artifacts under its phase. *)
From Stdlib Require Import ZArith NArith Lia String Ascii.
From stdpp Require Import base gmap list strings.
From S2P Require Import Prelude Bytes.
From S2P Require Import GoFloat GoFmt Sign Lineage.
From S2P Require Import CGo Bridge BridgeFold BridgeEval BridgeFuse BridgeUnion BridgeSafety Calib.

(** ** Requests *)

Record EvaluationMaterial := { em_EvalMultFinal : bytes; em_EvalSumFinal : bytes }.

Record Comparator := {
  c_ID : string; c_Kind : string; c_Schedule : string;
  c_Gain : float64; c_Bound : float64; c_InputScale : float64; c_Degree : Z
}.

Record CiphertextOnlyRequest := {
  InitiatorProfileCiphertext : bytes;
  r_CandidateProfileCiphertexts : list bytes;
  r_CandidateDistanceCiphertexts : list bytes;
  r_CandidatePayloadCiphertexts : list (list bytes);
  CandidateScoreOffsets : list Z;
  r_EvaluationMaterial : EvaluationMaterial;
  ProfileDimension : Z; r_PayloadSlotCount : Z;
  r_Alpha : float64; r_Beta : float64; r_Gamma : float64;
  r_Comparators : list Comparator
}.

(** ** Validation *)

(** The doubling of an [int]; [None] when it does not end. *)
Definition nextPowerOfTwo (value : Z) : option Z := double_until 63 64 1 value.

(** An [int] sum wraps. *)
Definition wrap_int (z : Z) : Z := ((z + 2 ^ 63) mod 2 ^ 64 - 2 ^ 63)%Z.
Definition expected_chunks (slots power : Z) : Z := Z.quot (wrap_int (slots + power - 1)) power.

Definition nat_text (n : nat) : string := fmt_int (Z.of_nat n).

Fixpoint check_candidates (candidate : nat) (expectedChunks : Z) (profiles distances : list bytes) (payloads : list (list bytes))
    : option GoError :=
  match profiles, distances, payloads with
  | p :: profiles', d :: distances', chunks :: payloads' =>
      if is_empty p then Some (Errorf [T "candidate profile ciphertext "; T (nat_text candidate); T " is empty"])
      else if is_empty d then Some (Errorf [T "candidate distance ciphertext "; T (nat_text candidate); T " is empty"])
      else if negb (Z.of_nat (length chunks) =? expectedChunks)%Z then
        Some (Errorf [T "candidate payload ciphertext "; T (nat_text candidate); T " has "; T (nat_text (length chunks));
                      T " chunks, want "; T (fmt_int expectedChunks)])
      else match first_empty 0 chunks with
           | Some chunk => Some (Errorf [T "candidate payload ciphertext "; T (nat_text candidate); T " chunk ";
                                         T (nat_text chunk); T " is empty"])
           | None => check_candidates (S candidate) expectedChunks profiles' distances' payloads'
           end
  | _, _, _ => None
  end.

Fixpoint check_comparators (lane : nat) (comparators : list Comparator) : option GoError :=
  match comparators with
  | [] => None
  | c :: comparators' =>
      if negb (is_set (c_ID c)) || negb (is_set (c_Kind c)) then
        Some (Errorf [T "comparator "; T (nat_text lane); T " must have an ID and kind"])
      else if fleb (c_Bound c) f0 || fleb (c_InputScale c) f0 || (c_Degree c <=? 0)%Z then
        Some (Errorf [T "comparator "; Q (c_ID c); T " must have positive bound, input scale, and degree"])
      else check_comparators (S lane) comparators'
  end.

Definition count_error (what : string) (count n : nat) : GoError :=
  Errorf [T "candidate "; T what; T " count = "; T (nat_text count); T ", want "; T (nat_text n)].

(** [None] when the doubling does not end. *)
Definition Validate (r : CiphertextOnlyRequest) : option (option GoError) :=
  let n := length (r_CandidateProfileCiphertexts r) in
  let distances := length (r_CandidateDistanceCiphertexts r) in
  let payloads := length (r_CandidatePayloadCiphertexts r) in
  let offsets := length (CandidateScoreOffsets r) in
  let refused e := Some (Some e) in
  if is_empty (InitiatorProfileCiphertext r) then refused (err "initiator profile ciphertext is required")
  else if (n =? 0)%nat then refused (err "at least one candidate profile ciphertext is required")
  else if negb (distances =? n)%nat then refused (count_error "distance ciphertext" distances n)
  else if negb (payloads =? n)%nat then refused (count_error "payload ciphertext" payloads n)
  else if negb (offsets =? 0)%nat && negb (offsets =? n)%nat then refused (count_error "score offset" offsets n)
  else if (ProfileDimension r <=? 0)%Z || (r_PayloadSlotCount r <=? 0)%Z then
    refused (err "profile dimension and payload slot count must be positive")
  else if is_empty (em_EvalMultFinal (r_EvaluationMaterial r)) || is_empty (em_EvalSumFinal (r_EvaluationMaterial r)) then
    refused (err "final evaluation material is required")
  else if is_empty (r_Comparators r) then refused (err "at least one comparator is required")
  else match nextPowerOfTwo (ProfileDimension r) with
  | None => None
  | Some power =>
      Some (match check_candidates 0 (expected_chunks (r_PayloadSlotCount r) power) (r_CandidateProfileCiphertexts r)
                    (r_CandidateDistanceCiphertexts r) (r_CandidatePayloadCiphertexts r) with
            | Some e => Some e
            | None => check_comparators 0 (r_Comparators r)
            end)
  end.

Definition scoreOffsets (r : CiphertextOnlyRequest) : list Z :=
  if is_empty (CandidateScoreOffsets r) then replicate (length (r_CandidateProfileCiphertexts r)) 0%Z
  else CandidateScoreOffsets r.

(** ** Scoring *)

Definition fuse_request (r : CiphertextOnlyRequest) : EncryptedInputFuseRequest := {|
  e_InitiatorCiphertext := InitiatorProfileCiphertext r;
  e_CandidateCiphertexts := r_CandidateProfileCiphertexts r;
  e_CandidateDistanceCiphertexts := r_CandidateDistanceCiphertexts r;
  e_CandidateBrownies := scoreOffsets r;
  e_CandidatePayloadCiphertexts := r_CandidatePayloadCiphertexts r;
  e_ProfileDim := ProfileDimension r;
  e_Alpha := r_Alpha r; e_Beta := r_Beta r; e_Gamma := r_Gamma r;
  e_Comparator := ""; e_ComparatorDegree := 0; e_ComparatorGain := f0; e_ComparatorScale := f0;
  e_ComparatorBound := f0; e_SelectorSchedule := "";
  e_EvalKeys := {| EvalMultFinal := em_EvalMultFinal (r_EvaluationMaterial r);
                   EvalSumFinal := em_EvalSumFinal (r_EvaluationMaterial r) |};
  e_PayloadSlotCount := r_PayloadSlotCount r |}.

Definition buildEncryptedInputFuseRequest (r : CiphertextOnlyRequest) : option (GoError + EncryptedInputFuseRequest) :=
  (fun verdict => match verdict with Some e => inl e | None => inr (fuse_request r) end) <$> Validate r.

Definition buildComparators (comparators : list Comparator) : list UnionComparator :=
  (fun c => {| ID := c_ID c; u_Comparator := c_Kind c; Schedule := c_Schedule c; Gain := c_Gain c; Bound := c_Bound c;
               InputScale := c_InputScale c; RangeMargin := f0; Degree := c_Degree c |}) <$> comparators.

(** No worker runs: one comparator after the other. *)
Definition serial : UnionRun := {| calls := []; arrivals := [] |}.

Section Scoring.
Context {V LS : Type} (L : CLib V LS).
Notation CS := (CState V LS).
Notation CM := (M CS).

Definition Score (params : ContractParams) (request : CiphertextOnlyRequest) : CM (list (list bytes)) :=
  match buildEncryptedInputFuseRequest request with
  | None => panic "the doubling of the profile dimension does not end"
  | Some built =>
      let! fuseRequest := of_sum built in
      ChunkedUnionScoreEncryptedInputsCKKS L params fuseRequest (buildComparators (r_Comparators request)) serial
  end.

(** ** What [Score] promises

    One call of the library per comparator, over one context, with exactly the
    ciphertexts of the request. *)
Definition lane_request (r : CiphertextOnlyRequest) (comp : UnionComparator) : FullFuseRequest :=
  unionComparatorRequest (fullFuseRequest (fuse_request r)) comp false.
Definition concatenated (cts : list bytes) : bytes * list Z := (concat cts, lens_of cts).
Definition library_lane (r : CiphertextOnlyRequest) (chunks : Z) (ctx : handle) (comp : UnionComparator) : CM (list bytes) :=
  let req := lane_request r comp in
  with_strings L req (
  let! out := c_fuse L (C_ARESChunkedFuseEncryptedInputsCKKS
                (fuse_args 0 f0 0 req [] (concatenated (r_CandidateDistanceCiphertexts r))
                   (concatenated (concat (r_CandidatePayloadCiphertexts r))))) [(ctx, KContext)]
                "chunked encrypted input fusion" in
  deferring (free_opt KBuffer out.1.1) (read_checked L "input fusion" "input" chunks out)).
Definition library_lanes (params : ContractParams) (r : CiphertextOnlyRequest) (chunks : Z) : CM (list (list bytes)) :=
  with_handle KContext (createContractContext L params) (fun ctx =>
  run_sequential (library_lane r chunks ctx) (buildComparators (r_Comparators r))).
End Scoring.

(** ** A valid request is one the bridge accepts *)

(** What validation has checked, with the chunk count in unbounded arithmetic. *)
Record well_formed (r : CiphertextOnlyRequest) (chunks : Z) : Prop := {
  wf_initiator : is_empty (InitiatorProfileCiphertext r) = false;
  wf_some : r_CandidateProfileCiphertexts r <> [];
  wf_distances : length (r_CandidateDistanceCiphertexts r) = length (r_CandidateProfileCiphertexts r);
  wf_payloads : length (r_CandidatePayloadCiphertexts r) = length (r_CandidateProfileCiphertexts r);
  wf_offsets : length (scoreOffsets r) = length (r_CandidateProfileCiphertexts r);
  wf_dimension : (0 < ProfileDimension r)%Z;
  wf_slots : (0 < r_PayloadSlotCount r)%Z;
  wf_mult : is_empty (em_EvalMultFinal (r_EvaluationMaterial r)) = false;
  wf_sum : is_empty (em_EvalSumFinal (r_EvaluationMaterial r)) = false;
  wf_comparators : r_Comparators r <> [];
  wf_chunks : exists power, next_pow2_int (ProfileDimension r) = Some power /\
                chunks = payload_chunks power (r_PayloadSlotCount r);
  wf_positive : (0 < chunks)%Z;
  wf_profile_bytes : Forall (fun c => (0 < length c)%nat) (r_CandidateProfileCiphertexts r);
  wf_distance_bytes : Forall (fun c => (0 < length c)%nat) (r_CandidateDistanceCiphertexts r);
  wf_payload_bytes : Forall (fun cs => Z.of_nat (length cs) = chunks /\ Forall (fun c => (0 < length c)%nat) cs)
                       (r_CandidatePayloadCiphertexts r)
}.

Lemma check_candidates_None i k profiles distances payloads :
  length distances = length profiles -> length payloads = length profiles ->
  check_candidates i k profiles distances payloads = None ->
  Forall (fun c => (0 < length c)%nat) profiles /\ Forall (fun c => (0 < length c)%nat) distances /\
  Forall (fun cs => Z.of_nat (length cs) = k /\ Forall (fun c => (0 < length c)%nat) cs) payloads.
Proof.
  revert i distances payloads. induction profiles as [|p ps IH]; intros i [|d ds] [|chunks pls]; try done.
  intros [= Hd] [= Hp]. simpl. destruct p as [|b p]; [done|]. destruct d as [|b' d]; [done|]. simpl.
  destruct (Z.eqb_spec (Z.of_nat (length chunks)) k) as [Hk|]; [|done]. simpl.
  destruct (first_empty 0 chunks) eqn:Ef; [done|]. apply first_empty_None_iff in Ef. intros H.
  destruct (IH _ _ _ Hd Hp H) as (?&?&?). split_and!; constructor; simpl; auto; lia.
Qed.

(** Where the sum does not wrap, the count is the bridge's; where it does, it is
    negative and no candidate has it. *)
Lemma expected_chunks_spec slots power n :
  (0 < slots < 2 ^ 63)%Z -> (0 < power <= 2 ^ 62)%Z -> Z.of_nat n = expected_chunks slots power ->
  expected_chunks slots power = payload_chunks power slots /\ (0 < expected_chunks slots power)%Z.
Proof.
  intros Hs Hp Hn. unfold expected_chunks, payload_chunks, wrap_int in *.
  destruct (Z.lt_ge_cases (slots + power - 1) (2 ^ 63)) as [Hlt|Hge].
  - rewrite Z.mod_small by lia. replace (slots + power - 1 + 2 ^ 63 - 2 ^ 63)%Z with (slots + power - 1)%Z by lia.
    rewrite Z.quot_div_nonneg by lia. split; [done|]. apply Z.div_str_pos. lia.
  - exfalso. replace ((slots + power - 1 + 2 ^ 63) mod 2 ^ 64)%Z with (slots + power - 1 - 2 ^ 63)%Z in Hn.
    2:{ apply (Z.mod_unique _ _ 1); lia. }
    set (z := (slots + power - 1 - 2 ^ 63 - 2 ^ 63)%Z) in *. assert (z <= - power)%Z by (unfold z; lia).
    replace z with (- (- z))%Z in Hn by lia. rewrite Z.quot_opp_l, Z.quot_div_nonneg in Hn by lia.
    assert (1 <= - z / power)%Z by (apply Z.div_le_lower_bound; lia). lia.
Qed.

Lemma scoreOffsets_length r :
  length (CandidateScoreOffsets r) = 0 \/ length (CandidateScoreOffsets r) = length (r_CandidateProfileCiphertexts r) ->
  length (scoreOffsets r) = length (r_CandidateProfileCiphertexts r).
Proof.
  unfold scoreOffsets. destruct (CandidateScoreOffsets r); simpl; [by rewrite length_replicate|]. intros [?|?]; [done|done].
Qed.

Lemma Validate_well_formed r :
  (r_PayloadSlotCount r < 2 ^ 63)%Z -> Validate r = Some None -> exists chunks, well_formed r chunks.
Proof.
  intros Hs. unfold Validate.
  destruct (is_empty (InitiatorProfileCiphertext r)) eqn:Ei; [done|].
  destruct (Nat.eqb_spec (length (r_CandidateProfileCiphertexts r)) 0) as [|Hn]; [done|].
  destruct (Nat.eqb_spec (length (r_CandidateDistanceCiphertexts r)) (length (r_CandidateProfileCiphertexts r))) as [Hd|]; [|done].
  destruct (Nat.eqb_spec (length (r_CandidatePayloadCiphertexts r)) (length (r_CandidateProfileCiphertexts r))) as [Hp|]; [|done].
  simpl. destruct (negb _ && negb _) eqn:Eo; [done|].
  destruct (Z.leb_spec (ProfileDimension r) 0); [done|]. destruct (Z.leb_spec (r_PayloadSlotCount r) 0); [done|]. simpl.
  destruct (is_empty (em_EvalMultFinal _)) eqn:Em; [done|]. destruct (is_empty (em_EvalSumFinal _)) eqn:Es; [done|]. simpl.
  destruct (r_Comparators r) eqn:Ec; [done|]. simpl.
  destruct (nextPowerOfTwo _) as [power|] eqn:Epow; [|done]. destruct (check_candidates _ _ _ _ _) eqn:Ek; [done|]. intros _.
  apply check_candidates_None in Ek as (Hpb & Hdb & Hcb); [|done|done].
  pose proof Epow as Hpow. apply (double_until_iff 63) in Hpow as (Hle & j & Hj & -> & Hnj & Hleast); [|lia|lia].
  assert (j <= 62)%Z as Hj62 by (apply Hleast; lia). assert (2 ^ j <= 2 ^ 62)%Z by (apply Z.pow_le_mono_r; lia).
  destruct (r_CandidatePayloadCiphertexts r) as [|cs css] eqn:Epl; [simpl in Hp; lia|].
  destruct (expected_chunks_spec (r_PayloadSlotCount r) (2 ^ j) (length cs)) as [He Hpos]; [lia|lia|by apply Forall_cons in Hcb as [[? _] _]|].
  exists (expected_chunks (r_PayloadSlotCount r) (2 ^ j)). split; rewrite ?Epl, ?Ec; try done.
  - intros E. rewrite E in Hn. done.
  - apply scoreOffsets_length. apply andb_false_iff in Eo as [Eo|Eo]; apply negb_false_iff, Nat.eqb_eq in Eo; auto.
  - by exists (2 ^ j)%Z.
Qed.

#[local] Arguments next_pow2_int : simpl never.
#[local] Arguments payload_chunks : simpl never.
#[local] Arguments flatten_payload : simpl never.

Section Lanes.
Context {V LS : Type} (L : CLib V LS).
Notation CS := (CState V LS).
Notation CM := (M CS).

(** The bridge's own checks on a valid request: only the chunk count is left. *)
Lemma valid_flattened r chunks comp :
  well_formed r chunks ->
  flattenEncryptedPayloadCiphertexts (lane_request r comp) false =
    Some (if (256 <? chunks)%Z then inl (Errorf [T "encrypted payload has "; T (fmt_int chunks); T " chunks; maximum is 256"])
          else inr (length (r_CandidateProfileCiphertexts r), chunks, concat (concat (r_CandidatePayloadCiphertexts r)),
                    lens_of (concat (r_CandidatePayloadCiphertexts r)))).
Proof.
  intros W. unfold flattenEncryptedPayloadCiphertexts. cbn. rewrite (wf_initiator _ _ W).
  assert (forall l : list bytes, l <> [] -> (length l =? 0)%nat = false) as Hne by (by intros []).
  rewrite Hne by apply W. rewrite (wf_offsets _ _ W), Nat.eqb_refl. simpl.
  assert (is_empty (r_CandidateDistanceCiphertexts r) = false) as ->.
  { pose proof (wf_distances _ _ W). pose proof (wf_some _ _ W).
    destruct (r_CandidateDistanceCiphertexts r), (r_CandidateProfileCiphertexts r); done. }
  simpl. destruct (Z.leb_spec (ProfileDimension r) 0); [pose proof (wf_dimension _ _ W); lia|].
  destruct (Z.leb_spec (r_PayloadSlotCount r) 0); [pose proof (wf_slots _ _ W); lia|]. simpl.
  rewrite (wf_mult _ _ W), (wf_sum _ _ W). simpl. destruct (wf_chunks _ _ W) as (power & -> & <-).
  destruct (256 <? chunks)%Z; [done|]. rewrite (wf_payloads _ _ W), Nat.eqb_refl. simpl.
  by rewrite (proj2 (flatten_payload_iff 0 chunks _ _ _) (conj eq_refl (conj eq_refl (wf_payload_bytes _ _ W)))).
Qed.

Lemma valid_distances r chunks comp :
  well_formed r chunks ->
  flattenEncryptedDistanceCiphertexts (lane_request r comp) (length (r_CandidateProfileCiphertexts r)) =
    inr (concatenated (r_CandidateDistanceCiphertexts r)).
Proof.
  intros W. unfold flattenEncryptedDistanceCiphertexts. cbn. rewrite (wf_distances _ _ W), Nat.eqb_refl. simpl.
  by rewrite (proj2 (first_empty_None_iff 0 _) (wf_distance_bytes _ _ W)).
Qed.

(** A list of non-empty byte strings is not all empty. *)
Lemma first_element_ret {A} (l : list A) : l <> [] -> first_element (V := V) (LS := LS) l = ret tt.
Proof. by destruct l. Qed.
Lemma concat_bytes_ne (l : list bytes) : l <> [] -> Forall (fun c => (0 < length c)%nat) l -> concat l <> [].
Proof. intros Hl Hf. destruct Hf as [|[|b c] l Hc _]; [done|simpl in Hc; lia|done]. Qed.
Lemma payload_ne r chunks : well_formed r chunks ->
  concat (r_CandidatePayloadCiphertexts r) <> [] /\ Forall (fun c => (0 < length c)%nat) (concat (r_CandidatePayloadCiphertexts r)).
Proof.
  intros W. pose proof (wf_payloads _ _ W) as Hl. pose proof (wf_some _ _ W). pose proof (wf_positive _ _ W).
  destruct (wf_payload_bytes _ _ W) as [|cs css [Hn Hc] Hf].
  { destruct (r_CandidateProfileCiphertexts r); done. }
  split; [destruct cs; [simpl in Hn; lia|done]|]. cbn [concat]. apply Forall_app. split; [done|].
  apply Forall_concat. eapply Forall_impl; [exact Hf|]. by intros ? [_ ?].
Qed.

Lemma with_handle_ext {A} k m (b1 b2 : handle -> CM A) s :
  (forall h s, b1 h s = b2 h s) -> with_handle k m b1 s = with_handle k m b2 s.
Proof.
  intros H. unfold with_handle, bind. destruct (m s) as [[h|e|w] s1]; [|done|done]. unfold deferring. by rewrite H.
Qed.

(** One comparator is one call of the library with the ciphertexts as they are. *)
Lemma valid_lane r chunks ctx comp s :
  well_formed r chunks ->
  chunkedEncryptedInputUnionComparatorWithContext L (Some ctx) (fullFuseRequest (fuse_request r)) false comp s =
    if (256 <? chunks)%Z then (Err (Errorf [T "encrypted payload has "; T (fmt_int chunks); T " chunks; maximum is 256"]), s)
    else library_lane L r chunks ctx comp s.
Proof.
  intros W. change (chunkedFuseEncryptedInputsCKKS L (Some ctx) zero_params (lane_request r comp) s = 
    if (256 <? chunks)%Z then (Err (Errorf [T "encrypted payload has "; T (fmt_int chunks); T " chunks; maximum is 256"]), s)
    else library_lane L r chunks ctx comp s).
  unfold chunkedFuseEncryptedInputsCKKS, flattened. cbn [no_context]. rewrite (valid_flattened r chunks comp W).
  destruct (256 <? chunks)%Z; [done|]. cbn [of_sum]. unfold bind at 1. cbn [ret].
  rewrite (valid_distances r chunks comp W). unfold bind at 1. cbn [of_sum ret]. unfold encrypted_fusion.
  change (CandidateCiphertexts (lane_request r comp)) with (r_CandidateProfileCiphertexts r).
  rewrite (proj2 (first_empty_None_iff 0 _) (wf_profile_bytes _ _ W)).
  destruct (payload_ne r chunks W) as [Hp Hpb]. pose proof (wf_some _ _ W) as Hs.
  assert (r_CandidateDistanceCiphertexts r <> []) as Hd.
  { pose proof (wf_distances _ _ W). destruct (r_CandidateDistanceCiphertexts r), (r_CandidateProfileCiphertexts r); done. }
  assert (forall l : list bytes, l <> [] -> lens_of l <> []) as Hlens by (by intros []).
  unfold library_lane, with_strings. do 2 (apply with_handle_ext; intros ? ?).
  rewrite !first_element_ret; [reflexivity|..]; try first [by apply concat_bytes_ne, W|by apply concat_bytes_ne|by apply Hlens].
  - change (scoreOffsets r <> []). intros E. apply Hs, length_zero_iff_nil. by rewrite <- (wf_offsets _ _ W), E.
  - pose proof (wf_initiator _ _ W) as Hi. intros E. change (InitiatorProfileCiphertext r = []) in E. by rewrite E in Hi.
Qed.

(** What comes out of a lane. *)
Definition lane_ok (chunks : Z) (lane : list bytes) : Prop :=
  Z.of_nat (length lane) = chunks /\ Forall (fun c => (0 < length c)%nat) lane.

Lemma read_checked_Ok what input chunks out s lane s' :
  (0 <= chunks)%Z -> read_checked L what input chunks out s = (Ok lane, s') -> lane_ok chunks lane.
Proof.
  intros Hc. destruct out as [[[h|] lens] n]; [|done]. unfold read_checked.
  destruct (Z.eqb_spec n chunks) as [->|]; [|done]. simpl. intros H. apply bind_Ok_inv in H as (blob & s1 & _ & H).
  destruct (cut_checked blob lens 0 (Z.to_nat chunks)) as [[c|]|cs] eqn:E; [done..|]. injection H as <- _.
  apply cut_checked_inr in E as (_ & Hne & Hl & _). split; [lia|done].
Qed.

Lemma library_lane_Ok r chunks ctx comp s lane s' :
  (0 <= chunks)%Z -> library_lane L r chunks ctx comp s = (Ok lane, s') -> lane_ok chunks lane.
Proof.
  intros Hc H. unfold library_lane, with_strings, with_handle in H.
  repeat match goal with
  | H : bind _ _ _ = (Ok _, _) |- _ => apply bind_Ok_inv in H as (? & ? & _ & H)
  | H : deferring _ _ _ = (Ok _, _) |- _ => apply deferring_Ok in H as (? & H & _)
  end. by eapply read_checked_Ok.
Qed.

Lemma run_sequential_Ok (P : list bytes -> Prop) fuse comparators s lanes s' :
  (forall comp s lane s', fuse comp s = (Ok lane, s') -> P lane) ->
  run_sequential (V := V) (LS := LS) fuse comparators s = (Ok lanes, s') ->
  length lanes = length comparators /\ Forall P lanes.
Proof.
  intros HP. revert s lanes. induction comparators as [|comp comps IH]; intros s lanes H; simpl in H.
  { injection H as <- _. split; [done|constructor]. }
  apply bind_Ok_inv in H as (lane & s1 & Hl & H). apply bind_Ok_inv in H as (rest & s2 & Hr & H). injection H as <- ->.
  apply wrap_err_Ok_inv in Hl. destruct (IH _ _ Hr) as [? ?]. simpl. split; [lia|]. constructor; eauto.
Qed.

Lemma run_sequential_ext fuse1 fuse2 comparators s :
  (forall comp s, fuse1 comp s = fuse2 comp s) ->
  run_sequential (V := V) (LS := LS) fuse1 comparators s = run_sequential fuse2 comparators s.
Proof.
  intros H. revert s. induction comparators as [|comp comps IH]; intros s; [done|]. simpl. unfold bind, wrap_err. rewrite H.
  destruct (fuse2 comp s) as [[lane|e|w] s1]; [|done..]. by rewrite IH.
Qed.

(** The fusion of a valid request, its chunk count checked by the bridge. *)
Definition checked_lane (r : CiphertextOnlyRequest) (chunks : Z) (ctx : handle) (comp : UnionComparator) : CM (list bytes) :=
  if (256 <? chunks)%Z then throw (Errorf [T "encrypted payload has "; T (fmt_int chunks); T " chunks; maximum is 256"])
  else library_lane L r chunks ctx comp.

Lemma Score_valid params r chunks s :
  Validate r = Some None -> well_formed r chunks ->
  Score L params r s =
    with_handle KContext (createContractContext L params) (fun ctx =>
      run_sequential (checked_lane r chunks ctx) (buildComparators (r_Comparators r))) s.
Proof.
  intros Hv W. unfold Score, buildEncryptedInputFuseRequest. rewrite Hv. cbn [fmap option_fmap option_map of_sum].
  unfold bind at 1. cbn [ret]. pose proof (wf_comparators _ _ W) as Hc.
  unfold ChunkedUnionScoreEncryptedInputsCKKS, ChunkedUnionScoreEncryptedInputsCKKSWithConcurrency, union_score.
  destruct (r_Comparators r) as [|c cs] eqn:Ec; [done|].
  assert (clampUnionConcurrency 1 (buildComparators (c :: cs)) = 1%Z) as ->.
  { unfold clampUnionConcurrency. cbn [buildComparators fmap list_fmap length]. simpl. lia. }
  cbn [buildComparators fmap list_fmap is_empty fail_if Z.ltb]. unfold bind at 1. cbn [ret].
  apply with_handle_ext. intros ctx s1. unfold bind at 1. cbn [ret].
  unfold runUnionComparatorsWith. cbn [Z.eqb Pos.eqb]. apply run_sequential_ext. intros comp s2.
  change (1 <? 1)%Z with false. rewrite (valid_lane r chunks ctx comp s2 W). unfold checked_lane. by destruct (256 <? chunks)%Z.
Qed.

Lemma Score_spec params r :
  batch_ok params = true -> is_Some (next_pow2_int (ProfileDimension r)) -> Validate r = Some None ->
  spec [] [] (Score L params r) (fun _ => []).
Proof.
  intros Hb Hp Hv. unfold Score, buildEncryptedInputFuseRequest. rewrite Hv. cbn [fmap option_fmap option_map of_sum].
  change (spec [] [] (ChunkedUnionScoreEncryptedInputsCKKS L params (fuse_request r)
    (buildComparators (r_Comparators r)) serial) (fun _ => [])).
  apply union_score_owns; [done|by apply chunkedEncryptedInputUnion_ok|constructor].
Qed.

Lemma Validate_total r : is_Some (next_pow2_int (ProfileDimension r)) -> is_Some (Validate r).
Proof.
  intros [power Hp]. unfold Validate. assert (nextPowerOfTwo (ProfileDimension r) = Some power) as -> by exact Hp.
  repeat (case_match; [by eexists|]). by eexists.
Qed.

(** C21. Ranking encrypted inputs: when the doubling of the profile dimension
    ends, a request is refused before anything is allocated, or it is valid and
    every check of the bridge but the one on the number of chunks passes too: up
    to 256 chunks [Score] is one call of the library per comparator over one
    context, with exactly the ciphertexts of the request.  It never panics,
    leaves no object behind, and a result has a lane per comparator, each with
    exactly the expected number of non-empty chunks. *)
Theorem Score_outcome params r (s : CS) :
  batch_ok params = true -> is_Some (next_pow2_int (ProfileDimension r)) -> (r_PayloadSlotCount r < 2 ^ 63)%Z ->
  exists verdict, Validate r = Some verdict /\
  match verdict with
  | Some e => Score L params r s = (Err e, s)
  | None => exists chunks (o : Outcome (list (list bytes))) (s' : CS),
      well_formed r chunks /\ Score L params r s = (o, s') /\ kinds s' = kinds s /\
      ((chunks <= 256)%Z -> Score L params r s = library_lanes L params r chunks s) /\
      match o with
      | Ok lanes => (chunks <= 256)%Z /\ length lanes = length (r_Comparators r) /\ Forall (lane_ok chunks) lanes
      | Err _ => True
      | Panic _ => False
      end
  end.
Proof.
  intros Hb Hp Hs. destruct (Validate_total r Hp) as [verdict Hv]. exists verdict. split; [done|].
  destruct verdict as [e|]; [unfold Score, buildEncryptedInputFuseRequest; by rewrite Hv|].
  destruct (Validate_well_formed r Hs Hv) as [chunks W]. pose proof (Score_valid params r chunks s Hv W) as Hsv.
  pose proof (wf_positive _ _ W) as Hpos.
  pose proof (Score_spec params r Hb Hp Hv s (kinds s)) as Hsp. rewrite holds_nil in Hsp.
  specialize (Hsp eq_refl ltac:(by intros h k ?%elem_of_nil)).
  destruct (Score L params r s) as [o s'] eqn:E. exists chunks, o, s'. split; [done|]. split; [done|].
  split; [destruct o; [by apply holds_nil in Hsp|done|done]|]. split.
  - intros Hle. rewrite Hsv. apply with_handle_ext. intros ctx s1. apply run_sequential_ext. intros comp s2.
    unfold checked_lane. destruct (Z.ltb_spec 256 chunks); [lia|done].
  - destruct o as [lanes|e|w]; [|done|done]. symmetry in Hsv. unfold with_handle in Hsv.
    apply bind_Ok_inv in Hsv as (ctx & s1 & _ & H). apply deferring_Ok in H as (s2 & H & _).
    apply (run_sequential_Ok (fun lane => (chunks <= 256)%Z /\ lane_ok chunks lane)) in H as [Hl Hf].
    + unfold buildComparators in Hl. rewrite length_fmap in Hl. apply Forall_and in Hf as [Hc Hf].
      split_and!; [|done|done]. pose proof (wf_comparators _ _ W). destruct Hc; [by destruct (r_Comparators r)|done].
    + intros comp s3 lane s4 Hlane. unfold checked_lane in Hlane. destruct (Z.ltb_spec 256 chunks); [done|].
      split; [done|]. eapply library_lane_Ok; [|exact Hlane]. lia.
Qed.
End Lanes.

(** ** The payload examples *)

(** The two packages differ in their profile and in the name of their phase. *)
Record PayloadExample := { Profile : BFVBlindProfile; PhaseBFVPayloadFuse : string }.
Definition blind : PayloadExample := {| Profile := BFVRing32KBlindV1; PhaseBFVPayloadFuse := "bfv.payload_fuse.ring32k" |}.
Definition light : PayloadExample := {| Profile := BFVLightBlindV1; PhaseBFVPayloadFuse := "bfv.payload_fuse.light" |}.

Section Payloads.
Context (x : PayloadExample).

Definition QuantizeProfile (out_of_range : float64 -> Z) (values : list float64) : list Z :=
  QuantizeSigned out_of_range values (QuantizationScale (Profile x)).
Definition PayloadBytesToSlots (payload : bytes) : option (list Z) :=
  Calib.PayloadBytesToSlots payload (bp_PackageBytes (Profile x)).
Definition CommitArtifact (now : Z) (sessionID role : string) (payload : bytes) (parents : list DAGNode) (signer : option Signer)
    : Outcome DAGNode :=
  Commit now sessionID (PhaseBFVPayloadFuse x) role payload parents signer.

(** A payload of the package size survives, and a quantized profile stays in the
    scale, which is far inside the plaintext modulus. *)
Lemma package_survives payload :
  (Z.of_nat (length payload) <= bp_PackageBytes (Profile x))%Z ->
  exists slots, PayloadBytesToSlots payload = Some slots /\ Z.of_nat (length slots) = bp_PackageBytes (Profile x) /\
    SlotsToPayloadBytes slots (Z.of_nat (length payload)) = inr payload.
Proof. apply payload_slots_roundtrip. Qed.
End Payloads.

Lemma quantized_fits x out_of_range values q :
  x ∈ [blind; light] -> q ∈ QuantizeProfile x out_of_range values -> (2 * Z.abs q < bp_PlaintextModulus (Profile x))%Z.
Proof.
  rewrite !elem_of_cons, elem_of_nil. intros [->|[->|[]]] [Hl Hr]%QuantizeSigned_bounds; cbn in *; lia.
Qed.

(** ** Witnesses *)

Module FusionWitnesses.
Import Scripted.
Local Open Scope string_scope.

Definition ct : bytes := [Byte.x2a].
Definition lane (id : string) (bound : float64) (degree : Z) : Comparator := {|
  c_ID := id; c_Kind := "logistic"; c_Schedule := ""; c_Gain := of_Z 3; c_Bound := bound; c_InputScale := f1; c_Degree := degree |}.
(** Two candidates with [chunks] payload chunks of one slot each. *)
Definition request (chunks : nat) (comparators : list Comparator) : CiphertextOnlyRequest := {|
  InitiatorProfileCiphertext := ct; r_CandidateProfileCiphertexts := [ct; ct]; r_CandidateDistanceCiphertexts := [ct; ct];
  r_CandidatePayloadCiphertexts := [replicate chunks ct; replicate chunks ct]; CandidateScoreOffsets := [];
  r_EvaluationMaterial := {| em_EvalMultFinal := ct; em_EvalSumFinal := ct |};
  ProfileDimension := 1; r_PayloadSlotCount := Z.of_nat chunks; r_Alpha := f1; r_Beta := f1; r_Gamma := f1;
  r_Comparators := comparators |}.
Definition two_lanes := request 2 [lane "wide" (of_Z 6) 13; lane "narrow" (of_Z 3) 13].

Lemma Score_outcome_witness :
  (exists verdict, Validate two_lanes = Some verdict /\
   match verdict with
   | Some e => Score toy zero_params two_lanes (start []) = (Err e, start [])
   | None => exists chunks (o : Outcome (list (list bytes))) s',
       well_formed two_lanes chunks /\ Score toy zero_params two_lanes (start []) = (o, s') /\ kinds s' = kinds (start []) /\
       ((chunks <= 256)%Z -> Score toy zero_params two_lanes (start []) = library_lanes toy zero_params two_lanes chunks (start [])) /\
       match o with
       | Ok lanes => (chunks <= 256)%Z /\ length lanes = length (r_Comparators two_lanes) /\ Forall (lane_ok chunks) lanes
       | Err _ => True
       | Panic _ => False
       end
   end) /\
  Validate two_lanes = Some None /\
  (Score toy zero_params two_lanes (start [])).1 = Ok [[[Byte.x01]; [Byte.x02]]; [[Byte.x01]; [Byte.x02]]].
Proof.
  split; [|split; vm_compute; reflexivity].
  apply (Score_outcome toy zero_params two_lanes (start [])); [reflexivity|by exists 1%Z|vm_compute; reflexivity].
Defined.

(** A bound that is not a number is not refused, nor a degree that is zero for
    the library, where it is a 32-bit [int]. *)
Example odd_comparators_valid :
  Validate (request 2 [lane "nan" SpecFloat.S754_nan 13; lane "high" (of_Z 6) (2 ^ 32)]) = Some None /\
  (fun comp => a_degree (fuse_args 0 f0 0 (lane_request two_lanes comp) [] ([], []) ([], []))) <$>
    buildComparators [lane "high" (of_Z 6) (2 ^ 32)] = [0%Z].
Proof. split; vm_compute; reflexivity. Qed.

(** 257 chunks are valid; they are refused once the context exists. *)
Example too_many_chunks :
  Validate (request 257 [lane "wide" (of_Z 6) 13]) = Some None /\
  (exists e, (Score toy zero_params (request 257 [lane "wide" (of_Z 6) 13]) (start [])).1 = Err e) /\
  (Score toy zero_params (request 257 [lane "wide" (of_Z 6) 13]) (start [false])).1 <>
  (Score toy zero_params (request 257 [lane "wide" (of_Z 6) 13]) (start [])).1.
Proof. split; [vm_compute; reflexivity|]. split; [eexists; vm_compute; reflexivity|vm_compute; discriminate]. Qed.

(** A dimension beyond the largest power of two of an [int] is validated for ever. *)
Example endless_validation :
  Validate {| InitiatorProfileCiphertext := ct; r_CandidateProfileCiphertexts := [ct]; r_CandidateDistanceCiphertexts := [ct];
    r_CandidatePayloadCiphertexts := [[ct]]; CandidateScoreOffsets := [];
    r_EvaluationMaterial := {| em_EvalMultFinal := ct; em_EvalSumFinal := ct |};
    ProfileDimension := 2 ^ 62 + 1; r_PayloadSlotCount := 1; r_Alpha := f1; r_Beta := f1; r_Gamma := f1;
    r_Comparators := [lane "wide" (of_Z 6) 13] |} = None.
Proof. vm_compute. reflexivity. Qed.

(** A payload longer than the package is cut without an error. *)
Example long_payload_cut : PayloadBytesToSlots light (replicate 17 Byte.x01) = PayloadBytesToSlots light (replicate 16 Byte.x01).
Proof. reflexivity. Qed.

Lemma package_survives_witness :
  exists slots, PayloadBytesToSlots light ct = Some slots /\ Z.of_nat (length slots) = bp_PackageBytes (Profile light) /\
    SlotsToPayloadBytes slots (Z.of_nat (length ct)) = inr ct.
Proof. apply (package_survives light ct). vm_compute. discriminate. Defined.
End FusionWitnesses.
