(* ===== verification/AuctionRun.v ===== *)
(** * An auction from the request to the settlement

    The layers together: the service starts an auction from an admin request, the
    runner takes a round of key shares, of bids and of partial decryptions, each
    in any order, the helper runs the argmax and the fusion on the bridge, and the
    session ends with the transcript. *)
From Stdlib Require Import ZArith NArith Lia String Ascii Strings.Byte.
From stdpp Require Import base gmap list strings pretty.
From S2P Require Import Prelude Bytes Encoding.
From S2P Require Import GoFloat GoFmt.
From S2P Require Import CGo Bridge BridgeEval BridgeFuse Helper HelperClient HelperSpec.
From S2P Require Import Sign.
From S2P Require Import Lineage.
From S2P Require Import Context.
From S2P Require Import Pipeline.
From S2P Require Import Runner.
From S2P Require Import RunnerSpec.
From S2P Require Import RunnerFrame.
From S2P Require Import Defaults.
From S2P Require Import Hub.
From S2P Require Import Stores.
From S2P Require Import Service.
From S2P Require Import Apps.
From S2P Require Import Triggers.
From S2P Require Import Auction.

Section Run.
Context {S : Type} `{Store S} {V LS : Type} (L : CLib V LS) (OpenFHEVersion : string) {Wire : Type} `{C : HelperCodec Wire} `{HL : !HelperLaws C}.
Context `{J : AppCodec} `{F : FloatConversion} (hex_error : string -> GoError) (range : gmap string bytes -> list (string * bytes)).
Context (Hjson : forall ks raw, no_panic (Unmarshal_strings ks raw)) (Hmasks : forall ks ms, no_panic (Marshal_masks ks ms)).
Context (json_Marshal : WSMessage -> option bytes) (format_time : Z -> string) (sharpening : EvalPolyParams).
Notation AS := (S * Helper V LS)%type.
Notation phases := (auction_phases (S := S) L OpenFHEVersion hex_error range (Some sharpening)).
Notation runner := (pipeline_runner phases).
Notation keygen := (PhaseKeygen L OpenFHEVersion true).
Notation decrypting := (PhaseDecrypt L OpenFHEVersion hex_error range true).
Implicit Types (st : RunnerState AS) (c : SessionContext) (ps : list string) (msgs : list (string * bytes)).

(** ** What a round leaves alone *)

Definition same_but (keys : list string) c c' : Prop :=
  ctxSessionID c' = ctxSessionID c /\ forall k, k ∉ keys -> ctx_Get k c' = ctx_Get k c.
Lemma same_but_set keys k x c c' : k ∈ keys -> same_but keys c c' -> same_but keys c (ctx_Set k x c').
Proof. intros Hk [Hid Hget]. split; [done|]. intros k' Hk'. rewrite key_set by (intros ->; done). by apply Hget. Qed.
Lemma same_but_round bucket msgs keys c : bucket ∈ keys -> same_but keys c (accumulate_all bucket msgs c).
Proof.
  intros Hb. split; [|intros k Hk; apply accumulate_all_key; by intros ->].
  generalize c. induction msgs as [|m msgs IH]; intros c0; [done|]. cbn [accumulate_all foldl]. apply (IH (AccumulateMessage bucket m.1 m.2 c0)).
Qed.
Lemma same_but_TryGet {A} (assert_as : TypeAssert A) keys c c' k : same_but keys c c' -> bool_decide (k ∈ keys) = false ->
  TryGet assert_as k c' = TryGet assert_as k c.
Proof. intros [_ Hget] Hk%bool_decide_eq_false. unfold TryGet. by rewrite Hget. Qed.
Lemma same_but_empty keys c c' bucket : same_but keys c c' -> bool_decide (bucket ∈ keys) = false -> AccumulatedMessages bucket c = ∅ ->
  AccumulatedMessages bucket c' = ∅.
Proof. intros [_ Hget] Hk%bool_decide_eq_false. unfold AccumulatedMessages. by rewrite Hget. Qed.
Lemma same_but_contract keys c c' : same_but keys c c' -> bool_decide (CtxAuctionCryptoContract ∈ keys) = false ->
  readContractParams c' = readContractParams c.
Proof. intros [_ Hget] Hk%bool_decide_eq_false. unfold readContractParams, contract_of. by rewrite Hget. Qed.

(** ** The three rounds *)

Definition full_round ps msgs : Prop := NoDup msgs.*1 /\ length msgs = length ps.
(** The messages of a round, by sender. *)
Notation by_sender msgs := (insert_all msgs (∅ : gmap string bytes)).

Definition share_keys : list string := [bucketKeygenShares; CtxAuctionSecretShares].
Lemma shares_round sid st c ps shares : sessions st !! sid = Some (at_phase keygen true c) ->
  TryGet asStrings CtxAuctionParticipants c = Some ps -> ps <> [] -> AccumulatedMessages bucketKeygenShares c = ∅ ->
  pre_shared CtxAuctionCollectivePublicKey CtxAuctionEvalKeys c = true -> full_round ps shares ->
  exists c1, sessions (feed runner sid "auction.keygen.share" shares st) = <[sid := at_phase PhaseScalarBid true c1]> (sessions st) /\
    rs_env (feed runner sid "auction.keygen.share" shares st) = rs_env st /\ same_but share_keys c c1.
Proof.
  intros Ht Hps Hne Hempty Hkeys [Hnd Hlen].
  destruct (collect_round runner keygen "auction.keygen.share" CtxAuctionParticipants bucketKeygenShares sid st true c ps shares)
    as (st' & c' & from & payload & -> & Hs & He & Hps' & [Hctx Hmsgs _] & Hsize); try done.
  rewrite (collect_outcome runner keygen "auction.keygen.share" CtxAuctionParticipants bucketKeygenShares sid from payload st' true c' ps)
    by (done || (rewrite Hs; apply lookup_insert_eq)).
  rewrite Hmsgs, Hctx, Hsize, Nat.ltb_irrefl.
  assert (Hpre : pre_shared CtxAuctionCollectivePublicKey CtxAuctionEvalKeys (accumulate_all bucketKeygenShares shares c) = true).
  { rewrite <- Hkeys. unfold pre_shared, TryGet. by rewrite !accumulate_all_key by done. }
  unfold advance. change (hopCap runner) with 7%nat. cbn [advance_loop]. rewrite bind_at.
  rewrite (step_to runner eq_refl keygen PhaseScalarBid) by done.
  cbn [PhaseKeygen inline_phase Exit]. rewrite keygen_Exit_pre_shared by done.
  cbn [fst snd PhaseScalarBid inline_phase Enter no_hook ret ConsumedMessageTypes length Nat.ltb Nat.leb sessions rs_env set_env set_sessions].
  eexists. rewrite Hs, He, insert_insert_eq. split; [reflexivity|]. split; [done|].
  apply same_but_set; [by right; left|]. apply same_but_round. by left.
Qed.

Definition bid_keys : list string := [bucketScalarBids; CtxAuctionBids; CtxAuctionCipherWinnerBid].
Lemma bids_round sid st c ps bids params evalKeys cts masks body s s' : sessions st !! sid = Some (at_phase PhaseScalarBid true c) ->
  TryGet asStrings CtxAuctionParticipants c = Some ps -> ps <> [] -> AccumulatedMessages bucketScalarBids c = ∅ -> full_round ps bids ->
  readContractParams c = Ok params -> params_ok params = true -> poly_json sharpening = true ->
  TryGet asBytes CtxAuctionEvalKeys c = Some evalKeys -> evalKeys <> [] ->
  decode_all (fun _ er => er) (decodeBidCiphertext hex_error) (sorted_messages (by_sender bids)) = Ok cts ->
  helper_of (rs_env st) = up s ->
  EvalArgmaxCKKSForContract L (toContractParams params) evalKeys cts (Coefficients sharpening) s = (Ok masks, s') ->
  Marshal_masks (sorted_keys (by_sender bids)) (hex_encode <$> masks) = Ok body ->
  exists c1, sessions (feed runner sid "auction.bid" bids st) = <[sid := at_phase decrypting true c1]> (sessions st) /\
    helper_of (rs_env (feed runner sid "auction.bid" bids st)) = up s' /\ same_but bid_keys c c1.
Proof.
  intros Ht Hps Hne Hempty [Hnd Hlen] Hread Hok Hpoly Hek Hek_ne Hcts Hup Hargmax Hbody.
  destruct (collect_round runner PhaseScalarBid "auction.bid" CtxAuctionParticipants bucketScalarBids sid st true c ps bids)
    as (st' & c' & from & payload & -> & Hs & He & Hps' & [Hctx Hmsgs Hkeep] & Hsize); try done.
  destruct (last_bid L OpenFHEVersion hex_error range Hjson Hmasks sharpening sid from payload st' true c' ps)
    as (t' & h & Hs' & He' & Hcase); [rewrite Hs; apply lookup_insert_eq|done|by rewrite Hmsgs, Hsize|].
  rewrite Hmsgs, Hctx in Hcase.
  set (c1 := ctx_Set CtxAuctionBids (AMapBytes (by_sender bids)) (accumulate_all bucketScalarBids bids c)) in Hcase.
  assert (Hsame : same_but bid_keys c c1) by (apply same_but_set; [by right; left|]; apply same_but_round; by left).
  assert (Hargs : argmax_args readContractParams (decodeBidCiphertext hex_error) bucketScalarBids CtxAuctionEvalKeys c1 = Some (params, evalKeys, cts)).
  { unfold argmax_args. rewrite (same_but_contract bid_keys c c1 Hsame eq_refl), Hread, (same_but_TryGet asBytes bid_keys c c1 CtxAuctionEvalKeys Hsame eq_refl), Hek.
    assert (AccumulatedMessages bucketScalarBids c1 = by_sender bids) as ->.
    { unfold c1, AccumulatedMessages at 1. rewrite key_set by done. fold (AccumulatedMessages bucketScalarBids (accumulate_all bucketScalarBids bids c)).
      by rewrite accumulate_all_messages, Hempty. }
    rewrite Hcts. by destruct evalKeys. }
  rewrite Hargs in Hcase. pose proof (argmax_mirrors L OpenFHEVersion params evalKeys cts sharpening Hok Hpoly s) as Hm.
  rewrite Hargmax in Hm. rewrite He, Hup, Hm, Hbody in Hcase. destruct Hcase as (_ & -> & ->).
  eexists. rewrite Hs', Hs, insert_insert_eq. split; [reflexivity|]. split; [by rewrite He'|].
  apply same_but_set; [by do 2 right; left|done].
Qed.

Lemma partials_round sid st c ps partials params cts values s s' : sessions st !! sid = Some (at_phase decrypting true c) ->
  TryGet asStrings CtxAuctionParticipants c = Some ps -> ps <> [] -> AccumulatedMessages bucketDecryptPartials c = ∅ -> full_round ps partials ->
  readContractParams c = Ok params -> params_ok params = true ->
  decode_all (fun _ er => er) (decodePartial hex_error) (range (by_sender partials)) = Ok cts ->
  helper_of (rs_env st) = up s ->
  FuseCKKSPartialsForContract L (toContractParams params) cts 1 s = (Ok values, s') -> forallb json_float values = true ->
  sessions (feed runner sid "auction.decrypt.partial" partials st)
    = <[sid := settled values (by_sender partials) (accumulate_all bucketDecryptPartials partials c)]> (sessions st) /\
  helper_of (rs_env (feed runner sid "auction.decrypt.partial" partials st)) = up s'.
Proof.
  intros Ht Hps Hne Hempty [Hnd Hlen] Hread Hok Hcts Hup Hfuse Hfinite.
  destruct (collect_round runner decrypting "auction.decrypt.partial" CtxAuctionParticipants bucketDecryptPartials sid st true c ps partials)
    as (st' & c' & from & payload & -> & Hs & He & Hps' & [Hctx Hmsgs Hkeep] & Hsize); try done.
  pose proof (auction_price L OpenFHEVersion hex_error range Hjson sharpening sid from payload st' true c' ps params cts s values s') as Hprice.
  cbv zeta in Hprice. rewrite Hmsgs, Hctx, Hsize, Hs, He in Hprice.
  destruct Hprice as (_ & Hs' & Hh); try done; [apply lookup_insert_eq| |by rewrite Hs', insert_insert_eq].
  rewrite <- Hread. apply (same_but_contract [bucketDecryptPartials]); [|done]. apply same_but_round. by left.
Qed.

(** ** The whole session *)

(** What the request must carry: the bidders, a public key and evaluation keys,
    and no message of a round. *)
Record usable ps (publicKey evalKeys : bytes) (canonical : gmap string Any) : Prop := {
  usable_bidders : canonical !! CtxAuctionParticipants = Some (AStrings ps);
  usable_publicKey : canonical !! CtxAuctionCollectivePublicKey = Some (ABytes publicKey);
  usable_evalKeys : canonical !! CtxAuctionEvalKeys = Some (ABytes evalKeys);
  usable_not_empty : publicKey <> [] /\ evalKeys <> [];
  usable_fresh bucket : bucket ∈ [bucketKeygenShares; bucketScalarBids; bucketDecryptPartials] -> canonical !! bucket = None
}.
Lemma usable_pre_shared ps publicKey evalKeys canonical sid : usable ps publicKey evalKeys canonical ->
  pre_shared CtxAuctionCollectivePublicKey CtxAuctionEvalKeys (seeded sid canonical) = true.
Proof.
  intros [_ Hpk Hek [Hp He] _]. unfold pre_shared, TryGet, ctx_Get, seeded, with_values. cbn [values]. rewrite Hpk, Hek. cbn.
  by destruct publicKey, evalKeys.
Qed.
Lemma usable_bucket ps publicKey evalKeys canonical sid bucket : usable ps publicKey evalKeys canonical ->
  bucket ∈ [bucketKeygenShares; bucketScalarBids; bucketDecryptPartials] -> AccumulatedMessages bucket (seeded sid canonical) = ∅.
Proof. intros Hu Hb. unfold AccumulatedMessages, ctx_Get, seeded, with_values. cbn [values]. by rewrite (usable_fresh _ _ _ _ Hu bucket Hb). Qed.
Lemma same_but_trans keys1 keys2 c1 c2 c3 : same_but keys1 c1 c2 -> same_but keys2 c2 c3 -> same_but (keys1 ++ keys2) c1 c3.
Proof.
  intros [Hid1 Hg1] [Hid2 Hg2]. split; [congruence|]. intros k Hk. rewrite Hg2, Hg1; [done|..]; intros Hin; apply Hk, elem_of_app; auto.
Qed.

(** C13. An auction runs from the admin request to the settlement.  Given a usable
    request for a new session, and a round of key shares, of bids and of partial
    decryptions in any orders, the service starts it, the argmax of the bridge
    scores the bids, the fusion of the bridge gives the price, the session ends with
    the transcript over the session, the result and the settler, and no other
    session changes.  It needs the helper to be up, the contract to be readable and
    carried by encoding/json, and the bids and partials to decode. *)
Theorem auction_runs depth ring_dim sid ps attrs now svc canonical publicKey evalKeys params shares bids partials
    cts masks body parts values s0 s1 s2 :
  svc_runner svc = runner -> ps <> [] -> sid <> EmptyString -> sessions (svc_state svc) !! sid = None ->
  decodeHexAttrs hex_error [CtxAuctionCollectivePublicKey; CtxAuctionEvalKeys] (auction_attrs depth ring_dim ps attrs) = Ok canonical ->
  usable ps publicKey evalKeys canonical -> readContractParams (seeded sid canonical) = Ok params ->
  params_ok params = true -> poly_json sharpening = true -> full_round ps shares -> full_round ps bids -> full_round ps partials ->
  decode_all (fun _ er => er) (decodeBidCiphertext hex_error) (sorted_messages (by_sender bids)) = Ok cts ->
  decode_all (fun _ er => er) (decodePartial hex_error) (range (by_sender partials)) = Ok parts ->
  helper_of (rs_env (svc_state svc)) = up s0 ->
  EvalArgmaxCKKSForContract L (toContractParams params) evalKeys cts (Coefficients sharpening) s0 = (Ok masks, s1) ->
  Marshal_masks (sorted_keys (by_sender bids)) (hex_encode <$> masks) = Ok body ->
  FuseCKKSPartialsForContract L (toContractParams params) parts 1 s1 = (Ok values, s2) -> forallb json_float values = true ->
  let started := auction_Start json_Marshal format_time hex_error depth ring_dim sid ps attrs now svc in
  let final := feed runner sid "auction.decrypt.partial" partials
    (feed runner sid "auction.bid" bids (feed runner sid "auction.keygen.share" shares (svc_state started.2))) in
  started.1 = Ok tt /\ helper_of (rs_env final) = up s2 /\
  exists t, sessions final = <[sid := t]> (sessions (svc_state svc)) /\ tr_state t = StateNone /\ tr_current t = None /\
    ctx_Get CtxAuctionSettlement (tr_ctx t) = Some (AnyMap (transcript_of "winner" "auctioneer" sid (price_of values (by_sender partials)))).
Proof.
  intros Hr Hne Hsid Hnew Hd Hu Hread Hok Hpoly Hshares Hbids Hpartials Hcts Hparts Hup Hargmax Hbody Hfuse Hfinite started final.
  pose proof (start_session_outcome json_Marshal format_time PhaseInvitation (PhaseKeygen L OpenFHEVersion true) sid ps canonical now svc) as Hstart.
  rewrite Hr in Hstart. specialize (Hstart (auction_opens L OpenFHEVersion hex_error range (Some sharpening))). cbv zeta in Hstart.
  assert (Heq : started = start_session json_Marshal format_time sid ps canonical (ExitState (PhaseInvitation (S := S) (V := V) (LS := LS))) now svc).
  { unfold started, auction_Start. fold (auction_attrs depth ring_dim ps attrs). unfold lift_outcome. unfold bind at 1. by rewrite Hd. }
  rewrite <- Heq in Hstart. destruct Hstart as (_ & Henv & Hstart).
  rewrite bool_decide_false in Hstart by done. destruct (String.eqb_spec sid EmptyString) as [He|_]; [done|].
  rewrite Hnew, bool_decide_false in Hstart by (by intros []). cbn [orb] in Hstart. destruct Hstart as [Hres Hs].
  assert (Hps0 : TryGet asStrings CtxAuctionParticipants (seeded sid canonical) = Some ps).
  { unfold TryGet, ctx_Get, seeded, with_values. cbn [Context.values]. by rewrite (usable_bidders _ _ _ _ Hu). }
  destruct (shares_round sid (svc_state started.2) (seeded sid canonical) ps shares) as (c1 & Hs1 & He1 & Hc1); try done.
  { rewrite Hs. apply lookup_insert_eq. } { apply (usable_bucket _ _ _ _ _ _ Hu). by left. } { by eapply usable_pre_shared. }
  destruct (bids_round sid _ c1 ps bids params evalKeys cts masks body s0 s1 ltac:(rewrite Hs1; apply lookup_insert_eq))
    as (c2 & Hs2 & He2 & Hc2); try done.
  { by rewrite (same_but_TryGet _ _ _ _ _ Hc1). }
  { apply (same_but_empty _ _ _ _ Hc1); [done|]. apply (usable_bucket _ _ _ _ _ _ Hu). right. by left. }
  { by rewrite (same_but_contract _ _ _ Hc1). }
  { rewrite (same_but_TryGet _ _ _ _ _ Hc1) by done. unfold TryGet, ctx_Get, seeded, with_values. cbn [Context.values].
    by rewrite (usable_evalKeys _ _ _ _ Hu). }
  { by apply Hu. } { by rewrite He1, Henv. }
  pose proof (same_but_trans _ _ _ _ _ Hc1 Hc2) as Hc.
  destruct (partials_round sid _ c2 ps partials params parts values s1 s2 ltac:(rewrite Hs2; apply lookup_insert_eq)) as [Hs3 He3]; try done.
  { by rewrite (same_but_TryGet _ _ _ _ _ Hc). }
  { apply (same_but_empty _ _ _ _ Hc); [done|]. apply (usable_bucket _ _ _ _ _ _ Hu). do 2 right. by left. }
  { by rewrite (same_but_contract _ _ _ Hc). }
  split; [done|]. split; [done|]. eexists. split; [unfold final; rewrite Hs3, Hs2, Hs1, Hs, !insert_insert_eq; reflexivity|].
  split; [done|]. split; [done|]. unfold settled, ended. cbn [tr_ctx].
  assert (ctxSessionID (accumulate_all bucketDecryptPartials partials c2) = sid) as ->.
  { rewrite (proj1 (same_but_round bucketDecryptPartials partials [bucketDecryptPartials] c2 ltac:(by left))). by rewrite (proj1 Hc). }
  apply lookup_insert_eq.
Qed.
End Run.

Module RunWitnesses.
Import InMemory Scripted AppToys TriggerWitnesses.
Local Open Scope string_scope.

Notation toy_service := (service_of toy_runner empty_state []).
Notation sent := (list (string * bytes)).
(** The rounds come in different orders. *)
Definition toy_shares : sent := [("bob", []); ("alice", [])].
Definition toy_bids : sent := [("bob", of_string "0a"); ("alice", of_string "0b")].
Definition toy_partials : sent := [("alice", of_string "0c"); ("bob", of_string "0d")].
Definition toy_canonical : gmap string Any :=
  match decodeHexAttrs no_hex [CtxAuctionCollectivePublicKey; CtxAuctionEvalKeys] (auction_attrs 10 2048 ["alice"; "bob"] auction_request) with
  | Ok m => m | _ => ∅ end.
Definition toy_params : HelperParams := contract_params 2048 10 50.
Definition toy_cts : list bytes := [[Byte.x0b]; [Byte.x0a]].
Definition toy_parts : list bytes := match decode_all (fun _ er => er) (decodePartial no_hex) (map_to_list (insert_all toy_partials ∅)) with Ok l => l | _ => [] end.
Definition argmaxed := EvalArgmaxCKKSForContract toy (toContractParams toy_params) [Byte.x0b; Byte.x0c] toy_cts (Coefficients sharpening) (start []).
Definition run_fused := FuseCKKSPartialsForContract toy (toContractParams toy_params) toy_parts 1 argmaxed.2.

Lemma toy_usable : usable ["alice"; "bob"] [Byte.x0a] [Byte.x0b; Byte.x0c] toy_canonical.
Proof.
  split; [vm_compute; reflexivity..| |].
  - by split.
  - intros bucket. rewrite !elem_of_cons. intros [->|[->|[->|Hb]]]; [vm_compute; reflexivity..|by apply elem_of_nil in Hb].
Qed.
Lemma full l : bool_decide (NoDup l.*1) = true -> length l = 2%nat -> full_round ["alice"; "bob"] l.
Proof. intros Hnd%bool_decide_eq_true Hl. by split. Qed.

Lemma auction_runs_witness :
  let started := auction_Start wire clock no_hex 10 2048 "s" ["alice"; "bob"] auction_request 0 toy_service in
  let final := feed toy_runner "s" "auction.decrypt.partial" toy_partials
    (feed toy_runner "s" "auction.bid" toy_bids (feed toy_runner "s" "auction.keygen.share" toy_shares (svc_state started.2))) in
  exists t, sessions final = <["s" := t]> ∅ /\ tr_current t = None /\
    ctx_Get CtxAuctionSettlement (tr_ctx t) = Some (AnyMap (transcript_of "winner" "auctioneer" "s" (price_of [f1] (insert_all toy_partials ∅)))).
Proof.
  assert (Hd : decodeHexAttrs no_hex [CtxAuctionCollectivePublicKey; CtxAuctionEvalKeys] (auction_attrs 10 2048 ["alice"; "bob"] auction_request)
    = Ok toy_canonical) by (vm_compute; reflexivity).
  assert (Hread : readContractParams (seeded "s" toy_canonical) = Ok toy_params) by (vm_compute; reflexivity).
  assert (Hcts : decode_all (fun _ er => er) (decodeBidCiphertext no_hex) (sorted_messages (insert_all toy_bids ∅)) = Ok toy_cts) by (vm_compute; reflexivity).
  assert (Hparts : decode_all (fun _ er => er) (decodePartial no_hex) (map_to_list (insert_all toy_partials ∅)) = Ok toy_parts) by (vm_compute; reflexivity).
  assert (Ha : match argmaxed.1 with Ok _ => True | _ => False end) by (vm_compute; exact I).
  assert (Hf : run_fused.1 = Ok [f1]) by (vm_compute; reflexivity).
  unfold run_fused in Hf. destruct argmaxed as [oa s1] eqn:Ea. cbn [fst snd] in Ha, Hf. destruct oa as [masks|er|w]; [|destruct Ha|destruct Ha].
  destruct (FuseCKKSPartialsForContract toy (toContractParams toy_params) toy_parts 1 s1) as [ofuse s2] eqn:Ef. cbn [fst] in Hf. rewrite Hf in Ef.
  destruct (auction_runs toy "v1.5.1" no_hex map_to_list toy_json_ok toy_masks_ok wire clock sharpening 10 2048 "s" ["alice"; "bob"] auction_request 0
    toy_service toy_canonical [Byte.x0a] [Byte.x0b; Byte.x0c] toy_params toy_shares toy_bids toy_partials toy_cts masks
    _ toy_parts [f1] (start []) s1 s2 eq_refl ltac:(discriminate) ltac:(discriminate) eq_refl Hd toy_usable Hread eq_refl eq_refl
    (full toy_shares eq_refl eq_refl) (full toy_bids eq_refl eq_refl) (full toy_partials eq_refl eq_refl) Hcts Hparts eq_refl Ea eq_refl Ef eq_refl)
    as (_ & _ & t & Hs & _ & Hcur & Hset).
  exists t. split; [exact Hs|]. split; [exact Hcur|exact Hset].
Defined.
End RunWitnesses.
